(* ===== verification/_CoqProject ===== *)
-Q . S2P
Prelude.v
GoLib.v
Json.v
Strconv.v
JsonText.v
Sha256.v
Float64.v
Rounding.v
JsonStruct.v
Rfc3339.v
Domain.v
OrderStore.v
TimelineStore.v
OutboxStore.v
IdempotencyStore.v
Prog.v
Ports.v
Saga.v
SagaTraces.v
Metrics.v
OrderService.v
OrderServiceSpec.v
OutboxWorker.v
CleanupWorker.v
Concurrency.v
World.v
OrderSafety.v
ShutdownSafety.v
SagaRuns.v
SagaTurns.v
Replay.v
Workers.v
OutboxDelivery.v
OutboxSafety.v
Scenarios.v
Retry.v
BatchProcessor.v
Courier.v
CourierStore.v
CourierService.v
CourierFleet.v
CourierScenarios.v
Postgres.v
PgSchema.v
PgOrders.v
PgOutbox.v
PgIdempotency.v
PgCouriers.v
PgConcurrency.v
PgVersions.v
PgFleet.v
PgCapacity.v
PgScenarios.v
Migrator.v
MigrationScripts.v
Config.v
Health.v
LoadTest.v
LoadReport.v
FilePath.v
App.v
Process.v
Kafka.v
KafkaEvents.v
KafkaLifecycle.v
DlqReprocess.v
Witnesses.v
EdgeWitnesses.v
PgWitnesses.v
ToolWitnesses.v
