(* ===== verification/Prelude.v ===== *)
(** * OMS: verification of the order management service

    The program (Go, src/) is a gRPC service for orders and couriers.  A client
    creates an order and asks for it to be paid, canceled or refunded; the
    handler starts a saga in the background that talks to the inventory and
    payment services and moves the order through its statuses with optimistic
    versioning.  Every status change leaves a timeline event and an outbox
    message; workers publish the outbox to Kafka and clean up expired
    idempotency keys.  Failed messages go to a dead letter queue, from which a
    command line tool replays them.  Couriers have zones, slots and ratings.  A
    load generator is a client of the service.

    ** How the code is modelled

    Pure code is Rocq functions of the same names.  Integers are Z with the
    wrap-around of their width written out ([wrap64] and the like), strings and
    byte slices are byte strings, maps are [gmap]s, times are nanoseconds since
    year 1 (unbounded, as Go's 128-bit representation; conversions to Unix
    seconds wrap).  Iteration over a map and [sort.Slice] are any order the
    language allows ([GoRuntime] and its laws in [GoLib]).

    Handlers, sagas and workers are programs ([Prog]): finite trees of commands
    to repositories, services, clock and client.  One text is read three ways:
    executed against a state ([run]), under every answer of an environment
    ([wp], [traces]), and interleaved with others, one command at a time
    ([Concurrency]).

    ** Files

    - [Prelude], [GoLib]: notations, tactics, hints; strings, UTF-8, time, sort,
      JSON encoding as Go's standard library has them.
    - [Json], [Strconv], [JsonText]: the decoder of encoding/json, strconv, and
      that the decoder reads what the encoder writes.
    - [Sha256], [Float64], [Rounding]: the hash of request fingerprints, float64
      with its conversions, and what rounding does to integers and fractions.
    - [JsonStruct], [Rfc3339]: json.Unmarshal into structs and values of type
      any; time.Time in JSON, with the calendar.
    - [Domain] (src/internal/domain: order, payment, reservation, idempotency,
      errors), [Courier] (courier.go, moscow_zones.go).
    - [OrderStore], [TimelineStore], [OutboxStore], [IdempotencyStore],
      [CourierStore] (src/internal/storage/memory): the repositories, each with
      its invariant; [OrderStore.OrderRepository] is the interface with its laws.
    - [Ports]: the commands; [Saga] (service/saga/orchestrator.go), [Retry]
      (retry.go), [BatchProcessor] (batch_processor.go); [Metrics]
      (src/internal/metrics), over an interface of the Prometheus registry.
    - [OrderService] (service/grpc/order_service.go), [CourierService]
      (courier_service.go).
    - [OutboxWorker] (service/outbox/worker.go), [CleanupWorker]
      (service/idempotency/cleanup_worker.go).
    - [Kafka] (src/internal/messaging/kafka), [KafkaEvents] (its events and
      their texts), [KafkaLifecycle] (the goroutines of its consumer),
      [DlqReprocess] (src/cmd/dlq-reprocess/main.go).
    - [Postgres]: connections, transactions, locks and outages, statements as
      functions of the tables, programs of statements; [PgSchema] (the tables
      of src/internal/storage/postgres/sql/migrations); [PgOrders], [PgOutbox]
      (with the timeline), [PgIdempotency], [PgCouriers]: the repositories of
      src/internal/storage/postgres, a method per program, a statement per
      function; [PgConcurrency]: a pool of connections whose transactions
      interleave at READ COMMITTED; [PgVersions]: the order and key tables
      under it, [PgFleet], [PgCapacity]: the courier tables; [Migrator]
      (migrator.go, src/cmd/migrate), [MigrationScripts] (sql/migrations).
    - [Config] (src/cmd/order-service/main.go), [Health]
      (src/internal/health), [App] (src/internal/app): configuration, health
      endpoints, and how the service starts and stops its parts; [Process]: main
      around it, the connection pool, the Kafka producer, the version.
    - [LoadTest] (src/cmd/loadtest/main.go): the load generator as a step
      relation of dispatcher, workers and collector; [LoadReport]: its report
      and its end; [FilePath]: filepath.Clean and the file of the report.
    - [World]: the whole system, clients, sagas and workers over shared
      repositories and any behaviour of the outside.

    ** What is proved

    - Every interleaving ([OrderSafety], [ShutdownSafety], [OutboxSafety],
      [CourierFleet]): how orders evolve and which values they have, that
      payments and refunds match stored orders, that shutdown drains the sagas,
      that the outbox loses no message and marks none sent the broker has not
      taken, that the courier rules hold.
    - Every run of one component against any environment ([SagaTraces],
      [OutboxWorker], [Kafka], [DlqReprocess]): which effects happen, in which
      order and how often.
    - Exact behaviour ([OrderServiceSpec], [Replay], [SagaRuns], [Workers],
      [OutboxDelivery], [Retry], [BatchProcessor] and the repositories):
      idempotent replay, key conflicts, sagas that run alone, cleanup, leases,
      an outbox that is drained, the circuit breaker as an automaton, summaries.
    - Requests and sagas in turns ([SagaTurns]): what a customer was charged and
      got back is what the status of the order says.
    - PostgreSQL: the order repository keeps the contract of the interface in
      any surroundings, outages included ([PgOrders]); without outages the
      repositories answer as the in-memory ones at the precision of their
      columns, or refuse what does not fit them ([PgOrders], [PgOutbox],
      [PgIdempotency]); under any schedule of statements of any number of
      connections versions count the saves and a key is claimed once
      ([PgVersions]) and the courier tables stay consistent ([PgFleet]), the
      zone limit only when calls take turns
      ([PgCapacity]); migrations and their records take effect together and
      revert ([Migrator]), as the scripts of the repository do
      ([MigrationScripts]).
    - The service starts with a usable configuration ([Config]) and stops what
      it has started, in order ([App]); the retry of the producer ends; all
      orchestrators share their metrics ([Metrics]); a stopped consumer leaves
      no goroutine behind, once its context is done ([KafkaLifecycle]).
    - The load generator sends what the service accepts, never deadlocks, ends,
      and reports exactly what it did ([LoadReport]), in the directory it runs
      in when the path is relative ([FilePath]).
    - Round trips: stored failures, dead letters, Kafka events with their times
      ([KafkaEvents]), registered couriers, migrations.
    - [Scenarios], [CourierScenarios], [PgScenarios]: concrete executions that
      show behaviour the code does not intend.
    - [Witnesses], [EdgeWitnesses], [PgWitnesses], [ToolWitnesses]: the theorems
      at concrete inputs.

    ** Bounds and fuel

    The JSON decoder has fuel twice the length of the input plus one, which is
    enough since a call consumes a byte at least every second time.  Sagas retry
    three times by the code's own bound.  Loops that run until a context ends
    (workers, consumer, replayer) take a number of rounds: theorems hold for
    every number, that is for every prefix of the infinite run; where the code
    ends by itself this is proved.  The retry of the Kafka producer has fuel
    32, which is enough for its 30 seconds.  Schedules are shorter than 2^63
    steps where versions count, and a load test records fewer than 2^53 calls,
    below which float64 has every integer.

    ** Not modelled

    Log lines and printed summaries; the Kafka and database drivers, Prometheus
    (its registry is an interface with laws), protobuf encodings and the gRPC
    transport, which are libraries; sockets, signals and flag parsing.
    Of the database: what a migration script does to the schema is a parameter
    of [Migrator]; [MigrationScripts] has the kinds of statements the scripts of
    the repository use.  Migrators of several instances take turns (the advisory
    lock), texts are compared with the collation of the surroundings. *)

From Stdlib Require Import OrdersEx.
From Stdlib Require Export String Ascii ZArith Lia.
From stdpp Require Export gmap strings list sorting.

#[global] Open Scope string_scope.
#[global] Open Scope list_scope.
#[global] Open Scope Z_scope.

(** ** Scope, hint database and tactics of the development *)

Declare Scope oms_scope.
Delimit Scope oms_scope with oms.
#[global] Open Scope oms_scope.

(** Equality and difference tests on strings. *)
Infix "=s?" := String.eqb (at level 70, no associativity) : oms_scope.
Notation "a <>s? b" := (negb (String.eqb a b)) (at level 70, no associativity) : oms_scope.

Create HintDb oms.
Create Rewrite HintDb oms.

(** [case_on x] splits on [x] and keeps the equation. *)
Ltac case_on x := let E := fresh "E" in destruct x eqn:E.

(** [split_matches] destructs the scrutinee of every [match] or [if] of the
    goal, innermost first, and removes the impossible branches. *)
Ltac split_matches :=
  repeat (match goal with
          | |- context [match ?x with _ => _ end] =>
              lazymatch x with
              | context [match _ with _ => _ end] => fail
              | _ => let E := fresh "E" in destruct x eqn:E
              end
          end; simplify_eq/=).

(** The same for a hypothesis. *)
Ltac split_matches_in H :=
  repeat (match type of H with
          | context [match ?x with _ => _ end] =>
              lazymatch x with
              | context [match _ with _ => _ end] => fail
              | _ => let E := fresh "E" in destruct x eqn:E
              end
          end; simplify_eq/=).

(** Boolean tests on strings and integers as propositions. *)
Ltac reflect_tests :=
  repeat match goal with
  | H : (_ =? _)%string = true |- _ => apply String.eqb_eq in H
  | H : (_ =? _)%string = false |- _ => apply String.eqb_neq in H
  | H : (_ =? _)%Z = true |- _ => apply Z.eqb_eq in H
  | H : (_ =? _)%Z = false |- _ => apply Z.eqb_neq in H
  | H : (_ <? _)%Z = true |- _ => apply Z.ltb_lt in H
  | H : (_ <? _)%Z = false |- _ => apply Z.ltb_ge in H
  | H : (_ <=? _)%Z = true |- _ => apply Z.leb_le in H
  | H : (_ <=? _)%Z = false |- _ => apply Z.leb_gt in H
  | H : andb _ _ = true |- _ => apply andb_true_iff in H; destruct H
  | H : orb _ _ = false |- _ => apply orb_false_iff in H; destruct H
  | H : negb _ = true |- _ => apply negb_true_iff in H
  | H : negb _ = false |- _ => apply negb_false_iff in H
  end.

(** ** Machine integers of Go

    A Go [int], [int64] or [time.Duration] is a two's complement 64-bit
    integer, an [int32] a 32-bit one.  Both are integers of [Z] in range; the
    arithmetic of the source that can leave the range is wrapped. *)

Definition minInt64 : Z := - 2 ^ 63.
Definition maxInt64 : Z := 2 ^ 63 - 1.
Definition minInt32 : Z := - 2 ^ 31.
Definition maxInt32 : Z := 2 ^ 31 - 1.

Definition wrap64 (z : Z) : Z := (z + 2 ^ 63) mod 2 ^ 64 - 2 ^ 63.

Definition is_int64 (z : Z) : Prop := minInt64 <= z <= maxInt64.
Definition is_int32 (z : Z) : Prop := minInt32 <= z <= maxInt32.

#[global] Instance is_int64_dec z : Decision (is_int64 z).
Proof. unfold is_int64. apply _. Defined.

Ltac unfold_widths :=
  unfold is_int64, is_int32, minInt64, maxInt64, minInt32, maxInt32 in *.

Lemma wrap64_id z : is_int64 z -> wrap64 z = z.
Proof.
  unfold wrap64. unfold_widths. intros. rewrite Z.mod_small by lia. lia.
Qed.

Lemma wrap64_range z : is_int64 (wrap64 z).
Proof.
  unfold wrap64. unfold_widths.
  pose proof (Z.mod_pos_bound (z + 2 ^ 63) (2 ^ 64) ltac:(lia)). lia.
Qed.

Lemma wrap64_cong a b : a mod 2 ^ 64 = b mod 2 ^ 64 -> wrap64 a = wrap64 b.
Proof.
  unfold wrap64. intros H.
  rewrite (Z.add_mod a), (Z.add_mod b) by lia. by rewrite H.
Qed.

Lemma wrap64_mod z : wrap64 z mod 2 ^ 64 = z mod 2 ^ 64.
Proof.
  unfold wrap64. rewrite Zminus_mod, Zmod_mod, <- Zminus_mod.
  f_equal. lia.
Qed.

(** Wrapping an intermediate sum changes nothing. *)
Lemma wrap64_add_l a b : wrap64 (wrap64 a + b) = wrap64 (a + b).
Proof.
  apply wrap64_cong. rewrite Z.add_mod, wrap64_mod, <- Z.add_mod by lia. done.
Qed.

Lemma wrap64_add_r a b : wrap64 (a + wrap64 b) = wrap64 (a + b).
Proof. rewrite Z.add_comm, wrap64_add_l, Z.add_comm. done. Qed.

#[export] Hint Resolve wrap64_range : oms.
#[export] Hint Rewrite wrap64_add_l wrap64_add_r : oms.

(** ** Time

    [time.Time] as the nanoseconds since January 1, year 1, 00:00:00 UTC, the
    zero value of the type; [time.Duration] as nanoseconds. *)

Abbreviation Time := Z.
Abbreviation Duration := Z.

Definition Microsecond : Duration := 1000.
Definition Millisecond : Duration := 1000000.
Definition Second : Duration := 1000 * Millisecond.
Definition Minute : Duration := 60 * Second.
Definition Hour : Duration := 60 * Minute.

Definition IsZero (t : Time) : bool := t =? 0.
Definition After (t u : Time) : bool := u <? t.
Definition Before (t u : Time) : bool := t <? u.

(** [Time.Unix]: seconds since 1970-01-01T00:00:00Z; and [time.Unix(sec, 0)].
    Both add a constant on 64 bits. *)
Definition unixToInternal : Z := 62135596800.
Definition Unix (t : Time) : Z := wrap64 (t / Second - unixToInternal).
Definition time_Unix (sec : Z) : Time := wrap64 (sec + unixToInternal) * Second.

Lemma Unix_time_Unix sec : is_int64 sec -> Unix (time_Unix sec) = sec.
Proof.
  intros H. unfold Unix, time_Unix. rewrite Z.div_mul by done. rewrite <- (wrap64_id sec H) at 2.
  apply wrap64_cong. rewrite Zminus_mod, wrap64_mod, <- Zminus_mod. f_equal. lia.
Qed.

(** ** Strings

    A Go string is a sequence of bytes: [string] of the Standard Library.
    Comparison is lexicographic on bytes. *)

Definition str_lt (a b : string) : bool :=
  match String.compare a b with Lt => true | _ => false end.

Lemma str_lt_OT a b : str_lt a b = true <-> String_as_OT.lt a b.
Proof.
  unfold str_lt. change (String.compare a b) with (String_as_OT.compare a b).
  destruct (String_as_OT.compare_spec a b) as [H|H|H]; split; try done;
    intros Hl; exfalso; eapply (StrictOrder_Irreflexive (R := String_as_OT.lt)).
  - rewrite H in Hl. exact Hl.
  - eapply (StrictOrder_Transitive (R := String_as_OT.lt)); eassumption.
Qed.

Lemma str_lt_irrefl a : str_lt a a = false.
Proof.
  destruct (str_lt a a) eqn:E; [|done].
  apply str_lt_OT in E. by apply (StrictOrder_Irreflexive (R := String_as_OT.lt)) in E.
Qed.

Lemma str_lt_trans a b c : str_lt a b = true -> str_lt b c = true -> str_lt a c = true.
Proof.
  rewrite !str_lt_OT. apply (StrictOrder_Transitive (R := String_as_OT.lt)).
Qed.

Lemma str_lt_total a b : str_lt a b = false -> str_lt b a = false -> a = b.
Proof.
  unfold str_lt. rewrite (String.compare_antisym b a).
  destruct (String.compare a b) eqn:E; simpl; try done.
  intros _ _. by apply String.compare_eq_iff.
Qed.

(** ** The unspecified parts of the Go runtime

    [sort.Slice] sorts in place and leaves the order of elements that compare
    equal unspecified; [range] over a map visits every entry once, in an order
    that changes from one loop to the next (the [nat] is the loop's number).
    The operations of the model take both as an interface, and its theorems
    hold for every implementation that satisfies the documented laws. *)

Class GoRuntime := {
  sort_Slice : forall {A : Type}, (A -> A -> bool) -> list A -> list A;
  map_range : forall {A : Type}, nat -> gmap string A -> list (string * A);
}.

(** What [sort.Slice] asks of its comparison: a strict weak order. *)
Record StrictWeak {A : Type} (less : A -> A -> bool) : Prop := {
  sw_irrefl : forall x, less x x = false;
  sw_trans : forall x y z, less x y = true -> less y z = true -> less x z = true;
  sw_incomp : forall x y z, less x y = false -> less y z = false -> less x z = false;
}.

(** [y] may stand after [x] in a slice sorted by [less]. *)
Definition not_after {A : Type} (less : A -> A -> bool) (x y : A) : Prop :=
  less y x = false.

Class GoRuntimeLaws (rt : GoRuntime) : Prop := {
  sort_Slice_perm : forall A (less : A -> A -> bool) l, sort_Slice less l ≡ₚ l;
  sort_Slice_sorted : forall A (less : A -> A -> bool) l,
    StrictWeak less -> StronglySorted (not_after less) (sort_Slice less l);
  map_range_perm : forall A n (m : gmap string A), map_range n m ≡ₚ map_to_list m;
}.

(** One runtime that satisfies the laws, to evaluate the model with: insertion
    sort and the iteration order of the map's own representation. *)
Fixpoint insert_sorted {A : Type} (less : A -> A -> bool) (x : A) (l : list A) : list A :=
  match l with
  | [] => [x]
  | y :: r => if less x y then x :: y :: r else y :: insert_sorted less x r
  end.

Definition insertion_sort {A : Type} (less : A -> A -> bool) (l : list A) : list A :=
  foldl (fun acc x => insert_sorted less x acc) [] l.

#[global] Instance reference_runtime : GoRuntime := {
  sort_Slice := fun A less l => insertion_sort less l;
  map_range := fun A _ m => map_to_list m;
}.

Lemma insert_sorted_perm {A} less (x : A) l : insert_sorted less x l ≡ₚ x :: l.
Proof.
  induction l as [|y l IH]; simpl; [done|].
  destruct (less x y); [done|]. rewrite IH. apply Permutation_swap.
Qed.

Lemma insert_sorted_sorted {A} less (x : A) l :
  StrictWeak less ->
  StronglySorted (not_after less) l -> StronglySorted (not_after less) (insert_sorted less x l).
Proof.
  intros SW. induction 1 as [|y l Hs IH Hy]; simpl; [repeat constructor|].
  destruct (less x y) eqn:E.
  - assert (not_after less x y) as Hxy.
    { unfold not_after. destruct (less y x) eqn:F; [|done].
      rewrite <- (sw_irrefl _ SW x). symmetry. by eapply (sw_trans _ SW). }
    constructor; [by constructor|]. constructor; [done|].
    eapply Forall_impl; [exact Hy|]. intros z Hz.
    eapply (sw_incomp _ SW); eassumption.
  - constructor; [done|]. rewrite insert_sorted_perm. by constructor.
Qed.

#[global] Instance reference_runtime_laws : GoRuntimeLaws reference_runtime.
Proof.
  split; simpl; [| |done].
  - intros A less l. unfold insertion_sort.
    enough (forall acc, foldl (fun acc x => insert_sorted less x acc) acc l ≡ₚ acc ++ l) as H
      by (by rewrite H).
    induction l as [|x l IH]; intros acc; simpl; [by rewrite app_nil_r|].
    rewrite IH, insert_sorted_perm. by rewrite <- Permutation_middle.
  - intros A less l SW. unfold insertion_sort.
    enough (forall acc, StronglySorted (not_after less) acc ->
              StronglySorted (not_after less) (foldl (fun acc x => insert_sorted less x acc) acc l))
      as H by (apply H; constructor).
    induction l as [|x l IH]; intros acc Hacc; simpl; [done|].
    apply IH. by apply insert_sorted_sorted.
Qed.

(** Two slices sorted by a comparison that separates their elements agree as
    soon as they have the same elements: the unspecified part of [sort.Slice]
    does not show. *)
Lemma sorted_unique {A} (less : A -> A -> bool) l1 l2 :
  (forall x y, x ∈ l1 -> y ∈ l1 -> less x y = false -> less y x = false -> x = y) ->
  StronglySorted (not_after less) l1 -> StronglySorted (not_after less) l2 ->
  l1 ≡ₚ l2 -> l1 = l2.
Proof.
  intros Hsep H1 H2 HP. apply (StronglySorted_unique_strong (not_after less)); try done.
  intros x y Hx Hy Hxy Hyx. apply Hsep; try done. by rewrite HP.
Qed.

(** A total order on strings. *)
Class StrictTotal (lt : string -> string -> bool) : Prop := {
  st_irrefl : forall a, lt a a = false;
  st_trans : forall a b c, lt a b = true -> lt b c = true -> lt a c = true;
  st_total : forall a b, lt a b = false -> lt b a = false -> a = b;
}.

#[global] Instance str_lt_strict : StrictTotal str_lt.
Proof. split; [apply str_lt_irrefl|apply str_lt_trans|apply str_lt_total]. Qed.

(** Order by a time and then an identifier. *)
Definition less_by (lt : string -> string -> bool) {A} (time : A -> Time) (id : A -> string) (x y : A) : bool :=
  if negb (time x =? time y) then Before (time x) (time y) else lt (id x) (id y).

Lemma less_by_spec lt {A} time id (x y : A) :
  less_by lt time id x y = true <->
  time x < time y \/ (time x = time y /\ lt (id x) (id y) = true).
Proof.
  unfold less_by, Before. destruct (Z.eqb_spec (time x) (time y)); simpl.
  - split; [by right|]. intros [?|[_ ?]]; [lia|done].
  - rewrite Z.ltb_lt. split; [by left|]. intros [?|[? _]]; [done|lia].
Qed.

Lemma less_by_weak lt `{!StrictTotal lt} {A} time id : StrictWeak (@less_by lt A time id).
Proof.
  split.
  - intros x. destruct (less_by lt time id x x) eqn:E; [|done].
    apply less_by_spec in E as [?|[_ E]]; [lia|]. by rewrite st_irrefl in E.
  - intros x y z. rewrite !less_by_spec. intros [?|[? Hs]] [?|[? Ht]]; [left; lia..|].
    right. split; [lia|]. by eapply st_trans.
  - intros x y z Hxy Hyz. apply not_true_is_false. intros Hxz.
    apply not_true_iff_false in Hxy, Hyz. rewrite less_by_spec in *.
    assert (time y <= time x) by (destruct (Z.le_gt_cases (time y) (time x)); [done|tauto]).
    assert (time z <= time y) by (destruct (Z.le_gt_cases (time z) (time y)); [done|tauto]).
    destruct Hxz as [?|[? Hs]]; [lia|].
    destruct (lt (id x) (id y)) eqn:E1; [apply Hxy; right; split; [lia|done]|].
    destruct (lt (id y) (id z)) eqn:E2; [apply Hyz; right; split; [lia|done]|].
    destruct (lt (id y) (id x)) eqn:E3.
    + rewrite (st_trans _ _ _ E3 Hs) in E2. done.
    + rewrite <- (st_total _ _ E1 E3) in E2. congruence.
Qed.

Lemma less_by_separates lt `{!StrictTotal lt} {A} time id (x y : A) :
  less_by lt time id x y = false -> less_by lt time id y x = false -> id x = id y.
Proof.
  intros H1 H2. apply not_true_iff_false in H1, H2. rewrite less_by_spec in *.
  assert (time x = time y) by lia.
  apply st_total; apply not_true_is_false; intros ?; [apply H1|apply H2]; auto.
Qed.

(** The flipped comparison of a strict weak order is one. *)
Lemma flip_weak {A} (less : A -> A -> bool) : StrictWeak less -> StrictWeak (flip less).
Proof. intros [I T C]. split; unfold flip; eauto. Qed.

(** Go's comparisons of strings, in both directions. *)
Definition less_time_id {A} (time : A -> Time) (id : A -> string) : A -> A -> bool := less_by str_lt time id.

Definition less_time_id_desc {A} (time : A -> Time) (id : A -> string) (x y : A) : bool :=
  if negb (time x =? time y) then After (time x) (time y) else str_lt (id y) (id x).

Lemma less_time_id_desc_flip {A} time id (x y : A) :
  less_time_id_desc time id x y = less_time_id time id y x.
Proof.
  unfold less_time_id_desc, less_time_id, less_by, After, Before.
  by rewrite (Z.eqb_sym (time y)).
Qed.

Lemma less_time_id_spec {A} time id (x y : A) :
  less_time_id time id x y = true <->
  time x < time y \/ (time x = time y /\ str_lt (id x) (id y) = true).
Proof. apply less_by_spec. Qed.

Lemma less_time_id_weak {A} time id : StrictWeak (@less_time_id A time id).
Proof. apply less_by_weak, _. Qed.

Lemma less_time_id_desc_weak {A} time id : StrictWeak (@less_time_id_desc A time id).
Proof.
  destruct (@less_time_id_weak A time id) as [I T C].
  split; intros *; rewrite !less_time_id_desc_flip; eauto.
Qed.

Lemma less_time_id_separates {A} time id (x y : A) :
  less_time_id time id x y = false -> less_time_id time id y x = false -> id x = id y.
Proof. apply less_by_separates, _. Qed.

#[export] Hint Resolve less_time_id_weak less_time_id_desc_weak : oms.

(** ** Lists *)

Lemma filter_map {A B} (f : A -> B) (p : B -> bool) l :
  List.filter p (map f l) = map f (List.filter (fun x => p (f x)) l).
Proof. induction l as [|x l IH]; simpl; [done|]. destruct (p (f x)); simpl; by rewrite IH. Qed.

Lemma StronglySorted_filter {A} (R : A -> A -> Prop) (p : A -> bool) l :
  StronglySorted R l -> StronglySorted R (List.filter p l).
Proof.
  induction 1 as [|x l Hs IH Hx]; simpl; [constructor|].
  destruct (p x); [|done]. constructor; [done|].
  apply List.Forall_forall. intros y Hy%filter_In. rewrite List.Forall_forall in Hx. apply Hx, Hy.
Qed.

(** In a sorted list, what is cut off stands after what is kept. *)
Lemma StronglySorted_take {A} (R : A -> A -> Prop) n l x y :
  StronglySorted R l -> x ∈ take n l -> y ∈ l -> y ∉ take n l -> R x y.
Proof.
  intros Hs Hx Hy Hn. rewrite <- (take_drop n l) in Hs, Hy.
  apply elem_of_app in Hy as [?|Hy]; [done|].
  by eapply StronglySorted_app_1_elem_of.
Qed.

Lemma List_filter_perm {A} (p : A -> bool) l1 l2 :
  l1 ≡ₚ l2 -> List.filter p l1 ≡ₚ List.filter p l2.
Proof. induction 1; simpl; repeat case_match; try done; try by constructor. by etrans. Qed.

(** The values of a map, as a loop over it sees them. *)
Lemma elem_of_values `{Countable K} {A} (m : gmap K A) (x : A) :
  x ∈ map snd (map_to_list m) <-> exists k, m !! k = Some x.
Proof.
  rewrite list_elem_of_fmap. split.
  - intros ([k y] & -> & Hk%elem_of_map_to_list). eauto.
  - intros [k Hk]. exists (k, x). by rewrite elem_of_map_to_list.
Qed.
