(* ===== verification/GoLib.v ===== *)
(** * The parts of Go's standard library the service uses

    [strings.TrimSpace], [time.Time.Format] with the layout [time.RFC3339Nano]
    and [json.Marshal] of a [map[string]any] whose values are strings and
    integers.  All of them work on byte strings. *)

From stdpp Require Import pretty.
From S2P Require Import Prelude.

Abbreviation bytes := string (only parsing).

Definition chr (n : nat) : ascii := ascii_of_nat n.

Lemma list_ascii_app (s t : string) :
  list_ascii_of_string (s +:+ t) = list_ascii_of_string s ++ list_ascii_of_string t.
Proof. induction s as [|a s IH]; simpl; [done|]. by rewrite IH. Qed.

(** ** strings.TrimSpace *)

(** The UTF-8 encodings of the runes [unicode.IsSpace] accepts. *)
Definition space_encodings : list (list ascii) :=
  (map (fun n => [chr n]) [9; 10; 11; 12; 13; 32]%nat) ++
  [[chr 194; chr 133]; [chr 194; chr 160]; [chr 225; chr 154; chr 128]] ++
  (map (fun n => [chr 226; chr 128; chr n])
     [128; 129; 130; 131; 132; 133; 134; 135; 136; 137; 138; 168; 169; 175]%nat) ++
  [[chr 226; chr 129; chr 159]; [chr 227; chr 128; chr 128]].

Fixpoint strip_prefix (e l : list ascii) : option (list ascii) :=
  match e, l with
  | [], _ => Some l
  | a :: e', b :: l' => if Ascii.eqb a b then strip_prefix e' l' else None
  | _ :: _, [] => None
  end.

Fixpoint strip_any (es : list (list ascii)) (l : list ascii) : option (list ascii) :=
  match es with
  | [] => None
  | e :: es' => match strip_prefix e l with Some l' => Some l' | None => strip_any es' l end
  end.

Fixpoint trim_front (es : list (list ascii)) (fuel : nat) (l : list ascii) : list ascii :=
  match fuel with
  | O => l
  | S n => match strip_any es l with Some l' => trim_front es n l' | None => l end
  end.

(** Each round removes at least one byte, so the length of the string is
    enough fuel ([trim_front_stuck]). *)
Definition TrimSpace_list (l : list ascii) : list ascii :=
  let l1 := trim_front space_encodings (length l) l in
  rev (trim_front (map (@rev ascii) space_encodings) (length l1) (rev l1)).

Definition TrimSpace (s : string) : string :=
  string_of_list_ascii (TrimSpace_list (list_ascii_of_string s)).

Lemma strip_prefix_spec e l l' : strip_prefix e l = Some l' <-> l = e ++ l'.
Proof.
  revert l. induction e as [|a e IH]; intros l; simpl; [split; congruence|].
  destruct l as [|b l]; [done|].
  destruct (Ascii.eqb_spec a b) as [->|]; [rewrite IH|]; split; congruence.
Qed.

Lemma strip_any_Some es l l' :
  strip_any es l = Some l' -> exists e, e ∈ es /\ l = e ++ l'.
Proof.
  induction es as [|e es IH]; simpl; [done|].
  destruct (strip_prefix e l) as [l0|] eqn:E; intros H.
  - simplify_eq. exists e. split; [by constructor|]. by apply strip_prefix_spec.
  - apply IH in H as (e' & ? & ?). exists e'. split; [by constructor|done].
Qed.

Lemma strip_any_None es l : strip_any es l = None <-> forall e l', e ∈ es -> l <> e ++ l'.
Proof.
  split.
  - induction es as [|e es IH]; simpl; intros H e' l' Hin; [by apply not_elem_of_nil in Hin|].
    destruct (strip_prefix e l) as [l0|] eqn:E; [done|].
    apply elem_of_cons in Hin as [->|Hin]; [|by eapply IH].
    intros Hl. apply strip_prefix_spec in Hl. congruence.
  - intros H. destruct (strip_any es l) as [l'|] eqn:E; [|done].
    apply strip_any_Some in E as (e & He & ->). by destruct (H e l' He).
Qed.

Definition no_empty (es : list (list ascii)) : Prop := Forall (fun e => e <> []) es.

Lemma trim_front_stuck es fuel l :
  no_empty es -> (length l <= fuel)%nat -> strip_any es (trim_front es fuel l) = None.
Proof.
  intros Hes. revert l. induction fuel as [|n IH]; intros l Hlen; simpl.
  - assert (l = []) as -> by (destruct l; [done|simpl in Hlen; lia]).
    apply strip_any_None. intros e l' He Habs. symmetry in Habs.
    apply app_eq_nil in Habs as [-> _]. unfold no_empty in Hes.
    rewrite Forall_forall in Hes. by apply (Hes [] He).
  - destruct (strip_any es l) as [l'|] eqn:E; [|done].
    apply IH. apply strip_any_Some in E as (e & He & ->).
    rewrite length_app in Hlen. unfold no_empty in Hes. rewrite Forall_forall in Hes.
    specialize (Hes e He). destruct e; [done|]. simpl in Hlen. lia.
Qed.

Lemma trim_front_suffix es fuel l : exists p, l = p ++ trim_front es fuel l.
Proof.
  revert l. induction fuel as [|n IH]; intros l; simpl; [by exists []|].
  destruct (strip_any es l) as [l'|] eqn:E; [|by exists []].
  apply strip_any_Some in E as (e & _ & ->). destruct (IH l') as [p Hp].
  exists (e ++ p). by rewrite <- app_assoc, <- Hp.
Qed.

Lemma trim_front_None es fuel l : strip_any es l = None -> trim_front es fuel l = l.
Proof. destruct fuel; simpl; [done|]. by intros ->. Qed.

Lemma space_encodings_nonempty : no_empty space_encodings.
Proof. unfold no_empty. repeat constructor; done. Qed.

Lemma space_encodings_rev_nonempty : no_empty (map (@rev ascii) space_encodings).
Proof. unfold no_empty. vm_compute. repeat constructor; done. Qed.

(** A trimmed string starts and ends with no white space, hence trimming again
    changes nothing. *)
Lemma TrimSpace_list_idemp l : TrimSpace_list (TrimSpace_list l) = TrimSpace_list l.
Proof.
  set (t := TrimSpace_list l).
  assert (strip_any (map (@rev ascii) space_encodings) (rev t) = None) as Hback.
  { unfold t, TrimSpace_list. rewrite rev_involutive.
    apply trim_front_stuck; [apply space_encodings_rev_nonempty|]. by rewrite length_rev. }
  assert (strip_any space_encodings t = None) as Hfront.
  { set (l1 := trim_front space_encodings (length l) l).
    assert (strip_any space_encodings l1 = None) as H1.
    { apply trim_front_stuck; [apply space_encodings_nonempty|done]. }
    destruct (trim_front_suffix (map (@rev ascii) space_encodings) (length l1) (rev l1)) as [p Hp].
    assert (l1 = t ++ rev p) as Hl1.
    { unfold t, TrimSpace_list. fold l1. rewrite <- rev_app_distr, <- Hp. by rewrite rev_involutive. }
    rewrite strip_any_None in H1 |- *. intros e l' He Ht.
    apply (H1 e (l' ++ rev p) He). by rewrite Hl1, Ht, app_assoc. }
  unfold TrimSpace_list at 1. rewrite (trim_front_None _ _ _ Hfront).
  rewrite (trim_front_None _ _ _ Hback). apply rev_involutive.
Qed.

Lemma TrimSpace_idemp s : TrimSpace (TrimSpace s) = TrimSpace s.
Proof.
  unfold TrimSpace. by rewrite list_ascii_of_string_of_list_ascii, TrimSpace_list_idemp.
Qed.

#[export] Hint Rewrite TrimSpace_idemp : oms.

(** A byte that is part of no white space. *)
Definition solid (a : ascii) : bool :=
  forallb (fun e => negb (existsb (Ascii.eqb a) e)) space_encodings.

Lemma solid_spec a e : solid a = true -> e ∈ space_encodings -> a ∉ e.
Proof.
  unfold solid. rewrite forallb_forall. intros H He Ha. apply list_elem_of_In in He. apply list_elem_of_In in Ha.
  specialize (H e He). apply negb_true_iff in H.
  assert (existsb (Ascii.eqb a) e = true) as H'; [|congruence].
  apply existsb_exists. exists a. split; [done|]. apply Ascii.eqb_refl.
Qed.

Lemma trim_front_solid es fuel a l :
  no_empty es -> (forall e, e ∈ es -> a ∉ e) -> trim_front es fuel (a :: l) = a :: l.
Proof.
  intros Hne Hs. apply trim_front_None, strip_any_None. intros e l' He Heq.
  unfold no_empty in Hne. rewrite Forall_forall in Hne. specialize (Hne e He).
  destruct e as [|b e]; [done|]. simpl in Heq. injection Heq as <- _.
  apply (Hs _ He). by constructor.
Qed.

(** A string of such bytes is its own trimming. *)
Lemma TrimSpace_solid s : Forall (fun a => solid a = true) (list_ascii_of_string s) -> TrimSpace s = s.
Proof.
  intros H. unfold TrimSpace. rewrite <- (string_of_list_ascii_of_string s) at 2. f_equal.
  set (l := list_ascii_of_string s) in *. clearbody l. unfold TrimSpace_list. cbv zeta.
  assert (trim_front space_encodings (length l) l = l) as ->.
  { destruct l as [|a l]; [done|]. apply Forall_cons in H as [Ha _].
    apply trim_front_solid; [apply space_encodings_nonempty|]. intros e He. by apply solid_spec. }
  assert (trim_front (map (@rev ascii) space_encodings) (length l) (rev l) = rev l) as ->;
    [|apply rev_involutive].
  apply Forall_rev in H. destruct (rev l) as [|a l'] eqn:E; [by destruct (length l)|].
  apply Forall_cons in H as [Ha _].
  apply trim_front_solid; [apply space_encodings_rev_nonempty|].
  intros e (e' & -> & He')%list_elem_of_fmap Hin. rewrite list_elem_of_In, <- in_rev, <- list_elem_of_In in Hin.
  by apply (solid_spec a e').
Qed.

Example TrimSpace_ex :
  TrimSpace (String (chr 194) (String (chr 160) (" a b" +:+ String (chr 10) " "))) = "a b".
Proof. vm_compute. reflexivity. Qed.

(** ** time.Time.Format(time.RFC3339Nano), for a time in UTC *)

Definition two_digits (z : Z) : string :=
  (if z <? 10 then "0" else "") +:+ pretty z.

Definition zero_pad (width : nat) (s : string) : string :=
  string_of_list_ascii (replicate (width - String.length s) (chr 48)) +:+ s.

(** Year, month and day of the proleptic Gregorian calendar from the number of
    days since January 1 of year 1. *)
Definition civil_of_days (d : Z) : Z * Z * Z :=
  let z := d + 306 in
  let era := z / 146097 in
  let doe := z mod 146097 in
  let yoe := (doe - doe / 1460 + doe / 36524 - doe / 146096) / 365 in
  let doy := doe - (365 * yoe + yoe / 4 - yoe / 100) in
  let mp := (5 * doy + 2) / 153 in
  let day := doy - (153 * mp + 2) / 5 + 1 in
  let month := if mp <? 10 then mp + 3 else mp - 9 in
  (yoe + era * 400 + (if month <=? 2 then 1 else 0), month, day).

(** The fraction of a second, without its trailing zeros. *)
Fixpoint drop_zeros (l : list ascii) : list ascii :=
  match l with
  | a :: r => if Ascii.eqb a (chr 48) then drop_zeros r else l
  | [] => []
  end.

Definition fraction (nanos : Z) : string :=
  if nanos =? 0 then ""
  else "." +:+ string_of_list_ascii
          (rev (drop_zeros (rev (list_ascii_of_string (zero_pad 9 (pretty nanos)))))).

(** Date and time of day, without the zone. *)
Definition datetime_text (t : Time) : string :=
  let secs := t / Second in
  let '(y, m, d) := civil_of_days (secs / 86400) in
  let s := secs mod 86400 in
  zero_pad 4 (pretty y) +:+ "-" +:+ two_digits m +:+ "-" +:+ two_digits d +:+ "T" +:+
   two_digits (s / 3600) +:+ ":" +:+ two_digits (s mod 3600 / 60) +:+ ":" +:+
   two_digits (s mod 60) +:+ fraction (t mod Second).

Definition FormatRFC3339Nano (t : Time) : string := datetime_text t +:+ "Z".

Example FormatRFC3339Nano_ex :
  FormatRFC3339Nano ((unixToInternal + 1700000000) * Second + 120000000)
  = "2023-11-14T22:13:20.12Z".
Proof. vm_compute. reflexivity. Qed.

Example FormatRFC3339Nano_zero : FormatRFC3339Nano 0 = "0001-01-01T00:00:00Z".
Proof. vm_compute. reflexivity. Qed.

(** ** json.Marshal *)

Inductive jvalue : Type :=
| JStr (s : string)
| JInt (z : Z).

Definition in_range (a : ascii) (lo hi : nat) : bool :=
  Nat.leb lo (nat_of_ascii a) && Nat.leb (nat_of_ascii a) hi.

Definition cont (a : ascii) : bool := in_range a 128 191.

(** The size of the rune [utf8.DecodeRune] finds at the head of a string that
    starts with a byte of at least 0x80; [None] for an invalid encoding. *)
Definition rune_size (l : list ascii) : option nat :=
  match l with
  | a :: b :: r =>
      if in_range a 194 223 then (if cont b then Some 2%nat else None)
      else
        let b_ok :=
          if Nat.eqb (nat_of_ascii a) 224 then in_range b 160 191
          else if Nat.eqb (nat_of_ascii a) 237 then in_range b 128 159
          else if Nat.eqb (nat_of_ascii a) 240 then in_range b 144 191
          else if Nat.eqb (nat_of_ascii a) 244 then in_range b 128 143
          else cont b in
        if in_range a 224 239 then
          match r with
          | c :: _ => if b_ok && cont c then Some 3%nat else None
          | [] => None
          end
        else if in_range a 240 244 then
          match r with
          | c :: d :: _ => if b_ok && cont c && cont d then Some 4%nat else None
          | _ => None
          end
        else None
  | _ => None
  end.

Definition hex_digit (n : nat) : ascii :=
  if Nat.ltb n 10 then chr (48 + n) else chr (87 + n).

Definition backslash : ascii := chr 92.

Definition escape_u00 (a : ascii) : list ascii :=
  [backslash; chr 117; chr 48; chr 48;
   hex_digit (nat_of_ascii a / 16); hex_digit (nat_of_ascii a mod 16)].

(** [encoding/json.appendString] with HTML escaping, on a byte below 0x80. *)
Definition escape_byte (a : ascii) : list ascii :=
  let n := nat_of_ascii a in
  if Nat.eqb n 92 || Nat.eqb n 34 then [backslash; a]
  else if Nat.eqb n 8 then [backslash; chr 98]
  else if Nat.eqb n 12 then [backslash; chr 102]
  else if Nat.eqb n 10 then [backslash; chr 110]
  else if Nat.eqb n 13 then [backslash; chr 114]
  else if Nat.eqb n 9 then [backslash; chr 116]
  else if Nat.ltb n 32 || Nat.eqb n 60 || Nat.eqb n 62 || Nat.eqb n 38 then escape_u00 a
  else [a].

Fixpoint escape_string (fuel : nat) (l : list ascii) : list ascii :=
  match fuel, l with
  | O, _ | _, [] => []
  | S n, a :: r =>
      if Nat.ltb (nat_of_ascii a) 128 then escape_byte a ++ escape_string n r
      else match rune_size l with
           | None => [backslash; chr 117; chr 102; chr 102; chr 102; chr 100] ++ escape_string n r
           | Some k =>
               let rune := take k l in
               (match strip_prefix [chr 226; chr 128; chr 168] rune,
                      strip_prefix [chr 226; chr 128; chr 169] rune with
                | Some _, _ => [backslash; chr 117; chr 50; chr 48; chr 50; chr 56]
                | _, Some _ => [backslash; chr 117; chr 50; chr 48; chr 50; chr 57]
                | None, None => rune
                end) ++ escape_string n (drop k l)
           end
  end.

Definition json_string (s : string) : string :=
  let l := list_ascii_of_string s in
  string_of_list_ascii ([chr 34] ++ escape_string (length l) l ++ [chr 34]).

Fixpoint join_comma (l : list string) : string :=
  match l with
  | [] => ""
  | [s] => s
  | s :: r => s +:+ "," +:+ join_comma r
  end.

Definition json_value (v : jvalue) : string :=
  match v with
  | JStr s => json_string s
  | JInt z => pretty z
  end.

(** A Go map is marshalled with its keys sorted. *)
Definition sorted_members (m : gmap string jvalue) : list (string * jvalue) :=
  insertion_sort (fun a b => str_lt (fst a) (fst b)) (map_to_list m).

Definition json_Marshal (m : gmap string jvalue) : bytes :=
  "{" +:+
  join_comma (map (fun kv => json_string (fst kv) +:+ ":" +:+ json_value (snd kv)) (sorted_members m))
  +:+ "}".

Example json_Marshal_ex :
  json_Marshal (<["reason" := JStr "a<b"]> (<["amount" := JInt (-5)]> ∅))
  = string_of_list_ascii (map chr [123;34;97;109;111;117;110;116;34;58;45;53;44;34;114;101;97;115;111;110;34;58;34;97;92;117;48;48;51;99;98;34;125]%nat).
Proof. vm_compute. reflexivity. Qed.

(** ** time *)

(** [Sub] saturates at the limits of a duration. *)
Definition time_Sub (a b : Time) : Duration := Z.max minInt64 (Z.min maxInt64 (a - b)).
