(* ===== verification/Json.v ===== *)
(** * encoding/json: json.Unmarshal

    The decoder behind [json.Unmarshal] of Go's standard library, as far as the
    service uses it: the scanner's grammar (white space, literals, numbers,
    strings with their escapes, nesting up to 10000), the unquoting of strings
    with U+FFFD for what is not UTF-8, and the matching of member names with
    struct fields.  With the encoder of [GoLib] it has a round trip. *)

From S2P Require Import Prelude GoLib.

Inductive json : Type :=
| JsonNull
| JsonBool (b : bool)
| JsonNumber (literal : list ascii)
| JsonString (s : string)
| JsonArray (elems : list json)
| JsonObject (members : list (string * json)).

Definition is_space (a : ascii) : bool :=
  let n := nat_of_ascii a in Nat.eqb n 32 || Nat.eqb n 9 || Nat.eqb n 10 || Nat.eqb n 13.

Fixpoint skip_space (l : list ascii) : list ascii :=
  match l with
  | a :: r => if is_space a then skip_space r else l
  | [] => []
  end.

(** ** Strings *)

Definition hex_value (a : ascii) : option nat :=
  let n := nat_of_ascii a in
  if in_range a 48 57 then Some (n - 48)%nat
  else if in_range a 97 102 then Some (n - 87)%nat
  else if in_range a 65 70 then Some (n - 55)%nat
  else None.

(** Four hexadecimal digits. *)
Definition hex4 (l : list ascii) : option (Z * list ascii) :=
  match l with
  | a :: b :: c :: d :: r =>
      match hex_value a, hex_value b, hex_value c, hex_value d with
      | Some a, Some b, Some c, Some d =>
          Some (((Z.of_nat a * 16 + Z.of_nat b) * 16 + Z.of_nat c) * 16 + Z.of_nat d, r)
      | _, _, _, _ => None
      end
  | _ => None
  end.

Definition chrZ (z : Z) : ascii := chr (Z.to_nat z).

(** [utf8.AppendRune], for a rune that is not a surrogate. *)
Definition encode_rune (r : Z) : list ascii :=
  if r <? 128 then [chrZ r]
  else if r <? 2048 then [chrZ (192 + r / 64); chrZ (128 + r mod 64)]
  else if r <? 65536 then
    [chrZ (224 + r / 4096); chrZ (128 + r / 64 mod 64); chrZ (128 + r mod 64)]
  else [chrZ (240 + r / 262144); chrZ (128 + r / 4096 mod 64);
        chrZ (128 + r / 64 mod 64); chrZ (128 + r mod 64)].

Definition replacement : list ascii := [chr 239; chr 191; chr 189].

(** The second half [\uXXXX] of a surrogate pair. *)
Definition low_surrogate (l : list ascii) : option (Z * list ascii) :=
  match l with
  | a :: b :: r =>
      if Ascii.eqb a backslash && Ascii.eqb b (chr 117) then
        match hex4 r with
        | Some (code, r') => if (56320 <=? code) && (code <? 57344) then Some (code, r') else None
        | None => None
        end
      else None
  | _ => None
  end.

(** What a [\u] escape stands for, and the input after it. *)
Definition unquote_u (l : list ascii) : option (list ascii * list ascii) :=
  match hex4 l with
  | None => None
  | Some (code, r) =>
      if (55296 <=? code) && (code <? 57344) then
        match low_surrogate r with
        | Some (low, r') =>
            if code <? 56320
            then Some (encode_rune ((code - 55296) * 1024 + (low - 56320) + 65536), r')
            else Some (replacement, r)
        | None => Some (replacement, r)
        end
      else Some (encode_rune code, r)
  end.

Definition unquote_escape (e : ascii) : option ascii :=
  let n := nat_of_ascii e in
  if Nat.eqb n 34 || Nat.eqb n 92 || Nat.eqb n 47 then Some e
  else if Nat.eqb n 98 then Some (chr 8)
  else if Nat.eqb n 102 then Some (chr 12)
  else if Nat.eqb n 110 then Some (chr 10)
  else if Nat.eqb n 114 then Some (chr 13)
  else if Nat.eqb n 116 then Some (chr 9)
  else None.

(** The body of a string literal, after its opening quote. *)
Fixpoint unquote (fuel : nat) (l : list ascii) : option (list ascii * list ascii) :=
  let put (s r : list ascii) n :=
    match unquote n r with Some (t, r') => Some (s ++ t, r') | None => None end in
  match fuel, l with
  | O, _ | _, [] => None
  | S n, a :: r =>
      if Ascii.eqb a (chr 34) then Some ([], r)
      else if Ascii.eqb a backslash then
        match r with
        | [] => None
        | e :: r' =>
            if Ascii.eqb e (chr 117) then
              match unquote_u r' with Some (s, r'') => put s r'' n | None => None end
            else match unquote_escape e with Some c => put [c] r' n | None => None end
        end
      else if Nat.ltb (nat_of_ascii a) 32 then None
      else if Nat.ltb (nat_of_ascii a) 128 then put [a] r n
      else match rune_size l with
           | Some k => put (take k l) (drop k l) n
           | None => put replacement r n
           end
  end.

(** ** Numbers *)

Fixpoint span_digits (l : list ascii) : list ascii * list ascii :=
  match l with
  | a :: r => if in_range a 48 57 then let '(d, r') := span_digits r in (a :: d, r') else ([], l)
  | [] => ([], [])
  end.

Definition scan_minus (l : list ascii) : list ascii * list ascii :=
  match l with
  | a :: r => if Ascii.eqb a (chr 45) then ([a], r) else ([], l)
  | [] => ([], [])
  end.

(** [0], or digits that do not start with 0. *)
Definition scan_int (l : list ascii) : option (list ascii * list ascii) :=
  match l with
  | a :: r =>
      if Ascii.eqb a (chr 48) then Some ([a], r)
      else if in_range a 49 57 then let '(d, r') := span_digits r in Some (a :: d, r')
      else None
  | [] => None
  end.

Definition scan_digits1 (l : list ascii) : option (list ascii * list ascii) :=
  match span_digits l with
  | ([], _) => None
  | p => Some p
  end.

Definition scan_frac (l : list ascii) : option (list ascii * list ascii) :=
  match l with
  | a :: r =>
      if Ascii.eqb a (chr 46)
      then match scan_digits1 r with Some (d, r') => Some (a :: d, r') | None => None end
      else Some ([], l)
  | [] => Some ([], [])
  end.

Definition scan_exp (l : list ascii) : option (list ascii * list ascii) :=
  match l with
  | a :: r =>
      if Ascii.eqb a (chr 101) || Ascii.eqb a (chr 69) then
        let '(sign, r1) :=
          match r with
          | s :: r1 => if Ascii.eqb s (chr 43) || Ascii.eqb s (chr 45) then ([s], r1) else ([], r)
          | [] => ([], [])
          end in
        match scan_digits1 r1 with Some (d, r') => Some (a :: sign ++ d, r') | None => None end
      else Some ([], l)
  | [] => Some ([], [])
  end.

Definition scan_number (l : list ascii) : option (list ascii * list ascii) :=
  let '(sign, l1) := scan_minus l in
  match scan_int l1 with
  | None => None
  | Some (i, l2) =>
      match scan_frac l2 with
      | None => None
      | Some (f, l3) =>
          match scan_exp l3 with
          | None => None
          | Some (e, l4) => Some (sign ++ i ++ f ++ e, l4)
          end
      end
  end.

(** ** Values *)

Definition maxNestingDepth : nat := 10000.

Definition lit_true : list ascii := Eval compute in list_ascii_of_string "true".
Definition lit_false : list ascii := Eval compute in list_ascii_of_string "false".
Definition lit_null : list ascii := Eval compute in list_ascii_of_string "null".

(** A value at the head of the input, and the input after it.  [depth] is the
    number of arrays and objects that may still be opened. *)
Fixpoint parse_value (fuel depth : nat) (l : list ascii) {struct fuel} : option (json * list ascii) :=
  match fuel with
  | O => None
  | S n =>
      match skip_space l with
      | [] => None
      | a :: r =>
          if Ascii.eqb a (chr 34) then
            match unquote (length r) r with
            | Some (s, r') => Some (JsonString (string_of_list_ascii s), r')
            | None => None
            end
          else if Ascii.eqb a (chr 123) then
            match depth with
            | O => None
            | S d =>
                match skip_space r with
                | b :: r' => if Ascii.eqb b (chr 125) then Some (JsonObject [], r')
                             else match parse_members n d r with
                                  | Some (ms, r'') => Some (JsonObject ms, r'')
                                  | None => None
                                  end
                | [] => None
                end
            end
          else if Ascii.eqb a (chr 91) then
            match depth with
            | O => None
            | S d =>
                match skip_space r with
                | b :: r' => if Ascii.eqb b (chr 93) then Some (JsonArray [], r')
                             else match parse_elems n d r with
                                  | Some (es, r'') => Some (JsonArray es, r'')
                                  | None => None
                                  end
                | [] => None
                end
            end
          else match strip_prefix lit_true (a :: r), strip_prefix lit_false (a :: r),
                     strip_prefix lit_null (a :: r) with
               | Some r', _, _ => Some (JsonBool true, r')
               | _, Some r', _ => Some (JsonBool false, r')
               | _, _, Some r' => Some (JsonNull, r')
               | None, None, None =>
                   match scan_number (a :: r) with
                   | Some (lit, r') => Some (JsonNumber lit, r')
                   | None => None
                   end
               end
      end
  end
with parse_members (fuel depth : nat) (l : list ascii) {struct fuel}
  : option (list (string * json) * list ascii) :=
  match fuel with
  | O => None
  | S n =>
      match skip_space l with
      | q :: r =>
          if Ascii.eqb q (chr 34) then
            match unquote (length r) r with
            | None => None
            | Some (key, r1) =>
                match skip_space r1 with
                | c :: r2 =>
                    if Ascii.eqb c (chr 58) then
                      match parse_value n depth r2 with
                      | None => None
                      | Some (v, r3) =>
                          let member := (string_of_list_ascii key, v) in
                          match skip_space r3 with
                          | e :: r4 =>
                              if Ascii.eqb e (chr 125) then Some ([member], r4)
                              else if Ascii.eqb e (chr 44) then
                                match parse_members n depth r4 with
                                | Some (ms, r5) => Some (member :: ms, r5)
                                | None => None
                                end
                              else None
                          | [] => None
                          end
                      end
                    else None
                | [] => None
                end
            end
          else None
      | [] => None
      end
  end
with parse_elems (fuel depth : nat) (l : list ascii) {struct fuel}
  : option (list json * list ascii) :=
  match fuel with
  | O => None
  | S n =>
      match parse_value n depth l with
      | None => None
      | Some (v, r) =>
          match skip_space r with
          | e :: r' =>
              if Ascii.eqb e (chr 93) then Some ([v], r')
              else if Ascii.eqb e (chr 44) then
                match parse_elems n depth r' with
                | Some (vs, r'') => Some (v :: vs, r'')
                | None => None
                end
              else None
          | [] => None
          end
      end
  end.

(** The whole input is one value with white space around it.  Every call of a
    parser consumes a byte before it calls another, except for [parse_elems],
    which calls [parse_value] at once: twice the length is enough fuel. *)
Definition json_parse (data : bytes) : option json :=
  let l := list_ascii_of_string data in
  match parse_value (2 * length l + 1) maxNestingDepth l with
  | Some (v, r) => match skip_space r with [] => Some v | _ => None end
  | None => None
  end.

(** ** Struct fields *)

(** [strconv.ParseInt(literal, 10, 64)] of a JSON number: no fraction, no
    exponent, in range. *)
Definition digits_value (l : list ascii) : option Z :=
  foldl (fun acc a => match acc with
                      | Some z => if in_range a 48 57 then Some (10 * z + Z.of_nat (nat_of_ascii a - 48)) else None
                      | None => None
                      end) (Some 0) l.

Definition ParseInt_literal (l : list ascii) : option Z :=
  let '(sign, d) := scan_minus l in
  match digits_value d with
  | None => None
  | Some z =>
      let v := match sign with [] => z | _ => - z end in
      if (minInt64 <=? v) && (v <=? maxInt64) then Some v else None
  end.

(** [foldName]: upper case, with the two runes outside ASCII that fold to a
    letter of it (U+017F to S and U+212A to K). *)
Fixpoint foldName (l : list ascii) : list ascii :=
  match l with
  | [] => []
  | a :: r =>
      match strip_prefix [chr 197; chr 191] l, strip_prefix [chr 226; chr 132; chr 170] l with
      | Some _, _ => chr 83 :: match r with _ :: r' => foldName r' | [] => [] end
      | _, Some _ => chr 75 :: match r with _ :: _ :: r' => foldName r' | _ => [] end
      | None, None =>
          (if in_range a 97 122 then chr (nat_of_ascii a - 32) else a) :: foldName r
      end
  end.

Definition matches_field (key name : string) : bool :=
  bool_decide (foldName (list_ascii_of_string key) = foldName (list_ascii_of_string name)).

Example json_parse_ex :
  json_parse (string_of_list_ascii (map chr [32;123;34;97;34;58;91;49;44;32;45;50;46;53;101;51;93;44;34;98;34;58;123;125;125;10]%nat))
  = Some (JsonObject [("a", JsonArray [JsonNumber [chr 49]; JsonNumber (map chr [45;50;46;53;101;51]%nat)]);
                      ("b", JsonObject [])]).
Proof. vm_compute. reflexivity. Qed.

(** ** Encoding and decoding a string *)

(** The bytes that are not UTF-8 replaced by U+FFFD. *)
Fixpoint sanitize (fuel : nat) (l : list ascii) : list ascii :=
  match fuel, l with
  | O, _ | _, [] => []
  | S n, a :: r =>
      if Nat.ltb (nat_of_ascii a) 128 then a :: sanitize n r
      else match rune_size l with
           | None => replacement ++ sanitize n r
           | Some k => take k l ++ sanitize n (drop k l)
           end
  end.

Definition ToValidUTF8 (s : string) : string :=
  let l := list_ascii_of_string s in string_of_list_ascii (sanitize (length l) l).

(** [utf8.ValidString] *)
Definition valid_utf8 (s : string) : bool := ToValidUTF8 s =s? s.

Lemma rune_size_Some l k : rune_size l = Some k ->
  (2 <= k <= length l)%nat /\ forall x, rune_size (take k l ++ x) = Some k.
Proof.
  unfold rune_size. destruct l as [|a [|b r]]; [done..|].
  destruct (in_range a 194 223) eqn:E1.
  { destruct (cont b) eqn:E2; [|done]. intros [= <-]. split; [simpl; lia|].
    intros x. simpl. by rewrite E1, E2. }
  destruct (in_range a 224 239) eqn:E3.
  { destruct r as [|c r]; [done|]. destruct (_ && cont c) eqn:E4; [|done].
    intros [= <-]. split; [simpl; lia|]. intros x. simpl. by rewrite E1, E3, E4. }
  destruct (in_range a 240 244) eqn:E5; [|done].
  destruct r as [|c [|d r]]; [done..|]. destruct (_ && _ && cont d) eqn:E6; [|done].
  intros [= <-]. split; [simpl; lia|]. intros x. simpl. by rewrite E1, E3, E5, E6.
Qed.

#[local] Arguments rune_size l : simpl never.

(** Adding fuel does not change what was read. *)
Definition unquotes (l s rest : list ascii) : Prop :=
  forall fuel, (length l <= fuel)%nat -> unquote fuel l = Some (s, rest).

Lemma unquotes_quote rest : unquotes (chr 34 :: rest) [] rest.
Proof. intros [|n] Hn; simpl in Hn; [lia|]. done. Qed.

Lemma unquotes_byte a tail s rest :
  (nat_of_ascii a < 128)%nat -> unquotes tail s rest -> unquotes (escape_byte a ++ tail) (a :: s) rest.
Proof.
  intros Ha Ht fuel Hf.
  destruct a as [[] [] [] [] [] [] [] []]; vm_compute in Ha; try lia; clear Ha;
    match goal with |- context [escape_byte ?a] =>
      let v := eval vm_compute in (escape_byte a) in change (escape_byte a) with v in *
    end;
    (destruct fuel as [|n]; [simpl in Hf; lia|]);
    simpl in Hf |- *; rewrite Ht by lia; reflexivity.
Qed.

Lemma unquotes_replacement tail s rest :
  unquotes tail s rest ->
  unquotes ([backslash; chr 117; chr 102; chr 102; chr 102; chr 100] ++ tail) (replacement ++ s) rest.
Proof.
  intros Ht [|n] Hf; simpl in Hf; [lia|]. simpl. rewrite Ht by lia. reflexivity.
Qed.

Lemma unquotes_u2028 tail s rest d e :
  unquotes tail s rest -> (d, e) = (chr 56, chr 168) \/ (d, e) = (chr 57, chr 169) ->
  unquotes ([backslash; chr 117; chr 50; chr 48; chr 50; d] ++ tail) ([chr 226; chr 128; e] ++ s) rest.
Proof.
  intros Ht Hde [|n] Hf; simpl in Hf; [lia|].
  destruct Hde as [Hde|Hde]; injection Hde as -> ->; simpl; rewrite Ht by lia; reflexivity.
Qed.

Lemma unquotes_rune l k tail s rest :
  (128 <= nat_of_ascii (hd zero l))%nat -> rune_size l = Some k ->
  unquotes tail s rest -> unquotes (take k l ++ tail) (take k l ++ s) rest.
Proof.
  intros Hhd Hk Ht. destruct (rune_size_Some _ _ Hk) as [Hlen Happ]. specialize (Happ tail).
  destruct l as [|a l]; [simpl in Hlen; lia|]. simpl in Hhd. destruct k as [|k]; [lia|].
  intros [|n] Hf; [simpl in Hf; lia|].
  assert (length (take k l) = k) as Htk by (rewrite length_take; simpl in Hlen; lia).
  change (take (S k) (a :: l)) with (a :: take k l) in *. simpl in Hf, Happ |- *. rewrite Happ.
  destruct (Ascii.eqb_spec a (chr 34)) as [->|_]; [vm_compute in Hhd; lia|].
  destruct (Ascii.eqb_spec a backslash) as [->|_]; [vm_compute in Hhd; lia|].
  rewrite (proj2 (Nat.ltb_ge _ 32)) by lia. rewrite (proj2 (Nat.ltb_ge _ 128)) by lia.
  simpl. rewrite take_app_length' , drop_app_length' by done.
  rewrite Ht; [done|]. rewrite length_app in Hf. lia.
Qed.

Lemma rune_e280 l k e x :
  rune_size l = Some k -> take k l = [chr 226; chr 128; e] ++ x -> take k l = [chr 226; chr 128; e].
Proof.
  intros Hk Ht. destruct l as [|a r]; [by rewrite take_nil in Ht|].
  destruct k as [|k]; [done|].
  assert (a = chr 226) as -> by (simpl in Ht; congruence).
  assert (k = 2%nat) as ->.
  { unfold rune_size in Hk. cbn in Hk. repeat case_match; simplify_eq; done. }
  destruct x as [|y x]; [exact Ht|].
  pose proof (firstn_le_length 3 (chr 226 :: r)) as Hle. rewrite Ht in Hle. simpl in Hle. lia.
Qed.

Lemma unquotes_escape n : forall l rest, (length l <= n)%nat ->
  unquotes (escape_string n l ++ chr 34 :: rest) (sanitize n l) rest.
Proof.
  induction n as [|n IH]; intros l rest Hn.
  { destruct l; [|simpl in Hn; lia]. apply unquotes_quote. }
  destruct l as [|a r]; [apply unquotes_quote|].
  simpl in Hn. cbn [escape_string sanitize].
  destruct (Nat.ltb_spec (nat_of_ascii a) 128).
  { rewrite <- app_assoc. apply unquotes_byte; [done|]. apply IH. lia. }
  destruct (rune_size (a :: r)) as [k|] eqn:Hk.
  2: { rewrite <- app_assoc. apply unquotes_replacement, IH. lia. }
  pose proof (rune_size_Some _ _ Hk) as [Hlen _]. rewrite <- app_assoc.
  assert (unquotes (escape_string n (drop k (a :: r)) ++ chr 34 :: rest)
            (sanitize n (drop k (a :: r))) rest) as Htail.
  { apply IH. rewrite length_drop. simpl in *. lia. }
  destruct (strip_prefix [chr 226; chr 128; chr 168] (take k (a :: r))) as [x|] eqn:E1.
  { apply strip_prefix_spec in E1. rewrite (rune_e280 _ _ _ _ Hk E1). apply unquotes_u2028; auto. }
  destruct (strip_prefix [chr 226; chr 128; chr 169] (take k (a :: r))) as [x|] eqn:E2.
  { apply strip_prefix_spec in E2. rewrite (rune_e280 _ _ _ _ Hk E2). apply unquotes_u2028; auto. }
  by apply unquotes_rune.
Qed.

(** A string literal the encoder wrote reads back as the string, with U+FFFD
    for the bytes that were not UTF-8. *)
Lemma unquote_json_string s rest fuel :
  let l := list_ascii_of_string s in
  (length (escape_string (length l) l ++ chr 34 :: rest) <= fuel)%nat ->
  unquote fuel (escape_string (length l) l ++ chr 34 :: rest) =
  Some (list_ascii_of_string (ToValidUTF8 s), rest).
Proof.
  intros l Hf. unfold ToValidUTF8. rewrite list_ascii_of_string_of_list_ascii.
  by apply unquotes_escape.
Qed.

(** Something is left of every text. *)
Lemma ToValidUTF8_empty s : ToValidUTF8 s = "" <-> s = "".
Proof.
  split; [|by intros ->]. unfold ToValidUTF8. destruct s as [|a s]; [done|]. cbn [list_ascii_of_string].
  set (r := list_ascii_of_string s). cbn [length sanitize]. destruct (Nat.ltb _ _); [done|].
  destruct (rune_size (a :: r)) as [k|] eqn:E; [|done]. apply rune_size_Some in E as [[Hk _] _].
  destruct k as [|k]; [lia|]. done.
Qed.

Lemma valid_utf8_id s : valid_utf8 s = true -> ToValidUTF8 s = s.
Proof. unfold valid_utf8. by intros ?%String.eqb_eq. Qed.
