(* ===== verification/Strconv.v ===== *)
(** * strconv.Atoi, strings.Split and time.RFC3339

    Further pieces of Go's standard library, and the texts of decimal numbers:
    what [pretty] prints reads back. *)

From stdpp Require Import pretty.
From S2P Require Import Prelude GoLib Json.

(** ** strconv.Atoi *)

(** An optional sign and at least one decimal digit, in the range of [int]. *)
Definition Atoi (s : string) : option Z :=
  let l := list_ascii_of_string s in
  let '(negative, d) :=
    match l with
    | a :: r => if Ascii.eqb a (chr 45) then (true, r)
                else if Ascii.eqb a (chr 43) then (false, r) else (false, l)
    | [] => (false, [])
    end in
  match d with
  | [] => None
  | _ =>
      match digits_value d with
      | None => None
      | Some z =>
          let v := if negative then - z else z in
          if (minInt64 <=? v) && (v <=? maxInt64) then Some v else None
      end
  end.

(** ** strings.Split with a one-byte separator *)

Fixpoint split_list (sep : ascii) (l : list ascii) : list (list ascii) :=
  match l with
  | [] => [[]]
  | a :: r =>
      if Ascii.eqb a sep then [] :: split_list sep r
      else match split_list sep r with
           | chunk :: chunks => (a :: chunk) :: chunks
           | [] => [[a]]
           end
  end.

Definition Split (s : string) (sep : ascii) : list string :=
  map string_of_list_ascii (split_list sep (list_ascii_of_string s)).

(** ** time.RFC3339 *)

Definition FormatRFC3339 (t : Time) : string := FormatRFC3339Nano (t / Second * Second).

Example FormatRFC3339_ex :
  FormatRFC3339 ((unixToInternal + 1700000000) * Second + 120000000) = "2023-11-14T22:13:20Z".
Proof. vm_compute. reflexivity. Qed.

Example Atoi_ex : map Atoi ["12"; "-3"; "+4"; "x"; ""; "-"; "99999999999999999999"] =
  [Some 12; Some (-3); Some 4; None; None; None; None].
Proof. vm_compute. reflexivity. Qed.

Example Split_ex : Split "a,,b" (chr 44) = ["a"; ""; "b"].
Proof. vm_compute. reflexivity. Qed.

(** ** Decimal texts *)

Definition digit (a : ascii) : Prop := in_range a 48 57 = true.

(** A number as JSON and Go print it: [0], or digits that do not start with 0. *)
Definition decimal (l : list ascii) : Prop :=
  l = [chr 48] \/ exists a r, l = a :: r /\ in_range a 49 57 = true /\ Forall digit r.

Lemma pretty_N_char_range (x : N) : (x < 10)%N ->
  pretty_N_char x = chr (48 + N.to_nat x).
Proof.
  intros Hx. assert (x ∈ [0; 1; 2; 3; 4; 5; 6; 7; 8; 9]%N) as Hin.
  { rewrite list_elem_of_In. simpl. lia. }
  revert x Hx Hin. intros x _ Hin. rewrite list_elem_of_In in Hin. simpl in Hin.
  repeat (destruct Hin as [<-|Hin]; [reflexivity|]). done.
Qed.

Lemma digit_char n : (n < 10)%nat -> digit (chr (48 + n)) /\ ((0 < n)%nat -> in_range (chr (48 + n)) 49 57 = true).
Proof.
  intros Hn. unfold digit, in_range, chr. rewrite nat_ascii_embedding by lia. split.
  - rewrite (proj2 (Nat.leb_le _ _)), (proj2 (Nat.leb_le _ _)) by lia. done.
  - intros H0. rewrite (proj2 (Nat.leb_le _ _)), (proj2 (Nat.leb_le _ _)) by lia. done.
Qed.

(** [pretty_N_go] puts the digits of a positive number before a text. *)
Lemma pretty_N_go_digits (x : N) : forall s, (0 < x)%N ->
  exists a r, list_ascii_of_string (pretty_N_go x s) = a :: r ++ list_ascii_of_string s /\
              in_range a 49 57 = true /\ Forall digit r.
Proof.
  induction x as [x IH] using (well_founded_ind N.lt_wf_0). intros s Hx.
  rewrite pretty_N_go_step by done. set (c := pretty_N_char (x `mod` 10)).
  assert (x `mod` 10 < 10)%N as Hm by (apply N.mod_lt; done).
  assert (c = chr (48 + N.to_nat (x `mod` 10))) as Hc by (by apply pretty_N_char_range).
  destruct (digit_char (N.to_nat (x `mod` 10)) ltac:(lia)) as [Hd Hp].
  destruct (decide (x `div` 10 = 0)%N) as [E|E].
  - rewrite E, pretty_N_go_0. exists c, []. split_and!; [done| |constructor]. rewrite Hc. apply Hp.
    assert (x = 10 * (x `div` 10) + x `mod` 10)%N by (apply N.div_mod'). lia.
  - destruct (IH (x `div` 10)%N) with (s := String c s) as (a & r & Hl & Ha & Hr);
      [apply N.div_lt; [exact Hx|done]|by apply N.neq_0_lt_0|].
    exists a, (r ++ [c]). rewrite Hl. split_and!; [by rewrite <- app_assoc|done|].
    apply Forall_app. split; [done|]. constructor; [|constructor]. by rewrite Hc.
Qed.

Lemma pretty_N_decimal (n : N) : decimal (list_ascii_of_string (pretty n)).
Proof.
  unfold pretty, pretty_N. case_decide as Hn; [by left|]. right.
  destruct (pretty_N_go_digits n "" ltac:(by apply N.neq_0_lt_0)) as (a & r & Hl & Ha & Hr).
  exists a, r. rewrite Hl. simpl. rewrite app_nil_r. done.
Qed.

(** A minus sign before the digits of a negative number. *)
Lemma pretty_Z_decimal (z : Z) : exists sign d,
  list_ascii_of_string (pretty z) = sign ++ d /\ (sign = [] \/ sign = [chr 45]) /\ decimal d.
Proof.
  destruct z as [|p|p].
  - exists [], [chr 48]. split_and!; [done|by left|by left].
  - exists [], (list_ascii_of_string (pretty (N.pos p))). split_and!; [done|by left|apply pretty_N_decimal].
  - exists [chr 45], (list_ascii_of_string (pretty (N.pos p))). split_and!; [done|by right|apply pretty_N_decimal].
Qed.

Lemma span_digits_all d c r : Forall digit d -> in_range c 48 57 = false ->
  span_digits (d ++ c :: r) = (d, c :: r).
Proof.
  intros Hd Hc. induction Hd as [|a d Ha Hd IH]; simpl; [by rewrite Hc|].
  unfold digit in Ha. by rewrite Ha, IH.
Qed.

(** A character that ends a number: none of the digits, the point and the
    exponent. *)
Definition ends_number (c : ascii) : bool :=
  negb (in_range c 48 57) && negb (Ascii.eqb c (chr 46)) && negb (Ascii.eqb c (chr 101)) && negb (Ascii.eqb c (chr 69)).

Lemma scan_int_decimal d c r : decimal d -> ends_number c = true -> scan_int (d ++ c :: r) = Some (d, c :: r).
Proof.
  unfold ends_number. rewrite !andb_true_iff, !negb_true_iff. intros Hd [[[Hc _] _] _].
  destruct Hd as [->|(a & d' & -> & Ha & Hd)]; [done|]. simpl.
  destruct (Ascii.eqb_spec a (chr 48)) as [->|_]; [done|]. rewrite Ha.
  by rewrite span_digits_all.
Qed.

Lemma scan_number_pretty (z : Z) c r : ends_number c = true ->
  scan_number (list_ascii_of_string (pretty z) ++ c :: r) = Some (list_ascii_of_string (pretty z), c :: r).
Proof.
  intros Hc. destruct (pretty_Z_decimal z) as (sign & d & -> & Hsign & Hd). unfold scan_number.
  rewrite <- app_assoc.
  assert (scan_minus (sign ++ d ++ c :: r) = (sign, d ++ c :: r)) as ->.
  { destruct Hsign as [->| ->]; [|done]. simpl. destruct Hd as [->|(a & d' & -> & Ha & _)]; [done|]. simpl.
    destruct (Ascii.eqb_spec a (chr 45)) as [->|_]; done. }
  rewrite scan_int_decimal by done. unfold ends_number in Hc. rewrite !andb_true_iff, !negb_true_iff in Hc.
  destruct Hc as [[[_ H1] H2] H3]. unfold scan_frac. rewrite H1. unfold scan_exp. rewrite H2, H3. simpl.
  by rewrite app_nil_r.
Qed.

(** ** The values of decimal texts *)

Lemma digits_value_snoc l a z : digits_value l = Some z -> digit a ->
  digits_value (l ++ [a]) = Some (10 * z + Z.of_nat (nat_of_ascii a - 48)).
Proof. unfold digits_value, digit. intros Hl Ha. rewrite foldl_app, Hl. simpl. by rewrite Ha. Qed.

Lemma digit_char_value n : (n < 10)%nat -> (nat_of_ascii (chr (48 + n)) - 48)%nat = n.
Proof. intros Hn. unfold chr. rewrite nat_ascii_embedding by lia. lia. Qed.

(** [pretty_N_go] puts digits of the value of the number before a text. *)
Lemma pretty_N_go_value (x : N) : forall s, exists d, list_ascii_of_string (pretty_N_go x s) = d ++ list_ascii_of_string s /\
  Forall digit d /\ digits_value d = Some (Z.of_N x) /\ forall k, Z.of_N x < 10 ^ Z.of_nat k -> (length d <= k)%nat.
Proof.
  induction x as [x IH] using (well_founded_ind N.lt_wf_0). intros s.
  destruct (decide (x = 0)%N) as [->|Hx].
  { exists []. rewrite pretty_N_go_0. split_and!; [done|constructor|done|simpl; lia]. }
  assert (0 < x)%N as Hpos by lia. rewrite pretty_N_go_step by done.
  assert (x `mod` 10 < 10)%N as Hm by (apply N.mod_lt; done).
  rewrite (pretty_N_char_range _ Hm). set (c := chr (48 + N.to_nat (x `mod` 10))).
  destruct (digit_char (N.to_nat (x `mod` 10)) ltac:(lia)) as [Hd _]. fold c in Hd.
  destruct (IH (x `div` 10)%N ltac:(apply N.div_lt; [exact Hpos|done]) (String c s)) as (d & Hl & Hds & Hv & Hlen).
  exists (d ++ [c]). rewrite Hl, <- app_assoc. split; [done|]. split; [by apply Forall_app; split; [|repeat constructor]|].
  assert (Z.of_N x = 10 * Z.of_N (x `div` 10) + Z.of_N (x `mod` 10)) as Hdm by (pose proof (N.div_mod' x 10); lia).
  split.
  - rewrite (digits_value_snoc _ _ _ Hv Hd). unfold c. rewrite digit_char_value by lia. f_equal. lia.
  - intros k Hk. rewrite length_app. simpl. destruct k as [|k]; [simpl in Hk; lia|].
    assert (length d <= k)%nat; [|lia]. apply Hlen.
    rewrite Nat2Z.inj_succ, Z.pow_succ_r in Hk by lia. revert Hdm Hk.
    generalize (10 ^ Z.of_nat k) (x `div` 10)%N (x `mod` 10)%N. lia.
Qed.

Lemma pretty_value z : 0 <= z -> Forall digit (list_ascii_of_string (pretty z)) /\
  digits_value (list_ascii_of_string (pretty z)) = Some z /\
  forall k, (0 < k)%nat -> z < 10 ^ Z.of_nat k -> (length (list_ascii_of_string (pretty z)) <= k)%nat.
Proof.
  intros Hz. destruct z as [|p|p]; [|clear Hz|lia].
  { split; [by repeat constructor|]. split; [done|]. simpl. lia. }
  change (pretty (Z.pos p)) with (pretty (N.pos p)). unfold pretty, pretty_N. rewrite decide_False by done.
  destruct (pretty_N_go_value (N.pos p) "") as (d & -> & Hd & Hv & Hlen). simpl. rewrite app_nil_r.
  split_and!; [done|exact Hv|]. intros k _. apply Hlen.
Qed.

Lemma digits_value_zeros k l : digits_value (replicate k (chr 48) ++ l) = digits_value l.
Proof. unfold digits_value. induction k as [|k IH]; [done|]. exact IH. Qed.

Lemma length_string s : String.length s = length (list_ascii_of_string s).
Proof. induction s as [|a s IH]; simpl; [done|by rewrite IH]. Qed.

(** A number padded with zeros. *)
Lemma zero_pad_value w z : 0 <= z < 10 ^ Z.of_nat w -> (0 < w)%nat ->
  let l := list_ascii_of_string (zero_pad w (pretty z)) in
  length l = w /\ Forall digit l /\ digits_value l = Some z.
Proof.
  intros [Hz Hw] H0. destruct (pretty_value z Hz) as (Hd & Hv & Hlen). unfold zero_pad.
  rewrite list_ascii_app, list_ascii_of_string_of_list_ascii, length_string. cbv zeta.
  specialize (Hlen w H0 Hw). rewrite length_app, length_replicate, digits_value_zeros.
  split_and!; [lia| |done]. apply Forall_app. split; [|done]. by apply Forall_replicate.
Qed.

Lemma span_digits_end d : Forall digit d -> span_digits d = (d, []).
Proof. induction 1 as [|a d Ha Hd IH]; [done|]. simpl. unfold digit in Ha. by rewrite Ha, IH. Qed.
