(* ===== verification/JsonText.v ===== *)
(** * Objects json.Marshal writes read back

    The parser of [Json] on the texts of [GoLib.json_Marshal]: a map of strings
    and integers is read as an object with the same members, in the order of
    their names, with U+FFFD for what was not UTF-8. *)

From stdpp Require Import pretty.
From S2P Require Import Prelude GoLib Json Strconv.

(** Steps of the parser on texts without white space. *)
Ltac char_step :=
  cbv iota beta zeta;
  repeat match goal with
  | |- context [skip_space (chr ?a :: ?r)] => change (skip_space (chr a :: r)) with (chr a :: r)
  | |- context [Ascii.eqb (chr ?a) (chr ?b)] =>
      let v := eval vm_compute in (Ascii.eqb (chr a) (chr b)) in
      change (Ascii.eqb (chr a) (chr b)) with v
  end;
  cbv iota beta zeta.

Lemma parse_value_string n d r s r' :
  unquote (length r) r = Some (s, r') ->
  parse_value (S n) d (chr 34 :: r) = Some (JsonString (string_of_list_ascii s), r').
Proof. intros H. cbn [parse_value]. char_step. by rewrite H. Qed.

Lemma parse_value_object n d r ms r' :
  parse_members n d (chr 34 :: r) = Some (ms, r') ->
  parse_value (S n) (S d) (chr 123 :: chr 34 :: r) = Some (JsonObject ms, r').
Proof. intros H. cbn [parse_value]. char_step. char_step. by rewrite H. Qed.

Lemma parse_members_next n d r key r1 v r2 ms r3 :
  unquote (length r) r = Some (key, chr 58 :: r1) -> parse_value n d r1 = Some (v, chr 44 :: r2) ->
  parse_members n d r2 = Some (ms, r3) ->
  parse_members (S n) d (chr 34 :: r) = Some ((string_of_list_ascii key, v) :: ms, r3).
Proof.
  intros Hk Hv Hm. cbn [parse_members]. char_step. rewrite Hk. char_step. rewrite Hv. char_step.
  by rewrite Hm.
Qed.

Lemma parse_members_last n d r key r1 v r2 :
  unquote (length r) r = Some (key, chr 58 :: r1) -> parse_value n d r1 = Some (v, chr 125 :: r2) ->
  parse_members (S n) d (chr 34 :: r) = Some ([(string_of_list_ascii key, v)], r2).
Proof. intros Hk Hv. cbn [parse_members]. char_step. rewrite Hk. char_step. by rewrite Hv. Qed.

(** ** Values *)

(** What the parser makes of an encoded value. *)
Definition decoded (v : jvalue) : json :=
  match v with
  | JStr s => JsonString (ToValidUTF8 s)
  | JInt z => JsonNumber (list_ascii_of_string (pretty z))
  end.

Lemma json_string_list s : list_ascii_of_string (json_string s) =
  chr 34 :: escape_string (length (list_ascii_of_string s)) (list_ascii_of_string s) ++ [chr 34].
Proof. unfold json_string. by rewrite list_ascii_of_string_of_list_ascii. Qed.

Lemma unquote_text s r : let t := escape_string (length (list_ascii_of_string s)) (list_ascii_of_string s) in
  unquote (length (t ++ chr 34 :: r)) (t ++ chr 34 :: r) = Some (list_ascii_of_string (ToValidUTF8 s), r).
Proof. by apply unquote_json_string. Qed.

(** The first character of a number. *)
Definition starts_number (a : ascii) : bool := in_range a 48 57 || Ascii.eqb a (chr 45).

Lemma pretty_starts (z : Z) : exists a r, list_ascii_of_string (pretty z) = a :: r /\ starts_number a = true.
Proof.
  assert (forall d, decimal d -> exists a r, d = a :: r /\ starts_number a = true) as Hd.
  { intros d [->|(a & r & -> & Ha & _)]; [by eexists _, _|]. exists a, r. split; [done|].
    unfold starts_number, in_range in *. apply andb_true_iff in Ha as [Ha1 Ha2].
    apply Nat.leb_le in Ha1, Ha2. rewrite (proj2 (Nat.leb_le _ _)), (proj2 (Nat.leb_le _ _)) by lia. done. }
  destruct (pretty_Z_decimal z) as (sign & d & -> & [->| ->] & Hdec); [by apply Hd|]. by eexists _, _.
Qed.

Lemma parse_number_start n d a r lit r' : starts_number a = true -> scan_number (a :: r) = Some (lit, r') ->
  parse_value (S n) d (a :: r) = Some (JsonNumber lit, r').
Proof.
  intros Ha Hs. cbn [parse_value].
  assert (skip_space (a :: r) = a :: r) as ->.
  { destruct a as [[] [] [] [] [] [] [] []]; vm_compute in Ha; try discriminate Ha; reflexivity. }
  rewrite Hs.
  destruct a as [[] [] [] [] [] [] [] []]; vm_compute in Ha; try discriminate Ha; reflexivity.
Qed.

Lemma parse_jvalue n d v c r : ends_number c = true ->
  parse_value (S n) d (list_ascii_of_string (json_value v) ++ c :: r) = Some (decoded v, c :: r).
Proof.
  intros Hc. destruct v as [s|z]; simpl json_value; cbn [decoded].
  - rewrite json_string_list. cbn [app]. rewrite <- app_assoc. cbn [app].
    rewrite <- (string_of_list_ascii_of_string (ToValidUTF8 s)). apply parse_value_string. apply unquote_text.
  - pose proof (scan_number_pretty z c r Hc) as Hs. destruct (pretty_starts z) as (a & t & E & Ha).
    rewrite E in *. by apply parse_number_start.
Qed.

(** ** Objects *)

Definition member_text (kv : string * jvalue) : string := json_string (fst kv) +:+ ":" +:+ json_value (snd kv).

Definition decoded_member (kv : string * jvalue) : string * json := (ToValidUTF8 (fst kv), decoded (snd kv)).

Lemma member_text_list kv c r : list_ascii_of_string (member_text kv) ++ c :: r =
  chr 34 :: (escape_string (length (list_ascii_of_string (fst kv))) (list_ascii_of_string (fst kv)) ++
  chr 34 :: chr 58 :: list_ascii_of_string (json_value (snd kv)) ++ c :: r).
Proof.
  unfold member_text. rewrite !list_ascii_app, json_string_list. simpl. by rewrite <- !app_assoc.
Qed.

Lemma parse_members_text l : forall n d r, l <> [] -> (length l < n)%nat ->
  parse_members n d (list_ascii_of_string (join_comma (map member_text l)) ++ chr 125 :: r) =
  Some (map decoded_member l, r).
Proof.
  induction l as [|kv l IH]; intros n d r Hne Hn; [done|]. simpl in Hn.
  destruct n as [|[|n]]; [lia|lia|]. destruct kv as [k v]. cbn [map].
  unfold decoded_member at 1. cbn [fst snd]. rewrite <- (string_of_list_ascii_of_string (ToValidUTF8 k)).
  destruct l as [|kv' l].
  - cbn [map join_comma]. rewrite member_text_list. cbn [fst snd].
    eapply parse_members_last; [apply unquote_text|]. by apply parse_jvalue.
  - change (join_comma (member_text (k, v) :: map member_text (kv' :: l)))
      with (member_text (k, v) +:+ "," +:+ join_comma (map member_text (kv' :: l))).
    rewrite !list_ascii_app, <- !app_assoc. cbn [list_ascii_of_string app].
    rewrite member_text_list. cbn [fst snd].
    eapply parse_members_next; [apply unquote_text|by apply parse_jvalue|]. apply IH; [done|lia].
Qed.

Lemma members_text_start l : l <> [] -> exists t, list_ascii_of_string (join_comma (map member_text l)) = chr 34 :: t.
Proof.
  destruct l as [|kv [|kv' l]]; intros H; [done| |];
    cbn [map join_comma]; unfold member_text; rewrite !list_ascii_app, json_string_list; by eexists.
Qed.

Lemma members_text_length l : (length l <= length (list_ascii_of_string (join_comma (map member_text l))))%nat.
Proof.
  induction l as [|kv l IH]; [simpl; lia|].
  assert (1 <= length (list_ascii_of_string (member_text kv)))%nat as H1.
  { unfold member_text. rewrite !list_ascii_app, json_string_list, !length_app. simpl. lia. }
  destruct l as [|kv' l]; [simpl in *; lia|].
  change (join_comma (map member_text (kv :: kv' :: l)))
    with (member_text kv +:+ "," +:+ join_comma (map member_text (kv' :: l))).
  rewrite !list_ascii_app, !length_app. simpl length at 1. simpl in IH |- *. lia.
Qed.

Lemma json_parse_marshal m : json_parse (json_Marshal m) = Some (JsonObject (map decoded_member (sorted_members m))).
Proof.
  unfold json_parse, json_Marshal. fold member_text. set (l := sorted_members m). clearbody l.
  change (map (fun kv => json_string kv.1 +:+ ":" +:+ json_value kv.2) l) with (map member_text l).
  rewrite !list_ascii_app. cbn [list_ascii_of_string app].
  change "{"%char with (chr 123). change "}"%char with (chr 125).
  destruct (decide (l = [])) as [->|Hne]; [reflexivity|].
  pose proof (members_text_length l) as Hlen. destruct (members_text_start l Hne) as [t Ht].
  set (txt := list_ascii_of_string (join_comma (map member_text l))) in *.
  set (n := (2 * length (chr 123 :: txt ++ [chr 125]) + 1)%nat).
  assert (exists k, n = S k /\ (length l < k)%nat) as (k & -> & Hk).
  { exists (2 * length (chr 123 :: txt ++ [chr 125]))%nat. split; [unfold n; lia|].
    simpl. rewrite length_app. simpl. lia. }
  change maxNestingDepth with (S 9999).
  pose proof (parse_members_text l k 9999 [] Hne Hk) as Hp. fold txt in Hp. rewrite Ht in Hp |- *.
  cbn [app] in Hp |- *.
  rewrite (parse_value_object _ _ _ _ _ Hp). reflexivity.
Qed.
