(* ===== verification/Sha256.v ===== *)
(** * crypto/sha256 and encoding/hex

    [sha256.Sum256] on 32-bit words (FIPS 180-4) and [hex.EncodeToString]. *)

From S2P Require Import Prelude GoLib.

Definition wrap32 (z : Z) : Z := z mod 2 ^ 32.
Definition rotr (x n : Z) : Z := Z.lor (Z.shiftr x n) (wrap32 (Z.shiftl x (32 - n))).
Definition not32 (x : Z) : Z := Z.lxor x (2 ^ 32 - 1).

(** The constants of the standard: the first 32 bits of the fractional parts of
    the cube roots of the first 64 primes (round constants) and of the square
    roots of the first 8 (initial hash). *)
Definition is_prime (n : nat) : bool :=
  forallb (fun d => negb (n mod d =? 0)%nat) (seq 2 (n - 2)).

Definition primes : list Z := map Z.of_nat (List.filter is_prime (seq 2 310)).

(** The largest [r] with [r ^ 3 <= n] among [lo .. lo + 2 ^ bits - 1]. *)
Fixpoint cube_root (bits : nat) (lo n : Z) : Z :=
  match bits with
  | O => lo
  | S bits =>
      let mid := lo + 2 ^ Z.of_nat bits in
      if mid * mid * mid <=? n then cube_root bits mid n else cube_root bits lo n
  end.

Definition round_constants : list Z :=
  Eval vm_compute in map (fun p => wrap32 (cube_root 40 0 (p * 2 ^ 96))) primes.

Definition initial_hash : list Z :=
  Eval vm_compute in map (fun p => wrap32 (Z.sqrt (p * 2 ^ 64))) (take 8 primes).

(** The words of a message, big endian. *)
Fixpoint words (l : list Z) : list Z :=
  match l with
  | a :: b :: c :: d :: r => (((a * 256 + b) * 256 + c) * 256 + d) :: words r
  | _ => []
  end.

Definition be_bytes (n : nat) (z : Z) : list Z :=
  map (fun i => Z.shiftr z (8 * Z.of_nat i) mod 256) (rev (seq 0 n)).

Definition pad (m : list Z) : list Z :=
  let len := Z.of_nat (length m) in
  m ++ [128] ++ replicate (Z.to_nat ((55 - len) mod 64)) 0 ++ be_bytes 8 (len * 8).

(** The message schedule, kept as the last 16 words, newest first. *)
Definition next_word (w : list Z) : Z :=
  let at_ i := nth i w 0 in
  let s0 x := Z.lxor (rotr x 7) (Z.lxor (rotr x 18) (Z.shiftr x 3)) in
  let s1 x := Z.lxor (rotr x 17) (Z.lxor (rotr x 19) (Z.shiftr x 10)) in
  wrap32 (s1 (at_ 1%nat) + at_ 6%nat + s0 (at_ 14%nat) + at_ 15%nat).

Definition sha_round (h : list Z) (k w : Z) : list Z :=
  match h with
  | [a; b; c; d; e; f; g; i] =>
      let s1 := Z.lxor (rotr e 6) (Z.lxor (rotr e 11) (rotr e 25)) in
      let ch := Z.lxor (Z.land e f) (Z.land (not32 e) g) in
      let t1 := wrap32 (i + s1 + ch + k + w) in
      let s0 := Z.lxor (rotr a 2) (Z.lxor (rotr a 13) (rotr a 22)) in
      let maj := Z.lxor (Z.land a b) (Z.lxor (Z.land a c) (Z.land b c)) in
      let t2 := wrap32 (s0 + maj) in
      [wrap32 (t1 + t2); a; b; c; wrap32 (d + t1); e; f; g]
  | _ => h
  end.

(** [todo] are the block's words not used yet; after them the schedule grows
    by [next_word]. *)
Fixpoint rounds (ks : list Z) (todo recent : list Z) (h : list Z) : list Z :=
  match ks with
  | [] => h
  | k :: ks =>
      let '(w, todo) := match todo with
                        | w :: todo => (w, todo)
                        | [] => (next_word recent, [])
                        end in
      rounds ks todo (w :: take 15 recent) (sha_round h k w)
  end.

Definition compress (h block : list Z) : list Z :=
  zip_with (fun a b => wrap32 (a + b)) h (rounds round_constants block [] h).

Fixpoint blocks (fuel : nat) (h : list Z) (ws : list Z) : list Z :=
  match fuel, ws with
  | O, _ | _, [] => h
  | S n, _ => blocks n (compress h (take 16 ws)) (drop 16 ws)
  end.

Definition byte_of (a : ascii) : Z := Z.of_nat (nat_of_ascii a).

Definition Sum256 (data : bytes) : list Z :=
  let ws := words (pad (map byte_of (list_ascii_of_string data))) in
  mjoin (map (be_bytes 4) (blocks (length ws) initial_hash ws)).

Definition EncodeToString (src : list Z) : string :=
  string_of_list_ascii
    (mjoin (map (fun b => [hex_digit (Z.to_nat (b / 16)); hex_digit (Z.to_nat (b mod 16))]) src)).

Example sha256_empty : EncodeToString (Sum256 "")
  = "e3b0c44298fc1c149afbf4c8996fb92427ae41e4649b934ca495991b7852b855".
Proof. vm_compute. reflexivity. Qed.

Example sha256_abc : EncodeToString (Sum256 "abc")
  = "ba7816bf8f01cfea414140de5dae2223b00361a396177a9cb410ff61f20015ad".
Proof. vm_compute. reflexivity. Qed.

Example sha256_two_blocks :
  EncodeToString (Sum256 "abcdbcdecdefdefgefghfghighijhijkijkljklmklmnlmnomnopnopq")
  = "248d6a61d20638b8e5c026930c3e6039a33ce45964ff2167f6ecedd419db06c1".
Proof. vm_compute. reflexivity. Qed.

(** ** The shape of a digest *)

Lemma sha_round_length h k w : length h = 8%nat -> length (sha_round h k w) = 8%nat.
Proof. destruct h as [|a [|b [|c [|d [|e [|f [|g [|i [|x h]]]]]]]]]; simpl; done. Qed.

Lemma rounds_length ks : forall todo recent h, length h = 8%nat -> length (rounds ks todo recent h) = 8%nat.
Proof.
  induction ks as [|k ks IH]; intros todo recent h Hh; simpl; [done|].
  destruct todo; apply IH; by apply sha_round_length.
Qed.

Lemma blocks_length fuel : forall h ws, length h = 8%nat -> length (blocks fuel h ws) = 8%nat.
Proof.
  induction fuel as [|n IH]; intros h ws Hh; simpl; [done|]. destruct ws as [|w ws]; [done|].
  apply IH. unfold compress. rewrite length_zip_with, rounds_length by done. lia.
Qed.

Definition is_byte (b : Z) : Prop := 0 <= b < 256.

Lemma Sum256_shape data : Forall is_byte (Sum256 data) /\ Sum256 data <> [].
Proof.
  unfold Sum256. set (ws := words _).
  pose proof (blocks_length (length ws) initial_hash ws eq_refl) as Hlen.
  destruct (blocks (length ws) initial_hash ws) as [|z l]; [done|]. split; [|done].
  apply Forall_forall. intros b (x & Hx & Hin)%list_elem_of_join.
  apply list_elem_of_fmap in Hin as (y & -> & _).
  apply list_elem_of_fmap in Hx as (i & -> & _). unfold is_byte. apply Z.mod_pos_bound. lia.
Qed.

Lemma hex_digit_solid n : (n < 16)%nat -> solid (hex_digit n) = true.
Proof. intros H. do 16 (destruct n as [|n]; [reflexivity|]). lia. Qed.

(** The hexadecimal text of a digest is not blank and has nothing to trim. *)
Lemma Encode_solid src : Forall is_byte src ->
  Forall (fun a => solid a = true) (list_ascii_of_string (EncodeToString src)).
Proof.
  intros H. unfold EncodeToString. rewrite list_ascii_of_string_of_list_ascii.
  induction H as [|b l Hb _ IH]; simpl; [constructor|]. unfold is_byte in Hb.
  assert (0 <= b / 16 < 16) by (split; [apply Z.div_pos; lia|apply Z.div_lt_upper_bound; lia]).
  pose proof (Z.mod_pos_bound b 16).
  repeat constructor; [apply hex_digit_solid; lia..|exact IH].
Qed.

Lemma digest_text data :
  let h := EncodeToString (Sum256 data) in TrimSpace h = h /\ h <> "".
Proof.
  destruct (Sum256_shape data) as [Hb Hne]. simpl. split.
  - by apply TrimSpace_solid, Encode_solid.
  - destruct (Sum256 data) as [|b l]; [done|]. done.
Qed.
