(* ===== verification/Float64.v ===== *)
(** * float64

    Go's [float64] as the Standard Library's executable model of IEEE 754
    (binary64: precision 53, exponent limit 1024), with the conversions the
    service uses. *)

From Stdlib Require Export SpecFloat.
From S2P Require Import Prelude.

Definition float64 := spec_float.

Definition float64_of_int (z : Z) : float64 := binary_normalize 53 1024 z 0 false.

Definition float64_mul (a b : float64) : float64 := SFmul 53 1024 a b.

(** Conversion to an integer truncates; what does not fit is the smallest
    integer, as on amd64. *)
Definition int_of_float64 (f : float64) : Z :=
  match f with
  | S754_zero _ => 0
  | S754_finite sign m e =>
      let abs := if 0 <=? e then Z.pos m * 2 ^ e else Z.pos m / 2 ^ (- e) in
      let z := if (sign : bool) then - abs else abs in
      if (minInt64 <=? z) && (z <=? maxInt64) then z else minInt64
  | _ => minInt64
  end.

Definition float64_div (a b : float64) : float64 := SFdiv 53 1024 a b.

Definition float64_add (a b : float64) : float64 := SFadd 53 1024 a b.
Definition float64_sub (a b : float64) : float64 := SFsub 53 1024 a b.
Definition is_NaN (f : float64) : bool := match f with S754_nan => true | _ => false end.

(** The order of [sort.Float64s]: NaN first. *)
Definition float64_less (a b : float64) : bool := SFltb a b || (is_NaN a && negb (is_NaN b)).

(** The integer part of a finite value, towards minus infinity; [math.Floor]
    and [math.Ceil] are the identity on zero, infinities and NaN. *)
Definition floor_int (f : float64) : Z :=
  match f with
  | S754_finite sign m e =>
      let z := if (sign : bool) then Z.neg m else Z.pos m in
      if 0 <=? e then z * 2 ^ e else z / 2 ^ (- e)
  | _ => 0
  end.

Definition Floor (f : float64) : float64 :=
  match f with S754_finite _ _ _ => float64_of_int (floor_int f) | _ => f end.

Definition Ceil (f : float64) : float64 := SFopp (Floor (SFopp f)).

(** [Duration.Seconds]: whole seconds and the fraction, added as float64. *)
Definition Seconds (d : Duration) : float64 :=
  SFadd 53 1024 (float64_of_int (Z.quot d Second))
    (float64_div (float64_of_int (Z.rem d Second)) (float64_of_int Second)).
