(* ===== verification/Rounding.v ===== *)
(** * Rounding of float64 values

    Facts about the rounding of [SpecFloat]: integers below 2^53 are exact, and
    a fraction of such an integer does not round to more than it. *)

From S2P Require Import Prelude Float64.

Lemma digits2_log2 p : Z.pos (digits2_pos p) = Z.log2 (Z.pos p) + 1.
Proof.
  assert (digits2_pos p = Pos.size p) as ->.
  { induction p as [p IH|p IH|]; simpl; [by rewrite IH..|done]. }
  destruct p as [p|p|]; simpl; lia.
Qed.

Lemma Zdigits2_bounds m : 0 < m -> 2 ^ (Zdigits2 m - 1) <= m < 2 ^ Zdigits2 m.
Proof.
  intros H. destruct m as [|p|p]; try lia. unfold Zdigits2. rewrite digits2_log2.
  rewrite Z.add_simpl_r. apply Z.log2_spec. lia.
Qed.

Lemma Zdigits2_unique m d : 0 < d -> 2 ^ (d - 1) <= m < 2 ^ d -> Zdigits2 m = d.
Proof.
  intros Hd Hm. assert (0 < m) as Hpos by (pose proof (Z.pow_pos_nonneg 2 (d - 1)); lia).
  destruct m as [|p|p]; try lia. unfold Zdigits2. rewrite digits2_log2.
  rewrite (Z.log2_unique (Z.pos p) (d - 1)); [lia..|]. replace (Z.succ (d - 1)) with d by lia. lia.
Qed.

(** ** Shifting to the right *)

Lemma iter_pos_nat {A} (f : A -> A) n : forall x, iter_pos f n x = Nat.iter (Pos.to_nat n) f x.
Proof.
  induction n as [n IH|n IH|]; intros x; cbn [iter_pos]; [| |done].
  - rewrite !IH, <- Nat.iter_add, Nat.iter_swap, Pos2Nat.inj_xI. by replace (Pos.to_nat n + Pos.to_nat n)%nat with (2 * Pos.to_nat n)%nat by lia.
  - rewrite !IH, <- Nat.iter_add, Pos2Nat.inj_xO. f_equal. lia.
Qed.

Lemma shr_1_m r : 0 <= shr_m r -> shr_m (shr_1 r) = shr_m r / 2.
Proof.
  destruct r as [m rr rs]. simpl. intros H. destruct m as [|p|p]; [done| |lia].
  rewrite <- Z.div2_div. destruct p; done.
Qed.

Lemma shr_iter k : forall r, 0 <= shr_m r -> shr_m (Nat.iter k shr_1 r) = shr_m r / 2 ^ Z.of_nat k.
Proof.
  induction k as [|k IH]; intros r H; [by rewrite Z.div_1_r|].
  change (Nat.iter (S k) shr_1 r) with (shr_1 (Nat.iter k shr_1 r)).
  assert (0 <= shr_m r / 2 ^ Z.of_nat k) by (apply Z.div_pos; lia).
  rewrite shr_1_m, IH by (rewrite ?IH; done). rewrite Z.div_div by lia.
  f_equal. rewrite Nat2Z.inj_succ, Z.pow_succ_r; lia.
Qed.

Lemma shr_shift r e s : 0 <= shr_m r -> 0 <= s -> shr_m (shr r e s).1 = shr_m r / 2 ^ s /\ (shr r e s).2 = e + s.
Proof.
  intros Hr Hs. destruct s as [|p|p]; simpl; [by rewrite Z.div_1_r, Z.add_0_r| |lia].
  rewrite iter_pos_nat, shr_iter by done. by rewrite positive_nat_Z.
Qed.

Lemma round_choice m l : m <= round_nearest_even m l <= m + 1.
Proof. destruct l as [|[]]; simpl; try lia. destruct (Z.even m); lia. Qed.

(** ** Rounding to 53 bits *)

(** Nothing is lost of 53 bits. *)
Lemma round_exact sign m e : 2 ^ 52 <= Z.pos m < 2 ^ 53 -> -1074 <= e <= 971 ->
  binary_round_aux 53 1024 sign (Z.pos m) e loc_Exact = S754_finite sign m e.
Proof.
  intros Hm He. unfold binary_round_aux, shr_fexp.
  assert (Zdigits2 (Z.pos m) = 53) as Hd by (apply Zdigits2_unique; lia). rewrite Hd.
  assert (fexp 53 1024 (53 + e) - e = 0) as Hf by (unfold fexp, emin; lia). rewrite Hf.
  cbn [shr shr_m loc_of_shr_record shr_record_of_loc round_nearest_even]. rewrite Hd, Hf. cbn [shr shr_m].
  change (1024 - 53) with 971.
  destruct (Z.leb_spec e 971); [done|lia].
Qed.

(** More bits are rounded to a neighbour. *)
Lemma round_wide sign m e d : Zdigits2 (Z.pos m) = d -> 53 < d -> -1074 <= e + (d - 53) <= 970 ->
  exists r, Z.pos m / 2 ^ (d - 53) <= r <= Z.pos m / 2 ^ (d - 53) + 1 /\
    ((r < 2 ^ 53 /\ binary_round_aux 53 1024 sign (Z.pos m) e loc_Exact = S754_finite sign (Z.to_pos r) (e + (d - 53))) \/
     (r = 2 ^ 53 /\ binary_round_aux 53 1024 sign (Z.pos m) e loc_Exact = S754_finite sign (2 ^ 52) (e + (d - 53) + 1))).
Proof.
  intros Hd Hwide He. unfold binary_round_aux, shr_fexp. rewrite Hd.
  assert (fexp 53 1024 (d + e) - e = d - 53) as -> by (unfold fexp, emin; lia).
  destruct (shr_shift (shr_record_of_loc (Z.pos m) loc_Exact) e (d - 53)) as [H1 H2]; [simpl; lia|lia|].
  destruct (shr _ _ _) as [mrs e']. simpl in H1, H2. subst e'.
  pose proof (round_choice (shr_m mrs) (loc_of_shr_record mrs)) as Hr.
  set (r := round_nearest_even _ _) in *. exists r. split; [lia|].
  pose proof (Zdigits2_bounds (Z.pos m)) as Hb. rewrite Hd in Hb.
  assert (2 ^ 52 <= Z.pos m / 2 ^ (d - 53) < 2 ^ 53) as Hq.
  { assert (2 ^ (d - 1) = 2 ^ 52 * 2 ^ (d - 53)) as E1 by (rewrite <- Z.pow_add_r by lia; f_equal; lia).
    assert (2 ^ d = 2 ^ 53 * 2 ^ (d - 53)) as E2 by (rewrite <- Z.pow_add_r by lia; f_equal; lia).
    assert (0 < 2 ^ (d - 53)) by (apply Z.pow_pos_nonneg; lia).
    split; [apply Z.div_le_lower_bound; lia|apply Z.div_lt_upper_bound; lia]. }
  destruct (Z.lt_ge_cases r (2 ^ 53)) as [Hlt|Hge]; [left|right]; (split; [lia|]).
  - assert (Zdigits2 r = 53) as -> by (apply Zdigits2_unique; lia).
    assert (fexp 53 1024 (53 + (e + (d - 53))) - (e + (d - 53)) = 0) as -> by (unfold fexp, emin; lia).
    cbn [shr shr_m shr_record_of_loc]. change (1024 - 53) with 971.
    destruct r as [|p|p]; try lia. destruct (Z.leb_spec (e + (d - 53)) 971); [done|lia].
  - assert (r = 2 ^ 53) as Er by lia. clearbody r. subst r.
    assert (Zdigits2 (2 ^ 53) = 54) as -> by (by vm_compute).
    assert (fexp 53 1024 (54 + (e + (d - 53))) - (e + (d - 53)) = 1) as -> by (unfold fexp, emin; lia).
    cbn [shr iter_pos shr_record_of_loc]. change (1024 - 53) with 971.
    change (shr_1 (Build_shr_record (2 ^ 53) false false)) with (Build_shr_record (2 ^ 52) false false). cbn [shr_m].
    destruct (Z.leb_spec (e + (d - 53) + 1) 971); [done|lia].
Qed.

(** ** Integers *)

Lemma iter_xO p d : Z.pos (Pos.iter xO p d) = Z.pos p * 2 ^ Z.pos d.
Proof.
  revert p. induction d as [|d IH] using Pos.peano_ind; intros p; [cbn [Pos.iter]; lia|].
  rewrite Pos.iter_succ, Pos2Z.inj_xO, IH, Pos2Z.inj_succ, Z.pow_succ_r; lia.
Qed.

Lemma shl_align_shape m d : d <= 0 -> shl_align m 0 d = (Z.to_pos (Z.pos m * 2 ^ (- d)), d).
Proof.
  intros H. unfold shl_align. rewrite Z.sub_0_r. destruct d as [|p|p]; [by rewrite Z.mul_1_r|lia|].
  f_equal. apply Pos2Z.inj. rewrite iter_xO, Z2Pos.id; [done|]. apply Z.mul_pos_pos; [lia|]. apply Z.pow_pos_nonneg; lia.
Qed.

(** An integer below 2^53 is a float64, with a normalised mantissa. *)
Lemma binary_round_shape p : Z.pos p < 2 ^ 53 -> exists m e,
  (forall sign, binary_round 53 1024 sign p 0 = S754_finite sign m e) /\ 2 ^ 52 <= Z.pos m < 2 ^ 53 /\ -52 <= e <= 0 /\ Z.pos m = Z.pos p * 2 ^ (- e).
Proof.
  intros Hz. set (d := Z.pos (digits2_pos p)).
  pose proof (Zdigits2_bounds (Z.pos p) ltac:(lia)) as Hb. change (Zdigits2 (Z.pos p)) with d in Hb.
  assert (1 <= d <= 53) as Hd.
  { split; [unfold d; lia|]. destruct (Z.le_gt_cases d 53); [done|].
    pose proof (Z.pow_le_mono_r 2 53 (d - 1)). lia. }
  assert (2 ^ 52 = 2 ^ (d - 1) * 2 ^ (53 - d) /\ 2 ^ 53 = 2 ^ d * 2 ^ (53 - d)) as [E1 E2]
    by (rewrite <- !Z.pow_add_r by lia; split; f_equal; lia).
  assert (0 < 2 ^ (53 - d)) by (apply Z.pow_pos_nonneg; lia).
  set (m := Z.pos p * 2 ^ (53 - d)). assert (2 ^ 52 <= m < 2 ^ 53) as Hm by (unfold m; nia).
  exists (Z.to_pos m), (d - 53). rewrite Z2Pos.id by lia. split_and!; try lia; [|unfold m; f_equal; f_equal; lia].
  intros sign. unfold binary_round. fold d. rewrite Z.add_0_r.
  assert (fexp 53 1024 d = d - 53) as -> by (unfold fexp, emin; lia). rewrite shl_align_shape by lia.
  replace (- (d - 53)) with (53 - d) by lia. fold m.
  apply round_exact; [rewrite Z2Pos.id; lia|lia].
Qed.

Lemma float64_of_int_shape z : 0 < z < 2 ^ 53 -> exists m e,
  float64_of_int z = S754_finite false m e /\ 2 ^ 52 <= Z.pos m < 2 ^ 53 /\ -52 <= e <= 0 /\ Z.pos m = z * 2 ^ (- e).
Proof.
  intros Hz. destruct z as [|p|p]; try lia. destruct (binary_round_shape p) as (m & e & H & ?); [lia|].
  exists m, e. split; [apply H|done].
Qed.

Lemma float64_of_int_opp z : 0 < z < 2 ^ 53 -> SFopp (float64_of_int (- z)) = float64_of_int z.
Proof.
  intros Hz. destruct z as [|p|p]; try lia. destruct (binary_round_shape p) as (m & e & H & _); [lia|].
  change (SFopp (binary_round 53 1024 true p 0) = binary_round 53 1024 false p 0). by rewrite !H.
Qed.

(** Below 2^53 the conversions are inverse. *)
Lemma int_of_float64_of_int z : 0 <= z < 2 ^ 53 -> int_of_float64 (float64_of_int z) = z.
Proof.
  intros Hz. destruct (decide (z = 0)) as [->|]; [done|].
  destruct (float64_of_int_shape z) as (m & e & -> & Hm & He & Hv); [lia|]. simpl.
  assert (0 < 2 ^ (- e)) by (apply Z.pow_pos_nonneg; lia).
  destruct (Z.leb_spec 0 e) as [He0|He0]; rewrite Hv.
  - assert (e = 0) as -> by lia. simpl. rewrite !Z.mul_1_r. unfold minInt64, maxInt64.
    destruct (Z.leb_spec (- 2 ^ 63) z); [|lia]. destruct (Z.leb_spec z (2 ^ 63 - 1)); [done|lia].
  - rewrite Z.div_mul by lia. unfold minInt64, maxInt64.
    destruct (Z.leb_spec (- 2 ^ 63) z); [|lia]. destruct (Z.leb_spec z (2 ^ 63 - 1)); [done|lia].
Qed.

(** A fraction of an integer, rounded, is at most the integer. *)
Lemma fraction_le f z : 2 ^ 52 <= Z.pos f < 2 ^ 53 -> 0 < z < 2 ^ 53 -> exists m e,
  float64_mul (S754_finite false f (-53)) (float64_of_int z) = S754_finite false m e /\ e <= 0 /\
  Z.pos m <= z * 2 ^ (- e).
Proof.
  intros Hf Hz. destruct (float64_of_int_shape z Hz) as (mk & ek & -> & Hk & Hek & Hv).
  unfold float64_mul, SFmul. cbn [xorb]. set (M := (f * mk)%positive).
  assert (Z.pos M = Z.pos f * Z.pos mk) as HM by (apply Pos2Z.inj_mul).
  set (d := Zdigits2 (Z.pos M)).
  assert (d = 105 \/ d = 106) as Hd.
  { destruct (Z.lt_ge_cases (Z.pos M) (2 ^ 105)); [left|right]; apply Zdigits2_unique; nia. }
  destruct (round_wide false M (-53 + ek) d eq_refl) as (r & Hr & Hround); [lia|lia|].
  assert (r <= Z.pos mk * 2 ^ (106 - d)) as Hle.
  { assert (Z.pos M / 2 ^ (d - 53) < Z.pos mk * 2 ^ (106 - d)); [|lia].
    apply Z.div_lt_upper_bound; [apply Z.pow_pos_nonneg; lia|].
    assert (2 ^ (d - 53) * 2 ^ (106 - d) = 2 ^ 53) by (rewrite <- Z.pow_add_r by lia; f_equal; lia). nia. }
  assert (0 < r).
  { assert (0 < Z.pos M / 2 ^ (d - 53)); [|lia]. apply Z.div_str_pos. destruct Hd as [-> | ->]; nia. }
  assert (0 < 2 ^ (- ek)) by (apply Z.pow_pos_nonneg; lia).
  destruct Hround as [[Hlt Hround]|[Heq Hround]]; rewrite Hround; eexists _, _; (split; [reflexivity|]).
  - rewrite Z2Pos.id by done. split; [lia|].
    replace (- (-53 + ek + (d - 53))) with (- ek + (106 - d)) by lia. rewrite Z.pow_add_r by lia. lia.
  - destruct Hd as [Hd|Hd]; rewrite Hd in *; [|lia].
    replace (- (-53 + ek + (105 - 53) + 1)) with (- ek) by lia. lia.
Qed.

(** Its integer parts are in range. *)
Lemma fraction_floor f z : 2 ^ 52 <= Z.pos f < 2 ^ 53 -> 0 < z < 2 ^ 53 ->
  let r := float64_mul (S754_finite false f (-53)) (float64_of_int z) in
  0 <= int_of_float64 (Floor r) <= z /\ 0 <= int_of_float64 (Ceil r) <= z.
Proof.
  intros Hf Hz. destruct (fraction_le f z Hf Hz) as (m & e & -> & He & Hm). cbv zeta.
  assert (0 < 2 ^ (- e)) as Hpow by (apply Z.pow_pos_nonneg; lia).
  set (r := S754_finite false m e).
  assert (0 <= floor_int r <= z) as Hfloor.
  { simpl. destruct (Z.leb_spec 0 e) as [?|?].
    - assert (e = 0) as -> by lia. lia.
    - split; [apply Z.div_pos; lia|apply Z.div_le_upper_bound; lia]. }
  assert (0 <= - floor_int (SFopp r) <= z) as Hceil.
  { simpl. destruct (Z.leb_spec 0 e) as [?|?].
    - assert (e = 0) as -> by lia. lia.
    - change (Z.neg m) with (- Z.pos m). pose proof (Z.div_le_lower_bound (- Z.pos m) (2 ^ (- e)) (- z)).
      pose proof (Z.div_lt_upper_bound (- Z.pos m) (2 ^ (- e)) 0). lia. }
  split.
  - change (Floor r) with (float64_of_int (floor_int r)). rewrite int_of_float64_of_int; lia.
  - change (Ceil r) with (SFopp (float64_of_int (floor_int (SFopp r)))). set (c := floor_int (SFopp r)) in *. clearbody c.
    destruct (decide (c = 0)) as [->|]; [simpl; lia|].
    replace c with (- - c) by lia. rewrite float64_of_int_opp, int_of_float64_of_int; lia.
Qed.
