(* ===== verification/JsonStruct.v ===== *)
(** * json.Unmarshal into a struct

    The fields of a struct from the members of an object, [json.RawMessage]
    fields and fields with an [UnmarshalJSON] of their own from the texts of the
    values, and the values of type [any].  What [json.Marshal] writes for a
    struct is read member by member. *)

From stdpp Require Import pretty.
From S2P Require Import Prelude GoLib Json Strconv JsonText Float64 Rounding.

(** The members [json.Unmarshal] finds for a struct: [null] leaves the struct
    as it is, and only an object has members.  [None]: an error. *)
Definition struct_members (data : bytes) : option (list (string * json)) :=
  match json_parse data with
  | Some (JsonObject ms) => Some ms
  | Some JsonNull => Some []
  | _ => None
  end.

(** A field of type string: the last member of the name counts, [null] leaves
    it as it is. *)
Definition string_field (ms : list (string * json)) (name : string) : string :=
  foldl (fun acc '(key, v) => if matches_field key name
                              then match v with JsonString s => s | _ => acc end else acc) "" ms.

(** Any other value is an [UnmarshalTypeError]. *)
Definition string_typed (ms : list (string * json)) (name : string) : bool :=
  forallb (fun '(key, v) => negb (matches_field key name) ||
                            match v with JsonString _ | JsonNull => true | _ => false end) ms.

(** The bytes of [data] from the value's first byte to the last one before
    [rest]. *)
Definition value_text (data rest : list ascii) : bytes :=
  let l := skip_space data in string_of_list_ascii (take (length l - length rest) l).

(** The members of an object with the texts of their values, after its opening
    brace; the input is known to be JSON. *)
Fixpoint member_texts (fuel : nat) (l : list ascii) : list (string * bytes) :=
  match fuel with
  | O => []
  | S n =>
      match skip_space l with
      | _ :: r =>
          match unquote (length r) r with
          | Some (key, r1) =>
              match skip_space r1 with
              | _ :: r2 =>
                  match parse_value (2 * length r2 + 1) (pred maxNestingDepth) r2 with
                  | Some (_, r3) =>
                      (string_of_list_ascii key, value_text r2 r3) ::
                      match skip_space r3 with
                      | e :: r4 => if Ascii.eqb e (chr 44) then member_texts n r4 else []
                      | [] => []
                      end
                  | None => []
                  end
              | [] => []
              end
          | None => []
          end
      | [] => []
      end
  end.

(** A field of type [json.RawMessage]: the text of the last member of the name,
    [null] included. *)
Definition raw_field (data : bytes) (name : string) : bytes :=
  match skip_space (list_ascii_of_string data) with
  | a :: r => if Ascii.eqb a (chr 123)
              then foldl (fun acc '(key, text) => if matches_field key name then text else acc) ""
                     (member_texts (length r) r)
              else ""
  | [] => ""
  end.

(** The texts of all members of a name, in order: what an [UnmarshalJSON] of the
    field is called with. *)
Definition field_texts (data : bytes) (name : string) : list bytes :=
  match skip_space (list_ascii_of_string data) with
  | a :: r => if Ascii.eqb a (chr 123)
              then map snd (List.filter (fun '(key, _) => matches_field key name) (member_texts (length r) r))
              else []
  | [] => []
  end.

(** ** Values of type any *)

Inductive any_value : Type :=
| AnyNil
| AnyBool (b : bool)
| AnyFloat (f : float64)
| AnyString (s : string)
| AnySlice (elems : list any_value)
| AnyMap (m : gmap string any_value).

(** [strconv.ParseFloat(literal, 64)] of a JSON number: the nearest float64;
    [None] when it is out of range. *)
Definition ParseFloat (literal : list ascii) : option float64 :=
  let '(sign, l) := scan_minus literal in
  let '(i, l) := span_digits l in
  let '(f, l) := match l with a :: r => if Ascii.eqb a (chr 46) then span_digits r else ([], l) | [] => ([], []) end in
  let exponent :=
    match l with
    | _ :: s :: r =>
        if Ascii.eqb s (chr 45) then - default 0 (digits_value r)
        else if Ascii.eqb s (chr 43) then default 0 (digits_value r) else default 0 (digits_value (s :: r))
    | _ => 0
    end in
  let negative := match sign with [] => false | _ => true end in
  let m := default 0 (digits_value (i ++ f)) in
  let e := exponent - Z.of_nat (length f) in
  let v :=
    match m with
    | Zpos p =>
        if 0 <=? e then float64_of_int (if negative then - (m * 10 ^ e) else m * 10 ^ e)
        else SFdiv 53 1024 (S754_finite negative p 0) (S754_finite false (Z.to_pos (10 ^ (- e))) 0)
    | _ => S754_zero negative
    end in
  match v with S754_infinity _ => None | _ => Some v end.

(** A value decoded into an [any]; the last of several members of one name
    counts. *)
Fixpoint any_of_json (v : json) : option any_value :=
  match v with
  | JsonNull => Some AnyNil
  | JsonBool b => Some (AnyBool b)
  | JsonNumber literal => f ← ParseFloat literal; Some (AnyFloat f)
  | JsonString s => Some (AnyString s)
  | JsonArray elems =>
      (fix go (l : list json) (acc : list any_value) : option any_value :=
         match l with
         | [] => Some (AnySlice (rev acc))
         | v :: l => x ← any_of_json v; go l (x :: acc)
         end) elems []
  | JsonObject members =>
      (fix go (l : list (string * json)) (acc : gmap string any_value) : option any_value :=
         match l with
         | [] => Some (AnyMap acc)
         | (k, v) :: l => x ← any_of_json v; go l (<[k := x]> acc)
         end) members ∅
  end.

(** A member of a [map[string]any] field. *)
Fixpoint add_members (members : list (string * json)) (m : gmap string any_value) : option (gmap string any_value) :=
  match members with
  | [] => Some m
  | (k, v) :: rest => x ← any_of_json v; add_members rest (<[k := x]> m)
  end.

(** A field of type [map[string]any]: [null] makes it nil, and the members of
    several objects add up. *)
Fixpoint map_field (ms : list (string * json)) (name : string) (m : gmap string any_value)
  : option (gmap string any_value) :=
  match ms with
  | [] => Some m
  | (key, v) :: rest =>
      if matches_field key name
      then match v with
           | JsonNull => map_field rest name ∅
           | JsonObject members => m' ← add_members members m; map_field rest name m'
           | _ => None
           end
      else map_field rest name m
  end.

Example ParseFloat_ex :
  map (fun s => option_map int_of_float64 (ParseFloat (list_ascii_of_string s)))
    ["15"; "-25e1"; "12345e-2"; "9007199254740993"; "1e400"; "0"] =
  [Some 15; Some (-250); Some 123; Some 9007199254740992; None; Some 0].
Proof. vm_compute. reflexivity. Qed.

(** ** Reading what the encoder writes *)

(** The text of a value, not starting with white space. *)
Definition readable (text : bytes) (v : json) : Prop :=
  (exists a r, list_ascii_of_string text = a :: r /\ is_space a = false) /\
  forall n d c r, (2 * length (list_ascii_of_string text) < n)%nat -> (0 < d)%nat -> ends_number c = true ->
    parse_value n d (list_ascii_of_string text ++ c :: r) = Some (v, c :: r).

Lemma readable_string s : readable (json_string s) (JsonString (ToValidUTF8 s)).
Proof.
  split.
  - rewrite json_string_list. by eexists _, _.
  - intros [|n] d c r Hn _ Hc; [lia|]. by apply (parse_jvalue n d (JStr s)).
Qed.

Lemma readable_map m : readable (json_Marshal m) (JsonObject (map decoded_member (sorted_members m))).
Proof.
  unfold json_Marshal. change (map (fun kv => json_string kv.1 +:+ ":" +:+ json_value kv.2) (sorted_members m))
    with (map member_text (sorted_members m)). set (l := sorted_members m). clearbody l. split.
  { rewrite list_ascii_app. by eexists _, _. }
  intros n d c r. rewrite !list_ascii_app. cbn [list_ascii_of_string app]. rewrite <- app_assoc. cbn [app].
  change "{"%char with (chr 123). change "}"%char with (chr 125). intros Hn Hd Hc.
  destruct d as [|d]; [lia|]. destruct n as [|n]; [lia|]. destruct (decide (l = [])) as [->|Hne]; [reflexivity|].
  pose proof (members_text_length l) as Hlen. destruct (members_text_start l Hne) as [t Ht].
  pose proof (parse_members_text l n d (c :: r) Hne) as Hp. rewrite Ht in *. cbn [app] in *.
  apply parse_value_object, Hp. simpl in *. rewrite length_app in Hn. simpl in Hn. lia.
Qed.

(** A member of a struct: its name, its text and what that is read as. *)
Record written := MkWritten { wr_name : string; wr_text : bytes; wr_value : json }.

Definition written_text (x : written) : string := json_string (wr_name x) +:+ ":" +:+ wr_text x.
Definition struct_text (l : list written) : bytes := "{" +:+ join_comma (map written_text l) +:+ "}".
Definition read_member (x : written) : string * json := (ToValidUTF8 (wr_name x), wr_value x).
Definition read_text (x : written) : string * bytes := (ToValidUTF8 (wr_name x), wr_text x).
Definition written_ok (x : written) : Prop := readable (wr_text x) (wr_value x).

Lemma written_text_list x r : list_ascii_of_string (written_text x) ++ r =
  chr 34 :: (escape_string (length (list_ascii_of_string (wr_name x))) (list_ascii_of_string (wr_name x)) ++
  chr 34 :: chr 58 :: list_ascii_of_string (wr_text x) ++ r).
Proof. unfold written_text. rewrite !list_ascii_app, json_string_list. simpl. by rewrite <- !app_assoc. Qed.

Lemma join_comma_cons (s t : string) l : join_comma (s :: t :: l) = s +:+ "," +:+ join_comma (t :: l).
Proof. done. Qed.

(** The texts of the members, one by one. *)
Lemma written_ind (P : list written -> list ascii -> Prop) r :
  (forall x, P [x] (list_ascii_of_string (written_text x) ++ chr 125 :: r)) ->
  (forall x y l t, P (y :: l) t -> P (x :: y :: l) (list_ascii_of_string (written_text x) ++ chr 44 :: t)) ->
  forall l, l <> [] -> P l (list_ascii_of_string (join_comma (map written_text l)) ++ chr 125 :: r).
Proof.
  intros H1 H2. induction l as [|x [|y l] IH]; intros Hne; [done|apply H1|].
  cbn [map]. rewrite join_comma_cons, !list_ascii_app, <- !app_assoc. apply H2. by apply IH.
Qed.

Lemma parse_members_written l r : l <> [] -> Forall written_ok l -> forall n d, (0 < d)%nat ->
  (2 * length (list_ascii_of_string (join_comma (map written_text l)) ++ chr 125 :: r) < n + 2 * length r)%nat ->
  parse_members n d (list_ascii_of_string (join_comma (map written_text l)) ++ chr 125 :: r) = Some (map read_member l, r).
Proof.
  intros Hne. apply (written_ind (fun l t => (length r <= length t)%nat /\ (Forall written_ok l -> forall n d, (0 < d)%nat ->
    (2 * length t < n + 2 * length r)%nat -> parse_members n d t = Some (map read_member l, r)))); [..|done].
  - intros [k text v]. split; [rewrite length_app; simpl; lia|]. intros [[_ Hv] _]%Forall_cons n d Hd. rewrite written_text_list. cbn [wr_name wr_text wr_value] in *. simpl length.
    rewrite !length_app. simpl length. rewrite length_app. simpl length. intros Hn. destruct n as [|n]; [lia|].
    cbn [map]. unfold read_member. cbn [wr_name wr_value]. rewrite <- (string_of_list_ascii_of_string (ToValidUTF8 k)).
    eapply parse_members_last; [apply unquote_text|]. apply Hv; [lia|done|done].
  - intros [k text v] y l' t [Ht IH]. split; [rewrite length_app; simpl; lia|]. intros [[_ Hv] Hl]%Forall_cons n d Hd. rewrite written_text_list. cbn [wr_name wr_text wr_value] in *. simpl length.
    rewrite !length_app. simpl length. rewrite length_app. simpl length. intros Hn. destruct n as [|n]; [lia|].
    cbn [map]. unfold read_member at 1. cbn [wr_name wr_value]. rewrite <- (string_of_list_ascii_of_string (ToValidUTF8 k)).
    eapply parse_members_next; [apply unquote_text| |].
    + apply Hv; [lia|done|done].
    + apply IH; [done|done|lia].
Qed.

Lemma nesting_left : (0 < pred maxNestingDepth)%nat.
Proof. change (pred maxNestingDepth) with (S 9998). apply Nat.lt_0_succ. Qed.

Lemma value_text_written text v r : readable text v -> value_text (list_ascii_of_string text ++ r) r = text.
Proof.
  intros [(a & t & E & Ha) _]. unfold value_text.
  assert (skip_space (list_ascii_of_string text ++ r) = list_ascii_of_string text ++ r) as -> by (rewrite E; simpl; by rewrite Ha).
  rewrite length_app, Nat.add_sub, take_app_length. apply string_of_list_ascii_of_string.
Qed.

Lemma member_texts_written l r : l <> [] -> Forall written_ok l -> forall n, (length l <= n)%nat ->
  member_texts n (list_ascii_of_string (join_comma (map written_text l)) ++ chr 125 :: r) = map read_text l.
Proof.
  intros Hne. apply (written_ind (fun l t => Forall written_ok l -> forall n, (length l <= n)%nat ->
    member_texts n t = map read_text l)); [..|done].
  - intros [k text v] [Hv _]%Forall_cons [|n] Hn; [simpl in Hn; lia|]. rewrite written_text_list.
    unfold written_ok in Hv. cbn [wr_name wr_text wr_value map] in *. unfold read_text. cbn [wr_name wr_text].
    cbn [member_texts]. char_step. rewrite unquote_text. char_step. rewrite (proj2 Hv); [|rewrite length_app; lia|exact nesting_left|done].
    char_step. rewrite (value_text_written _ _ _ Hv), string_of_list_ascii_of_string. done.
  - intros [k text v] y l' t IH [Hv Hl]%Forall_cons [|n] Hn; [simpl in Hn; lia|]. rewrite written_text_list.
    unfold written_ok in Hv. cbn [wr_name wr_text wr_value map] in *. unfold read_text at 1. cbn [wr_name wr_text].
    cbn [member_texts]. char_step. rewrite unquote_text. char_step. rewrite (proj2 Hv); [|rewrite length_app; lia|exact nesting_left|done].
    char_step. rewrite (value_text_written _ _ _ Hv), string_of_list_ascii_of_string. rewrite IH; [done|done|simpl in *; lia].
Qed.

(** The decoder on the text of a struct. *)
Section Written.
Context (l : list written) (Hne : l <> []) (Hok : Forall written_ok l).

Lemma struct_text_list : list_ascii_of_string (struct_text l) =
  chr 123 :: list_ascii_of_string (join_comma (map written_text l)) ++ [chr 125].
Proof. unfold struct_text. by rewrite !list_ascii_app. Qed.

Lemma struct_text_start : exists t, list_ascii_of_string (join_comma (map written_text l)) ++ [chr 125] = chr 34 :: t.
Proof.
  apply (written_ind (fun _ t => exists t', t = chr 34 :: t')); [..|exact Hne];
    intros; rewrite written_text_list; by eexists.
Qed.

Lemma struct_text_members : struct_members (struct_text l) = Some (map read_member l).
Proof.
  unfold struct_members, json_parse. rewrite struct_text_list. set (t := list_ascii_of_string _ ++ _).
  assert (parse_members (2 * length (chr 123 :: t)) 9999 t = Some (map read_member l, [])) as Hp
    by (apply parse_members_written; [exact Hne|exact Hok|exact nesting_left|unfold t; simpl length; lia]).
  destruct struct_text_start as [t' Ht]. fold t in Ht. rewrite Ht in *. clear Ht t.
  rewrite Nat.add_1_r. change maxNestingDepth with (S 9999). by rewrite (parse_value_object _ _ _ _ _ Hp).
Qed.

Lemma struct_text_texts :
  member_texts (length (list_ascii_of_string (join_comma (map written_text l)) ++ [chr 125]))
    (list_ascii_of_string (join_comma (map written_text l)) ++ [chr 125]) = map read_text l.
Proof.
  apply member_texts_written; [exact Hne|exact Hok|]. clear. induction l as [|x [|y l'] IH]; [simpl; lia| |].
  - cbn [map join_comma]. rewrite written_text_list. simpl. lia.
  - cbn [map] in *. rewrite join_comma_cons, !list_ascii_app, <- !app_assoc, length_app. simpl in *.
    rewrite length_app in *. simpl in *. lia.
Qed.

Lemma struct_text_fields name : field_texts (struct_text l) name =
  map wr_text (List.filter (fun x => matches_field (ToValidUTF8 (wr_name x)) name) l).
Proof.
  unfold field_texts. rewrite struct_text_list. do 2 char_step. rewrite struct_text_texts.
  clear. induction l as [|x l' IH]; [done|]. cbn [map List.filter]. unfold read_text at 1.
  destruct (matches_field _ name); cbn [map snd]; by rewrite IH.
Qed.

Lemma struct_text_raw name : raw_field (struct_text l) name =
  foldl (fun acc '(key, text) => if matches_field key name then text else acc) "" (map read_text l).
Proof. unfold raw_field. rewrite struct_text_list. do 2 char_step. by rewrite struct_text_texts. Qed.
End Written.

(** A map of strings and integers is written as a struct of its members. *)
Lemma readable_jvalue v : readable (json_value v) (decoded v).
Proof.
  split.
  - destruct v as [s|z]; simpl json_value; [rewrite json_string_list; by eexists _, _|].
    destruct (pretty_starts z) as (a & r & E & Ha). exists a, r. split; [done|].
    destruct a as [[] [] [] [] [] [] [] []]; vm_compute in Ha; try discriminate Ha; reflexivity.
  - intros [|n] d c r Hn _ Hc; [lia|]. by apply parse_jvalue.
Qed.

Definition jvalue_written (kv : string * jvalue) : written := MkWritten (fst kv) (json_value (snd kv)) (decoded (snd kv)).

Lemma json_Marshal_struct m : json_Marshal m = struct_text (map jvalue_written (sorted_members m)).
Proof. unfold json_Marshal, struct_text. by rewrite map_map. Qed.

(** A field that no member is named after. *)
Lemma json_Marshal_raw_absent m name : m <> ∅ ->
  Forall (fun kv => matches_field (ToValidUTF8 (fst kv)) name = false) (sorted_members m) ->
  raw_field (json_Marshal m) name = "".
Proof.
  intros Hm Hf. rewrite json_Marshal_struct, struct_text_raw.
  - induction Hf as [|kv l Hkv Hf IH]; [done|]. cbn [map foldl]. unfold read_text at 2. cbn [jvalue_written wr_name].
    unfold read_text at 1. cbn [wr_name jvalue_written]. by rewrite Hkv.
  - intros E. apply Hm, map_to_list_empty_iff. assert (sorted_members m = []) as Es by (by destruct (sorted_members m)).
    unfold sorted_members in Es. apply Permutation_nil_r. rewrite <- Es. symmetry. apply (sort_Slice_perm (rt := reference_runtime)).
  - apply Forall_map, Forall_forall. intros kv _. apply readable_jvalue.
Qed.

(** A text of characters that JSON writes as they are. *)
Definition plain (a : ascii) : bool := (nat_of_ascii a <? 128)%nat && bool_decide (escape_byte a = [a]).

Lemma escape_plain l : Forall (fun a => plain a = true) l -> forall n, (length l <= n)%nat -> escape_string n l = l.
Proof.
  induction 1 as [|a l Ha Hl IH]; intros [|n] Hn; simpl in Hn; try done; [lia|].
  apply andb_true_iff in Ha as [H1 H2%bool_decide_eq_true]. cbn [escape_string]. rewrite H1, H2, IH by lia. done.
Qed.

Lemma json_string_plain s : Forall (fun a => plain a = true) (list_ascii_of_string s) ->
  json_string s = string_of_list_ascii ([chr 34] ++ list_ascii_of_string s ++ [chr 34]).
Proof. intros H. unfold json_string. by rewrite escape_plain. Qed.

(** ** Maps of strings and integers *)

Lemma binary_round_finite sign p : Z.pos p <= 2 ^ 63 -> exists m e, binary_round 53 1024 sign p 0 = S754_finite sign m e.
Proof.
  intros Hp. destruct (Z.lt_ge_cases (Z.pos p) (2 ^ 53)) as [Hlt|Hge].
  { destruct (binary_round_shape p Hlt) as (m & e & H & _). eauto. }
  set (d := Zdigits2 (Z.pos p)). pose proof (Zdigits2_bounds (Z.pos p) ltac:(lia)) as Hb. fold d in Hb.
  assert (53 < d <= 64) as Hd.
  { split.
    - destruct (Z.lt_ge_cases 53 d); [done|]. pose proof (Z.pow_le_mono_r 2 d 53). lia.
    - destruct (Z.le_gt_cases d 64); [done|]. pose proof (Z.pow_le_mono_r 2 64 (d - 1)). lia. }
  unfold binary_round. change (Z.pos (digits2_pos p)) with d. rewrite Z.add_0_r.
  assert (fexp 53 1024 d = d - 53) as -> by (unfold fexp, emin; lia).
  assert (shl_align p 0 (d - 53) = (p, 0)) as ->.
  { unfold shl_align. rewrite Z.sub_0_r. by destruct (d - 53) eqn:E; [..|lia]. }
  destruct (round_wide sign p 0 d eq_refl) as (r & _ & [[_ ->]|[_ ->]]); [lia|lia|eauto..].
Qed.

Lemma float64_of_int_finite z : is_int64 z -> float64_of_int z <> S754_infinity false /\ float64_of_int z <> S754_infinity true.
Proof.
  unfold is_int64, minInt64, maxInt64. intros Hz. destruct z as [|p|p]; [done|..].
  - destruct (binary_round_finite false p ltac:(lia)) as (m & e & H).
    change (float64_of_int (Z.pos p)) with (binary_round 53 1024 false p 0). by rewrite H.
  - destruct (binary_round_finite true p ltac:(lia)) as (m & e & H).
    change (float64_of_int (Z.neg p)) with (binary_round 53 1024 true p 0). by rewrite H.
Qed.

Lemma digits_not_minus d : Forall digit d -> scan_minus d = ([], d).
Proof.
  destruct 1 as [|a d Ha Hd]; [done|]. simpl. destruct (Ascii.eqb_spec a (chr 45)) as [->|]; [discriminate Ha|done].
Qed.

(** A printed integer is read as the nearest float64. *)
Lemma ParseFloat_int z : is_int64 z -> ParseFloat (list_ascii_of_string (pretty z)) = Some (float64_of_int z).
Proof.
  intros Hz. destruct (float64_of_int_finite z Hz) as [Hi1 Hi2].
  assert (forall v, v = float64_of_int z -> match v with S754_infinity _ => None | _ => Some v end = Some (float64_of_int z)) as Hfin
    by (intros v ->; destruct (float64_of_int z) as [|[]| |]; done).
  destruct (Z.lt_ge_cases z 0) as [Hneg|Hpos].
  - destruct (pretty_value (- z)) as (Hd & Hv & _); [lia|].
    assert (list_ascii_of_string (pretty z) = chr 45 :: list_ascii_of_string (pretty (- z))) as -> by (by destruct z).
    unfold ParseFloat. cbn [scan_minus]. change (Ascii.eqb (chr 45) (chr 45)) with true. cbv iota beta.
    rewrite (span_digits_end _ Hd). cbv iota beta zeta. rewrite app_nil_r, Hv. simpl default. simpl length.
    destruct z as [|p|p]; try lia. cbn [Z.opp Z.of_nat Z.sub Z.leb Z.compare Z.add]. apply Hfin. f_equal. lia.
  - destruct (pretty_value z) as (Hd & Hv & _); [lia|]. unfold ParseFloat. rewrite digits_not_minus by done. cbv iota beta.
    rewrite (span_digits_end _ Hd). cbv iota beta zeta. rewrite app_nil_r, Hv. simpl default. simpl length.
    destruct z as [|p|p]; try lia; [done|]. cbn [Z.opp Z.of_nat Z.sub Z.leb Z.compare Z.add]. apply Hfin. f_equal. lia.
Qed.

(** What is read back of an encoded value. *)
Definition any_of_jvalue (v : jvalue) : any_value :=
  match v with JStr s => AnyString (ToValidUTF8 s) | JInt z => AnyFloat (float64_of_int z) end.

Definition jvalue_ok (v : jvalue) : Prop := match v with JStr _ => True | JInt z => is_int64 z end.

Lemma any_of_decoded v : jvalue_ok v -> any_of_json (decoded v) = Some (any_of_jvalue v).
Proof. destruct v as [s|z]; [done|]. intros Hz. simpl. by rewrite ParseFloat_int. Qed.

Definition any_member (kv : string * jvalue) : string * any_value := prod_map id any_of_jvalue kv.

Lemma add_members_decoded l : forall acc, Forall (fun kv => valid_utf8 (fst kv) = true /\ jvalue_ok (snd kv)) l ->
  NoDup l.*1 -> add_members (map decoded_member l) acc = Some (list_to_map (any_member <$> l) ∪ acc).
Proof.
  induction l as [|[k v] l IH]; intros acc Hok Hnd; [simpl; by rewrite map_empty_union|].
  apply Forall_cons in Hok as [[Hk Hv] Hok]. apply NoDup_cons in Hnd as [Hk' Hnd].
  cbn [map]. unfold decoded_member at 1. cbn [fst snd add_members] in *.
  rewrite (any_of_decoded v Hv), (valid_utf8_id k Hk). cbn [mbind option_bind]. rewrite (IH _ Hok Hnd). f_equal.
  simpl. rewrite <- insert_union_l, insert_union_r; [done|]. apply not_elem_of_list_to_map_1.
  rewrite <- list_fmap_compose. exact Hk'.
Qed.

(** The members of an encoded map. *)
Lemma add_members_sorted (m : gmap string jvalue) :
  (forall k v, m !! k = Some v -> valid_utf8 k = true /\ jvalue_ok v) ->
  add_members (map decoded_member (sorted_members m)) ∅ = Some (any_of_jvalue <$> m).
Proof.
  intros Hok. assert (sorted_members m ≡ₚ map_to_list m) as Hp
    by exact (@sort_Slice_perm reference_runtime reference_runtime_laws _ _ _).
  assert (NoDup (sorted_members m).*1) as Hnd by (rewrite Hp; apply NoDup_fst_map_to_list).
  rewrite add_members_decoded, map_union_empty; [| |done].
  - f_equal. rewrite <- (list_to_map_to_list m) at 2. unfold any_member. rewrite list_to_map_fmap. f_equal.
    apply list_to_map_proper; [done|exact Hp].
  - apply Forall_forall. intros [k v]. rewrite Hp, elem_of_map_to_list. apply Hok.
Qed.
