(* ===== verification/Rfc3339.v ===== *)
(** * time.Time in JSON: RFC 3339

    [MarshalJSON] and [UnmarshalJSON] of [time.Time], with [time.Parse] for the
    layout RFC 3339, and that they are inverse: a time is written in the local
    zone and read back as the same instant. *)

From stdpp Require Import pretty.
From S2P Require Import Prelude GoLib Json Strconv JsonStruct.

Lemma two_digits_pad z : 0 <= z < 100 -> two_digits z = zero_pad 2 (pretty z).
Proof.
  intros Hz. assert (forallb (fun z => two_digits z =s? zero_pad 2 (pretty z)) (seqZ 0 100) = true) as H by (vm_compute; done).
  rewrite forallb_forall in H. apply String.eqb_eq, H, list_elem_of_In, elem_of_seqZ. lia.
Qed.

(** ** The calendar *)

Definition is_leap (y : Z) : bool := (y mod 4 =? 0) && (negb (y mod 100 =? 0) || (y mod 400 =? 0)).

(** [daysIn] *)
Definition days_in (m y : Z) : Z :=
  if m =? 2 then (if is_leap y then 29 else 28) else 30 + Z.land (m + Z.shiftr m 3) 1.

(** The days from January 1 of year 1 to a date ([dateToAbsDays], from another
    beginning). *)
Definition days_of_civil (y m d : Z) : Z :=
  let janFeb := if m <? 3 then 1 else 0 in
  let amonth := m + 12 * janFeb in
  let y := y - janFeb in
  146097 * (y / 100) / 4 + 1461 * (y mod 100) / 4 + (153 * amonth - 457) / 5 + d - 1 - 306.

(** Month and day of a day of the year that begins in March. *)
Lemma month_bounds doy : 0 <= doy <= 365 ->
  let mp := (5 * doy + 2) / 153 in
  let day := doy - (153 * mp + 2) / 5 + 1 in
  let month := if mp <? 10 then mp + 3 else mp - 9 in
  0 <= mp <= 11 /\ 1 <= day <= (if month =? 2 then if doy =? 365 then 29 else 28 else 30 + Z.land (month + Z.shiftr month 3) 1).
Proof.
  intros Hd. assert (forallb (fun doy => let mp := (5 * doy + 2) / 153 in
    let day := doy - (153 * mp + 2) / 5 + 1 in
    let month := if mp <? 10 then mp + 3 else mp - 9 in
    (0 <=? mp) && (mp <=? 11) && (1 <=? day) &&
    (day <=? (if month =? 2 then if doy =? 365 then 29 else 28 else 30 + Z.land (month + Z.shiftr month 3) 1)))
    (seqZ 0 366) = true) as H by (vm_compute; done).
  rewrite forallb_forall in H. specialize (H doy). rewrite <- list_elem_of_In, elem_of_seqZ in H.
  specialize (H ltac:(lia)). cbv zeta in *. rewrite !andb_true_iff, !Z.leb_le in H. tauto.
Qed.

Lemma civil_bounds d : let '(y, m, dd) := civil_of_days d in 1 <= m <= 12 /\ 1 <= dd <= days_in m y /\ days_of_civil y m dd = d.
Proof.
  unfold civil_of_days. set (z := d + 306). set (era := z / 146097). set (doe := z mod 146097).
  assert (d = era * 146097 + doe - 306) as Hd by (unfold era, doe, z; pose proof (Z.div_mod (d + 306) 146097); lia).
  assert (0 <= doe < 146097) as Hdoe by (unfold doe; apply Z.mod_pos_bound; lia). clearbody era doe. clear z.
  set (yoe := (doe - doe / 1460 + doe / 36524 - doe / 146096) / 365).
  set (doy := doe - (365 * yoe + yoe / 4 - yoe / 100)).
  assert (0 <= yoe < 400 /\ 0 <= doy <= 365) as [Hyoe Hdoy].
  { unfold doy, yoe. Z.to_euclidean_division_equations. lia. }
  assert (doy = 365 -> is_leap (yoe + era * 400 + 1) = true) as Hleap.
  { intros H365. unfold is_leap.
    assert ((yoe + era * 400 + 1) mod 4 = (yoe + 1) mod 4) as ->
      by (replace (yoe + era * 400 + 1) with (yoe + 1 + era * 100 * 4) by lia; apply Z_mod_plus_full).
    assert ((yoe + era * 400 + 1) mod 100 = (yoe + 1) mod 100) as ->
      by (replace (yoe + era * 400 + 1) with (yoe + 1 + era * 4 * 100) by lia; apply Z_mod_plus_full).
    assert ((yoe + era * 400 + 1) mod 400 = (yoe + 1) mod 400) as ->
      by (replace (yoe + era * 400 + 1) with (yoe + 1 + era * 400) by lia; apply Z_mod_plus_full).
    assert ((yoe + 1) mod 4 = 0 /\ ((yoe + 1) mod 100 <> 0 \/ (yoe + 1) mod 400 = 0)).
    { unfold doy, yoe in *. clear -Hdoe H365. Z.to_euclidean_division_equations. lia. }
    lia. }
  pose proof (month_bounds doy Hdoy) as Hm. cbv zeta in Hm |- *. set (mp := (5 * doy + 2) / 153) in *.
  assert (days_of_civil (yoe + era * 400 + (if (if mp <? 10 then mp + 3 else mp - 9) <=? 2 then 1 else 0))
    (if mp <? 10 then mp + 3 else mp - 9) (doy - (153 * mp + 2) / 5 + 1) = d) as ->.
  { unfold days_of_civil. cbv zeta.
    assert (forall y, 146097 * ((y + era * 400) / 100) / 4 + 1461 * ((y + era * 400) mod 100) / 4 =
      era * 146097 + 365 * y + y / 4 - y / 100 + y / 400) as Hy.
    { intros y. clear. Z.to_euclidean_division_equations. lia. }
    destruct (Z.ltb_spec mp 10).
    - rewrite (proj2 (Z.leb_gt _ 2)), (proj2 (Z.ltb_ge _ 3)) by lia.
      replace (yoe + era * 400 + 0 - 0) with (yoe + era * 400) by lia. rewrite Hy.
      replace (153 * (mp + 3 + 12 * 0) - 457) with (153 * mp + 2) by lia. unfold doy in *. 
      replace (yoe / 400) with 0 by (symmetry; apply Z.div_small; lia). lia.
    - rewrite (proj2 (Z.leb_le _ 2)), (proj2 (Z.ltb_lt _ 3)) by lia.
      replace (yoe + era * 400 + 1 - 1) with (yoe + era * 400) by lia. rewrite Hy.
      replace (153 * (mp - 9 + 12 * 1) - 457) with (153 * mp + 2) by lia.
      replace (yoe / 400) with 0 by (symmetry; apply Z.div_small; lia). lia. }
  destruct Hm as [Hmp Hday]. split; [destruct (Z.ltb_spec mp 10); lia|]. split; [|done]. split; [lia|].
  etrans; [apply Hday|]. unfold days_in. destruct (Z.eqb_spec (if mp <? 10 then mp + 3 else mp - 9) 2) as [E|E]; [|lia].
  rewrite E. simpl. destruct (Z.eqb_spec doy 365) as [E2|]; [by rewrite Hleap|]. destruct (is_leap _); lia.
Qed.

(** ** time.Parse for the layout RFC 3339

    On byte lists.  The fast path [parseRFC3339] accepts nothing else. *)

Definition digit_of (a : ascii) : option Z :=
  if in_range a 48 57 then Some (Z.of_nat (nat_of_ascii a - 48)) else None.

(** Two digits; with [fixed] false one is enough. *)
Definition getnum (fixed : bool) (l : list ascii) : option (Z * list ascii) :=
  match l with
  | a :: r =>
      x ← digit_of a;
      match r with
      | b :: r' => match digit_of b with
                   | Some y => Some (10 * x + y, r')
                   | None => if fixed then None else Some (x, r)
                   end
      | [] => if fixed then None else Some (x, r)
      end
  | [] => None
  end.

Definition skip (prefix : ascii) (l : list ascii) : option (list ascii) :=
  match l with
  | a :: r => if Ascii.eqb a prefix then Some r else None
  | [] => None
  end.

(** [stdLongYear]: four digits. *)
Definition get_year (l : list ascii) : option (Z * list ascii) :=
  match l with
  | a :: b :: c :: d :: r => y ← digits_value [a; b; c; d]; Some (y, r)
  | _ => None
  end.

Definition between (lo hi : Z) (p : option (Z * list ascii)) : option (Z * list ascii) :=
  match p with
  | Some (z, r) => if (lo <=? z) && (z <=? hi) then Some (z, r) else None
  | None => None
  end.

Definition comma_or_period (a : ascii) : bool := Ascii.eqb a (chr 46) || Ascii.eqb a (chr 44).

(** A fraction of a second the layout does not mention; digits after the ninth
    are dropped. *)
Definition get_fraction (l : list ascii) : Z * list ascii :=
  match l with
  | p :: r =>
      let '(ds, rest) := span_digits r in
      match ds with
      | [] => (0, l)
      | _ =>
          if comma_or_period p
          then (default 0 (digits_value (take 9 ds)) * 10 ^ (9 - Z.of_nat (length (take 9 ds))), rest)
          else (0, l)
      end
  | [] => (0, l)
  end.

(** [Z], or an offset from UTC in seconds. *)
Definition get_zone (l : list ascii) : option (Z * list ascii) :=
  match l with
  | a :: r =>
      if Ascii.eqb a (chr 90) then Some (0, r)
      else
        match l with
        | sign :: h1 :: h2 :: colon :: m1 :: m2 :: rest =>
            if negb (Ascii.eqb colon (chr 58)) then None
            else
              '(hr, _) ← between 0 24 (getnum true [h1; h2]);
              '(mm, _) ← between 0 60 (getnum true [m1; m2]);
              let zoneOffset := (hr * 60 + mm) * 60 in
              if Ascii.eqb sign (chr 43) then Some (zoneOffset, rest)
              else if Ascii.eqb sign (chr 45) then Some (- zoneOffset, rest)
              else None
        | _ => None
        end
  | [] => None
  end.

(** [Date], for fields in range. *)
Definition Date (y m d hour minute sec nsec : Z) : Time :=
  (days_of_civil y m d * 86400 + hour * 3600 + minute * 60 + sec) * Second + nsec.

Definition parse_RFC3339 (l : list ascii) : option Time :=
  '(year, l) ← get_year l;
  l ← skip (chr 45) l;
  '(month, l) ← between 1 12 (getnum true l);
  l ← skip (chr 45) l;
  '(day, l) ← getnum true l;
  l ← skip (chr 84) l;
  '(hour, l) ← between 0 23 (getnum false l);
  l ← skip (chr 58) l;
  '(minute, l) ← between 0 59 (getnum true l);
  l ← skip (chr 58) l;
  '(sec, l) ← between 0 59 (getnum true l);
  let '(nsec, l) := get_fraction l in
  '(zoneOffset, l) ← get_zone l;
  match l with
  | [] =>
      if (1 <=? day) && (day <=? days_in month year)
      then Some (Date year month day hour minute sec nsec - zoneOffset * Second)
      else None
  | _ => None
  end.

(** ** JSON *)

(** [zone := offset / 60], in minutes. *)
Definition zone_text (offset : Z) : string :=
  if offset =? 0 then "Z"
  else
    let zone := Z.quot offset 60 in
    (if zone <? 0 then "-" else "+") +:+ two_digits (Z.abs zone / 60) +:+ ":" +:+ two_digits (Z.abs zone mod 60).

(** The year of a time that is [offset] seconds east of UTC. *)
Definition local_year (offset : Z) (t : Time) : Z :=
  (civil_of_days ((t + offset * Second) / Second / 86400)).1.1.

Definition quoted (text : string) : bytes :=
  string_of_list_ascii ([chr 34] ++ list_ascii_of_string text ++ [chr 34]).

(** A time whose location is [offset] seconds east of UTC; [None]: the year has
    not four digits, or the offset is a day or more. *)
Definition time_MarshalJSON (offset : Z) (t : Time) : option bytes :=
  if (0 <=? local_year offset t) && (local_year offset t <=? 9999) && (Z.abs (Z.quot offset 60) / 60 <? 24)
  then Some (quoted (datetime_text (t + offset * Second) +:+ zone_text offset))
  else None.

Inductive unmarshaled : Type :=
| Unchanged                    (* null *)
| Decoded (t : Time)
| Undecoded.                   (* an error *)

(** [UnmarshalJSON], of the text of a JSON value; escapes are not unescaped. *)
Definition time_UnmarshalJSON (data : bytes) : unmarshaled :=
  if data =s? "null" then Unchanged
  else
    match list_ascii_of_string data with
    | q :: r =>
        match rev r with
        | q' :: body =>
            if Ascii.eqb q (chr 34) && Ascii.eqb q' (chr 34)
            then match parse_RFC3339 (rev body) with Some t => Decoded t | None => Undecoded end
            else Undecoded
        | [] => Undecoded
        end
    | [] => Undecoded
    end.

Example parse_RFC3339_ex :
  map (fun s => parse_RFC3339 (list_ascii_of_string s))
    ["2023-11-14T22:13:20.12Z"; "2023-11-15T1:13:20,120+03:00"; "2023-02-29T00:00:00Z"; "2024-02-29T00:00:00Z"; "2023-11-14 22:13:20Z"]
  = [Some ((unixToInternal + 1700000000) * Second + 120000000); Some ((unixToInternal + 1700000000) * Second + 120000000);
     None; Some ((unixToInternal + 1709164800) * Second); None].
Proof. vm_compute. reflexivity. Qed.

Example time_JSON_ex :
  option_map time_UnmarshalJSON (time_MarshalJSON (-12600) ((unixToInternal + 1700000000) * Second + 5)) =
  Some (Decoded ((unixToInternal + 1700000000) * Second + 5)).
Proof. vm_compute. reflexivity. Qed.

(** ** Reading what was written *)

Lemma digit_digit_of a : digit a -> digit_of a = Some (Z.of_nat (nat_of_ascii a - 48)).
Proof. unfold digit, digit_of. by intros ->. Qed.

Lemma getnum_two fixed z r : 0 <= z < 100 -> getnum fixed (list_ascii_of_string (two_digits z) ++ r) = Some (z, r).
Proof.
  intros Hz. rewrite two_digits_pad by done. destruct (zero_pad_value 2 z) as (Hl & Hd & Hv); [done|lia|].
  destruct (list_ascii_of_string _) as [|a [|b [|]]]; try discriminate Hl.
  apply Forall_cons in Hd as [Ha [Hb _]%Forall_cons]. unfold digits_value, digit in *. simpl in Hv. rewrite Ha, Hb in Hv.
  simpl. rewrite (digit_digit_of a), (digit_digit_of b) by done. simpl. injection Hv as Hv. do 2 f_equal. lia.
Qed.

Lemma get_year_four y r : 0 <= y <= 9999 -> get_year (list_ascii_of_string (zero_pad 4 (pretty y)) ++ r) = Some (y, r).
Proof.
  intros Hy. destruct (zero_pad_value 4 y) as (Hl & _ & Hv); [simpl; lia|lia|].
  destruct (list_ascii_of_string _) as [|a [|b [|c [|d [|]]]]]; try discriminate Hl. simpl. by rewrite Hv.
Qed.

Lemma drop_zeros_spec l : exists k, l = replicate k (chr 48) ++ drop_zeros l.
Proof.
  induction l as [|a l [k IH]]; [by exists 0%nat|]. simpl. destruct (Ascii.eqb_spec a (chr 48)) as [->|]; [|by exists 0%nat].
  exists (S k). simpl. by rewrite <- IH.
Qed.

Lemma digits_value_scale d z k : digits_value d = Some z ->
  digits_value (d ++ replicate k (chr 48)) = Some (z * 10 ^ Z.of_nat k).
Proof.
  intros Hd. induction k as [|k IH]; [simpl; rewrite app_nil_r, Hd; f_equal; lia|].
  rewrite replicate_S_end, app_assoc, (digits_value_snoc _ _ _ IH) by done.
  f_equal. rewrite Nat2Z.inj_succ, Z.pow_succ_r by lia. simpl. lia.
Qed.

Lemma digits_value_total d : Forall digit d -> exists z, digits_value d = Some z.
Proof.
  induction d as [|a d IH] using rev_ind; intros Hd; [by exists 0|]. apply Forall_app in Hd as [Hd [Ha _]%Forall_cons].
  destruct (IH Hd) as [z Hz]. eexists. by apply digits_value_snoc.
Qed.

Lemma rev_replicate {A} k (a : A) : rev (replicate k a) = replicate k a.
Proof. induction k as [|k IH]; [done|]. simpl. by rewrite IH, <- replicate_S_end. Qed.

(** The digits of a fraction, with the zeros that were dropped. *)
Lemma fraction_digits n : 0 < n < 10 ^ 9 -> exists d z k, list_ascii_of_string (fraction n) = chr 46 :: d /\
  d <> [] /\ Forall digit d /\ digits_value d = Some z /\ n = z * 10 ^ Z.of_nat k /\ (length d + k = 9)%nat.
Proof.
  intros Hn. unfold fraction. rewrite (proj2 (Z.eqb_neq _ _)) by lia.
  destruct (zero_pad_value 9 n) as (Hl & Hd & Hv); [simpl; lia|lia|]. set (l := list_ascii_of_string (zero_pad 9 (pretty n))) in *.
  rewrite list_ascii_app, list_ascii_of_string_of_list_ascii. simpl.
  destruct (drop_zeros_spec (rev l)) as [k Hk]. set (d := rev (drop_zeros (rev l))).
  assert (l = d ++ replicate k (chr 48)) as El.
  { rewrite <- (rev_involutive l), Hk, rev_app_distr, rev_replicate. done. }
  clearbody d. rewrite El in *. clear Hk. apply Forall_app in Hd as [Hd _].
  destruct (digits_value_total d Hd) as [z Hz]. rewrite (digits_value_scale _ _ _ Hz) in Hv. injection Hv as Hv.
  exists d, z, k. rewrite length_app, length_replicate in Hl. split_and!; [done| |done|done|done|done].
  intros ->. simpl in Hz. injection Hz as <-. lia.
Qed.

Definition ends_fraction (c : ascii) : bool := negb (in_range c 48 57) && negb (comma_or_period c).

Lemma get_fraction_written n c r : 0 <= n < 10 ^ 9 -> ends_fraction c = true ->
  get_fraction (list_ascii_of_string (fraction n) ++ c :: r) = (n, c :: r).
Proof.
  intros Hn [Hc1 Hc2]%andb_true_iff. apply negb_true_iff in Hc1, Hc2. destruct (decide (n = 0)) as [->|H0].
  - simpl. rewrite Hc2. destruct (span_digits r) as [[|a d] r']; done.
  - destruct (fraction_digits n) as (d & z & k & -> & Hne & Hd & Hz & -> & Hlen); [lia|].
    cbn [app get_fraction]. rewrite span_digits_all by done. destruct d as [|a d]; [done|]. cbv iota beta.
    rewrite (take_ge (a :: d)) by lia. rewrite Hz. cbn [comma_or_period]. simpl default. f_equal. f_equal. f_equal. lia.
Qed.

Lemma two_digits_list z : 0 <= z < 100 -> exists a b, list_ascii_of_string (two_digits z) = [a; b] /\ getnum true [a; b] = Some (z, []).
Proof.
  intros Hz. pose proof (getnum_two true z [] Hz) as Hg. rewrite app_nil_r in Hg. rewrite two_digits_pad in * by done.
  destruct (zero_pad_value 2 z) as (Hl & _); [done|lia|].
  destruct (list_ascii_of_string _) as [|a [|b [|]]]; try discriminate Hl. by exists a, b.
Qed.

Lemma get_zone_written offset : offset mod 60 = 0 -> Z.abs (Z.quot offset 60) / 60 < 24 ->
  get_zone (list_ascii_of_string (zone_text offset)) = Some (offset, []).
Proof.
  intros Hmin Hday. unfold zone_text. destruct (Z.eqb_spec offset 0) as [->|H0]; [done|].
  assert (exists m, offset = 60 * m) as [m ->] by (exists (offset / 60); pose proof (Z.div_mod offset 60); lia).
  rewrite (Z.mul_comm 60), Z.quot_mul in * by lia.
  destruct (two_digits_list (Z.abs m / 60)) as (h1 & h2 & Eh & Hh); [pose proof (Z.div_pos (Z.abs m) 60); lia|].
  assert (0 <= Z.abs m mod 60 < 60) as Hmod by (apply Z.mod_pos_bound; lia).
  destruct (two_digits_list (Z.abs m mod 60)) as (m1 & m2 & Em & Hm); [lia|].
  rewrite !list_ascii_app, Eh, Em. pose proof (Z.div_mod (Z.abs m) 60 ltac:(lia)) as Hdm.
  assert (0 <= Z.abs m / 60) by (apply Z.div_pos; lia).
  assert (between 0 24 (getnum true [h1; h2]) = Some (Z.abs m / 60, [])) as Hb1.
  { rewrite Hh. simpl. by rewrite (proj2 (Z.leb_le _ _)), (proj2 (Z.leb_le _ _)) by lia. }
  assert (between 0 60 (getnum true [m1; m2]) = Some (Z.abs m mod 60, [])) as Hb2.
  { rewrite Hm. simpl. by rewrite (proj2 (Z.leb_le _ _)), (proj2 (Z.leb_le _ _)) by lia. }
  destruct (Z.ltb_spec m 0); cbn [list_ascii_of_string app get_zone];
    change (Ascii.eqb "-" (chr 90)) with false; change (Ascii.eqb "+" (chr 90)) with false;
    change (Ascii.eqb ":" (chr 58)) with true; cbv iota beta; rewrite Hb1, Hb2; simpl; do 2 f_equal; lia.
Qed.

Lemma skip_written c r : skip c (c :: r) = Some r.
Proof. simpl. by rewrite Ascii.eqb_refl. Qed.

Lemma between_in lo hi z r : lo <= z <= hi -> between lo hi (Some (z, r)) = Some (z, r).
Proof. intros H. simpl. by rewrite (proj2 (Z.leb_le _ _)), (proj2 (Z.leb_le _ _)) by lia. Qed.

Lemma zone_text_starts offset : exists c r, list_ascii_of_string (zone_text offset) = c :: r /\ ends_fraction c = true.
Proof.
  unfold zone_text. destruct (_ =? 0); [by eexists _, _|]. cbv zeta. rewrite list_ascii_app.
  destruct (_ <? 0); by eexists _, _.
Qed.

(** The text of a time, in a zone of whole minutes. *)
Lemma parse_written u offset : offset mod 60 = 0 -> Z.abs (Z.quot offset 60) / 60 < 24 -> 0 <= local_year 0 u <= 9999 ->
  parse_RFC3339 (list_ascii_of_string (datetime_text u +:+ zone_text offset)) = Some (u - offset * Second).
Proof.
  intros Hmin Hday Hy. unfold local_year in Hy. rewrite Z.mul_0_l, Z.add_0_r in Hy.
  unfold datetime_text. pose proof (civil_bounds (u / Second / 86400)) as Hc.
  destruct (civil_of_days (u / Second / 86400)) as [[y m] d]. cbn [fst] in Hy. cbv zeta. destruct Hc as (Hm & Hd & Hdays).
  set (s := (u / Second) mod 86400).
  assert (0 <= s < 86400) as Hs by (apply Z.mod_pos_bound; lia).
  assert (u = ((u / Second / 86400) * 86400 + s) * Second + u mod Second) as Hu.
  { unfold s. pose proof (Z.div_mod u Second ltac:(done)). pose proof (Z.div_mod (u / Second) 86400 ltac:(done)). lia. }
  assert (0 <= u mod Second < 10 ^ 9) as Hn by (apply Z.mod_pos_bound; done).
  assert (d <= 31) as Hd31.
  { unfold days_in in Hd. pose proof (Z.land_ones (m + Z.shiftr m 3) 1 ltac:(lia)) as Hl. change (Z.ones 1) with 1 in Hl.
    pose proof (Z.mod_pos_bound (m + Z.shiftr m 3) (2 ^ 1) ltac:(lia)). destruct (m =? 2), (is_leap y); lia. }
  assert (0 <= s / 3600 <= 23) as Hh by (Z.to_euclidean_division_equations; lia).
  assert (0 <= s mod 3600 / 60 <= 59) as Hmi by (clear -Hs; Z.to_euclidean_division_equations; lia).
  assert (0 <= s mod 60 <= 59) as Hse by (pose proof (Z.mod_pos_bound s 60); lia).
  destruct (zone_text_starts offset) as (c & r & Hz & Hc0).
  pose proof (get_zone_written offset Hmin Hday) as Hzone. rewrite Hz in Hzone.
  rewrite !list_ascii_app, <- !app_assoc, Hz. cbn [list_ascii_of_string app]. unfold parse_RFC3339.
  change "-"%char with (chr 45). change "T"%char with (chr 84). change ":"%char with (chr 58).
  rewrite get_year_four by done. cbn [mbind option_bind].
  repeat (rewrite skip_written; cbn [mbind option_bind]; rewrite getnum_two by lia; try rewrite between_in by lia;
          cbn [mbind option_bind]).
  rewrite get_fraction_written by done. rewrite Hzone. cbn [mbind option_bind].
  rewrite (proj2 (Z.leb_le 1 d)), (proj2 (Z.leb_le d _)) by lia. cbn [andb]. unfold Date. rewrite Hdays. do 2 f_equal.
  pose proof (Z.div_mod s 3600 ltac:(done)). pose proof (Z.div_mod (s mod 3600) 60 ltac:(done)).
  assert (s mod 3600 mod 60 = s mod 60) by (clear; Z.to_euclidean_division_equations; lia). lia.
Qed.

(** A time reads back as the same instant, to the nanosecond. *)
Lemma time_json_round_trip offset t data : offset mod 60 = 0 -> time_MarshalJSON offset t = Some data ->
  time_UnmarshalJSON data = Decoded t.
Proof.
  unfold time_MarshalJSON. intros Hmin. destruct (_ && _) eqn:E; [|done]. intros [= <-].
  rewrite !andb_true_iff, !Z.leb_le, Z.ltb_lt in E. destruct E as [[Hy1 Hy2] Hday].
  unfold time_UnmarshalJSON, quoted. cbn [app string_of_list_ascii]. change (String _ _ =s? "null") with false.
  cbn [list_ascii_of_string]. rewrite list_ascii_of_string_of_list_ascii, rev_app_distr. cbn [rev app]. rewrite rev_involutive.
  change (Ascii.eqb (chr 34) (chr 34)) with true. cbn [andb].
  rewrite parse_written; [|done|done|].
  - cbn. do 2 f_equal. lia.
  - unfold local_year in *. by replace (t + offset * Second + 0 * Second) with (t + offset * Second) by lia.
Qed.

(** The text of a time is a JSON string without escapes. *)
Abbreviation plain_text s := (Forall (fun a => plain a = true) (list_ascii_of_string s)).

Lemma digit_plain a : digit a -> plain a = true.
Proof. unfold digit. destruct a as [[] [] [] [] [] [] [] []]; vm_compute; congruence. Qed.

Lemma plain_app s t : plain_text s -> plain_text t -> plain_text (s +:+ t).
Proof. intros Hs Ht. rewrite list_ascii_app. by apply Forall_app. Qed.

Lemma plain_pretty (z : Z) : plain_text (pretty z).
Proof.
  destruct (pretty_Z_decimal z) as (sign & d & -> & Hs & Hd). apply Forall_app. split.
  - destruct Hs as [->| ->]; [constructor|by repeat constructor].
  - destruct Hd as [->|(a & r & -> & Ha & Hr)]; [by repeat constructor|]. constructor.
    + destruct a as [[] [] [] [] [] [] [] []]; vm_compute in Ha |- *; congruence.
    + eapply Forall_impl; [exact Hr|]. apply digit_plain.
Qed.

Lemma plain_zero_pad w s : plain_text s -> plain_text (zero_pad w s).
Proof.
  intros Hs. apply plain_app; [|done]. rewrite list_ascii_of_string_of_list_ascii. by apply Forall_replicate.
Qed.

Lemma plain_two_digits z : plain_text (two_digits z).
Proof. unfold two_digits. apply plain_app; [destruct (z <? 10); by repeat constructor|apply plain_pretty]. Qed.

Lemma plain_fraction n : plain_text (fraction n).
Proof.
  unfold fraction. destruct (n =? 0); [constructor|]. apply plain_app; [by repeat constructor|].
  rewrite list_ascii_of_string_of_list_ascii. apply Forall_rev.
  pose proof (plain_zero_pad 9 _ (plain_pretty n)) as H. apply Forall_rev in H.
  destruct (drop_zeros_spec (rev (list_ascii_of_string (zero_pad 9 (pretty n))))) as [k Hk]. rewrite Hk in H.
  by apply Forall_app in H as [_ H].
Qed.

Lemma plain_datetime t offset : plain_text (datetime_text t +:+ zone_text offset).
Proof.
  apply plain_app.
  - unfold datetime_text. destruct (civil_of_days _) as [[y m] d]. cbv zeta.
    repeat (apply plain_app; [first [apply plain_two_digits|apply plain_zero_pad, plain_pretty|by repeat constructor]|]).
    apply plain_fraction.
  - unfold zone_text. destruct (offset =? 0); [by repeat constructor|]. cbv zeta.
    repeat (apply plain_app; [first [apply plain_two_digits|destruct (_ <? 0); by repeat constructor|by repeat constructor]|]).
    apply plain_two_digits.
Qed.

Lemma time_MarshalJSON_readable offset t data : time_MarshalJSON offset t = Some data -> exists s, readable data (JsonString s).
Proof.
  unfold time_MarshalJSON. destruct (_ && _); [|done]. intros [= <-]. eexists. unfold quoted.
  rewrite <- json_string_plain by apply plain_datetime. apply readable_string.
Qed.
