(* ===== verification/Domain.v ===== *)
(** * Domain types of the order core: src/internal/domain

    Errors, orders, payments, reservations, idempotency records, timeline
    events and outbox messages, with their validation.  A Go string type with
    named constants ([OrderStatus], [PaymentStatus], ...) is [string] with
    those constants, since values read from a store need not be one of them. *)

From S2P Require Import Prelude GoLib.

(** ** errors.go

    The sentinel errors, errors of other packages ([ErrOther] with their text)
    and [fmt.Errorf("...: %w", err)] ([ErrWrap]). *)
Inductive err : Type :=
| ErrCustomerRequired | ErrCurrencyRequired | ErrItemsRequired | ErrAmountNegative
| ErrItemQtyInvalid | ErrItemPriceInvalid | ErrAmountMismatch
| ErrPaymentAmountNegative | ErrPaymentProviderRequired | ErrOrderIDRequired
| ErrReservationSKURequired | ErrReservationQtyInvalid
| ErrOrderNotFound | ErrOrderVersionConflict
| ErrInventoryUnavailable | ErrInventoryTemporary
| ErrPaymentDeclined | ErrPaymentIndeterminate | ErrPaymentTemporary
| ErrOutboxPublish
| ErrIdempotencyKeyRequired | ErrIdempotencyRequestHashRequired
| ErrIdempotencyKeyNotFound | ErrIdempotencyKeyAlreadyExists | ErrIdempotencyHashMismatch
| ErrCourierIDRequired | ErrCourierPhoneRequired | ErrCourierPhoneFormatInvalid
| ErrCourierFirstNameRequired | ErrCourierLastNameRequired | ErrCourierVehicleTypeInvalid
| ErrCourierVehicleCapabilityInvalid | ErrCourierVehicleCapabilityNotFound
| ErrCourierNotFound | ErrCourierAlreadyExists | ErrCourierPhoneAlreadyExists
| ErrCourierZoneRequired | ErrCourierZoneUnknown | ErrCourierZoneLimitExceeded
| ErrCourierZonesRequired | ErrCourierZoneDuplicate | ErrCourierPrimaryZoneConflict
| ErrCourierZoneCapacityExceeded
| ErrCourierSlotIDRequired | ErrCourierSlotDurationInvalid | ErrCourierSlotDurationMismatch
| ErrCourierSlotRangeInvalid | ErrCourierSlotStatusInvalid | ErrCourierSlotConflict
| ErrCourierNightSlotCarOnly
| ErrCourierRatingIDRequired | ErrCourierRatingScoreInvalid | ErrCourierRatingTagInvalid
| ErrCourierRatingTagDuplicate | ErrCourierRatingReasonsRequired
| ErrCourierRatingPositiveTagsOnly | ErrCourierRatingAlreadyExists
| ErrOther (msg : string)
| ErrWrap (msg : string) (cause : err).

#[global] Instance err_eq_dec : EqDecision err.
Proof. solve_decision. Defined.

(** [Error()], the text given to [errors.New]. *)
Fixpoint Error (e : err) : string :=
  match e with
  | ErrCustomerRequired => "customer_id is required"
  | ErrCurrencyRequired => "currency is required"
  | ErrItemsRequired => "order must contain at least one item"
  | ErrAmountNegative => "amount_minor must be non-negative"
  | ErrItemQtyInvalid => "item qty must be greater than zero"
  | ErrItemPriceInvalid => "item price must be non-negative"
  | ErrAmountMismatch => "order amount does not match items sum"
  | ErrPaymentAmountNegative => "payment amount must be non-negative"
  | ErrPaymentProviderRequired => "payment provider is required"
  | ErrOrderIDRequired => "order_id is required"
  | ErrReservationSKURequired => "reservation sku is required"
  | ErrReservationQtyInvalid => "reservation qty must be greater than zero"
  | ErrOrderNotFound => "order not found"
  | ErrOrderVersionConflict => "order version conflict"
  | ErrInventoryUnavailable => "inventory unavailable"
  | ErrInventoryTemporary => "inventory temporary error"
  | ErrPaymentDeclined => "payment declined"
  | ErrPaymentIndeterminate => "payment indeterminate state"
  | ErrPaymentTemporary => "payment temporary error"
  | ErrOutboxPublish => "outbox publish failed"
  | ErrIdempotencyKeyRequired => "idempotency key is required"
  | ErrIdempotencyRequestHashRequired => "idempotency request hash is required"
  | ErrIdempotencyKeyNotFound => "idempotency key not found"
  | ErrIdempotencyKeyAlreadyExists => "idempotency key already exists"
  | ErrIdempotencyHashMismatch => "idempotency request hash mismatch"
  | ErrCourierIDRequired => "courier id is required"
  | ErrCourierPhoneRequired => "courier phone is required"
  | ErrCourierPhoneFormatInvalid => "courier phone format is invalid"
  | ErrCourierFirstNameRequired => "courier first name is required"
  | ErrCourierLastNameRequired => "courier last name is required"
  | ErrCourierVehicleTypeInvalid => "courier vehicle type is invalid"
  | ErrCourierVehicleCapabilityInvalid => "courier vehicle capability is invalid"
  | ErrCourierVehicleCapabilityNotFound => "courier vehicle capability not found"
  | ErrCourierNotFound => "courier not found"
  | ErrCourierAlreadyExists => "courier already exists"
  | ErrCourierPhoneAlreadyExists => "courier phone already exists"
  | ErrCourierZoneRequired => "courier zone is required"
  | ErrCourierZoneUnknown => "courier zone is unknown"
  | ErrCourierZoneLimitExceeded => "courier zone limit exceeded"
  | ErrCourierZonesRequired => "courier zones are required"
  | ErrCourierZoneDuplicate => "courier zone duplicate"
  | ErrCourierPrimaryZoneConflict => "courier primary zone conflict"
  | ErrCourierZoneCapacityExceeded => "courier zone capacity exceeded"
  | ErrCourierSlotIDRequired => "courier slot id is required"
  | ErrCourierSlotDurationInvalid => "courier slot duration is invalid"
  | ErrCourierSlotDurationMismatch => "courier slot duration mismatch"
  | ErrCourierSlotRangeInvalid => "courier slot range is invalid"
  | ErrCourierSlotStatusInvalid => "courier slot status is invalid"
  | ErrCourierSlotConflict => "courier slot conflict"
  | ErrCourierNightSlotCarOnly => "courier night slot is allowed only for car"
  | ErrCourierRatingIDRequired => "courier rating id is required"
  | ErrCourierRatingScoreInvalid => "courier rating score is invalid"
  | ErrCourierRatingTagInvalid => "courier rating tag is invalid"
  | ErrCourierRatingTagDuplicate => "courier rating tag duplicate"
  | ErrCourierRatingReasonsRequired => "courier rating reasons are required"
  | ErrCourierRatingPositiveTagsOnly => "courier rating positive tags only"
  | ErrCourierRatingAlreadyExists => "courier rating already exists"
  | ErrOther msg => msg
  | ErrWrap msg cause => msg +:+ ": " +:+ Error cause
  end.

(** [errors.Is]: the error or one it wraps is the target. *)
Fixpoint errors_Is (e target : err) : bool :=
  bool_decide (e = target) ||
  match e with ErrWrap _ cause => errors_Is cause target | _ => false end.

Definition IsVersionConflict (e : err) : bool := errors_Is e ErrOrderVersionConflict.

Definition IsIdempotencyConflict (e : err) : bool :=
  errors_Is e ErrIdempotencyKeyAlreadyExists || errors_Is e ErrIdempotencyHashMismatch.

(** A value or an error. *)
Inductive result (A : Type) : Type :=
| Ok (a : A)
| Err (e : err).
Arguments Ok {A} a.
Arguments Err {A} e.

(** ** order.go *)

Definition OrderStatus := string.
Definition OrderStatusPending : OrderStatus := "pending".
Definition OrderStatusReserved : OrderStatus := "reserved".
Definition OrderStatusPaid : OrderStatus := "paid".
Definition OrderStatusConfirmed : OrderStatus := "confirmed".
Definition OrderStatusCanceled : OrderStatus := "canceled".
Definition OrderStatusRefunded : OrderStatus := "refunded".

Record OrderItem := MkOrderItem {
  OrderItem_ID : string;
  OrderItem_SKU : string;
  OrderItem_Qty : Z;          (* int32 *)
  OrderItem_PriceMinor : Z;   (* int64 *)
  OrderItem_CreatedAt : Time;
}.

Record Order := MkOrder {
  Order_ID : string;
  Order_CustomerID : string;
  Order_Status : OrderStatus;
  Order_Currency : string;
  Order_AmountMinor : Z;      (* int64 *)
  Order_Items : list OrderItem;
  Order_Version : Z;          (* int64 *)
  Order_CreatedAt : Time;
  Order_UpdatedAt : Time;
}.

#[global] Instance OrderItem_eq_dec : EqDecision OrderItem.
Proof. solve_decision. Defined.
#[global] Instance Order_eq_dec : EqDecision Order.
Proof. solve_decision. Defined.

(** Field assignments [o.Status = s; o.UpdatedAt = t] and [o.Version = v]. *)
Definition set_status (o : Order) (s : OrderStatus) (t : Time) : Order :=
  MkOrder (Order_ID o) (Order_CustomerID o) s (Order_Currency o) (Order_AmountMinor o)
    (Order_Items o) (Order_Version o) (Order_CreatedAt o) t.

Definition set_version (o : Order) (v : Z) : Order :=
  MkOrder (Order_ID o) (Order_CustomerID o) (Order_Status o) (Order_Currency o)
    (Order_AmountMinor o) (Order_Items o) v (Order_CreatedAt o) (Order_UpdatedAt o).

(** The loop over the items: the errors in order and the running sum
    [calc += int64(item.Qty) * item.PriceMinor] on 64 bits. *)
Fixpoint check_items (items : list OrderItem) (errs : list err) (calc : Z) : list err * Z :=
  match items with
  | [] => (errs, calc)
  | item :: rest =>
      let errs := if OrderItem_Qty item <=? 0 then errs ++ [ErrItemQtyInvalid] else errs in
      let errs := if OrderItem_PriceMinor item <? 0 then errs ++ [ErrItemPriceInvalid] else errs in
      check_items rest errs
        (wrap64 (calc + wrap64 (OrderItem_Qty item * OrderItem_PriceMinor item)))
  end.

Definition ValidateInvariants (o : Order) : list err :=
  let errs := [] in
  let errs := if Order_CustomerID o =s? "" then errs ++ [ErrCustomerRequired] else errs in
  let errs := if Order_Currency o =s? "" then errs ++ [ErrCurrencyRequired] else errs in
  let errs := if (length (Order_Items o) =? 0)%nat then errs ++ [ErrItemsRequired] else errs in
  let errs := if Order_AmountMinor o <? 0 then errs ++ [ErrAmountNegative] else errs in
  let '(errs, calc) := check_items (Order_Items o) errs 0 in
  if negb (calc =? Order_AmountMinor o) then errs ++ [ErrAmountMismatch] else errs.

(** ** payment.go *)

Definition PaymentStatus := string.
Definition PaymentStatusPending : PaymentStatus := "pending".
Definition PaymentStatusAuthorized : PaymentStatus := "authorized".
Definition PaymentStatusCaptured : PaymentStatus := "captured".
Definition PaymentStatusRefunded : PaymentStatus := "refunded".
Definition PaymentStatusFailed : PaymentStatus := "failed".

Record Payment := MkPayment {
  Payment_ID : string;
  Payment_OrderID : string;
  Payment_Provider : string;
  Payment_ExternalID : string;
  Payment_Status : PaymentStatus;
  Payment_AmountMinor : Z;
  Payment_CreatedAt : Time;
  Payment_UpdatedAt : Time;
}.

Definition Payment_Validate (p : Payment) : list err :=
  if Payment_OrderID p =s? "" then [ErrOrderIDRequired]
  else if Payment_Provider p =s? "" then [ErrPaymentProviderRequired]
  else if Payment_AmountMinor p <? 0 then [ErrPaymentAmountNegative]
  else [].

(** ** reservation.go *)

Definition ReservationStatus := string.
Definition ReservationStatusPending : ReservationStatus := "pending".
Definition ReservationStatusReserved : ReservationStatus := "reserved".
Definition ReservationStatusReleased : ReservationStatus := "released".
Definition ReservationStatusFailed : ReservationStatus := "failed".

Record Reservation := MkReservation {
  Reservation_ID : string;
  Reservation_OrderID : string;
  Reservation_SKU : string;
  Reservation_Qty : Z;
  Reservation_Status : ReservationStatus;
  Reservation_CreatedAt : Time;
  Reservation_UpdatedAt : Time;
}.

Definition Reservation_Validate (r : Reservation) : list err :=
  let errs := [] in
  let errs := if Reservation_OrderID r =s? "" then errs ++ [ErrOrderIDRequired] else errs in
  let errs := if Reservation_SKU r =s? "" then errs ++ [ErrReservationSKURequired] else errs in
  if Reservation_Qty r <=? 0 then errs ++ [ErrReservationQtyInvalid] else errs.

(** ** idempotency.go *)

Definition IdempotencyStatus := string.
Definition IdempotencyStatusProcessing : IdempotencyStatus := "processing".
Definition IdempotencyStatusDone : IdempotencyStatus := "done".
Definition IdempotencyStatusFailed : IdempotencyStatus := "failed".

Definition IdempotencyStatus_Valid (s : IdempotencyStatus) : bool :=
  (s =s? IdempotencyStatusProcessing) || (s =s? IdempotencyStatusDone)
  || (s =s? IdempotencyStatusFailed).

Record IdempotencyRecord := MkIdempotencyRecord {
  Idem_Key : string;
  Idem_RequestHash : string;
  Idem_ResponseBody : bytes;
  Idem_HTTPStatus : Z;
  Idem_Status : IdempotencyStatus;
  Idem_TTLAt : Time;
  Idem_CreatedAt : Time;
  Idem_UpdatedAt : Time;
}.

(** The zero value [domain.IdempotencyRecord{}]. *)
Definition IdempotencyRecord_zero : IdempotencyRecord := MkIdempotencyRecord "" "" "" 0 "" 0 0 0.

(** ** timeline.go, ports.go *)

Record TimelineEvent := MkTimelineEvent {
  TimelineEvent_OrderID : string;
  TimelineEvent_Type : string;
  TimelineEvent_Reason : string;
  TimelineEvent_Occurred : Time;
}.

Record OutboxMessage := MkOutboxMessage {
  OutboxMessage_ID : string;
  OutboxMessage_AggregateType : string;
  OutboxMessage_AggregateID : string;
  OutboxMessage_EventType : string;
  OutboxMessage_Payload : bytes;
}.

Record OutboxStats := MkOutboxStats {
  OutboxStats_PendingCount : Z;
  OutboxStats_OldestPendingAt : Time;
}.

#[global] Instance TimelineEvent_eq_dec : EqDecision TimelineEvent.
Proof. solve_decision. Defined.
#[global] Instance OutboxMessage_eq_dec : EqDecision OutboxMessage.
Proof. solve_decision. Defined.

(** ** What validation guarantees *)

(** The exact sum of the items, on unbounded integers. *)
Definition items_sum (items : list OrderItem) : Z :=
  foldr (fun i acc => OrderItem_Qty i * OrderItem_PriceMinor i + acc) 0 items.

Definition item_ok (i : OrderItem) : Prop := 0 < OrderItem_Qty i /\ 0 <= OrderItem_PriceMinor i.

(** The amount of a valid order is the 64-bit sum of its items. *)
Definition order_ok (o : Order) : Prop :=
  Order_CustomerID o <> "" /\ Order_Currency o <> "" /\ Order_Items o <> [] /\
  0 <= Order_AmountMinor o /\ Forall item_ok (Order_Items o) /\
  Order_AmountMinor o = wrap64 (items_sum (Order_Items o)).

Lemma check_items_sum items : forall errs calc,
  is_int64 calc -> (check_items items errs calc).2 = wrap64 (calc + items_sum items).
Proof.
  induction items as [|i items IH]; intros errs calc Hc; simpl.
  - rewrite Z.add_0_r. by rewrite wrap64_id.
  - rewrite IH by apply wrap64_range. autorewrite with oms. f_equal. lia.
Qed.

Lemma check_items_errs items : forall errs calc,
  (check_items items errs calc).1 = [] <-> errs = [] /\ Forall item_ok items.
Proof.
  induction items as [|i items IH]; intros errs calc; simpl; [split; [done|by intros []]|].
  rewrite IH, Forall_cons. unfold item_ok.
  destruct (Z.leb_spec (OrderItem_Qty i) 0), (Z.ltb_spec (OrderItem_PriceMinor i) 0);
    rewrite ?app_nil; split; intros; destruct_and?; try done; lia.
Qed.

Lemma app_if_nil (b : bool) (l : list err) (e : err) :
  (if b then l ++ [e] else l) = [] <-> l = [] /\ b = false.
Proof. destruct b; [rewrite app_nil|]; split; intros; destruct_and?; done. Qed.

Lemma ValidateInvariants_nil o : ValidateInvariants o = [] <-> order_ok o.
Proof.
  unfold ValidateInvariants, order_ok.
  match goal with |- context [check_items ?its ?es 0] =>
    pose proof (check_items_sum its es 0 ltac:(unfold_widths; lia)) as Hsum;
    pose proof (check_items_errs its es 0) as Herrs;
    destruct (check_items its es 0) as [errs calc]; simpl in Hsum, Herrs
  end.
  rewrite app_if_nil, Herrs, !app_if_nil, Hsum, Z.add_0_l.
  rewrite negb_false_iff, Z.eqb_eq, Z.ltb_ge, !String.eqb_neq, Nat.eqb_neq.
  rewrite length_zero_iff_nil.
  destruct (String.eqb_spec (Order_CustomerID o) "");
    split; intros; destruct_and?; split_and?; auto; done.
Qed.
