(* ===== verification/OrderStore.v ===== *)
(** * Order repository: src/internal/domain/repository.go and
      src/internal/storage/memory/order_repository.go

    The interface [OrderRepository] with the contract its clients rely on, and
    the in-memory implementation, which discharges it.  Every method of the
    implementation runs under the repository's mutex, so it is one atomic
    function of the stored map. *)

From S2P Require Import Prelude GoLib Domain.

(** ** The interface *)

Class OrderRepository (S : Type) := {
  (** the [nat] numbers the call: what is not determined by the state (the
      iteration order of a map, the faults of a connection) may depend on it *)
  repo_Create : nat -> Order -> S -> result unit * S;
  repo_Get : nat -> string -> S -> result Order;
  repo_ListByCustomer : nat -> string -> Z -> S -> result (list Order);
  repo_Save : nat -> Order -> S -> result unit * S;
}.

(** How an order is given back: the items may come in another order, and the
    times may have lost precision. *)
Definition same_item (a b : OrderItem) : Prop :=
  OrderItem_ID b = OrderItem_ID a /\ OrderItem_SKU b = OrderItem_SKU a /\
  OrderItem_Qty b = OrderItem_Qty a /\ OrderItem_PriceMinor b = OrderItem_PriceMinor a.

Record read_back (o o' : Order) : Prop := MkReadBack {
  rb_id : Order_ID o' = Order_ID o;
  rb_customer : Order_CustomerID o' = Order_CustomerID o;
  rb_status : Order_Status o' = Order_Status o;
  rb_currency : Order_Currency o' = Order_Currency o;
  rb_amount : Order_AmountMinor o' = Order_AmountMinor o;
  rb_version : Order_Version o' = Order_Version o;
  rb_items : exists its, its ≡ₚ Order_Items o /\ Forall2 same_item its (Order_Items o');
}.

(** What a successful [Save] stores; the update time may lose precision. *)
Definition saved_as (o : Order) (t : Time) : Order :=
  set_status (set_version o (wrap64 (Order_Version o + 1))) (Order_Status o) t.

(** [o] with the items and the creation time of [cur]. *)
Definition keeping (cur o : Order) : Order :=
  MkOrder (Order_ID o) (Order_CustomerID o) (Order_Status o) (Order_Currency o) (Order_AmountMinor o)
    (Order_Items cur) (Order_Version o) (Order_CreatedAt cur) (Order_UpdatedAt o).

Lemma keeping_same cur o : Order_Items o = Order_Items cur -> Order_CreatedAt o = Order_CreatedAt cur -> keeping cur o = o.
Proof. destruct o. unfold keeping. simpl. by intros <- <-. Qed.

(** The contract.  [repo_orders] is the abstract state: the orders by ID, for
    the states [repo_wf] the repository can be in.  A call that reports success
    has done what its specification says.  One that reports an error has done
    this or nothing: a connection can be lost after the database committed.
    Whether a save replaces the items and the creation time is left to the
    repository: the in-memory one does, the PostgreSQL one does not. *)
Class OrderRepositoryLaws (S : Type) {R : OrderRepository S} := {
  repo_wf : S -> Prop;
  repo_orders : S -> gmap string Order;
  repo_Create_effect : forall n o s r s', repo_wf s -> repo_Create n o s = (r, s') ->
    repo_wf s' /\
    ((r <> Ok tt /\ repo_orders s' = repo_orders s) \/
     (repo_orders s !! Order_ID o = None /\
      exists o', read_back o o' /\ repo_orders s' = <[Order_ID o := o']> (repo_orders s)));
  repo_Get_ok : forall n id s o, repo_wf s -> repo_Get n id s = Ok o -> repo_orders s !! id = Some o;
  repo_Save_effect : forall n o s r s', repo_wf s -> repo_Save n o s = (r, s') ->
    repo_wf s' /\
    ((r <> Ok tt /\ repo_orders s' = repo_orders s) \/
     (exists cur, repo_orders s !! Order_ID o = Some cur /\ Order_Version cur = Order_Version o /\
      exists o' t, (o' = o \/ o' = keeping cur o) /\ repo_orders s' = <[Order_ID o := saved_as o' t]> (repo_orders s)));
}.

Lemma same_item_refl i : same_item i i.
Proof. done. Qed.

Lemma read_back_refl o : read_back o o.
Proof.
  split; try done. exists (Order_Items o). split; [done|].
  apply Forall2_same_length_lookup. split; [done|]. intros ? ? ? H1 H2. by simplify_eq.
Qed.

Lemma items_sum_perm l l' : l ≡ₚ l' -> items_sum l = items_sum l'.
Proof. induction 1; simpl in *; lia. Qed.

(** A valid order is given back as a valid one. *)
Lemma read_back_ok o o' : read_back o o' -> order_ok o -> order_ok o'.
Proof.
  intros [_ Hc _ Hcy Ha _ (its & Hp & Hf)] (H1 & H2 & H3 & H4 & H5 & H6).
  unfold order_ok. rewrite Hc, Hcy, Ha, H6. rewrite <- Hp in H5.
  assert (Order_Items o' <> [] /\ Forall item_ok (Order_Items o') /\ items_sum (Order_Items o') = items_sum its)
    as (Hne & Hok & Hsum).
  { assert (its <> []) as Hne by (intros ->; by apply Permutation_nil_l in Hp).
    clear - Hf Hne H5. split.
    - intros E. rewrite E in Hf. by apply Forall2_nil_inv_r in Hf.
    - clear Hne. induction Hf as [|a b l l' (_ & _ & Hq & Hpr) Hf IH]; [done|]. apply Forall_cons in H5 as [Ha H5].
      destruct (IH H5) as [HF HS]. split.
      + constructor; [|done]. unfold item_ok in *. by rewrite Hq, Hpr.
      + simpl. by rewrite Hq, Hpr, HS. }
  rewrite <- H6. split_and!; [done..|]. by rewrite Hsum, (items_sum_perm _ _ Hp).
Qed.

(** ** The in-memory implementation *)

Module MemoryOrders.

Abbreviation items := (gmap string Order).

Section Operations.
Context {rt : GoRuntime}.


Definition NewOrderRepository : items := ∅.

Definition Create (order : Order) (m : items) : result unit * items :=
  match m !! Order_ID order with
  | Some _ => (Err ErrOrderVersionConflict, m)
  | None => (Ok tt, <[Order_ID order := order]> m)
  end.

Definition Get (id : string) (m : items) : result Order :=
  match m !! id with
  | Some order => Ok order
  | None => Err ErrOrderNotFound
  end.

(** The comparison of [sort.Slice]: newest first, then by descending ID. *)
Definition newer (a b : Order) : bool := less_time_id_desc Order_CreatedAt Order_ID a b.

Definition ListByCustomer (loop : nat) (customerID : string) (limit : Z) (m : items)
  : result (list Order) :=
  let found := List.filter (fun o => Order_CustomerID o =s? customerID)
                 (map snd (map_range loop m)) in
  let sorted := sort_Slice newer found in
  Ok (if (limit >? 0) && (Z.of_nat (length sorted) >? limit)
      then take (Z.to_nat limit) sorted else sorted).

Definition Save (order : Order) (m : items) : result unit * items :=
  match m !! Order_ID order with
  | None => (Err ErrOrderNotFound, m)
  | Some current =>
      if negb (Order_Version current =? Order_Version order)
      then (Err ErrOrderVersionConflict, m)
      else
        let order := set_version order (wrap64 (Order_Version order + 1)) in
        (Ok tt, <[Order_ID order := order]> m)
  end.

End Operations.

#[global] Instance repository {rt : GoRuntime} : OrderRepository items := {
  repo_Create := fun _ => Create;
  repo_Get := fun _ => Get;
  repo_ListByCustomer := ListByCustomer;
  repo_Save := fun _ => Save;
}.

#[global] Program Instance repository_laws {rt : GoRuntime} : OrderRepositoryLaws items := {
  repo_wf := fun _ => True;
  repo_orders := fun m => m;
}.
Next Obligation.
  intros rt n o s r s' _. simpl. unfold Create. split_matches; intros [= <- <-]; (split; [done|]); [by left|].
  right. split; [done|]. exists o. split; [apply read_back_refl|done].
Qed.
Next Obligation. intros rt n id s o _. simpl. unfold Get. split_matches; naive_solver. Qed.
Next Obligation.
  intros rt n o s r s' _. simpl. unfold Save. destruct (s !! Order_ID o) as [cur|] eqn:Hcur;
    [|intros [= <- <-]; split; [done|]; by left].
  destruct (Z.eqb_spec (Order_Version cur) (Order_Version o)) as [Hv|Hv]; simpl; intros [= <- <-];
    (split; [done|]); [|by left].
  right. exists cur. do 2 (split; [done|]). exists o, (Order_UpdatedAt o). split; [by left|]. by destruct o.
Qed.

(** Every order is stored under its own ID. *)
Definition keyed (m : items) : Prop :=
  forall id o, m !! id = Some o -> Order_ID o = id.

Lemma keyed_empty : keyed NewOrderRepository.
Proof. unfold NewOrderRepository. by intros id o ?%lookup_empty_Some. Qed.

Lemma keyed_insert o (m : items) : keyed m -> keyed (<[Order_ID o := o]> m).
Proof. intros Hm id o'. rewrite lookup_insert_Some. naive_solver. Qed.

Lemma Create_keyed o m : keyed m -> keyed (Create o m).2.
Proof. unfold Create. split_matches; eauto using keyed_insert. Qed.

Lemma Save_keyed o m : keyed m -> keyed (Save o m).2.
Proof.
  unfold Save. split_matches; eauto.
  intros Hm. by apply (keyed_insert (set_version o (wrap64 (Order_Version o + 1)))).
Qed.

#[export] Hint Resolve keyed_empty Create_keyed Save_keyed : oms.

(** ** Listing *)

(** The orders of a customer, in some order. *)
Definition customer_orders (customerID : string) (m : items) : list Order :=
  List.filter (fun o => Order_CustomerID o =s? customerID) (map snd (map_to_list m)).

Lemma elem_of_customer_orders c m o :
  o ∈ customer_orders c m <-> Order_CustomerID o = c /\ exists id, m !! id = Some o.
Proof.
  unfold customer_orders. rewrite list_elem_of_In, filter_In, <- list_elem_of_In.
  rewrite String.eqb_eq, elem_of_values. tauto.
Qed.

Lemma customer_orders_range {rt : GoRuntime} {laws : GoRuntimeLaws rt} n c m :
  List.filter (fun o => Order_CustomerID o =s? c) (map snd (map_range n m)) ≡ₚ customer_orders c m.
Proof.
  unfold customer_orders. apply List_filter_perm. by rewrite map_range_perm.
Qed.

(** The full listing, a sorted permutation of the customer's orders. *)
Definition listing {rt : GoRuntime} (loop : nat) (c : string) (m : items) : list Order :=
  sort_Slice newer
    (List.filter (fun o => Order_CustomerID o =s? c) (map snd (map_range loop m))).

Lemma listing_perm {rt : GoRuntime} {laws : GoRuntimeLaws rt} n c m : listing n c m ≡ₚ customer_orders c m.
Proof. unfold listing. rewrite sort_Slice_perm. apply customer_orders_range. Qed.

Lemma listing_sorted {rt : GoRuntime} {laws : GoRuntimeLaws rt} n c m :
  StronglySorted (not_after newer) (listing n c m).
Proof. apply sort_Slice_sorted. unfold newer. auto with oms. Qed.

Lemma ListByCustomer_take {rt : GoRuntime} n c limit m :
  ListByCustomer n c limit m =
  Ok (if limit >? 0 then take (Z.to_nat limit) (listing n c m) else listing n c m).
Proof.
  unfold ListByCustomer. fold (listing n c m). f_equal.
  destruct (Z.gtb_spec limit 0); simpl; [|done].
  destruct (Z.gtb_spec (Z.of_nat (length (listing n c m))) limit); [done|].
  rewrite take_ge; [done|lia].
Qed.

(** Neither the order in which the map is visited nor the unspecified part
    of [sort.Slice] shows in a listing. *)
Lemma listing_unique {rt1 rt2 : GoRuntime} {l1 : GoRuntimeLaws rt1} {l2 : GoRuntimeLaws rt2} n1 n2 c m :
  keyed m -> @listing rt1 n1 c m = @listing rt2 n2 c m.
Proof.
  intros Hk. apply (sorted_unique newer).
  - intros x y Hx Hy H1 H2.
    rewrite listing_perm, elem_of_customer_orders in Hx, Hy.
    destruct Hx as [_ [i Hx]], Hy as [_ [j Hy]].
    unfold newer in *. rewrite less_time_id_desc_flip in *.
    assert (Order_ID x = Order_ID y) as Hid by (by eapply less_time_id_separates).
    rewrite (Hk _ _ Hx), (Hk _ _ Hy) in Hid. congruence.
  - apply listing_sorted.
  - apply listing_sorted.
  - by rewrite !listing_perm.
Qed.

End MemoryOrders.
