(* ===== verification/TimelineStore.v ===== *)
(** * Timeline repository: src/internal/storage/memory/timeline_repository.go

    The events of an order, kept sorted by the time they occurred. *)

From S2P Require Import Prelude GoLib Domain.

Module MemoryTimeline.

Abbreviation events := (gmap string (list TimelineEvent)).

Definition NewTimelineRepository : events := ∅.

Section Operations.
Context {rt : GoRuntime}.

Definition earlier (a b : TimelineEvent) : bool :=
  Before (TimelineEvent_Occurred a) (TimelineEvent_Occurred b).

(** [r.events[id]] of a map of slices: nil when the key is absent. *)
Definition events_of (orderID : string) (m : events) : list TimelineEvent :=
  default [] (m !! orderID).

Definition Append (event : TimelineEvent) (m : events) : result unit * events :=
  let id := TimelineEvent_OrderID event in
  (Ok tt, <[id := sort_Slice earlier (events_of id m ++ [event])]> m).

Definition List (orderID : string) (m : events) : result (list TimelineEvent) :=
  Ok (events_of orderID m).

End Operations.

Lemma earlier_weak : StrictWeak earlier.
Proof.
  unfold earlier, Before. split; intros *; rewrite ?Z.ltb_lt, ?Z.ltb_ge; lia.
Qed.

#[export] Hint Resolve earlier_weak : oms.

(** Every list is in chronological order. *)
Definition chronological (m : events) : Prop :=
  forall id, StronglySorted (fun a b => TimelineEvent_Occurred a <= TimelineEvent_Occurred b)
               (events_of id m).

Section Facts.
Context {rt : GoRuntime} {laws : GoRuntimeLaws rt}.

Lemma sorted_earlier l :
  StronglySorted (not_after earlier) l ->
  StronglySorted (fun a b => TimelineEvent_Occurred a <= TimelineEvent_Occurred b) l.
Proof.
  induction 1 as [|x l Hs IH Hx]; constructor; [done|].
  eapply Forall_impl; [exact Hx|]. intros y. unfold not_after, earlier, Before.
  rewrite Z.ltb_ge. lia.
Qed.

Lemma events_of_insert id l m : events_of id (<[id := l]> m) = l.
Proof. unfold events_of. by rewrite lookup_insert_eq. Qed.

Lemma events_of_insert_ne id id' l m : id <> id' -> events_of id' (<[id := l]> m) = events_of id' m.
Proof. intros. unfold events_of. by rewrite lookup_insert_ne. Qed.

Lemma Append_own event m :
  events_of (TimelineEvent_OrderID event) (Append event m).2
  ≡ₚ event :: events_of (TimelineEvent_OrderID event) m.
Proof.
  unfold Append. simpl. rewrite events_of_insert, sort_Slice_perm.
  by rewrite <- Permutation_middle, app_nil_r.
Qed.

Lemma Append_other event m id :
  id <> TimelineEvent_OrderID event -> events_of id (Append event m).2 = events_of id m.
Proof. intros. unfold Append. simpl. by apply events_of_insert_ne. Qed.

Lemma Append_chronological event m : chronological m -> chronological (Append event m).2.
Proof.
  intros Hm id. destruct (decide (id = TimelineEvent_OrderID event)) as [->|Hne].
  - unfold Append. simpl. rewrite events_of_insert.
    apply sorted_earlier, sort_Slice_sorted. auto with oms.
  - by rewrite Append_other.
Qed.

End Facts.

End MemoryTimeline.
