(* ===== verification/OutboxStore.v ===== *)
(** * Outbox repository: src/internal/storage/memory/outbox_repository.go

    Messages wait as [pending], are claimed as [processing] under a lease, and
    end as [sent] or [failed].  [time.Now()] and the [uuid.NewString()] of a
    new message are arguments. *)

From S2P Require Import Prelude GoLib Domain.

Module MemoryOutbox.

Record outboxRecord := MkOutboxRecord {
  rec_msg : OutboxMessage;
  rec_status : string;
  rec_attemptCnt : Z;
  rec_createdAt : Time;
  rec_updatedAt : Time;
}.

Abbreviation records := (gmap string outboxRecord).

Definition outboxProcessingLease : Duration := 2 * Minute.

Definition NewOutboxRepository : records := ∅.

Definition set_id (msg : OutboxMessage) (id : string) : OutboxMessage :=
  MkOutboxMessage id (OutboxMessage_AggregateType msg) (OutboxMessage_AggregateID msg)
    (OutboxMessage_EventType msg) (OutboxMessage_Payload msg).

Definition Enqueue (uuid : string) (now : Time) (msg : OutboxMessage) (m : records)
  : result OutboxMessage * records :=
  let msg := if OutboxMessage_ID msg =s? "" then set_id msg uuid else msg in
  (Ok msg, <[OutboxMessage_ID msg := MkOutboxRecord msg "pending" 0 now now]> m).

(** A record the loop of [PullPending] does not skip. *)
Definition claimable (staleBefore : Time) (r : outboxRecord) : bool :=
  negb ((rec_status r <>s? "pending") &&
        ((rec_status r <>s? "processing") || After (rec_updatedAt r) staleBefore)).

Definition claim (now : Time) (r : outboxRecord) : outboxRecord :=
  MkOutboxRecord (rec_msg r) "processing" (rec_attemptCnt r) (rec_createdAt r) now.

(** The comparison of the candidate ids: oldest first, then by ID. *)
Definition older (a b : string * outboxRecord) : bool :=
  less_time_id (fun p => rec_createdAt (snd p)) fst a b.

Fixpoint claim_loop (ids : list string) (limit : Z) (now staleBefore : Time)
    (acc : list OutboxMessage) (m : records) : list OutboxMessage * records :=
  match ids with
  | [] => (acc, m)
  | id :: rest =>
      match m !! id with
      | None => claim_loop rest limit now staleBefore acc m
      | Some rec =>
          if negb (claimable staleBefore rec)
          then claim_loop rest limit now staleBefore acc m
          else
            let m := <[id := claim now rec]> m in
            let acc := acc ++ [rec_msg rec] in
            if Z.of_nat (length acc) >=? limit then (acc, m)
            else claim_loop rest limit now staleBefore acc m
      end
  end.

(** The ids in the order the loop visits them. *)
Definition visit_order {rt : GoRuntime} (loop : nat) (m : records) : list string :=
  map fst (sort_Slice older (map_range loop m)).

Definition PullPending {rt : GoRuntime} (loop : nat) (now : Time) (limit : Z) (m : records)
  : result (list OutboxMessage) * records :=
  let limit := if limit <=? 0 then 100 else limit in
  let staleBefore := now - outboxProcessingLease in
  let '(result, m) := claim_loop (visit_order loop m) limit now staleBefore [] m in
  (Ok result, m).

Definition stats_step (stats : OutboxStats) (r : outboxRecord) : OutboxStats :=
  if (rec_status r <>s? "pending") && (rec_status r <>s? "processing") then stats
  else MkOutboxStats (OutboxStats_PendingCount stats + 1)
         (if IsZero (OutboxStats_OldestPendingAt stats)
             || Before (rec_createdAt r) (OutboxStats_OldestPendingAt stats)
          then rec_createdAt r else OutboxStats_OldestPendingAt stats).

Definition Stats {rt : GoRuntime} (loop : nat) (m : records) : result OutboxStats :=
  Ok (foldl stats_step (MkOutboxStats 0 0) (map snd (map_range loop m))).

(** [MarkSent] and [MarkFailed] write a status and count an attempt. *)
Definition mark (status : string) (now : Time) (id : string) (m : records)
  : result unit * records :=
  match m !! id with
  | None => (Err ErrOutboxPublish, m)
  | Some r => (Ok tt, <[id := MkOutboxRecord (rec_msg r) status (wrap64 (rec_attemptCnt r + 1))
                                (rec_createdAt r) now]> m)
  end.

Definition MarkSent (now : Time) (id : string) (m : records) := mark "sent" now id m.
Definition MarkFailed (now : Time) (id : string) (m : records) := mark "failed" now id m.

Definition AllPending {rt : GoRuntime} (loop : nat) (m : records) : list OutboxMessage :=
  map rec_msg (List.filter (fun r => rec_status r =s? "pending") (map snd (map_range loop m))).

(** ** Reference definition of a pull

    The claimable ids in visiting order, cut to the limit. *)

Definition eligible (staleBefore : Time) (m : records) (id : string) : bool :=
  match m !! id with Some r => claimable staleBefore r | None => false end.

Definition chosen (ids : list string) (limit : Z) (staleBefore : Time) (m : records) : list string :=
  take (Z.to_nat limit) (List.filter (eligible staleBefore m) ids).

Definition message_at (m : records) (id : string) : list OutboxMessage :=
  match m !! id with Some r => [rec_msg r] | None => [] end.

Lemma eligible_insert_ne sb m id id' r :
  id <> id' -> eligible sb (<[id := r]> m) id' = eligible sb m id'.
Proof. intros. unfold eligible. by rewrite lookup_insert_ne. Qed.

Lemma filter_eligible_insert sb m id r ids :
  id ∉ ids -> List.filter (eligible sb (<[id := r]> m)) ids = List.filter (eligible sb m) ids.
Proof.
  intros Hid. apply filter_ext_in. intros id' H%list_elem_of_In.
  apply eligible_insert_ne. by intros ->.
Qed.

Lemma message_at_insert_ne m id id' r :
  id <> id' -> message_at (<[id := r]> m) id' = message_at m id'.
Proof. intros. unfold message_at. by rewrite lookup_insert_ne. Qed.

Lemma flat_map_message_insert m id r ids :
  id ∉ ids -> flat_map (message_at (<[id := r]> m)) ids = flat_map (message_at m) ids.
Proof.
  induction ids as [|x ids IH]; simpl; [done|].
  rewrite not_elem_of_cons. intros [? ?]. rewrite IH by done.
  by rewrite message_at_insert_ne.
Qed.

(** The store after the ids of [ch] have been claimed, by lookup. *)
Definition claimed (now : Time) (ch : list string) (m : records) (id : string)
  : option outboxRecord :=
  if decide (id ∈ ch) then claim now <$> m !! id else m !! id.

Lemma claimed_nil now m id : claimed now [] m id = m !! id.
Proof. done. Qed.

Lemma claimed_cons now ch m id rec :
  id ∉ ch -> m !! id = Some rec ->
  forall j, claimed now (id :: ch) m j = claimed now ch (<[id := claim now rec]> m) j.
Proof.
  intros Hch Erec j. unfold claimed. destruct (decide (j = id)) as [->|Hj].
  - rewrite decide_True by (by constructor). rewrite decide_False by done.
    by rewrite lookup_insert_eq, Erec.
  - rewrite lookup_insert_ne by done.
    destruct (decide (j ∈ ch)); [rewrite decide_True by (by constructor)|
      rewrite decide_False by (rewrite elem_of_cons; tauto)]; done.
Qed.

Lemma chosen_subset ids limit sb m id : id ∈ chosen ids limit sb m -> id ∈ ids /\ eligible sb m id = true.
Proof.
  intros H%subseteq_take%list_elem_of_In%filter_In.
  by rewrite list_elem_of_In.
Qed.

(** What the loop does from any point: it claims the next chosen ids. *)
Lemma claim_loop_spec ids : forall limit now sb acc m,
  NoDup ids -> Z.of_nat (length acc) < limit ->
  (claim_loop ids limit now sb acc m).1 =
    acc ++ flat_map (message_at m) (chosen ids (limit - Z.of_nat (length acc)) sb m) /\
  forall id, (claim_loop ids limit now sb acc m).2 !! id =
    claimed now (chosen ids (limit - Z.of_nat (length acc)) sb m) m id.
Proof.
  induction ids as [|id ids IH]; intros limit now sb acc m Hnd Hlt; simpl.
  { unfold chosen. simpl. rewrite take_nil. simpl. by rewrite app_nil_r. }
  apply NoDup_cons in Hnd as [Hid Hnd].
  assert (Hel : eligible sb m id =
    match m !! id with Some r => claimable sb r | None => false end) by done.
  unfold chosen. simpl. rewrite Hel.
  destruct (m !! id) as [rec|] eqn:Erec; [|by apply (IH limit now sb acc m)].
  destruct (claimable sb rec) eqn:Ecl; simpl; [|by apply (IH limit now sb acc m)].
  set (m1 := <[id := claim now rec]> m).
  replace (Z.to_nat (limit - Z.of_nat (length acc)))
    with (S (Z.to_nat (limit - Z.of_nat (length (acc ++ [rec_msg rec])))))
    by (rewrite length_app; simpl; lia).
  simpl. rewrite <- (filter_eligible_insert sb m id (claim now rec) ids Hid). fold m1.
  fold (chosen ids (limit - Z.of_nat (length (acc ++ [rec_msg rec]))) sb m1).
  set (ch := chosen ids _ sb m1).
  assert (id ∉ ch) as Hch by (by intros [? _]%chosen_subset).
  assert (message_at m id ++ flat_map (message_at m) ch =
          rec_msg rec :: flat_map (message_at m1) ch) as ->.
  { subst m1. rewrite (flat_map_message_insert m id _ ch Hch).
    unfold message_at at 1. by rewrite Erec. }
  setoid_rewrite (claimed_cons now ch m id rec Hch Erec). fold m1.
  destruct (Z.geb_spec (Z.of_nat (length (acc ++ [rec_msg rec]))) limit) as [Hge|Hlt'].
  - assert (ch = []) as ->; [|done].
    subst ch. unfold chosen. by replace (Z.to_nat _) with 0%nat by lia.
  - destruct (IH limit now sb (acc ++ [rec_msg rec]) m1 Hnd Hlt') as [IH1 IH2].
    split; [|exact IH2]. by rewrite IH1, <- app_assoc.
Qed.

Section Pull.
Context {rt : GoRuntime} {laws : GoRuntimeLaws rt}.

Lemma visit_order_perm loop m : visit_order loop m ≡ₚ map fst (map_to_list m).
Proof. unfold visit_order. by rewrite sort_Slice_perm, map_range_perm. Qed.

Lemma visit_order_NoDup loop m : NoDup (visit_order loop m).
Proof. rewrite visit_order_perm. apply NoDup_fst_map_to_list. Qed.

Lemma elem_of_visit_order loop m id : id ∈ visit_order loop m <-> is_Some (m !! id).
Proof.
  rewrite visit_order_perm, list_elem_of_fmap. split.
  - intros ([x r] & -> & H%elem_of_map_to_list). by exists r.
  - intros [r H]. exists (id, r). by rewrite elem_of_map_to_list.
Qed.

Definition effective_limit (limit : Z) : Z := if limit <=? 0 then 100 else limit.

(** The ids one call of [PullPending] claims, in the order it returns them. *)
Definition pulled (loop : nat) (now : Time) (limit : Z) (m : records) : list string :=
  chosen (visit_order loop m) (effective_limit limit) (now - outboxProcessingLease) m.

Lemma PullPending_messages loop now limit m :
  (PullPending loop now limit m).1 = Ok (flat_map (message_at m) (pulled loop now limit m)).
Proof.
  unfold PullPending, pulled. fold (effective_limit limit).
  assert (0 < effective_limit limit) as Hlim by (unfold effective_limit; case_match; lia).
  destruct (claim_loop_spec (visit_order loop m) (effective_limit limit) now
    (now - outboxProcessingLease) [] m (visit_order_NoDup loop m) Hlim) as [H _].
  simpl in H. rewrite Z.sub_0_r in H. destruct (claim_loop _ _ _ _ _ _). simpl in *. by rewrite H.
Qed.

Lemma PullPending_store loop now limit m id :
  (PullPending loop now limit m).2 !! id = claimed now (pulled loop now limit m) m id.
Proof.
  unfold PullPending, pulled. fold (effective_limit limit).
  assert (0 < effective_limit limit) as Hlim by (unfold effective_limit; case_match; lia).
  destruct (claim_loop_spec (visit_order loop m) (effective_limit limit) now
    (now - outboxProcessingLease) [] m (visit_order_NoDup loop m) Hlim) as [_ H].
  simpl in H. rewrite Z.sub_0_r in H. destruct (claim_loop _ _ _ _ _ _). simpl in *. apply H.
Qed.

Lemma pulled_eligible loop now limit m id :
  id ∈ pulled loop now limit m -> eligible (now - outboxProcessingLease) m id = true.
Proof. intros H. by apply chosen_subset in H as [_ ?]. Qed.

Lemma pulled_pairs loop now limit m :
  pulled loop now limit m =
  map fst (take (Z.to_nat (effective_limit limit))
    (List.filter (fun p => eligible (now - outboxProcessingLease) m (fst p))
       (sort_Slice older (map_range loop m)))).
Proof. unfold pulled, chosen, visit_order. by rewrite filter_map, <- firstn_map. Qed.

Lemma elem_of_visited loop m id r : (id, r) ∈ sort_Slice older (map_range loop m) <-> m !! id = Some r.
Proof. by rewrite sort_Slice_perm, map_range_perm, elem_of_map_to_list. Qed.

(** A pulled message is leased: no pull in the next two minutes returns
    it again, whatever the two calls' limits. *)
Theorem pull_exclusive loop1 loop2 now1 now2 limit1 limit2 m id :
  now2 < now1 + outboxProcessingLease ->
  id ∈ pulled loop1 now1 limit1 m ->
  id ∉ pulled loop2 now2 limit2 (PullPending loop1 now1 limit1 m).2.
Proof.
  intros Hlease H1 H2%pulled_eligible. pose proof (pulled_eligible _ _ _ _ _ H1) as He.
  unfold eligible in *. rewrite PullPending_store in H2. unfold claimed in H2.
  rewrite decide_True in H2 by done. destruct (m !! id) as [r|]; [|done].
  unfold claimable, claim, After in H2. simpl in H2. reflect_tests. lia.
Qed.

(** Pulls are oldest first and skip nothing: a claimable message that a
    pull leaves behind is not older than one it returns, and it is only left
    behind when the pull is full. *)
Theorem pull_oldest_first loop now limit m id r id' r' :
  id ∈ pulled loop now limit m -> m !! id = Some r ->
  m !! id' = Some r' -> claimable (now - outboxProcessingLease) r' = true ->
  id' ∉ pulled loop now limit m ->
  older (id', r') (id, r) = false /\
  Z.of_nat (length (pulled loop now limit m)) = effective_limit limit.
Proof.
  intros H1 Hr Hr' Hc Hn.
  set (l := List.filter (fun p => eligible (now - outboxProcessingLease) m (fst p))
              (sort_Slice older (map_range loop m))).
  assert (forall j s, j ∈ pulled loop now limit m -> m !! j = Some s ->
            (j, s) ∈ take (Z.to_nat (effective_limit limit)) l) as Hpair.
  { intros j s Hj Hs. rewrite pulled_pairs in Hj.
    apply list_elem_of_fmap in Hj as ([j' s'] & Heq & Hin). simpl in Heq. subst j'.
    assert (s' = s) as ->; [|done]. apply subseteq_take, list_elem_of_In, filter_In in Hin as [Hin _].
    apply list_elem_of_In, elem_of_visited in Hin. congruence. }
  assert ((id', r') ∈ l) as Hin'.
  { apply list_elem_of_In, filter_In. rewrite <- list_elem_of_In, elem_of_visited.
    split; [done|]. unfold eligible. simpl. by rewrite Hr'. }
  assert ((id', r') ∉ take (Z.to_nat (effective_limit limit)) l) as Hout.
  { intros H. apply Hn. rewrite pulled_pairs. apply list_elem_of_fmap. by exists (id', r'). }
  split.
  - assert (not_after older (id, r) (id', r')) as H; [|exact H].
    apply (StronglySorted_take _ (Z.to_nat (effective_limit limit)) l); eauto.
    apply StronglySorted_filter, sort_Slice_sorted. unfold older. auto with oms.
  - rewrite pulled_pairs, length_map, length_take. fold l.
    assert (0 < effective_limit limit) by (unfold effective_limit; case_match; lia).
    destruct (Nat.le_gt_cases (length l) (Z.to_nat (effective_limit limit))); [|lia].
    rewrite take_ge in Hout by done. done.
Qed.

End Pull.

(** ** Backlog statistics *)

Definition backlog (r : outboxRecord) : bool :=
  (rec_status r =s? "pending") || (rec_status r =s? "processing").

Lemma stats_step_skip st r : backlog r = false -> stats_step st r = st.
Proof. unfold backlog, stats_step. intros [-> ->]%orb_false_iff. done. Qed.

Lemma stats_step_take st r :
  backlog r = true ->
  stats_step st r = MkOutboxStats (OutboxStats_PendingCount st + 1)
    (if IsZero (OutboxStats_OldestPendingAt st)
        || Before (rec_createdAt r) (OutboxStats_OldestPendingAt st)
     then rec_createdAt r else OutboxStats_OldestPendingAt st).
Proof.
  unfold backlog, stats_step. rewrite orb_true_iff. intros [-> | ->]; simpl; [done|].
  by rewrite andb_false_r.
Qed.

Lemma stats_fold l : forall st,
  OutboxStats_PendingCount (foldl stats_step st l) =
    OutboxStats_PendingCount st + Z.of_nat (length (List.filter backlog l)).
Proof.
  induction l as [|r l IH]; intros st; simpl; [lia|]. rewrite IH.
  destruct (backlog r) eqn:E; [rewrite stats_step_take by done; simpl; lia|].
  by rewrite stats_step_skip.
Qed.

(** Creation times are not the zero time: [Enqueue] takes them from the clock. *)
Definition stamped (l : list outboxRecord) : Prop := Forall (fun r => 0 < rec_createdAt r) l.

Lemma stats_oldest l : forall st,
  stamped l -> 0 <= OutboxStats_OldestPendingAt st ->
  let t := OutboxStats_OldestPendingAt (foldl stats_step st l) in
  (forall r, r ∈ l -> backlog r = true -> t <= rec_createdAt r) /\
  (OutboxStats_OldestPendingAt st = 0 \/ t <= OutboxStats_OldestPendingAt st) /\
  (t = OutboxStats_OldestPendingAt st /\
     (0 < t \/ forall r, r ∈ l -> backlog r = false) \/
   exists r, r ∈ l /\ backlog r = true /\ t = rec_createdAt r).
Proof.
  induction l as [|r l IH]; intros st Hst Hnn; simpl.
  { split; [intros r Hr; by apply not_elem_of_nil in Hr|]. split; [by right|].
    left. split; [done|]. right. intros r Hr. by apply not_elem_of_nil in Hr. }
  apply Forall_cons in Hst as [Hr Hst].
  destruct (backlog r) eqn:E.
  2: { rewrite stats_step_skip by done. destruct (IH st Hst Hnn) as (I1 & I2 & I3).
       split_and!; [|done|].
       - intros x [->|Hx]%elem_of_cons Hb; [congruence|by apply I1].
       - destruct I3 as [[-> Hz]|(x & ? & ? & ?)].
         + left. split; [done|]. destruct Hz as [|Hz]; [by left|]. right.
           intros x [->|Hx]%elem_of_cons; auto.
         + right. exists x. by rewrite elem_of_cons; auto. }
  set (st1 := stats_step st r).
  assert (0 < OutboxStats_OldestPendingAt st1 <= rec_createdAt r /\
          (OutboxStats_OldestPendingAt st = 0 \/
           OutboxStats_OldestPendingAt st1 <= OutboxStats_OldestPendingAt st) /\
          (OutboxStats_OldestPendingAt st1 = OutboxStats_OldestPendingAt st \/
           OutboxStats_OldestPendingAt st1 = rec_createdAt r)) as (S1 & S2 & S3).
  { subst st1. rewrite stats_step_take by done. simpl. unfold IsZero, Before.
    destruct (Z.eqb_spec (OutboxStats_OldestPendingAt st) 0); simpl; [lia|].
    destruct (Z.ltb_spec (rec_createdAt r) (OutboxStats_OldestPendingAt st)); lia. }
  destruct (IH st1 Hst ltac:(lia)) as (I1 & I2 & I3).
  split_and!.
  - intros x [->|Hx]%elem_of_cons Hb; [lia|by apply I1].
  - lia.
  - destruct I3 as [[-> _]|(x & ? & ? & ?)].
    + destruct S3 as [S3|S3]; [left; split; [done|left; lia]|].
      right. exists r. by rewrite elem_of_cons; auto.
    + right. exists x. by rewrite elem_of_cons; auto.
Qed.

(** The backlog statistics are exact: the count is the number of pending
    and processing records, and with a non-empty backlog the reported time is
    the creation time of one of them and a lower bound of all. *)
Theorem stats_exact {rt : GoRuntime} {laws : GoRuntimeLaws rt} loop m st :
  stamped (map snd (map_to_list m)) ->
  Stats loop m = Ok st ->
  OutboxStats_PendingCount st =
    Z.of_nat (length (List.filter backlog (map snd (map_to_list m)))) /\
  (forall id r, m !! id = Some r -> backlog r = true ->
     OutboxStats_OldestPendingAt st <= rec_createdAt r) /\
  (OutboxStats_PendingCount st = 0 \/
   exists id r, m !! id = Some r /\ backlog r = true /\
                OutboxStats_OldestPendingAt st = rec_createdAt r).
Proof.
  intros Hst [= <-]. unfold stamped in Hst.
  assert (map snd (map_range loop m) ≡ₚ map snd (map_to_list m)) as HP by (by rewrite map_range_perm).
  rewrite <- HP in Hst. set (l := map snd (map_range loop m)) in *.
  assert (forall r, r ∈ l <-> exists id, m !! id = Some r) as Hel
    by (intros r; by rewrite HP, elem_of_values).
  destruct (stats_oldest l (MkOutboxStats 0 0) Hst) as (I1 & _ & I3); [done|].
  rewrite stats_fold. simpl. rewrite <- (List_filter_perm backlog _ _ HP). fold l.
  split_and!; [lia| |].
  - intros id r Hr. apply I1, Hel. eauto.
  - destruct (List.filter backlog l) as [|x q] eqn:E; [by left|]. right.
    assert (x ∈ l /\ backlog x = true) as [Hx Hb].
    { rewrite list_elem_of_In. apply filter_In. rewrite E. by left. }
    destruct I3 as [[-> [Hz|Hz]]|(r & Hr & Hb' & ->)].
    + simpl in Hz. lia.
    + rewrite Hz in Hb; done.
    + apply Hel in Hr as [id Hr]. eauto.
Qed.
End MemoryOutbox.
