(* ===== verification/IdempotencyStore.v ===== *)
(** * Idempotency repository:
      src/internal/storage/memory/idempotency_repository.go

    One record per idempotency key.  [CreateProcessing] is the atomic
    test-and-set that decides which request runs. *)

From S2P Require Import Prelude GoLib Domain.

Module MemoryIdempotency.

Abbreviation items := (gmap string IdempotencyRecord).

Definition NewIdempotencyRepository : items := ∅.

(** [cloneIdempotencyRecord] copies the body: values are not aliased. *)
Definition cloneIdempotencyRecord (src : IdempotencyRecord) : IdempotencyRecord := src.

Definition CreateProcessing (now : Time) (key requestHash : string) (ttlAt : Time) (m : items)
  : IdempotencyRecord * option err * items :=
  let key := TrimSpace key in
  let requestHash := TrimSpace requestHash in
  if key =s? "" then (IdempotencyRecord_zero, Some ErrIdempotencyKeyRequired, m)
  else if requestHash =s? "" then (IdempotencyRecord_zero, Some ErrIdempotencyRequestHashRequired, m)
  else
    let ttlAt := if IsZero ttlAt then now + 24 * Hour else ttlAt in
    match m !! key with
    | Some existing =>
        if Idem_RequestHash existing <>s? requestHash
        then (existing, Some ErrIdempotencyHashMismatch, m)
        else (existing, Some ErrIdempotencyKeyAlreadyExists, m)
    | None =>
        let record :=
          MkIdempotencyRecord key requestHash "" 0 IdempotencyStatusProcessing ttlAt now now in
        (cloneIdempotencyRecord record, None, <[key := cloneIdempotencyRecord record]> m)
    end.

Definition Get (key : string) (m : items) : result IdempotencyRecord :=
  let key := TrimSpace key in
  if key =s? "" then Err ErrIdempotencyKeyRequired
  else match m !! key with
       | None => Err ErrIdempotencyKeyNotFound
       | Some record => Ok (cloneIdempotencyRecord record)
       end.

Definition markStatus (now : Time) (key : string) (status : IdempotencyStatus)
    (responseBody : bytes) (httpStatus : Z) (m : items) : option err * items :=
  let key := TrimSpace key in
  if key =s? "" then (Some ErrIdempotencyKeyRequired, m)
  else match m !! key with
       | None => (Some ErrIdempotencyKeyNotFound, m)
       | Some record =>
           (None, <[key := MkIdempotencyRecord (Idem_Key record) (Idem_RequestHash record)
                             responseBody httpStatus status (Idem_TTLAt record)
                             (Idem_CreatedAt record) now]> m)
       end.

Definition MarkDone (now : Time) (key : string) (body : bytes) (httpStatus : Z) (m : items) :=
  markStatus now key IdempotencyStatusDone body httpStatus m.
Definition MarkFailed (now : Time) (key : string) (body : bytes) (httpStatus : Z) (m : items) :=
  markStatus now key IdempotencyStatusFailed body httpStatus m.

(** The loop of [DeleteExpired] over the entries of the map, in the order
    [entries] of this iteration; Go allows deleting while iterating. *)
Fixpoint delete_loop (entries : list (string * IdempotencyRecord)) (before : Time) (limit : Z)
    (removed : Z) (m : items) : Z * items :=
  match entries with
  | [] => (removed, m)
  | (key, record) :: rest =>
      if After (Idem_TTLAt record) before then delete_loop rest before limit removed m
      else
        let m := delete key m in
        let removed := removed + 1 in
        if (limit >? 0) && (removed >=? limit) then (removed, m)
        else delete_loop rest before limit removed m
  end.

Definition DeleteExpired {rt : GoRuntime} (loop : nat) (now before : Time) (limit : Z) (m : items)
  : result Z * items :=
  let before := if IsZero before then now else before in
  let '(removed, m) := delete_loop (map_range loop m) before limit 0 m in
  (Ok removed, m).

(** ** Removal of expired records *)

Definition expired (before : Time) (r : IdempotencyRecord) : bool := negb (After (Idem_TTLAt r) before).

Definition expired_count (before : Time) (m : items) : nat :=
  length (List.filter (expired before) (map snd (map_to_list m))).

(** [m'] is [m] without some expired records. *)
Definition pruned (before : Time) (m m' : items) : Prop :=
  m' ⊆ m /\ forall k r, m !! k = Some r -> m' !! k = None -> expired before r = true.

Lemma expired_count_delete before (m : items) k r :
  m !! k = Some r ->
  expired_count before m = ((if expired before r then 1 else 0) + expired_count before (delete k m))%nat.
Proof.
  intros H. unfold expired_count.
  rewrite <- (List_filter_perm _ _ _ (Permutation_map snd (map_to_list_delete m k r H))).
  simpl. by destruct (expired before r).
Qed.

(** The loop on entries of the map that it has not visited yet. *)
Lemma delete_loop_spec entries : forall before limit removed (m : items),
  NoDup entries.*1 -> Forall (fun p => m !! p.1 = Some p.2) entries ->
  (limit > 0 -> removed < limit) ->
  let r := delete_loop entries before limit removed m in
  pruned before m r.2 /\
  r.1 = removed + Z.of_nat (expired_count before m) - Z.of_nat (expired_count before r.2) /\
  (limit > 0 -> r.1 <= limit) /\
  ((limit > 0 /\ r.1 = limit) \/
   forall k x, (k, x) ∈ entries -> expired before x = true -> r.2 !! k = None).
Proof.
  induction entries as [|[key x] rest IH]; intros before limit removed m Hnd Hm Hlim; simpl.
  { split_and!; [by split; [|naive_solver]|lia|lia|]. right. intros k y H. by apply not_elem_of_nil in H. }
  apply NoDup_cons in Hnd as [Hkey Hnd]. apply Forall_cons in Hm as [Hx Hm]. simpl in Hx, Hkey.
  destruct (After (Idem_TTLAt x) before) eqn:E.
  { destruct (IH before limit removed m Hnd Hm Hlim) as (I1 & I2 & I2' & I3). split_and!; try done.
    destruct I3 as [?|I3]; [by left|]. right. intros k y [?|Hin]%elem_of_cons Hy; [|by eauto].
    simplify_eq. unfold expired in Hy. by rewrite E in Hy. }
  assert (expired before x = true) as Hexp by (unfold expired; by rewrite E).
  pose proof (expired_count_delete before m key x Hx) as Hcount. rewrite Hexp in Hcount.
  assert (pruned before m (delete key m)) as Hp.
  { split; [apply delete_subseteq|]. intros k r Hk. rewrite lookup_delete_None. naive_solver. }
  destruct ((limit >? 0) && (removed + 1 >=? limit)) eqn:El.
  { simpl. apply andb_true_iff in El as [??].
    assert (limit > 0) by lia. specialize (Hlim ltac:(lia)).
    split_and!; [done|lia|lia|left; lia]. }
  destruct (IH before limit (removed + 1) (delete key m) Hnd) as (I1 & I2 & I2' & I3).
  { rewrite Forall_forall in Hm |- *. intros [k y] Hk. simpl. rewrite lookup_delete_ne; [by apply (Hm _ Hk)|].
    intros ->. apply Hkey. apply list_elem_of_fmap. by exists (k, y). }
  { intros H. apply andb_false_iff in El as [?|?]; lia. }
  split_and!; [|lia|done|].
  - destruct I1 as [I1a I1b], Hp as [Ha Hb]. split; [by etrans|]. intros k r Hk Hn.
    destruct (delete key m !! k) as [r'|] eqn:Ed; [|by eapply Hb].
    pose proof Ed as [_ Ed']%lookup_delete_Some. simplify_eq. by eapply I1b.
  - destruct I3 as [?|I3]; [by left|]. right. intros k y [?|Hin]%elem_of_cons Hy; [|by eauto].
    simplify_eq. destruct I1 as [I1a _].
    eapply lookup_weaken_None; [|exact I1a]. by apply lookup_delete_eq.
Qed.

Lemma delete_loop_ge entries : forall before limit removed (m : items),
  removed <= (delete_loop entries before limit removed m).1.
Proof.
  induction entries as [|[key x] rest IH]; intros before limit removed m; simpl; [lia|].
  destruct (After _ _); [apply IH|]. destruct (_ && _); simpl; [lia|].
  etrans; [|apply IH]. lia.
Qed.

Definition effective_before (now before : Time) : Time := if IsZero before then now else before.

(** Every operation of the repository that writes, and any sequence of them. *)
Inductive op : Type :=
| OpCreate (now : Time) (key requestHash : string) (ttlAt : Time)
| OpMark (now : Time) (key : string) (status : IdempotencyStatus) (body : bytes) (httpStatus : Z)
| OpPurge (loop : nat) (now before : Time) (limit : Z).

Definition run_op {rt : GoRuntime} (m : items) (o : op) : items :=
  match o with
  | OpCreate now key hash ttl => (CreateProcessing now key hash ttl m).2
  | OpMark now key status body code => (markStatus now key status body code m).2
  | OpPurge loop now before limit => (DeleteExpired loop now before limit m).2
  end.

Definition run_ops {rt : GoRuntime} (ops : list op) (m : items) : items := foldl run_op m ops.

(** The operation does not purge records that live until [ttl]. *)
Definition before_ttl (ttl : Time) (o : op) : Prop :=
  match o with OpPurge _ now before _ => effective_before now before < ttl | _ => True end.

(** The part of a record that never changes. *)
Definition same_request (r r' : IdempotencyRecord) : Prop :=
  Idem_RequestHash r' = Idem_RequestHash r /\ Idem_TTLAt r' = Idem_TTLAt r.

Section Facts.
Context {rt : GoRuntime} {laws : GoRuntimeLaws rt}.

Lemma DeleteExpired_loop loop now before limit m :
  let r := delete_loop (map_range loop m) (effective_before now before) limit 0 m in
  DeleteExpired loop now before limit m = (Ok r.1, r.2).
Proof.
  unfold DeleteExpired. fold (effective_before now before). by destruct (delete_loop _ _ _ _ _).
Qed.

Lemma range_entries loop (m : items) :
  NoDup (map_range loop m).*1 /\ Forall (fun p => m !! p.1 = Some p.2) (map_range loop m).
Proof.
  pose proof (map_range_perm _ loop m) as HP. split.
  - rewrite HP. apply NoDup_fst_map_to_list.
  - rewrite HP. apply Forall_forall. intros [k x]. by rewrite elem_of_map_to_list.
Qed.

Lemma DeleteExpired_pruned loop now before limit m :
  pruned (effective_before now before) m (DeleteExpired loop now before limit m).2.
Proof.
  rewrite DeleteExpired_loop. destruct (range_entries loop m) as [H1 H2].
  by destruct (delete_loop_spec _ (effective_before now before) limit 0 m H1 H2) as [? _]; [lia|].
Qed.

(** [DeleteExpired] removes expired records only, reports how many it
    removed, removes at most [limit] when a limit is given, and leaves no
    expired record when it removed fewer than the limit. *)
Lemma DeleteExpired_spec loop now before limit m n m' :
  DeleteExpired loop now before limit m = (Ok n, m') ->
  let b := effective_before now before in
  pruned b m m' /\
  0 <= n /\ n = Z.of_nat (expired_count b m) - Z.of_nat (expired_count b m') /\
  (limit > 0 -> n <= limit) /\
  (limit <= 0 \/ n < limit -> forall k r, m' !! k = Some r -> expired b r = false).
Proof.
  rewrite DeleteExpired_loop. intros [= <- <-]. destruct (range_entries loop m) as [H1 H2].
  set (b := effective_before now before).
  destruct (delete_loop_spec _ b limit 0 m H1 H2) as (I1 & I2 & I2' & I3); [lia|].
  pose proof (delete_loop_ge (map_range loop m) b limit 0 m).
  split_and!; [done|lia|lia|done|].
  intros Hn k r Hk. destruct I3 as [?|I3]; [lia|].
    destruct (expired b r) eqn:E; [|done].
    destruct I1 as [I1a _]. pose proof (lookup_weaken _ _ _ _ Hk I1a) as Hk'.
    rewrite (I3 k r) in Hk; [done| |done].
    by rewrite map_range_perm, elem_of_map_to_list.
Qed.

Lemma pruned_keeps before (m m' : items) k r :
  pruned before m m' -> m !! k = Some r -> expired before r = false -> m' !! k = Some r.
Proof.
  intros [Hs Hp] Hk He. destruct (m' !! k) as [r'|] eqn:E.
  - rewrite (lookup_weaken _ _ _ _ E Hs) in Hk. congruence.
  - rewrite (Hp k r Hk E) in He. done.
Qed.

Lemma CreateProcessing_held now key hash ttl m k r :
  m !! k = Some r -> (CreateProcessing now key hash ttl m).2 !! k = Some r.
Proof.
  intros Hk. unfold CreateProcessing. split_matches; try done.
  all: rewrite lookup_insert_ne; congruence.
Qed.

Lemma markStatus_held now key st body code m k r :
  m !! k = Some r ->
  exists r', (markStatus now key st body code m).2 !! k = Some r' /\ same_request r r'.
Proof.
  intros Hk. unfold markStatus, same_request. split_matches; eauto.
  destruct (decide (k = TrimSpace key)) as [->|Hne].
  - rewrite lookup_insert_eq. simplify_eq. eauto.
  - rewrite lookup_insert_ne by done. eauto.
Qed.

Lemma run_op_held o m k r :
  m !! k = Some r -> before_ttl (Idem_TTLAt r) o ->
  exists r', run_op m o !! k = Some r' /\ same_request r r'.
Proof.
  intros Hk Ho. destruct o; simpl in *.
  - exists r. split; [by apply CreateProcessing_held|done].
  - by apply markStatus_held.
  - exists r. split; [|done].
    eapply pruned_keeps; [apply DeleteExpired_pruned|done|].
    unfold expired, After. apply negb_false_iff, Z.ltb_lt. done.
Qed.

Lemma run_ops_held ops : forall m k r,
  m !! k = Some r -> Forall (before_ttl (Idem_TTLAt r)) ops ->
  exists r', run_ops ops m !! k = Some r' /\ same_request r r'.
Proof.
  unfold run_ops. induction ops as [|o ops IH]; intros m k r Hk Ho; simpl; [by exists r|].
  apply Forall_cons in Ho as [Ho Hops].
  destruct (run_op_held o m k r Hk Ho) as (r1 & H1 & [Hh Ht]).
  rewrite <- Ht in Hops. destruct (IH _ _ _ H1 Hops) as (r2 & H2 & [Hh2 Ht2]).
  exists r2. split; [done|]. split; congruence.
Qed.

(** C25. One request wins a key: after a [CreateProcessing] has succeeded, and
    until its TTL has passed, every later [CreateProcessing] for the key fails
    and changes nothing, whatever operations run in between; it reports a
    different payload as a hash mismatch and the same one as a duplicate. *)
Theorem key_won_once now key hash ttl m r m1 ops now' key' hash' ttl' :
  CreateProcessing now key hash ttl m = (r, None, m1) ->
  Forall (before_ttl (Idem_TTLAt r)) ops ->
  TrimSpace key' = TrimSpace key -> TrimSpace hash' <> "" ->
  exists r', CreateProcessing now' key' hash' ttl' (run_ops ops m1) =
    (r', Some (if TrimSpace hash' =s? TrimSpace hash then ErrIdempotencyKeyAlreadyExists
               else ErrIdempotencyHashMismatch), run_ops ops m1).
Proof.
  intros Hc Hops Hkey Hh. unfold CreateProcessing in Hc. split_matches_in Hc.
  reflect_tests. unfold cloneIdempotencyRecord in *.
  set (r := MkIdempotencyRecord (TrimSpace key) (TrimSpace hash) "" 0 IdempotencyStatusProcessing
              (if IsZero ttl then now + 24 * Hour else ttl) now now).
  destruct (run_ops_held ops _ (TrimSpace key) r (lookup_insert_eq m (TrimSpace key) r) Hops)
    as (r' & Hr' & [Hhash _]). simpl in Hhash.
  exists r'. unfold CreateProcessing. rewrite Hkey, Hr', Hhash.
  rewrite (proj2 (String.eqb_neq _ _)) by done. rewrite (proj2 (String.eqb_neq (TrimSpace hash') "")) by done.
  rewrite String.eqb_sym. by destruct (TrimSpace hash' =s? TrimSpace hash).
Qed.
End Facts.
End MemoryIdempotency.
