(* ===== verification/Prog.v ===== *)
(** * Programs over a set of commands

    The handlers, sagas and workers of the service talk to repositories,
    external services, the clock and each other.  Their bodies are programs: a
    tree whose nodes are commands and whose branches are the answers.  One text
    serves for every reading of the code:
    - [run] executes a program against a state, one command after the other;
    - [wp] is the weakest precondition under any behaviour of the commands that
      a specification allows (every answer, for an adversarial environment);
    - the concurrent semantics interleaves the commands of several programs.

    Being a finite tree, a program issues finitely many commands on every run. *)

From S2P Require Import Prelude.

Section Programs.
Context {C : Type -> Type}.

Inductive prog (R : Type) : Type :=
| Ret (r : R)
| Vis {X : Type} (c : C X) (k : X -> prog R).

Fixpoint prog_bind {A B} (f : A -> prog B) (p : prog A) : prog B :=
  match p with
  | Ret _ a => f a
  | Vis _ c k => Vis _ c (fun x => prog_bind f (k x))
  end.
End Programs.

Arguments prog C R : clear implicits.
Arguments Ret {C R} r.
Arguments Vis {C R X} c k.

#[global] Instance prog_mret {C} : MRet (prog C) := fun A a => Ret a.
#[global] Instance prog_mbind {C} : MBind (prog C) := fun A B f p => prog_bind f p.

(** One command. *)
Definition call {C X} (c : C X) : prog C X := Vis c Ret.

(** [if b then p else return]. *)
Definition when {C} (b : bool) (p : prog C unit) : prog C unit := if b then p else Ret tt.

(** Run the body for every element of a list, from left to right. *)
Fixpoint for_each {C A} (l : list A) (body : A -> prog C unit) : prog C unit :=
  match l with
  | [] => Ret tt
  | x :: r => body x;; for_each r body
  end.

(** ** Sequential execution *)

Definition handler (C : Type -> Type) (W : Type) := forall X, C X -> W -> X * W.

Fixpoint run {C W R} (h : handler C W) (p : prog C R) (w : W) : R * W :=
  match p with
  | Ret r => (r, w)
  | Vis c k => let '(x, w') := h _ c w in run h (k x) w'
  end.

Lemma run_bind {C W A B} (h : handler C W) (p : prog C A) (f : A -> prog C B) w :
  run h (p ≫= f) w = let '(a, w') := run h p w in run h (f a) w'.
Proof.
  revert w. induction p as [a|X c k IH]; intros w; simpl; [done|].
  destruct (h X c w) as [x w']. apply IH.
Qed.

Lemma run_call {C W X B} (h : handler C W) (c : C X) (f : X -> prog C B) w :
  run h (call c ≫= f) w = let '(x, w') := h X c w in run h (f x) w'.
Proof. done. Qed.

(** ** Weakest preconditions

    [spec c g Q] holds when, in the ghost state [g], the command [c] may be
    issued and every answer it can get satisfies [Q] with the next ghost state. *)

Definition cmd_spec (C : Type -> Type) (G : Type) :=
  forall X, C X -> G -> (X -> G -> Prop) -> Prop.

Fixpoint wp {C G R} (spec : cmd_spec C G) (p : prog C R) (g : G) (Q : R -> G -> Prop) : Prop :=
  match p with
  | Ret r => Q r g
  | Vis c k => spec _ c g (fun x g' => wp spec (k x) g' Q)
  end.

Class MonotoneSpec {C G} (spec : cmd_spec C G) : Prop :=
  spec_mono : forall X (c : C X) g (P Q : X -> G -> Prop),
    (forall x g', P x g' -> Q x g') -> spec X c g P -> spec X c g Q.

Section WpRules.
Context {C : Type -> Type} {G : Type} (spec : cmd_spec C G) {mono : MonotoneSpec spec}.

Lemma wp_mono {R} (p : prog C R) (P Q : R -> G -> Prop) : forall g,
  (forall r g', P r g' -> Q r g') -> wp spec p g P -> wp spec p g Q.
Proof.
  induction p as [r|X c k IH]; simpl; intros g HPQ Hp; [by apply HPQ|].
  eapply spec_mono; [|exact Hp]. intros x g' H. by eapply IH.
Qed.

Lemma wp_bind {A B} (p : prog C A) (f : A -> prog C B) Q : forall g,
  wp spec p g (fun a g' => wp spec (f a) g' Q) -> wp spec (p ≫= f) g Q.
Proof.
  induction p as [r|X c k IH]; simpl; intros g Hp; [done|].
  eapply spec_mono; [|exact Hp]. intros x g' H. by apply IH.
Qed.

(** Use a specification of the first part of a sequence. *)
Lemma wp_seq {A B} (p : prog C A) (f : A -> prog C B) (P : A -> G -> Prop) Q g :
  wp spec p g P -> (forall a g', P a g' -> wp spec (f a) g' Q) -> wp spec (p ≫= f) g Q.
Proof. intros Hp Hf. apply wp_bind. eapply wp_mono; [exact Hf|exact Hp]. Qed.

Lemma wp_call {X A} (c : C X) (f : X -> prog C A) Q g :
  spec X c g (fun x g' => wp spec (f x) g' Q) -> wp spec (call c ≫= f) g Q.
Proof. done. Qed.

(** A loop body that keeps an invariant of the ghost state. *)
Lemma wp_for_each {A} (l : list A) (body : A -> prog C unit) (I : G -> Prop) :
  (forall x g, x ∈ l -> I g -> wp spec (body x) g (fun _ => I)) ->
  forall g, I g -> wp spec (for_each l body) g (fun _ => I).
Proof.
  induction l as [|x l IH]; intros Hb g Hg; simpl; [done|].
  eapply wp_seq; [apply Hb; [by constructor|done]|].
  intros a g' Hg'. apply IH; [|done]. intros y g'' Hy. apply Hb. by constructor.
Qed.
End WpRules.

(** A specification is sound for a handler when the handler's answer is one
    the specification allows, for states related by [I]. *)
Definition spec_sound {C G W} (spec : cmd_spec C G) (h : handler C W) (I : W -> G -> Prop) : Prop :=
  forall X (c : C X) w g Q, I w g -> spec X c g Q ->
    exists g', I (h X c w).2 g' /\ Q (h X c w).1 g'.

Lemma wp_run {C G W R} (spec : cmd_spec C G) (h : handler C W) (I : W -> G -> Prop) (p : prog C R) Q :
  spec_sound spec h I -> forall w g, I w g -> wp spec p g Q ->
  exists g', I (run h p w).2 g' /\ Q (run h p w).1 g'.
Proof.
  intros Hs. induction p as [r|X c k IH]; simpl; intros w g HI Hp; [eauto|].
  destruct (Hs X c w g _ HI Hp) as (g' & HI' & Hp').
  destruct (h X c w) as [x w']. simpl in *. by eapply IH.
Qed.

(** ** Every answer of an environment

    An environment says which answers a command can get (all of them, for an
    adversarial one) and what is observed of a command and its answer.  The
    ghost state is the list of observations. *)

Record environment (C : Type -> Type) (E : Type) := Environment {
  allowed : forall X, C X -> X -> Prop;
  observe : forall X, C X -> X -> list E;
}.
Arguments allowed {C E} _ {X} c x.
Arguments observe {C E} _ {X} c x.

Definition any_answer {C E} (env : environment C E) : cmd_spec C (list E) :=
  fun X c g Q => forall x, allowed env c x -> Q x (g ++ observe env c x).

#[global] Instance any_answer_mono {C E} (env : environment C E) : MonotoneSpec (any_answer env).
Proof. intros X c g P Q HPQ HP x Hx. by apply HPQ, HP. Qed.

(** Every run of [p] in the environment observes a trace and returns a value
    related by [Q]. *)
Definition traces {C E R} (env : environment C E) (p : prog C R) (Q : list E -> R -> Prop) : Prop :=
  wp (any_answer env) p [] (fun r t => Q t r).

Section Traces.
Context {C : Type -> Type} {E : Type} (env : environment C E).

(** What was observed before does not matter. *)
Lemma wp_frame {R} (p : prog C R) : forall (t0 t : list E) (Q : R -> list E -> Prop),
  wp (any_answer env) p t (fun r t' => Q r (t0 ++ t')) <->
  wp (any_answer env) p (t0 ++ t) Q.
Proof.
  induction p as [r|X c k IH]; intros t0 t Q; simpl; [done|].
  unfold any_answer. split; intros H x Hx; specialize (H x Hx).
  - by rewrite <- app_assoc, <- IH.
  - by rewrite IH, app_assoc.
Qed.

Lemma traces_ret {R} (r : R) (Q : list E -> R -> Prop) : Q [] r -> traces env (Ret r) Q.
Proof. done. Qed.

Lemma traces_vis {R X} (c : C X) (k : X -> prog C R) Q :
  (forall x, allowed env c x -> traces env (k x) (fun t r => Q (observe env c x ++ t) r)) ->
  traces env (Vis c k) Q.
Proof.
  intros H x Hx. simpl. rewrite <- (app_nil_r (observe env c x)).
  apply wp_frame. exact (H x Hx).
Qed.

Lemma traces_mono {R} (p : prog C R) (P Q : list E -> R -> Prop) :
  traces env p P -> (forall t r, P t r -> Q t r) -> traces env p Q.
Proof. intros H HPQ. eapply wp_mono; [apply _| |exact H]. intros r t. apply HPQ. Qed.

Lemma traces_bind {A B} (p : prog C A) (f : A -> prog C B) (P : list E -> A -> Prop) Q :
  traces env p P ->
  (forall t a, P t a -> traces env (f a) (fun t' b => Q (t ++ t') b)) ->
  traces env (p ≫= f) Q.
Proof.
  intros Hp Hf. eapply wp_seq; [apply _|exact Hp|]. intros a t Ht. simpl in Ht.
  rewrite <- (app_nil_r t). apply wp_frame. by apply Hf.
Qed.

Lemma traces_call {A X} (c : C X) (f : X -> prog C A) Q :
  (forall x, allowed env c x -> traces env (f x) (fun t r => Q (observe env c x ++ t) r)) ->
  traces env (call c ≫= f) Q.
Proof. apply traces_vis. Qed.

(** Programs the environment does not observe. *)
Definition silent {R} (p : prog C R) : Prop := traces env p (fun t _ => t = []).

Lemma silent_ret {R} (r : R) : silent (Ret r).
Proof. done. Qed.

Lemma silent_bind {A B} (p : prog C A) (f : A -> prog C B) :
  silent p -> (forall a, silent (f a)) -> silent (p ≫= f).
Proof. intros Hp Hf. eapply traces_bind; [exact Hp|]. intros t a ->. apply Hf. Qed.

Lemma silent_call {X} (c : C X) : (forall x, observe env c x = []) -> silent (call c).
Proof. intros H. apply traces_vis. intros x _. by rewrite H. Qed.

Lemma silent_vis {R X} (c : C X) (k : X -> prog C R) :
  (forall x, observe env c x = []) -> (forall x, silent (k x)) -> silent (Vis c k).
Proof. intros H Hk. apply traces_vis. intros x _. rewrite H. apply Hk. Qed.

Lemma silent_when b (p : prog C unit) : silent p -> silent (when b p).
Proof. by destruct b. Qed.

(** A silent first part adds nothing to the trace. *)
Lemma traces_silent {A B} (p : prog C A) (f : A -> prog C B) Q :
  silent p -> (forall a, traces env (f a) Q) -> traces env (p ≫= f) Q.
Proof. intros Hp Hf. eapply traces_bind; [exact Hp|]. intros t a ->. apply Hf. Qed.

Lemma traces_of_silent {R} (p : prog C R) (Q : list E -> R -> Prop) :
  silent p -> (forall r, Q [] r) -> traces env p Q.
Proof. intros Hp HQ. eapply traces_mono; [exact Hp|]. by intros t r ->. Qed.
End Traces.

#[export] Hint Resolve silent_ret silent_when : oms.

(** Solves [silent env p] for a [p] built of unobserved commands and of
    programs with a [silent] hint. *)
Ltac solve_silent :=
  repeat first
    [ assumption
    | match goal with |- forall _, _ => intro end
    | apply silent_ret
    | solve [apply silent_call; intros; reflexivity]
    | solve [eauto with oms nocore]
    | apply silent_when
    | apply silent_bind
    | apply silent_vis; [intros; reflexivity|]
    | match goal with |- silent _ (match ?x with _ => _ end) => destruct x end
    | match goal with |- silent _ (let _ := _ in _) => cbv zeta end ].

(** ** Programs that keep to some commands *)

Fixpoint only {C R} (allow : forall X, C X -> bool) (p : prog C R) : Prop :=
  match p with
  | Ret _ => True
  | Vis c k => allow _ c = true /\ forall x, only allow (k x)
  end.

Section Only.
Context {C : Type -> Type} (allow : forall X, C X -> bool).

Lemma only_ret {R} (r : R) : only allow (Ret r).
Proof. done. Qed.

Lemma only_bind {A B} (p : prog C A) (f : A -> prog C B) :
  only allow p -> (forall a, only allow (f a)) -> only allow (p ≫= f).
Proof. induction p as [a|X c k IH]; simpl; [auto|]. intros [Hc Hk] Hf. split; [done|]. intros x. by apply IH. Qed.

Lemma only_vis {R X} (c : C X) (k : X -> prog C R) :
  allow X c = true -> (forall x, only allow (k x)) -> only allow (Vis c k).
Proof. done. Qed.

Lemma only_call {X} (c : C X) : allow X c = true -> only allow (call c).
Proof. done. Qed.

Lemma only_when b (p : prog C unit) : only allow p -> only allow (when b p).
Proof. by destruct b. Qed.

(** A ghost state that the allowed commands can only move along a preorder. *)
Lemma wp_only {G R} (le : relation G) `{!PreOrder le} (spec : cmd_spec C G) (p : prog C R) :
  MonotoneSpec spec ->
  (forall X (c : C X) g (Q : X -> G -> Prop), allow X c = true ->
     (forall x g', le g g' -> Q x g') -> spec X c g Q) ->
  only allow p -> forall g, wp spec p g (fun _ g' => le g g').
Proof.
  intros Hmono Hspec. induction p as [r|X c k IH]; simpl; intros Hp g; [reflexivity|].
  destruct Hp as [Hc Hk]. apply Hspec; [done|]. intros x g' Hle.
  eapply wp_mono; [done| |by apply IH]. intros r h Hh. by trans g'.
Qed.
End Only.

#[global] Arguments only {C R} allow p : simpl never.

(** Solves [only allow p] from hints and the allowed commands. *)
Ltac solve_only :=
  repeat first
    [ assumption
    | match goal with |- forall _, _ => intro end
    | apply only_ret
    | solve [apply only_call; reflexivity]
    | solve [eauto with oms nocore]
    | apply only_when
    | apply only_bind
    | apply only_vis; [reflexivity|]
    | match goal with |- only _ (match ?x with _ => _ end) => destruct x end
    | match goal with |- only _ (let _ := _ in _) => cbv zeta end ].
