(* ===== verification/Ports.v ===== *)
(** * Ports: src/internal/domain/ports.go, repository.go

    The commands the services issue: the methods of the repositories and of the
    inventory, payment and publisher interfaces, the clock, the identifiers of
    [uuid.NewString], the metrics of the saga, and the dispatch of a saga in a
    goroutine.  Each is atomic: a repository method holds its mutex (or is one
    database transaction) from start to end. *)

From S2P Require Import Prelude GoLib Float64 Domain Prog.

(** src/internal/messaging/kafka/events.go *)
Definition EventType := string.
Definition EventTypeSagaStarted : EventType := "saga.started".
Definition EventTypeSagaCompleted : EventType := "saga.completed".
Definition EventTypeSagaFailed : EventType := "saga.failed".
Definition EventTypeSagaCanceled : EventType := "saga.canceled".
Definition EventTypeSagaRefunded : EventType := "saga.refunded".
Definition EventTypeStepReserved : EventType := "step.reserved".
Definition EventTypeStepPaid : EventType := "step.paid".
Definition TopicSagaEvents : string := "oms.saga.events".
Definition TopicOrderEvents : string := "oms.order.events".
Definition TopicDeadLetterQueue : string := "oms.dlq".

Record SagaEvent := MkSagaEvent {
  SagaEvent_EventType : EventType;
  SagaEvent_OrderID : string;
  SagaEvent_Timestamp : Time;
  SagaEvent_Metadata : gmap string jvalue;
}.

Definition NewSagaEvent (now : Time) (eventType : EventType) (orderID : string)
    (metadata : gmap string jvalue) : SagaEvent :=
  MkSagaEvent eventType orderID now metadata.

(** The methods of src/internal/metrics/saga_metrics.go. *)
Inductive saga_metric : Type :=
| RecordSagaStarted
| RecordSagaCanceled
| RecordSagaRefunded
| RecordSagaCompleted
| RecordSagaFailed
| RecordSagaInFlightStarted
| RecordSagaInFlightFinished
| RecordSagaDuration (d : Duration)
| RecordTimelineEvent
| RecordOutboxEvent.

(** The metrics of the background workers. *)
Inductive worker_metric : Type :=
| OutboxPublishAttempts (result : string)
| OutboxPendingRecords (n : float64)
| OutboxOldestPendingAge (age : float64)
| CleanupRunsTotal (result : string)
| CleanupDeletedTotal (n : Z)
| CleanupLastDeleted (n : Z).

(** The calls a handler hands to [runSagaAsync]. *)
Inductive saga_job : Type :=
| JobStart (orderID : string)
| JobCancel (orderID reason : string)
| JobRefund (orderID : string) (amountMinor : Z) (reason : string).

(** The two publishers an outbox worker holds. *)
Inductive publisher : Type := MainPublisher | DLQPublisher.

Inductive port : Type -> Type :=
(* runtime *)
| Now : port Time
| NewUUID : port string
| Sleep (d : Duration) : port unit
| CtxErr : port (option err)
| SleepOrDone (d : Duration) : port (option err)  (* select on ctx.Done() and time.After(d) *)
| TickOrDone : port bool                          (* select on ctx.Done() and a ticker *)
(* OrderRepository *)
| OrdersCreate (o : Order) : port (result unit)
| OrdersGet (id : string) : port (result Order)
| OrdersListByCustomer (customerID : string) (limit : Z) : port (result (list Order))
| OrdersSave (o : Order) : port (result unit)
(* OutboxRepository *)
| OutboxEnqueue (msg : OutboxMessage) : port (result OutboxMessage)
| OutboxPullPending (limit : Z) : port (result (list OutboxMessage))
| OutboxReadStats : port (result OutboxStats)
| OutboxMarkSent (id : string) : port (result unit)
| OutboxMarkFailed (id : string) : port (result unit)
(* TimelineRepository *)
| TimelineAppend (event : TimelineEvent) : port (result unit)
| TimelineList (orderID : string) : port (result (list TimelineEvent))
(* IdempotencyRepository *)
| IdemCreateProcessing (key requestHash : string) (ttlAt : Time)
    : port (IdempotencyRecord * option err)
| IdemMarkDone (key : string) (body : bytes) (httpStatus : Z) : port (option err)
| IdemMarkFailed (key : string) (body : bytes) (httpStatus : Z) : port (option err)
| IdemDeleteExpired (before : Time) (limit : Z) : port (result Z)
(* InventoryService *)
| InventoryReserve (orderID : string) (items : list OrderItem) : port (option err)
| InventoryRelease (orderID : string) (items : list OrderItem) : port (option err)
(* PaymentService *)
| PaymentPay (orderID : string) (amountMinor : Z) (currency : string)
    : port (PaymentStatus * option err)
| PaymentRefund (orderID : string) (amountMinor : Z) (currency : string)
    : port (PaymentStatus * option err)
(* OutboxPublisher, kafka.Producer *)
| PublisherPublish (p : publisher) (event : OutboxMessage) : port (option err)
| KafkaPublishEvent (topic key : string) (event : SagaEvent) : port (option err)
(* metrics *)
| Metric (m : saga_metric) : port unit
| WorkerMetric (m : worker_metric) : port unit
(* goroutines of OrderService: the critical section of runSagaAsync, the go
   statement, the deferred sagaWG.Done(), and of Shutdown the closing and the
   wait for sagaWG or the context *)
| SagaTryAdd : port bool
| GoSaga (job : saga_job) : port unit
| SagaDone : port unit
| SagaClose : port unit
| SagaWait : port (option err).

Abbreviation M := (prog port).

Abbreviation now := (call Now).
