(* ===== verification/Saga.v ===== *)
(** * Saga orchestrator: src/internal/service/saga/orchestrator.go

    [Start], [Cancel] and [Refund] and the steps they are made of, as programs
    over the ports.  A pointer to an order is an order passed in and returned.
    Log lines are not modelled. *)

From S2P Require Import Prelude GoLib Domain Prog Ports.

Definition errSagaTerminated : err := ErrOther "saga terminated due to terminal order status".

(** The optional collaborators of the orchestrator: which of the fields
    [timeline], [metrics] and [kafkaProducer] are not nil. *)
Record orchestrator := MkOrchestrator {
  has_timeline : bool;
  has_metrics : bool;
  has_kafka : bool;
}.

(** The constructors; [kafka] is whether a producer is given. *)
Definition NewOrchestrator (timeline : bool) : orchestrator := MkOrchestrator timeline true false.
Definition NewOrchestratorWithKafka (timeline kafka : bool) : orchestrator := MkOrchestrator timeline true kafka.
Definition NewOrchestratorWithoutMetrics (timeline : bool) : orchestrator := MkOrchestrator timeline false false.

Section Orchestrator.
Context (o : orchestrator).

Definition metric (m : saga_metric) : M unit := when (has_metrics o) (call (Metric m)).

Definition publishSagaEvent (eventType : EventType) (orderID : string)
    (metadata : gmap string jvalue) : M unit :=
  when (has_kafka o)
    (ts ← now;
     call (KafkaPublishEvent TopicSagaEvents orderID (NewSagaEvent ts eventType orderID metadata));;
     mret tt).

(** [json.Marshal] of a map of strings and integers does not fail. *)
Definition emitEvent (order : Order) (eventType : string) (payload : gmap string jvalue)
    (occurredAt : Time) : M unit :=
  occurredAt ← (if IsZero occurredAt then now else mret occurredAt);
  let payload := <["order_id" := JStr (Order_ID order)]> payload in
  let data := json_Marshal payload in
  let msg := MkOutboxMessage "" "order" (Order_ID order) eventType data in
  enqueued ← call (OutboxEnqueue msg);
  (match enqueued with
   | Err _ => mret tt
   | Ok _ => metric RecordOutboxEvent
   end);;
  when (has_timeline o)
    (let reason := match payload !! "reason" with Some (JStr r) => r | _ => "" end in
     appended ← call (TimelineAppend (MkTimelineEvent (Order_ID order) eventType reason occurredAt));
     match appended with
     | Err _ => mret tt
     | Ok _ => metric RecordTimelineEvent
     end).

Definition emitStatusEvent (order : Order) : M unit :=
  let payload :=
    <["status" := JStr (Order_Status order)]>
      (<["updated_at" := JStr (FormatRFC3339Nano (Order_UpdatedAt order))]>
        (<["ts" := JStr (FormatRFC3339Nano (Order_UpdatedAt order))]> ∅)) in
  emitEvent order "OrderStatusChanged" payload (Order_UpdatedAt order).

Definition maxRetries : Z := 3.
Definition baseDelay : Duration := 10 * Millisecond.

(** The body of the retry loop of [updateStatus] from [attempt] on. *)
Fixpoint updateStatus_loop (remaining : nat) (attempt : Z) (order : Order) (newStatus : OrderStatus)
  : M (Order * option err) :=
  match remaining with
  | O => mret (order, Some ErrOrderVersionConflict)
  | S remaining =>
      if ((Order_Status order =s? OrderStatusCanceled) || (Order_Status order =s? OrderStatusRefunded))
         && (newStatus <>s? Order_Status order)
      then mret (order, Some errSagaTerminated)
      else
        let previousStatus := Order_Status order in
        t ← now;
        let order := set_status order newStatus t in
        let prevVersion := Order_Version order in
        saved ← call (OrdersSave order);
        match saved with
        | Err e =>
            if IsVersionConflict e && (attempt <? maxRetries - 1) then
              loaded ← call (OrdersGet (Order_ID order));
              match loaded with
              | Err loadErr => mret (order, Some loadErr)
              | Ok fresh =>
                  call (Sleep (baseDelay * 2 ^ attempt));;
                  updateStatus_loop remaining (attempt + 1) fresh newStatus
              end
            else mret (set_status order previousStatus (Order_UpdatedAt order), Some e)
        | Ok _ =>
            let order := set_version order (wrap64 (prevVersion + 1)) in
            emitStatusEvent order;;
            mret (order, None)
        end
  end.

Definition updateStatus (order : Order) (newStatus : OrderStatus) : M (Order * option err) :=
  if Order_Status order =s? newStatus then mret (order, None)
  else updateStatus_loop (Z.to_nat maxRetries) 0 order newStatus.

Definition releaseInventory (order : Order) : M unit :=
  call (InventoryRelease (Order_ID order) (Order_Items order));; mret tt.

Definition failOrder (order : Order) (status : OrderStatus) (rootErr : err) : M unit :=
  metric RecordSagaFailed;;
  updated ← updateStatus order status;
  match updated with
  | (_, Some _) => mret tt
  | (order, None) =>
      occurredAt ← now;
      let payload :=
        <["ts" := JStr (FormatRFC3339Nano occurredAt)]> (<["reason" := JStr (Error rootErr)]> ∅) in
      emitEvent order "OrderSagaFailed" payload occurredAt;;
      publishSagaEvent EventTypeSagaFailed (Order_ID order)
        (<["reason" := JStr (Error rootErr)]>
          (<["customer_id" := JStr (Order_CustomerID order)]> (<["status" := JStr status]> ∅)))
  end.

Definition handleReserve (order : Order) : M (Order * option err) :=
  reserved ← call (InventoryReserve (Order_ID order) (Order_Items order));
  match reserved with
  | Some e => failOrder order OrderStatusCanceled e;; mret (order, Some e)
  | None =>
      updated ← updateStatus order OrderStatusReserved;
      match updated with
      | (order, Some e) => mret (order, Some e)
      | (order, None) =>
          publishSagaEvent EventTypeStepReserved (Order_ID order)
            (<["customer_id" := JStr (Order_CustomerID order)]>
              (<["items_count" := JInt (Z.of_nat (length (Order_Items order)))]> ∅));;
          mret (order, None)
      end
  end.

Definition handlePayment (order : Order) : M (Order * option err) :=
  paid ← call (PaymentPay (Order_ID order) (Order_AmountMinor order) (Order_Currency order));
  match paid with
  | (_, Some e) =>
      releaseInventory order;;
      failOrder order OrderStatusCanceled e;;
      mret (order, Some e)
  | (status, None) =>
      if (status <>s? PaymentStatusCaptured) && (status <>s? PaymentStatusAuthorized) then
        releaseInventory order;;
        failOrder order OrderStatusCanceled ErrPaymentIndeterminate;;
        mret (order, Some ErrPaymentIndeterminate)
      else
        updated ← updateStatus order OrderStatusPaid;
        match updated with
        | (order, Some e) => mret (order, Some e)
        | (order, None) =>
            publishSagaEvent EventTypeStepPaid (Order_ID order)
              (<["amount" := JInt (Order_AmountMinor order)]>
                (<["currency" := JStr (Order_Currency order)]> (<["status" := JStr status]> ∅)));;
            mret (order, None)
        end
  end.

Definition handleConfirm (order : Order) : M unit :=
  updated ← updateStatus order OrderStatusConfirmed;
  match updated with
  | (_, Some e) => if errors_Is e errSagaTerminated then mret tt else metric RecordSagaFailed
  | (order, None) =>
      metric RecordSagaCompleted;;
      publishSagaEvent EventTypeSagaCompleted (Order_ID order)
        (<["customer_id" := JStr (Order_CustomerID order)]>
          (<["amount" := JInt (Order_AmountMinor order)]> ∅))
  end.

(** The [switch] of [Start]; [fallthrough] enters the next case. *)
Definition start_paid (order : Order) : M unit := handleConfirm order.

Definition start_reserved (order : Order) : M unit :=
  paid ← handlePayment order;
  match paid with
  | (_, Some _) => mret tt
  | (order, None) => start_paid order
  end.

Definition start_pending (order : Order) : M unit :=
  reserved ← handleReserve order;
  match reserved with
  | (_, Some _) => mret tt
  | (order, None) => start_reserved order
  end.

Definition start_body (orderID : string) : M unit :=
  loaded ← call (OrdersGet orderID);
  match loaded with
  | Err _ => metric RecordSagaFailed
  | Ok order =>
      publishSagaEvent EventTypeSagaStarted orderID
        (<["customer_id" := JStr (Order_CustomerID order)]>
          (<["status" := JStr (Order_Status order)]> ∅));;
      if Order_Status order =s? OrderStatusPending then start_pending order
      else if Order_Status order =s? OrderStatusReserved then start_reserved order
      else if Order_Status order =s? OrderStatusPaid then start_paid order
      else mret tt
  end.

(** The deferred calls run last, in reverse order. *)
Definition Start (orderID : string) : M unit :=
  start ← now;
  metric RecordSagaStarted;;
  start_body orderID;;
  when (has_metrics o) (t ← now; call (Metric (RecordSagaDuration (time_Sub t start))));;
  metric RecordSagaInFlightFinished.

Definition reason_payload (reason : string) (payload : gmap string jvalue) : gmap string jvalue :=
  if reason =s? "" then delete "reason" payload else payload.

Definition cancel_body (orderID reason : string) : M unit :=
  loaded ← call (OrdersGet orderID);
  match loaded with
  | Err _ => metric RecordSagaFailed
  | Ok order =>
      if (Order_Status order =s? OrderStatusCanceled) || (Order_Status order =s? OrderStatusRefunded)
      then mret tt
      else
        when ((Order_Status order =s? OrderStatusReserved) || (Order_Status order =s? OrderStatusPaid)
              || (Order_Status order =s? OrderStatusConfirmed))
          (releaseInventory order);;
        refunded ←
          (if (Order_Status order =s? OrderStatusPaid) || (Order_Status order =s? OrderStatusConfirmed)
           then r ← call (PaymentRefund (Order_ID order) (Order_AmountMinor order) (Order_Currency order));
                mret (snd r)
           else mret None);
        match refunded with
        | Some _ => metric RecordSagaFailed
        | None =>
            updated ← updateStatus order OrderStatusCanceled;
            match updated with
            | (_, Some _) => mret tt
            | (order, None) =>
                occurredAt ← now;
                let payload :=
                  reason_payload reason
                    (<["ts" := JStr (FormatRFC3339Nano occurredAt)]> (<["reason" := JStr reason]> ∅)) in
                emitEvent order "OrderCanceled" payload occurredAt;;
                publishSagaEvent EventTypeSagaCanceled (Order_ID order)
                  (<["reason" := JStr reason]> (<["customer_id" := JStr (Order_CustomerID order)]> ∅));;
                metric RecordSagaCanceled
            end
        end
  end.

Definition Cancel (orderID reason : string) : M unit :=
  metric RecordSagaInFlightStarted;;
  cancel_body orderID reason;;
  metric RecordSagaInFlightFinished.

(** The amount given to the payment service. *)
Definition refund_amount (amountMinor : Z) (order : Order) : Z :=
  if (amountMinor <=? 0) || (amountMinor >? Order_AmountMinor order)
  then Order_AmountMinor order else amountMinor.

Definition refund_body (orderID : string) (amountMinor : Z) (reason : string) : M unit :=
  loaded ← call (OrdersGet orderID);
  match loaded with
  | Err _ => metric RecordSagaFailed
  | Ok order =>
      if Order_Status order =s? OrderStatusRefunded then mret tt
      else if (Order_Status order <>s? OrderStatusPaid) && (Order_Status order <>s? OrderStatusConfirmed)
      then mret tt
      else
        let amountMinor := refund_amount amountMinor order in
        refunded ← call (PaymentRefund (Order_ID order) amountMinor (Order_Currency order));
        match refunded with
        | (_, Some _) => metric RecordSagaFailed
        | (status, None) =>
            if status <>s? PaymentStatusRefunded then metric RecordSagaFailed
            else
              releaseInventory order;;
              updated ← updateStatus order OrderStatusRefunded;
              match updated with
              | (_, Some _) => mret tt
              | (order, None) =>
                  occurredAt ← now;
                  let payload :=
                    reason_payload reason
                      (<["ts" := JStr (FormatRFC3339Nano occurredAt)]>
                        (<["amount_minor" := JInt amountMinor]> (<["reason" := JStr reason]> ∅))) in
                  emitEvent order "OrderRefunded" payload occurredAt;;
                  publishSagaEvent EventTypeSagaRefunded (Order_ID order)
                    (<["amount" := JInt amountMinor]>
                      (<["reason" := JStr reason]>
                        (<["customer_id" := JStr (Order_CustomerID order)]> ∅)));;
                  metric RecordSagaRefunded
              end
        end
  end.

Definition Refund (orderID : string) (amountMinor : Z) (reason : string) : M unit :=
  metric RecordSagaInFlightStarted;;
  refund_body orderID amountMinor reason;;
  metric RecordSagaInFlightFinished.

(** The function a handler passes to [runSagaAsync]. *)
Definition run_saga_job (job : saga_job) : M unit :=
  match job with
  | JobStart id => Start id
  | JobCancel id reason => Cancel id reason
  | JobRefund id amount reason => Refund id amount reason
  end.

End Orchestrator.

(** The orchestrator of [NewNoop], which only logs, with the time. *)
Definition run_noop_job (job : saga_job) : M unit :=
  match job with
  | JobStart _ | JobCancel _ _ | JobRefund _ _ _ => now;; mret tt
  end.
