(* ===== verification/SagaTraces.v ===== *)
(** * What a saga does to the outside, on every run

    The commands of [Start], [Cancel] and [Refund] that reach the inventory and
    the payment service, with the orders they save, for every behaviour of the
    environment: other goroutines may change the order between any two
    commands, repositories and services may fail at any time.  The only thing
    assumed is that [OrderRepository.Get] returns an order with the requested
    ID. *)

From S2P Require Import Prelude GoLib Domain Prog Ports Saga.

(** ** The environment *)

Inductive effect : Type :=
| Loaded (o : Order)
| Saved (id : string) (status : OrderStatus)
| Reserved (id : string) (answer : option err)
| Released (id : string)
| Paid (id : string) (amount : Z) (status : PaymentStatus) (answer : option err)
| Refunded (id : string) (amount : Z) (status : PaymentStatus) (answer : option err).

Definition get_contract X (c : port X) : X -> Prop :=
  match c in port X return X -> Prop with
  | OrdersGet id => fun r => forall o, r = Ok o -> Order_ID o = id
  | _ => fun _ => True
  end.

Definition saga_effects X (c : port X) : X -> list effect :=
  match c in port X return X -> list effect with
  | OrdersGet _ => fun r => match r with Ok o => [Loaded o] | Err _ => [] end
  | OrdersSave o => fun r => match r with Ok _ => [Saved (Order_ID o) (Order_Status o)] | Err _ => [] end
  | InventoryReserve id _ => fun r => [Reserved id r]
  | InventoryRelease id _ => fun _ => [Released id]
  | PaymentPay id amount _ => fun r => [Paid id amount (fst r) (snd r)]
  | PaymentRefund id amount _ => fun r => [Refunded id amount (fst r) (snd r)]
  | _ => fun _ => []
  end.

Definition outside : environment port effect := Environment _ _ get_contract saga_effects.

(** The effects without the loads. *)
Definition is_load (e : effect) : bool := match e with Loaded _ => true | _ => false end.
Definition visible (t : list effect) : list effect := List.filter (fun e => negb (is_load e)) t.

Lemma visible_app t1 t2 : visible (t1 ++ t2) = visible t1 ++ visible t2.
Proof. apply List.filter_app. Qed.

#[export] Hint Rewrite visible_app : oms.

(** ** Parts of the saga *)

Section Parts.
Context (o : orchestrator).

Lemma silent_metric m : silent outside (metric o m).
Proof. unfold metric. solve_silent. Qed.
#[local] Hint Resolve silent_metric : oms.

Lemma silent_publish et id md : silent outside (publishSagaEvent o et id md).
Proof. unfold publishSagaEvent. solve_silent. Qed.
#[local] Hint Resolve silent_publish : oms.

Lemma silent_emitEvent order et payload t : silent outside (emitEvent o order et payload t).
Proof. unfold emitEvent. solve_silent. Qed.
#[local] Hint Resolve silent_emitEvent : oms.

Lemma silent_emitStatusEvent order : silent outside (emitStatusEvent o order).
Proof. unfold emitStatusEvent. apply silent_emitEvent. Qed.
#[local] Hint Resolve silent_emitStatusEvent : oms.

(** [updateStatus] saves at most once and succeeds exactly when it did, or when
    the order already had the status. *)
Definition updated (order : Order) (new : OrderStatus) (t : list effect) (r : Order * option err) : Prop :=
  (r.2 = None /\ visible t = [Saved (Order_ID order) new] /\
   Order_Status r.1 = new /\ Order_ID r.1 = Order_ID order) \/
  (r.2 <> None /\ visible t = []).

Lemma updateStatus_loop_traces n : forall attempt order new,
  traces outside (updateStatus_loop o n attempt order new) (updated order new).
Proof.
  induction n as [|n IH]; intros attempt order new; simpl.
  { apply traces_ret. by right. }
  case_match; [apply traces_ret; by right|].
  apply traces_call. intros t _. simpl. apply traces_call. intros saved _. simpl.
  destruct saved as [u|e].
  - apply traces_silent; [solve_silent|]. intros ?. apply traces_ret. by left.
  - case_match; [|apply traces_ret; by right].
    apply traces_call. intros loaded Hl. simpl in Hl. destruct loaded as [fresh|le].
    + apply traces_call. intros ? _. simpl.
      eapply traces_mono; [apply IH|]. unfold updated. simpl.
      by rewrite (Hl fresh eq_refl).
    + apply traces_ret. by right.
Qed.

Lemma updateStatus_traces order new :
  Order_Status order <> new ->
  traces outside (updateStatus o order new) (updated order new).
Proof.
  intros Hne. unfold updateStatus. rewrite (proj2 (String.eqb_neq _ _) Hne).
  apply updateStatus_loop_traces.
Qed.

(** Either nothing more, or the order saved with the status. *)
Definition maybe_saved (id : string) (status : OrderStatus) (l : list effect) : Prop :=
  l = [] \/ l = [Saved id status].

Lemma failOrder_traces order e :
  Order_Status order <> OrderStatusCanceled ->
  traces outside (failOrder o order OrderStatusCanceled e)
    (fun t _ => maybe_saved (Order_ID order) OrderStatusCanceled (visible t)).
Proof.
  intros Hne. unfold failOrder. apply traces_silent; [solve_silent|]. intros ?.
  eapply traces_bind; [by apply updateStatus_traces|].
  intros t [order' [e'|]] [(? & Hv & _)|(? & Hv)]; simpl in *; try done.
  - apply traces_ret. left. by rewrite app_nil_r.
  - apply traces_of_silent; [solve_silent|]. intros ?. right. by rewrite app_nil_r.
Qed.

Lemma silent_releaseInventory order :
  traces outside (releaseInventory order) (fun t _ => t = [Released (Order_ID order)]).
Proof. apply traces_call. intros x _. by apply traces_ret. Qed.

(** ** The steps *)

Definition accepted (status : PaymentStatus) : Prop :=
  status = PaymentStatusCaptured \/ status = PaymentStatusAuthorized.

(** The effects of the payment step and of what follows it. *)
Inductive pay_effects (id : string) : list effect -> Prop :=
| pay_failed amount st e l : maybe_saved id OrderStatusCanceled l ->
    pay_effects id (Paid id amount st (Some e) :: Released id :: l)
| pay_unclear amount st l : ~ accepted st -> maybe_saved id OrderStatusCanceled l ->
    pay_effects id (Paid id amount st None :: Released id :: l)
| pay_lost amount st : accepted st -> pay_effects id [Paid id amount st None]
| pay_done amount st l : accepted st -> maybe_saved id OrderStatusConfirmed l ->
    pay_effects id (Paid id amount st None :: Saved id OrderStatusPaid :: l).

(** The effects of a saga on a pending order. *)
Inductive reserve_effects (id : string) : list effect -> Prop :=
| reserve_failed e l : maybe_saved id OrderStatusCanceled l ->
    reserve_effects id (Reserved id (Some e) :: l)
| reserve_lost : reserve_effects id [Reserved id None]
| reserve_done l : pay_effects id l ->
    reserve_effects id (Reserved id None :: Saved id OrderStatusReserved :: l).

Lemma handleConfirm_traces order :
  Order_Status order <> OrderStatusConfirmed ->
  traces outside (handleConfirm o order)
    (fun t _ => maybe_saved (Order_ID order) OrderStatusConfirmed (visible t)).
Proof.
  intros Hne. unfold handleConfirm. eapply traces_bind; [by apply updateStatus_traces|].
  intros t [order' [e'|]] [(? & Hv & _)|(? & Hv)]; simpl in *; try done.
  - apply traces_of_silent; [solve_silent|]. intros ?. left. by rewrite app_nil_r.
  - apply traces_of_silent; [solve_silent|]. intros ?. right. by rewrite app_nil_r.
Qed.

(** Compensation: the inventory is released and the order failed. *)
Lemma compensate_traces {A} order e (a : A) :
  Order_Status order <> OrderStatusCanceled ->
  traces outside (releaseInventory order;; failOrder o order OrderStatusCanceled e;; mret a)
    (fun t r => r = a /\ exists l, visible t = Released (Order_ID order) :: l /\
                  maybe_saved (Order_ID order) OrderStatusCanceled l).
Proof.
  intros Hne. eapply traces_bind; [apply silent_releaseInventory|]. intros t1 ? ->.
  eapply traces_bind; [by apply failOrder_traces|]. intros t2 ? Ht2. simpl in Ht2.
  apply traces_ret. split; [done|]. exists (visible t2). by rewrite app_nil_r.
Qed.

Definition payment_step (order : Order) (t : list effect) (r : Order * option err) : Prop :=
  (r.2 <> None /\ pay_effects (Order_ID order) (visible t)) \/
  (r.2 = None /\ Order_ID r.1 = Order_ID order /\ Order_Status r.1 = OrderStatusPaid /\
   exists amount st, accepted st /\
     visible t = [Paid (Order_ID order) amount st None; Saved (Order_ID order) OrderStatusPaid]).

Lemma handlePayment_traces order :
  Order_Status order = OrderStatusReserved ->
  traces outside (handlePayment o order) (payment_step order).
Proof.
  intros Hst. unfold handlePayment. apply traces_call. intros [st [e|]] _; simpl.
  { eapply traces_mono; [apply compensate_traces; by rewrite Hst|].
    intros t r (-> & l & Hv & Hl). left. simpl. rewrite Hv. split; [done|]. by constructor. }
  destruct (_ && _) eqn:Est; reflect_tests.
  { eapply traces_mono; [apply compensate_traces; by rewrite Hst|].
    intros t r (-> & l & Hv & Hl). left. simpl. rewrite Hv. split; [done|].
    apply pay_unclear; [|done]. by intros [->| ->]. }
  assert (accepted st) as Hacc.
  { unfold accepted. apply andb_false_iff in Est as [?|?]; reflect_tests; auto. }
  eapply traces_bind; [apply updateStatus_traces; by rewrite Hst|].
  intros t [order' [e'|]] [(? & Hv & ? & ?)|(? & Hv)]; simpl in *; try done.
  - apply traces_ret. left. simpl. rewrite app_nil_r, Hv. split; [done|]. by constructor.
  - apply traces_silent; [solve_silent|]. intros ?. apply traces_ret. right. simpl.
    rewrite app_nil_r, Hv. eauto 10.
Qed.

Lemma start_reserved_traces order :
  Order_Status order = OrderStatusReserved ->
  traces outside (start_reserved o order) (fun t _ => pay_effects (Order_ID order) (visible t)).
Proof.
  intros Hst. unfold start_reserved. eapply traces_bind; [by apply handlePayment_traces|].
  intros t [order' [e'|]] [(? & Hv)|(? & Hid & Hs & amount & st & ? & Hv)]; simpl in *; try done.
  - apply traces_ret. by rewrite app_nil_r.
  - eapply traces_mono; [apply handleConfirm_traces; by rewrite Hs|].
    intros t' r Ht'. simpl in Ht'. rewrite visible_app, Hv. simpl. rewrite Hid in Ht'.
    by apply pay_done.
Qed.

Lemma start_pending_traces order :
  Order_Status order = OrderStatusPending ->
  traces outside (start_pending o order) (fun t _ => reserve_effects (Order_ID order) (visible t)).
Proof.
  intros Hst. unfold start_pending, handleReserve.
  eapply (traces_bind _ _ _ (fun t r =>
    (r.2 <> None /\ reserve_effects (Order_ID order) (visible t)) \/
    (r.2 = None /\ Order_ID r.1 = Order_ID order /\ Order_Status r.1 = OrderStatusReserved /\
     visible t = [Reserved (Order_ID order) None; Saved (Order_ID order) OrderStatusReserved]))).
  - apply traces_call. intros [e|] _; simpl.
    + eapply traces_bind; [apply failOrder_traces; by rewrite Hst|]. intros t ? Ht. simpl in Ht.
      apply traces_ret. left. simpl. rewrite app_nil_r. split; [done|]. by constructor.
    + eapply traces_bind; [apply updateStatus_traces; by rewrite Hst|].
      intros t [order' [e'|]] [(? & Hv & ? & ?)|(? & Hv)]; simpl in *; try done.
      * apply traces_ret. left. simpl. rewrite app_nil_r, Hv. split; [done|]. constructor.
      * apply traces_silent; [solve_silent|]. intros ?. apply traces_ret. right. simpl.
        by rewrite app_nil_r, Hv.
  - intros t [order' [e'|]] [(? & Hv)|(? & Hid & Hs & Hv)]; simpl in *; try done.
    + apply traces_ret. by rewrite app_nil_r.
    + eapply traces_mono; [by apply start_reserved_traces|].
      intros t' r Ht'. simpl in Ht'. rewrite visible_app, Hv, Hid in *. simpl. by apply reserve_done.
Qed.

(** What a [Start] does, by the status it finds. *)
Definition start_effects (id : string) (status : OrderStatus) (l : list effect) : Prop :=
  if status =s? OrderStatusPending then reserve_effects id l
  else if status =s? OrderStatusReserved then pay_effects id l
  else if status =s? OrderStatusPaid then maybe_saved id OrderStatusConfirmed l
  else l = [].

(** A trace that starts with a load, or is empty. *)
Definition after_load (P : Order -> list effect -> Prop) (t : list effect) : Prop :=
  t = [] \/ exists o t', t = Loaded o :: t' /\ P o (visible t').

(** Brackets a body between unobserved programs. *)
Lemma traces_tail {A B} (p : M A) (q : A -> M B) (Q : list effect -> Prop) :
  traces outside p (fun t _ => Q t) -> (forall a, silent outside (q a)) ->
  traces outside (p ≫= q) (fun t _ => Q t).
Proof.
  intros Hp Hq. eapply traces_bind; [exact Hp|]. intros t a Ht.
  apply traces_of_silent; [apply Hq|]. intros r. by rewrite app_nil_r.
Qed.

(** C4. A run of [Start], whatever the environment does: it finds the order's
    status and then reserves, pays and confirms in this order; a failed
    reservation or payment is followed by the compensation of what was done
    (the inventory is released after every failed or unclear payment), the
    order is only saved as canceled after such a failure, the payment service
    is asked at most once, and an order in any other status is left alone. *)
Theorem start_effects_complete orderID :
  traces outside (Start o orderID)
    (fun t _ => after_load (fun order l => start_effects (Order_ID order) (Order_Status order) l /\
                                           Order_ID order = orderID) t).
Proof.
  unfold Start. apply traces_silent; [solve_silent|]. intros start.
  apply traces_silent; [solve_silent|]. intros ?.
  apply traces_tail; [|intros; solve_silent].
  unfold start_body. apply traces_call. intros [order|e] Hid; simpl in Hid |- *.
  2: { apply traces_of_silent; [solve_silent|]. intros ?. by left. }
  specialize (Hid order eq_refl).
  apply traces_silent; [solve_silent|]. intros ?.
  eapply (traces_mono _ _ (fun t _ => start_effects (Order_ID order) (Order_Status order) (visible t))).
  2: { intros t r Ht. right. by exists order, t. }
  unfold start_effects, start_paid.
  destruct (_ =s? OrderStatusPending) eqn:E1; [reflect_tests; by apply start_pending_traces|].
  destruct (_ =s? OrderStatusReserved) eqn:E2; [reflect_tests; by apply start_reserved_traces|].
  destruct (_ =s? OrderStatusPaid) eqn:E3; [|by apply traces_ret].
  reflect_tests. apply handleConfirm_traces. by rewrite E3.
Qed.

(** ** Cancel *)

Definition holds_stock (status : OrderStatus) : bool :=
  (status =s? OrderStatusReserved) || (status =s? OrderStatusPaid) || (status =s? OrderStatusConfirmed).

Definition charged (status : OrderStatus) : bool :=
  (status =s? OrderStatusPaid) || (status =s? OrderStatusConfirmed).

Definition terminal (status : OrderStatus) : bool :=
  (status =s? OrderStatusCanceled) || (status =s? OrderStatusRefunded).

(** The money comes back before the order is saved as canceled. *)
Definition cancel_money (order : Order) (l : list effect) : Prop :=
  if charged (Order_Status order) then
    exists st answer tail,
      l = Refunded (Order_ID order) (Order_AmountMinor order) st answer :: tail /\
      maybe_saved (Order_ID order) OrderStatusCanceled tail /\
      (answer <> None -> tail = [])
  else maybe_saved (Order_ID order) OrderStatusCanceled l.

Definition cancel_effects (order : Order) (l : list effect) : Prop :=
  if terminal (Order_Status order) then l = []
  else exists l',
    l = (if holds_stock (Order_Status order) then [Released (Order_ID order)] else []) ++ l' /\
    cancel_money order l'.

(** The order is saved with the final status, then only reported. *)
Lemma finish_traces order new (k : Order -> M unit) :
  Order_Status order <> new -> (forall order', silent outside (k order')) ->
  traces outside
    (updated ← updateStatus o order new;
     match updated with
     | (_, Some _) => mret tt
     | (order, None) => k order
     end)
    (fun t _ => maybe_saved (Order_ID order) new (visible t)).
Proof.
  intros Hne Hk. eapply traces_bind; [by apply updateStatus_traces|].
  intros t [order' [e'|]] [(? & Hv & _)|(? & Hv)]; simpl in *; try done.
  - apply traces_ret. left. by rewrite app_nil_r.
  - apply traces_of_silent; [apply Hk|]. intros ?. right. by rewrite app_nil_r.
Qed.

Lemma cancel_finish_traces order new (refunded : option err) (k : Order -> M unit) :
  Order_Status order <> new -> (forall order', silent outside (k order')) ->
  traces outside
    (match refunded with
     | Some _ => metric o RecordSagaFailed
     | None =>
         updated ← updateStatus o order new;
         match updated with
         | (_, Some _) => mret tt
         | (order, None) => k order
         end
     end)
    (fun t _ => maybe_saved (Order_ID order) new (visible t) /\ (refunded <> None -> visible t = [])).
Proof.
  intros Hne Hk. destruct refunded as [e|].
  - apply traces_of_silent; [solve_silent|]. by split; [left|].
  - eapply traces_mono; [by apply finish_traces|]. by split.
Qed.

(** C5. A run of [Cancel], whatever the environment does: an order found
    canceled or refunded is left alone; otherwise the inventory of a reserved,
    paid or confirmed order is released, the whole amount of a paid or
    confirmed order is refunded once, and the order is saved as canceled at
    most once, never after a refund that failed. *)
Theorem cancel_effects_complete orderID reason :
  traces outside (Cancel o orderID reason)
    (fun t _ => after_load (fun order l => cancel_effects order l /\ Order_ID order = orderID) t).
Proof.
  unfold Cancel. apply traces_silent; [solve_silent|]. intros ?.
  apply traces_tail; [|intros; solve_silent].
  unfold cancel_body. apply traces_call. intros [order|e] Hid; simpl in Hid |- *.
  2: { apply traces_of_silent; [solve_silent|]. intros ?. by left. }
  specialize (Hid order eq_refl).
  eapply (traces_mono _ _ (fun t _ => cancel_effects order (visible t))).
  2: { intros t r Ht. right. by exists order, t. }
  unfold cancel_effects. fold (terminal (Order_Status order)) (holds_stock (Order_Status order))
    (charged (Order_Status order)).
  destruct (terminal (Order_Status order)) eqn:Eterm; [by apply traces_ret|].
  assert (Order_Status order <> OrderStatusCanceled) as Hne.
  { intros E. unfold terminal in Eterm. rewrite E in Eterm. done. }
  eapply (traces_bind _ _ _ (fun t _ => t = if holds_stock (Order_Status order)
                                           then [Released (Order_ID order)] else [])).
  { destruct (holds_stock _); simpl; [apply silent_releaseInventory|by apply traces_ret]. }
  intros t0 ? ->. unfold cancel_money.
  destruct (charged (Order_Status order)) eqn:Ech; simpl.
  - apply traces_call. intros [st answer] _. simpl.
    eapply traces_mono; [apply cancel_finish_traces; [done|intros; solve_silent]|].
    intros t r [Hm Hf]. exists (Refunded (Order_ID order) (Order_AmountMinor order) st answer :: visible t).
    rewrite visible_app. split; [by destruct (holds_stock _)|]. by exists st, answer, (visible t).
  - eapply traces_mono; [apply (cancel_finish_traces order _ None); [done|intros; solve_silent]|].
    intros t r [Hm _]. exists (visible t). rewrite visible_app. by destruct (holds_stock _).
Qed.

(** ** Refund *)

(** The payment service has given the money back. *)
Definition refund_confirmed (status : PaymentStatus) (answer : option err) : Prop :=
  answer = None /\ status = PaymentStatusRefunded.

Definition refund_effects (amountMinor : Z) (order : Order) (l : list effect) : Prop :=
  if charged (Order_Status order) then
    exists st answer tail,
      l = Refunded (Order_ID order) (refund_amount amountMinor order) st answer :: tail /\
      ((~ refund_confirmed st answer /\ tail = []) \/
       (refund_confirmed st answer /\
        exists l', tail = Released (Order_ID order) :: l' /\
                   maybe_saved (Order_ID order) OrderStatusRefunded l'))
  else l = [].

Lemma refund_amount_bounds amountMinor order :
  0 < Order_AmountMinor order ->
  0 < refund_amount amountMinor order <= Order_AmountMinor order /\
  (0 < amountMinor <= Order_AmountMinor order -> refund_amount amountMinor order = amountMinor).
Proof.
  intros H. unfold refund_amount.
  destruct (Z.leb_spec amountMinor 0), (Z.gtb_spec amountMinor (Order_AmountMinor order)); simpl; lia.
Qed.

Lemma not_charged status :
  (status <>s? OrderStatusPaid) && (status <>s? OrderStatusConfirmed) = negb (charged status).
Proof. unfold charged. by rewrite negb_orb. Qed.

(** C6. A run of [Refund], whatever the environment does: only an order found
    paid or confirmed is touched; the payment service is asked once, for the
    requested amount or the whole order; the inventory is released and the
    order saved as refunded only after the service confirmed the refund. *)
Theorem refund_effects_complete orderID amountMinor reason :
  traces outside (Refund o orderID amountMinor reason)
    (fun t _ => after_load (fun order l => refund_effects amountMinor order l /\
                                           Order_ID order = orderID) t).
Proof.
  unfold Refund. apply traces_silent; [solve_silent|]. intros ?.
  apply traces_tail; [|intros; solve_silent].
  unfold refund_body. apply traces_call. intros [order|e] Hid; simpl in Hid |- *.
  2: { apply traces_of_silent; [solve_silent|]. intros ?. by left. }
  specialize (Hid order eq_refl).
  eapply (traces_mono _ _ (fun t _ => refund_effects amountMinor order (visible t))).
  2: { intros t r Ht. right. by exists order, t. }
  unfold refund_effects. rewrite not_charged.
  destruct (_ =s? OrderStatusRefunded) eqn:Er.
  { reflect_tests. unfold charged. rewrite Er. by apply traces_ret. }
  destruct (charged (Order_Status order)) eqn:Ech; simpl; [|by apply traces_ret].
  reflect_tests.
  apply traces_call. intros [st [e|]] _; simpl.
  { apply traces_of_silent; [solve_silent|]. intros ?.
    eexists _, _, _. split; [done|]. left. by split; [intros []|]. }
  destruct (st <>s? PaymentStatusRefunded) eqn:Est; reflect_tests.
  { apply traces_of_silent; [solve_silent|]. intros ?.
    eexists _, _, _. split; [done|]. left. by split; [intros []|]. }
  apply traces_vis. intros answer _.
  eapply traces_mono; [apply finish_traces; [done|intros; solve_silent]|].
  intros t r Ht. simpl. eexists _, _, _. split; [done|]. right. split; [done|]. by exists (visible t).
Qed.
End Parts.

(** ** The gauge of active sagas: src/internal/metrics/saga_metrics.go *)

(** What a method adds to [oms_active_sagas]: [RecordSagaStarted] calls
    [RecordSagaInFlightStarted]. *)
Definition active_delta (m : saga_metric) : Z :=
  match m with
  | RecordSagaStarted | RecordSagaInFlightStarted => 1
  | RecordSagaInFlightFinished => -1
  | _ => 0
  end.

Definition gauge_steps X (c : port X) : X -> list Z :=
  match c in port X return X -> list Z with
  | Metric m => fun _ => if active_delta m =? 0 then [] else [active_delta m]
  | _ => fun _ => []
  end.

Definition gauge : environment port Z := Environment _ _ (fun _ _ _ => True) gauge_steps.

Section Gauge.
Context (o : orchestrator).

Lemma quiet_metric m : active_delta m = 0 -> silent gauge (metric o m).
Proof.
  intros Hm. unfold metric. apply silent_when, silent_call. intros x. simpl. by rewrite Hm.
Qed.

Lemma metric_gauge m : active_delta m <> 0 ->
  traces gauge (metric o m) (fun t _ => t = if has_metrics o then [active_delta m] else []).
Proof.
  intros Hm. unfold metric. destruct (has_metrics o); [|by apply traces_ret].
  apply traces_vis. intros [] _. apply traces_ret. simpl.
  destruct (Z.eqb_spec (active_delta m) 0); done.
Qed.

#[local] Hint Extern 1 (silent gauge (metric _ _)) => apply quiet_metric; reflexivity : oms.

Lemma quiet_publish et id md : silent gauge (publishSagaEvent o et id md).
Proof. unfold publishSagaEvent. solve_silent. Qed.
#[local] Hint Resolve quiet_publish : oms.

Lemma quiet_emitEvent order et payload t : silent gauge (emitEvent o order et payload t).
Proof. unfold emitEvent. solve_silent. Qed.
#[local] Hint Resolve quiet_emitEvent : oms.

Lemma quiet_updateStatus_loop n : forall attempt order new,
  silent gauge (updateStatus_loop o n attempt order new).
Proof.
  induction n as [|n IH]; intros attempt order new; simpl; [apply silent_ret|].
  unfold emitStatusEvent. case_match; solve_silent.
Qed.
#[local] Hint Resolve quiet_updateStatus_loop : oms.

Lemma quiet_updateStatus order new : silent gauge (updateStatus o order new).
Proof. unfold updateStatus. solve_silent. Qed.
#[local] Hint Resolve quiet_updateStatus : oms.

Lemma quiet_failOrder order st e : silent gauge (failOrder o order st e).
Proof. unfold failOrder. solve_silent. Qed.
#[local] Hint Resolve quiet_failOrder : oms.

Lemma quiet_start id : silent gauge (start_body o id).
Proof.
  unfold start_body, start_pending, start_reserved, start_paid, handleReserve, handlePayment,
    handleConfirm, releaseInventory. solve_silent.
Qed.

Lemma quiet_cancel id reason : silent gauge (cancel_body o id reason).
Proof. unfold cancel_body, releaseInventory. solve_silent. Qed.

Lemma quiet_refund id amount reason : silent gauge (refund_body o id amount reason).
Proof. unfold refund_body, releaseInventory. solve_silent. Qed.

#[local] Hint Resolve quiet_start quiet_cancel quiet_refund : oms.

Lemma bracket_gauge (m : saga_metric) (body : M unit) (tail : M unit) :
  active_delta m = 1 -> silent gauge body -> silent gauge tail ->
  traces gauge (metric o m;; body;; tail;; metric o RecordSagaInFlightFinished)
    (fun t _ => t = if has_metrics o then [1; -1] else []).
Proof.
  intros Hm Hb Ht. eapply traces_bind; [apply metric_gauge; lia|]. intros t ? ->.
  apply traces_silent; [done|]. intros ?. apply traces_silent; [done|]. intros ?.
  eapply traces_mono; [by apply metric_gauge|]. intros t r ->.
  rewrite Hm. by destruct (has_metrics o).
Qed.

(** Every run of a saga, whichever branch it leaves by, raises the gauge of
    active sagas by one at its start and lowers it by one at its end. *)
Theorem gauge_balanced job :
  traces gauge (run_saga_job o job) (fun t _ => t = if has_metrics o then [1; -1] else []).
Proof.
  destruct job; simpl.
  - unfold Start. apply traces_silent; [solve_silent|]. intros ?.
    apply bracket_gauge; [done|solve_silent..].
  - unfold Cancel. apply (bracket_gauge _ _ (Ret tt)); [done|solve_silent..].
  - unfold Refund. apply (bracket_gauge _ _ (Ret tt)); [done|solve_silent..].
Qed.
End Gauge.
