(* ===== verification/Metrics.v ===== *)
(** * Saga metrics: src/internal/metrics/saga_metrics.go

    The registration of the ten collectors, and what every recording method
    does to them.  The registry is Prometheus': an interface with the laws its
    documentation gives. *)

From S2P Require Import Prelude GoLib Float64 Domain Prog Ports SagaTraces.

(** ** Collectors and the registry *)

Inductive collector_kind : Type := Counter | Gauge | Histogram | HistogramVec.

#[global] Instance collector_kind_eq_dec : EqDecision collector_kind.
Proof. solve_decision. Defined.

Record metric_opts := MkMetricOpts {
  opt_Name : string;
  opt_Help : string;
  opt_Labels : list string;
}.

#[global] Instance metric_opts_eq_dec : EqDecision metric_opts.
Proof. solve_decision. Defined.

(** An object of the library: the pointer, its dynamic type and what it was
    made of. *)
Record collector := MkCollector {
  col_ref : nat;
  col_kind : collector_kind;
  col_opts : metric_opts;
}.

#[global] Instance collector_eq_dec : EqDecision collector.
Proof. solve_decision. Defined.

Inductive register_result : Type :=
| Registered
| AlreadyRegistered (existing : collector)   (* prometheus.AlreadyRegisteredError *)
| RegisterFailed (e : err).

Class Registerer (Reg : Type) := {
  Register : collector -> Reg -> register_result * Reg;
  collectors : Reg -> gmap string collector;
}.

(** What [Register] documents: a name is registered once; registering the same
    description again (name, help and labels, whatever the type) returns the
    collector that is there, another description of the name is an error, and
    neither changes the registry. *)
Class RegistererLaws (Reg : Type) {R : Registerer Reg} : Prop := {
  register_new : forall c reg, collectors reg !! opt_Name (col_opts c) = None ->
    (Register c reg).1 = Registered /\
    collectors (Register c reg).2 = <[opt_Name (col_opts c) := c]> (collectors reg);
  register_again : forall c old reg, collectors reg !! opt_Name (col_opts c) = Some old ->
    collectors (Register c reg).2 = collectors reg /\
    if decide (col_opts old = col_opts c)
    then (Register c reg).1 = AlreadyRegistered old
    else exists e, (Register c reg).1 = RegisterFailed e;
}.

(** ** Construction *)

Section Construction.
Context {Reg : Type} {R : Registerer Reg}.

(** The registry and the next pointer; [None] is a panic. *)
Definition registering (A : Type) : Type := Reg * nat -> option (A * (Reg * nat)).

Definition rbind {A B} (f : registering A) (g : A -> registering B) : registering B :=
  fun st => '(a, st') ← f st; g a st'.

(** [registerCounter], [registerGauge], [registerHistogram] and
    [registerHistogramVec]: the same function at four types. *)
Definition register_collector (kind : collector_kind) (opts : metric_opts) : registering collector := fun '(reg, next) =>
  let c := MkCollector next kind opts in
  let '(result, reg) := Register c reg in
  match result with
  | Registered => Some (c, (reg, S next))
  | AlreadyRegistered existing => if decide (col_kind existing = kind) then Some (existing, (reg, S next)) else None
  | RegisterFailed _ => None
  end.

Definition registerCounter (opts : metric_opts) := register_collector Counter opts.
Definition registerGauge (opts : metric_opts) := register_collector Gauge opts.
Definition registerHistogram (opts : metric_opts) := register_collector Histogram opts.
Definition registerHistogramVec (opts : metric_opts) := register_collector HistogramVec opts.
End Construction.

Record SagaMetrics := MkSagaMetrics {
  sagaStarted : collector;
  sagaCanceled : collector;
  sagaRefunded : collector;
  sagaCompleted : collector;
  sagaFailed : collector;
  sagaDuration : collector;
  stepDuration : collector;
  timelineEvents : collector;
  outboxEvents : collector;
  activeSagas : collector;
}.

Definition started_opts := MkMetricOpts "oms_saga_started_total" "Total number of saga operations started" [].
Definition canceled_opts := MkMetricOpts "oms_saga_canceled_total" "Total number of saga operations canceled" [].
Definition refunded_opts := MkMetricOpts "oms_saga_refunded_total" "Total number of saga operations refunded" [].
Definition completed_opts :=
  MkMetricOpts "oms_saga_completed_total" "Total number of saga operations completed successfully" [].
Definition failed_opts := MkMetricOpts "oms_saga_failed_total" "Total number of saga operations failed" [].
Definition duration_opts := MkMetricOpts "oms_saga_duration_seconds" "Duration of saga operations in seconds" [].
Definition step_opts :=
  MkMetricOpts "oms_saga_step_duration_seconds" "Duration of individual saga steps in seconds" ["step"].
Definition timeline_opts := MkMetricOpts "oms_timeline_events_total" "Total number of timeline events recorded" [].
Definition outbox_opts := MkMetricOpts "oms_outbox_events_total" "Total number of outbox events published" [].
Definition active_opts := MkMetricOpts "oms_active_sagas" "Number of currently active saga operations" [].

(** The fields are built in the order of the literal. *)
Definition newSagaMetricsWithRegisterer {Reg} {R : Registerer Reg} : registering (Reg := Reg) SagaMetrics :=
  rbind (registerCounter started_opts) (fun started =>
  rbind (registerCounter canceled_opts) (fun canceled =>
  rbind (registerCounter refunded_opts) (fun refunded =>
  rbind (registerCounter completed_opts) (fun completed =>
  rbind (registerCounter failed_opts) (fun failed =>
  rbind (registerHistogram duration_opts) (fun duration =>
  rbind (registerHistogramVec step_opts) (fun step =>
  rbind (registerCounter timeline_opts) (fun timeline =>
  rbind (registerCounter outbox_opts) (fun outbox =>
  rbind (registerGauge active_opts) (fun active => fun st =>
    Some (MkSagaMetrics started canceled refunded completed failed duration step timeline outbox active, st))))))))))).

(** ** Recording *)

Inductive metric_update : Type :=
| Inc (c : collector)
| Dec (c : collector)
| Observe (c : collector) (labels : list string) (value : float64).

Definition RecordStepDuration_ (m : SagaMetrics) (step : string) (duration : Duration) : list metric_update :=
  [Observe (stepDuration m) [step] (Seconds duration)].

(** The methods of [SagaMetrics] the orchestrator calls. *)
Definition record_saga (m : SagaMetrics) (call : saga_metric) : list metric_update :=
  match call with
  | RecordSagaStarted => [Inc (sagaStarted m); Inc (activeSagas m)]
  | RecordSagaCanceled => [Inc (sagaCanceled m)]
  | RecordSagaRefunded => [Inc (sagaRefunded m)]
  | RecordSagaCompleted => [Inc (sagaCompleted m)]
  | RecordSagaFailed => [Inc (sagaFailed m)]
  | RecordSagaInFlightStarted => [Inc (activeSagas m)]
  | RecordSagaInFlightFinished => [Dec (activeSagas m)]
  | RecordSagaDuration d => [Observe (sagaDuration m) [] (Seconds d)]
  | RecordTimelineEvent => [Inc (timelineEvents m)]
  | RecordOutboxEvent => [Inc (outboxEvents m)]
  end.

(** The value of a counter or a gauge after some updates. *)
Definition value_of (target : collector) (updates : list metric_update) : Z :=
  foldr (fun u v =>
    match u with
    | Inc c => if decide (c = target) then 1 + v else v
    | Dec c => if decide (c = target) then v - 1 else v
    | Observe _ _ _ => v
    end) 0 updates.

(** ** All instances share their collectors *)

(** The collector a field is registered with. *)
Definition metric_kinds : list (collector_kind * metric_opts) :=
  [(Counter, started_opts); (Counter, canceled_opts); (Counter, refunded_opts); (Counter, completed_opts);
   (Counter, failed_opts); (Histogram, duration_opts); (HistogramVec, step_opts); (Counter, timeline_opts);
   (Counter, outbox_opts); (Gauge, active_opts)].

Definition fields (m : SagaMetrics) : list collector :=
  [sagaStarted m; sagaCanceled m; sagaRefunded m; sagaCompleted m; sagaFailed m; sagaDuration m; stepDuration m;
   timelineEvents m; outboxEvents m; activeSagas m].

Section Sharing.
Context {Reg : Type} {R : Registerer Reg} {laws : RegistererLaws Reg}.

Fixpoint register_all (l : list (collector_kind * metric_opts)) : registering (Reg := Reg) (list collector) :=
  match l with
  | [] => fun st => Some ([], st)
  | (kind, opts) :: rest =>
      rbind (register_collector kind opts) (fun c => rbind (register_all rest) (fun cs => fun st => Some (c :: cs, st)))
  end.

(** The construction registers the ten collectors in this order. *)
Lemma new_register_all st : newSagaMetricsWithRegisterer st =
  match register_all metric_kinds st with
  | Some ([c1; c2; c3; c4; c5; c6; c7; c8; c9; c10], st') => Some (MkSagaMetrics c1 c2 c3 c4 c5 c6 c7 c8 c9 c10, st')
  | _ => None
  end.
Proof.
  unfold newSagaMetricsWithRegisterer, metric_kinds, registerCounter, registerGauge, registerHistogram, registerHistogramVec.
  cbn [register_all]. unfold rbind.
  do 10 (destruct (register_collector _ _ _) as [[? ?]|]; cbn [option_bind mbind]; [|done]). done.
Qed.

(** The name is free, or taken by a collector of the same kind and description. *)
Definition usable (reg : Reg) (ko : collector_kind * metric_opts) : Prop :=
  match collectors reg !! opt_Name ko.2 with
  | None => True
  | Some c => col_kind c = ko.1 /\ col_opts c = ko.2
  end.

#[global] Instance usable_dec reg ko : Decision (usable reg ko).
Proof. unfold usable. destruct (_ !! _); apply _. Defined.

Definition registered_as (reg : Reg) (ko : collector_kind * metric_opts) (c : collector) : Prop :=
  col_kind c = ko.1 /\ col_opts c = ko.2 /\ collectors reg !! opt_Name ko.2 = Some c.

Lemma register_usable kind opts reg n : usable reg (kind, opts) -> exists c reg',
  register_collector kind opts (reg, n) = Some (c, (reg', S n)) /\ registered_as reg' (kind, opts) c /\
  collectors reg' = <[opt_Name opts := c]> (collectors reg).
Proof.
  unfold usable, register_collector, registered_as. cbn [fst snd]. set (c := MkCollector n kind opts).
  destruct (collectors reg !! opt_Name opts) as [old|] eqn:E.
  - intros [Hk Ho]. destruct (register_again c old reg E) as [Hreg Hres]. rewrite decide_True in Hres by done.
    destruct (Register c reg) as [r reg']. simpl in *. subst r. rewrite decide_True by done.
    exists old, reg'. split; [done|]. split; [by rewrite Hreg|]. by rewrite Hreg, insert_id.
  - intros _. destruct (register_new c reg E) as [Hres Hreg].
    destruct (Register c reg) as [r reg']. simpl in *. subst r. exists c, reg'.
    split; [done|]. split; [|done]. split_and!; [done|done|]. by rewrite Hreg, lookup_insert_eq.
Qed.

Lemma register_unusable kind opts reg n : ~ usable reg (kind, opts) -> register_collector kind opts (reg, n) = None.
Proof.
  unfold usable, register_collector. cbn [fst snd]. set (c := MkCollector n kind opts).
  destruct (collectors reg !! opt_Name opts) as [old|] eqn:E; [|done]. intros Hno.
  destruct (register_again c old reg E) as [_ Hres]. destruct (Register c reg) as [r reg']. simpl in *.
  destruct (decide (col_opts old = opts)); [|by destruct Hres as [e ->]]. subst r.
  rewrite decide_False; [done|]. naive_solver.
Qed.

Lemma usable_other reg reg' name c ko : collectors reg' = <[name := c]> (collectors reg) -> name <> opt_Name ko.2 ->
  usable reg' ko <-> usable reg ko.
Proof. intros Hreg Hne. unfold usable. by rewrite Hreg, lookup_insert_ne. Qed.

Lemma register_all_usable l : forall reg n, NoDup (map (fun ko => opt_Name ko.2) l) -> Forall (usable reg) l ->
  exists cs reg' n', register_all l (reg, n) = Some (cs, (reg', n')) /\ Forall2 (registered_as reg') l cs /\
    (forall name, name ∉ map (fun ko : collector_kind * metric_opts => opt_Name ko.2) l ->
       collectors reg' !! name = collectors reg !! name).
Proof.
  induction l as [|[kind opts] l IH]; intros reg n Hnd Hu; [by exists [], reg, n|].
  simpl in Hnd. apply NoDup_cons in Hnd as [Hnew Hnd]. apply Forall_cons in Hu as [Hu Hus].
  destruct (register_usable kind opts reg n Hu) as (c & reg1 & Hc & (Hk & Ho & Hl) & Hreg).
  destruct (IH reg1 (S n) Hnd) as (cs & reg2 & n2 & Hcs & Has & Hrest).
  { rewrite Forall_forall in *. intros ko Hko. apply (usable_other reg reg1 _ c ko Hreg); [|by apply Hus].
    intros Heq. apply Hnew. rewrite Heq. by apply (list_elem_of_fmap_2 (fun ko => opt_Name ko.2)). }
  exists (c :: cs), reg2, n2. cbn [register_all]. unfold rbind. rewrite Hc. cbn [option_bind mbind]. rewrite Hcs.
  split; [done|]. split.
  - constructor; [|done]. split_and!; [done|done|]. simpl in *. by rewrite Hrest.
  - intros name Hname. simpl in Hname. apply not_elem_of_cons in Hname as [Hne Hname].
    rewrite Hrest by done. by rewrite Hreg, lookup_insert_ne by done.
Qed.

Lemma register_all_panics l : forall reg n, NoDup (map (fun ko => opt_Name ko.2) l) -> ~ Forall (usable reg) l ->
  register_all l (reg, n) = None.
Proof.
  induction l as [|[kind opts] l IH]; intros reg n Hnd Hu; [destruct Hu; constructor|].
  simpl in Hnd. apply NoDup_cons in Hnd as [Hnew Hnd]. cbn [register_all]. unfold rbind.
  destruct (decide (usable reg (kind, opts))) as [Hh|Hh]; [|by rewrite register_unusable].
  destruct (register_usable kind opts reg n Hh) as (c & reg1 & -> & _ & Hreg). cbn [option_bind mbind].
  rewrite IH; [done|done|]. intros Hall. apply Hu. constructor; [done|]. rewrite Forall_forall in *.
  intros ko Hko. apply (usable_other reg reg1 _ c ko Hreg); [|by apply Hall].
  intros Heq. apply Hnew. rewrite Heq. by apply (list_elem_of_fmap_2 (fun ko => opt_Name ko.2)).
Qed.

(** Where the collectors are registered already they are what is returned. *)
Lemma register_all_again l cs : forall reg n, Forall2 (registered_as reg) l cs ->
  exists reg' n', register_all l (reg, n) = Some (cs, (reg', n')) /\ collectors reg' = collectors reg.
Proof.
  revert cs. induction l as [|[kind opts] l IH]; intros cs reg n H; inversion H as [|ko c l' cs' (Hk & Ho & Hl) Hrest]; subst.
  { by exists reg, n. }
  simpl in Hk, Ho, Hl. destruct (register_usable kind opts reg n) as (c' & reg1 & Hc & (_ & _ & Hl') & Hreg).
  { unfold usable. simpl. by rewrite Hl. }
  assert (collectors reg1 = collectors reg) as Heq.
  { simpl in Hl'. unfold register_collector in Hc. destruct (register_again (MkCollector n kind opts) c reg Hl) as [Hsame _].
    destruct (Register _ _) as [r reg0]. simpl in Hsame. destruct r; simplify_eq; try done. by case_decide; simplify_eq. }
  assert (c' = c) as -> by (simpl in Hl'; rewrite Heq in Hl'; congruence).
  destruct (IH cs' reg1 (S n)) as (reg2 & n2 & Hcs & Hreg2).
  { eapply Forall2_impl; [exact Hrest|]. intros ko d (? & ? & ?). split_and!; [done|done|by rewrite Heq]. }
  exists reg2, n2. cbn [register_all]. unfold rbind. rewrite Hc. cbn [option_bind mbind]. rewrite Hcs.
  split; [done|]. by rewrite Hreg2.
Qed.
End Sharing.

Lemma names_distinct : NoDup (map (fun ko => opt_Name ko.2) metric_kinds).
Proof. apply (bool_decide_unpack (NoDup _)). vm_compute. exact I. Qed.

Lemma value_of_app target l1 l2 : value_of target (l1 ++ l2) = value_of target l1 + value_of target l2.
Proof. induction l1 as [|[c|c|c ls v] l1 IH]; simpl; [done|..]; try case_decide; lia. Qed.

Definition described (m : SagaMetrics) : Prop := map col_opts (fields m) = map snd metric_kinds.

Lemma described_NoDup m : described m -> NoDup (fields m).
Proof.
  intros H. apply (NoDup_fmap_1 col_opts). change (col_opts <$> fields m) with (map col_opts (fields m)). rewrite H.
  apply (bool_decide_unpack (NoDup _)). vm_compute. exact I.
Qed.

Lemma gauge_counts m calls : described m ->
  value_of (activeSagas m) (flat_map (record_saga m) calls) = foldr (fun call acc => active_delta call + acc) 0 calls.
Proof.
  intros H. assert (forall c, col_opts c <> active_opts -> c <> activeSagas m) as Hne.
  { intros c Hc ->. apply Hc. injection H. done. }
  induction calls as [|call calls IH]; [done|]. cbn [flat_map foldr]. rewrite value_of_app, IH. f_equal. clear IH calls.
  injection H as H1 H2 H3 H4 H5 H6 H7 H8 H9 H10.
  destruct call; simpl; rewrite ?(decide_True (P := activeSagas m = activeSagas m)) by done; try reflexivity;
    (rewrite decide_False; [reflexivity|apply Hne; rewrite ?H1, ?H2, ?H3, ?H4, ?H5, ?H8, ?H9; done]).
Qed.

Lemma registered_fields {Reg} {R : Registerer Reg} (reg : Reg) cs : Forall2 (registered_as reg) metric_kinds cs ->
  exists m, cs = fields m /\ described m.
Proof.
  intros H. assert (map col_opts cs = map snd metric_kinds) as Hd.
  { clear -H. induction H as [|ko c l cs (_ & Ho & _) _ IH]; [done|]. simpl. by rewrite Ho, IH. }
  apply Forall2_length in H. do 10 (destruct cs as [|? cs]; [done|]). destruct cs; [|done].
  by eexists (MkSagaMetrics _ _ _ _ _ _ _ _ _ _).
Qed.

Lemma new_fields {Reg} {R : Registerer Reg} (st : Reg * nat) m st' :
  register_all metric_kinds st = Some (fields m, st') -> newSagaMetricsWithRegisterer st = Some (m, st').
Proof. intros H. rewrite new_register_all, H. by destruct m. Qed.

(** The constructor of the saga metrics panics exactly when one of its ten
    names is taken by something else.  Otherwise every instance made later from
    the same registry, however it has grown, holds the very same collectors, so
    all orchestrators count together; the ten are different objects, and the
    gauge of active sagas reads what was started less what was finished. *)
Theorem saga_metrics_shared {Reg} {R : Registerer Reg} {laws : RegistererLaws Reg} (reg : Reg) n :
  (newSagaMetricsWithRegisterer (reg, n) = None <-> ~ Forall (usable reg) metric_kinds) /\
  (forall m reg' n', newSagaMetricsWithRegisterer (reg, n) = Some (m, (reg', n')) ->
     NoDup (fields m) /\
     (forall later k, collectors reg' ⊆ collectors later -> exists reg2 k2,
        newSagaMetricsWithRegisterer (later, k) = Some (m, (reg2, k2)) /\ collectors reg2 = collectors later) /\
     (forall calls, value_of (activeSagas m) (flat_map (record_saga m) calls) =
        foldr (fun call acc => active_delta call + acc) 0 calls)).
Proof.
  assert (~ Forall (usable reg) metric_kinds -> newSagaMetricsWithRegisterer (reg, n) = None) as Hpanic.
  { intros H. rewrite new_register_all. by rewrite register_all_panics by (apply names_distinct || done). }
  assert (Forall (usable reg) metric_kinds -> exists m reg' n', newSagaMetricsWithRegisterer (reg, n) = Some (m, (reg', n')) /\
    described m /\ Forall2 (registered_as reg') metric_kinds (fields m)) as Hok.
  { intros H. destruct (register_all_usable metric_kinds reg n names_distinct H) as (cs & reg' & n' & Hr & Has & _).
    destruct (registered_fields _ _ Has) as (m & -> & Hd). exists m, reg', n'. split; [by apply new_fields|done]. }
  split.
  - split; [|done]. intros Hn Hu. destruct (Hok Hu) as (m & reg' & n' & Hs & _). congruence.
  - intros m reg' n' Hs. destruct (decide (Forall (usable reg) metric_kinds)) as [Hu|Hu]; [|rewrite Hpanic in Hs; done].
    destruct (Hok Hu) as (m' & r & k & Hs' & Hd & Has). rewrite Hs in Hs'. injection Hs' as <- <- <-.
    split_and!; [by apply described_NoDup| |intros calls; by apply gauge_counts].
    intros later j Hsub. destruct (register_all_again metric_kinds (fields m) later j) as (reg2 & k2 & Hr & Heq).
    { eapply Forall2_impl; [exact Has|]. intros ko c (? & ? & Hl). split_and!; [done|done|]. by eapply lookup_weaken. }
    exists reg2, k2. split; [by apply new_fields|done].
Qed.
