(* ===== verification/OrderService.v ===== *)
(** * gRPC order service: src/internal/service/grpc/order_service.go

    The handlers of [OrderService] as programs over the ports, with the
    idempotency wrapper around the mutating ones.  A request pointer that can be
    nil is an [option].  Protobuf encoding ([proto.Marshal], [protojson]) is the
    class [ProtoMessage]; SHA-256, hex and JSON come from the standard library.
    Log lines are not modelled. *)

From stdpp Require Import pretty.
From S2P Require Import Prelude GoLib Json Sha256 Domain Prog Ports.

(** ** Status codes and errors *)

Definition Code := Z.  (* uint32 *)
Definition codes_OK : Code := 0.
Definition codes_Canceled : Code := 1.
Definition codes_Unknown : Code := 2.
Definition codes_InvalidArgument : Code := 3.
Definition codes_DeadlineExceeded : Code := 4.
Definition codes_NotFound : Code := 5.
Definition codes_AlreadyExists : Code := 6.
Definition codes_PermissionDenied : Code := 7.
Definition codes_ResourceExhausted : Code := 8.
Definition codes_FailedPrecondition : Code := 9.
Definition codes_Aborted : Code := 10.
Definition codes_OutOfRange : Code := 11.
Definition codes_Unimplemented : Code := 12.
Definition codes_Internal : Code := 13.
Definition codes_Unavailable : Code := 14.
Definition codes_DataLoss : Code := 15.
Definition codes_Unauthenticated : Code := 16.

(** [status.Error(code, msg)]; every error a handler returns is of this form. *)
Record status := Status { status_code : Code; status_message : string }.

#[global] Instance status_eq_dec : EqDecision status.
Proof. solve_decision. Defined.

Inductive reply (T : Type) : Type :=
| Resp (r : T)
| Fail (st : status).
Arguments Resp {T} r.
Arguments Fail {T} st.

Definition grpcCodeToInt32 (code : Code) : Z :=
  if code =? codes_OK then 0
  else if code =? codes_Canceled then 1
  else if code =? codes_Unknown then 2
  else if code =? codes_InvalidArgument then 3
  else if code =? codes_DeadlineExceeded then 4
  else if code =? codes_NotFound then 5
  else if code =? codes_AlreadyExists then 6
  else if code =? codes_PermissionDenied then 7
  else if code =? codes_ResourceExhausted then 8
  else if code =? codes_FailedPrecondition then 9
  else if code =? codes_Aborted then 10
  else if code =? codes_OutOfRange then 11
  else if code =? codes_Unimplemented then 12
  else if code =? codes_Internal then 13
  else if code =? codes_Unavailable then 14
  else if code =? codes_DataLoss then 15
  else if code =? codes_Unauthenticated then 16
  else 13.

Definition grpcCodeFromInt64 (value : Z) : Code * bool :=
  if value =? 0 then (codes_OK, true)
  else if value =? 1 then (codes_Canceled, true)
  else if value =? 2 then (codes_Unknown, true)
  else if value =? 3 then (codes_InvalidArgument, true)
  else if value =? 4 then (codes_DeadlineExceeded, true)
  else if value =? 5 then (codes_NotFound, true)
  else if value =? 6 then (codes_AlreadyExists, true)
  else if value =? 7 then (codes_PermissionDenied, true)
  else if value =? 8 then (codes_ResourceExhausted, true)
  else if value =? 9 then (codes_FailedPrecondition, true)
  else if value =? 10 then (codes_Aborted, true)
  else if value =? 11 then (codes_OutOfRange, true)
  else if value =? 12 then (codes_Unimplemented, true)
  else if value =? 13 then (codes_Internal, true)
  else if value =? 14 then (codes_Unavailable, true)
  else if value =? 15 then (codes_DataLoss, true)
  else if value =? 16 then (codes_Unauthenticated, true)
  else (codes_Internal, false).

Definition grpcCodeFromInt32 (value : Z) : Code * bool := grpcCodeFromInt64 value.
Definition grpcCodeFromInt (value : Z) : Code * bool := grpcCodeFromInt64 value.

(** ** Messages: src/proto/oms/v1/order_service.proto *)

Definition ProtoOrderStatus := Z.
Definition ORDER_STATUS_UNSPECIFIED : ProtoOrderStatus := 0.
Definition ORDER_STATUS_PENDING : ProtoOrderStatus := 1.
Definition ORDER_STATUS_RESERVED : ProtoOrderStatus := 2.
Definition ORDER_STATUS_PAID : ProtoOrderStatus := 3.
Definition ORDER_STATUS_CONFIRMED : ProtoOrderStatus := 4.
Definition ORDER_STATUS_CANCELED : ProtoOrderStatus := 5.
Definition ORDER_STATUS_REFUNDED : ProtoOrderStatus := 6.

Record Money := MkMoney { Money_Currency : string; Money_AmountMinor : Z }.

Record ProtoOrderItem := MkProtoOrderItem {
  PItem_Sku : string;
  PItem_Qty : Z;
  PItem_Price : option Money;
}.

Record ProtoOrder := MkProtoOrder {
  POrder_Id : string;
  POrder_CustomerId : string;
  POrder_Status : ProtoOrderStatus;
  POrder_Amount : option Money;
  POrder_Items : list ProtoOrderItem;
  POrder_Version : Z;
  POrder_Currency : string;
}.

Record ProtoTimelineEvent := MkProtoTimelineEvent {
  PEvent_Type : string;
  PEvent_Reason : string;
  PEvent_UnixTime : Z;
}.

Record CreateOrderRequest := MkCreateOrderRequest {
  CreateOrder_CustomerId : string;
  CreateOrder_Items : list (option ProtoOrderItem);
  CreateOrder_Currency : string;
}.
Record CreateOrderResponse := MkCreateOrderResponse { CreateOrder_Order : ProtoOrder }.
Record GetOrderResponse := MkGetOrderResponse {
  GetOrder_Order : ProtoOrder;
  GetOrder_Timeline : list ProtoTimelineEvent;
}.
Record ListOrdersRequest := MkListOrdersRequest {
  ListOrders_CustomerId : string;
  ListOrders_PageSize : Z;
}.
Record ListOrdersResponse := MkListOrdersResponse { ListOrders_Orders : list ProtoOrder }.
Record PayOrderRequest := MkPayOrderRequest { PayOrder_OrderId : string }.
Record CancelOrderRequest := MkCancelOrderRequest {
  CancelOrder_OrderId : string;
  CancelOrder_Reason : string;
}.
Record RefundOrderRequest := MkRefundOrderRequest {
  RefundOrder_OrderId : string;
  RefundOrder_Amount : option Money;
  RefundOrder_Reason : string;
}.

(** [PayOrderResponse], [CancelOrderResponse] and [RefundOrderResponse]. *)
Record StatusResponse := MkStatusResponse {
  Resp_OrderId : string;
  Resp_Status : ProtoOrderStatus;
}.

(** The encodings of a message type: deterministic [proto.Marshal], and
    [protojson]. *)
Class ProtoMessage (T : Type) := {
  proto_Marshal : T -> result bytes;
  protojson_Marshal : T -> result bytes;
  protojson_Unmarshal : bytes -> result T;
}.

(** A message decodes from the JSON it was encoded to, which is not empty. *)
Class ProtoJSONLaws (T : Type) {P : ProtoMessage T} : Prop := {
  protojson_round_trip : forall (r : T) data, protojson_Marshal r = Ok data -> protojson_Unmarshal data = Ok r;
  protojson_nonempty : forall (r : T) data, protojson_Marshal r = Ok data -> data <> "";
}.

(** ** Helpers *)

(** Which of the fields [timeline], [idemRepo] and [saga] are not nil. *)
Record OrderService := MkOrderService {
  svc_has_timeline : bool;
  svc_has_idempotency : bool;
  svc_has_saga : bool;
}.

Definition grpcMethodCreateOrder : string := "/oms.v1.OrderService/CreateOrder".
Definition grpcMethodPayOrder : string := "/oms.v1.OrderService/PayOrder".
Definition grpcMethodCancelOrder : string := "/oms.v1.OrderService/CancelOrder".
Definition grpcMethodRefundOrder : string := "/oms.v1.OrderService/RefundOrder".
Definition defaultListOrdersLimit : Z := 100.
Definition timelineEventOrderStatusChanged : string := "OrderStatusChanged".
Definition timelineEventOrderCanceled : string := "OrderCanceled".
Definition timelineEventOrderRefunded : string := "OrderRefunded".
Definition idempotencyKeyHeader : string := "idempotency-key".
Definition idempotencyTTL : Duration := 24 * Hour.

Definition toProtoStatus (st : OrderStatus) : ProtoOrderStatus :=
  if st =s? OrderStatusPending then ORDER_STATUS_PENDING
  else if st =s? OrderStatusReserved then ORDER_STATUS_RESERVED
  else if st =s? OrderStatusPaid then ORDER_STATUS_PAID
  else if st =s? OrderStatusConfirmed then ORDER_STATUS_CONFIRMED
  else if st =s? OrderStatusCanceled then ORDER_STATUS_CANCELED
  else if st =s? OrderStatusRefunded then ORDER_STATUS_REFUNDED
  else ORDER_STATUS_UNSPECIFIED.

Definition toProtoItem (currency : string) (item : OrderItem) : ProtoOrderItem :=
  MkProtoOrderItem (OrderItem_SKU item) (OrderItem_Qty item)
    (Some (MkMoney currency (OrderItem_PriceMinor item))).

Definition toProtoOrder (order : Order) : ProtoOrder :=
  MkProtoOrder (Order_ID order) (Order_CustomerID order) (toProtoStatus (Order_Status order))
    (Some (MkMoney (Order_Currency order) (Order_AmountMinor order)))
    (map (toProtoItem (Order_Currency order)) (Order_Items order))
    (Order_Version order) (Order_Currency order).

Fixpoint joinErrors (errs : list err) : string :=
  match errs with
  | [] => ""
  | [e] => Error e
  | e :: rest => Error e +:+ "; " +:+ joinErrors rest
  end.

(** The request context: the metadata of the incoming and outgoing calls. *)
Abbreviation MD := (gmap string (list string)).
Record Context := MkContext { ctx_incoming : option MD; ctx_outgoing : option MD }.

(** The trimmed first value of the header, if it is not blank. *)
Definition header_key (md : option MD) : option string :=
  match md with
  | None => None
  | Some md =>
      match md !! idempotencyKeyHeader with
      | Some (v :: _) => if TrimSpace v <>s? "" then Some (TrimSpace v) else None
      | _ => None
      end
  end.

Definition readIdempotencyKey (ctx : Context) : reply string :=
  match header_key (ctx_incoming ctx) with
  | Some key => Resp key
  | None =>
      match header_key (ctx_outgoing ctx) with
      | Some key => Resp key
      | None => Fail (Status codes_InvalidArgument "idempotency-key metadata is required")
      end
  end.

Definition buildIdempotencyRequestHash {Req} `{ProtoMessage Req} (method : string) (req : option Req)
  : result string :=
  match req with
  | None => Err (ErrOther "request is nil")
  | Some req =>
      match proto_Marshal req with
      | Err e => Err e
      | Ok data => Ok (EncodeToString (Sum256 (method +:+ ":" +:+ data)))
      end
  end.

(** ** The stored failure: json of [idempotencyErrorPayload] *)

Record idempotencyErrorPayload := MkPayload { Payload_Code : Z; Payload_Message : string }.

Definition quoted (s : string) : string := String (chr 34) (s +:+ String (chr 34) "").

Definition marshalPayload (p : idempotencyErrorPayload) : bytes :=
  "{" +:+ quoted "code" +:+ ":" +:+ pretty (Payload_Code p) +:+ "," +:+
  quoted "message" +:+ ":" +:+ json_string (Payload_Message p) +:+ "}".

(** One member of the object: unknown names are skipped, [null] leaves the
    field, a value of another type is an error. *)
Definition decode_member (p : option idempotencyErrorPayload) (m : string * json)
  : option idempotencyErrorPayload :=
  match p with
  | None => None
  | Some p =>
      if matches_field (fst m) "code" then
        match snd m with
        | JsonNull => Some p
        | JsonNumber lit =>
            match ParseInt_literal lit with
            | Some z => if (-2147483648 <=? z) && (z <=? 2147483647)
                        then Some (MkPayload z (Payload_Message p)) else None
            | None => None
            end
        | _ => None
        end
      else if matches_field (fst m) "message" then
        match snd m with
        | JsonNull => Some p
        | JsonString s => Some (MkPayload (Payload_Code p) s)
        | _ => None
        end
      else Some p
  end.

Definition unmarshalPayload (data : bytes) : option idempotencyErrorPayload :=
  match json_parse data with
  | Some (JsonObject members) => foldl decode_member (Some (MkPayload 0 "")) members
  | Some JsonNull => Some (MkPayload 0 "")
  | _ => None
  end.

Definition previousFailed : string := "previous request with the same idempotency key failed".

(** The answer when the body tells nothing. *)
Definition failure_from_status (record : IdempotencyRecord) : status :=
  if Idem_HTTPStatus record >? 0 then
    match grpcCodeFromInt (Idem_HTTPStatus record) with
    | (code, ok) => if ok && negb (code =? codes_OK) then Status code previousFailed
                    else Status codes_Internal previousFailed
    end
  else Status codes_Internal previousFailed.

Definition decodeIdempotencyFailure (record : IdempotencyRecord) : status :=
  if Idem_ResponseBody record <>s? "" then
    match unmarshalPayload (Idem_ResponseBody record) with
    | Some payload =>
        match grpcCodeFromInt32 (Payload_Code payload) with
        | (code, true) =>
            let code := if code =? codes_OK then codes_Internal else code in
            let message := if Payload_Message payload =s? "" then previousFailed
                           else Payload_Message payload in
            Status code message
        | (_, false) => failure_from_status record
        end
    | None => failure_from_status record
    end
  else failure_from_status record.

Definition replayIdempotency {T} `{ProtoMessage T} (createErr : err) (record : IdempotencyRecord)
  : reply T :=
  if errors_Is createErr ErrIdempotencyHashMismatch then
    Fail (Status codes_AlreadyExists "idempotency key is already used with different request payload")
  else if errors_Is createErr ErrIdempotencyKeyAlreadyExists then
    if Idem_Status record =s? IdempotencyStatusDone then
      if Idem_ResponseBody record =s? "" then Fail (Status codes_Internal "idempotency cache is empty")
      else match protojson_Unmarshal (Idem_ResponseBody record) with
           | Err _ => Fail (Status codes_Internal "failed to decode cached idempotency response")
           | Ok resp => Resp resp
           end
    else if Idem_Status record =s? IdempotencyStatusProcessing then
      Fail (Status codes_Aborted "request with the same idempotency key is already processing")
    else if Idem_Status record =s? IdempotencyStatusFailed then Fail (decodeIdempotencyFailure record)
    else Fail (Status codes_Internal "unknown idempotency record status")
  else Fail (Status codes_Internal "failed to initialize idempotency request").

(** ** Programs *)

Section Service.
Context (s : OrderService).

Definition cacheIdempotencySuccess {T} `{ProtoMessage T} (key : string) (resp : option T) : M (option err) :=
  match resp with
  | None => call (IdemMarkDone key "" codes_OK)
  | Some resp =>
      match protojson_Marshal resp with
      | Err e => mret (Some e)
      | Ok data => call (IdemMarkDone key data codes_OK)
      end
  end.

Definition cacheIdempotencyFailure (key : string) (runErr : status) : M unit :=
  let code := if status_code runErr =? codes_OK then codes_Internal else status_code runErr in
  let payload := marshalPayload (MkPayload (grpcCodeToInt32 code) (status_message runErr)) in
  call (IdemMarkFailed key payload code);; mret tt.

Definition withIdempotency {Req T} `{ProtoMessage Req} `{ProtoMessage T}
    (ctx : Context) (method : string) (req : option Req) (handler : M (reply T)) : M (reply T) :=
  if negb (svc_has_idempotency s) then handler
  else
    match readIdempotencyKey ctx with
    | Fail st => mret (Fail st)
    | Resp idemKey =>
        match buildIdempotencyRequestHash method req with
        | Err _ => mret (Fail (Status codes_Internal "failed to initialize idempotency request"))
        | Ok reqHash =>
            t ← now;
            created ← call (IdemCreateProcessing idemKey reqHash (t + idempotencyTTL));
            match created with
            | (record, Some e) => mret (replayIdempotency e record)
            | (_, None) =>
                resp ← handler;
                match resp with
                | Fail runErr => cacheIdempotencyFailure idemKey runErr;; mret (Fail runErr)
                | Resp r => cacheIdempotencySuccess idemKey (Some r);; mret (Resp r)
                end
            end
        end
    end.

Definition loadOrder (orderID : string) : M (reply Order) :=
  loaded ← call (OrdersGet orderID);
  mret (match loaded with
        | Ok order => Resp order
        | Err e =>
            if errors_Is e ErrOrderNotFound then Fail (Status codes_NotFound (Error ErrOrderNotFound))
            else Fail (Status codes_Internal "failed to load order")
        end).

Definition saveOrder (order : Order) (internalMsg : string) : M (option status) :=
  saved ← call (OrdersSave order);
  mret (match saved with
        | Ok _ => None
        | Err e =>
            Some (if errors_Is e ErrOrderNotFound then Status codes_NotFound (Error ErrOrderNotFound)
                  else if errors_Is e ErrOrderVersionConflict
                  then Status codes_Aborted (Error ErrOrderVersionConflict)
                  else Status codes_Internal internalMsg)
        end).

Definition appendTimelineEvent (orderID eventType reason : string) : M unit :=
  when (svc_has_timeline s)
    (t ← now;
     call (TimelineAppend (MkTimelineEvent orderID eventType reason t));; mret tt).

Definition appendStatusTimeline (orderID : string) (st : OrderStatus) (occurred : Time) : M unit :=
  when (svc_has_timeline s)
    (occurred ← (if IsZero occurred then now else mret occurred);
     call (TimelineAppend (MkTimelineEvent orderID timelineEventOrderStatusChanged st occurred));;
     mret tt).

Definition buildTimeline (orderID : string) : M (list ProtoTimelineEvent) :=
  if negb (svc_has_timeline s) then mret []
  else
    listed ← call (TimelineList orderID);
    mret (match listed with
          | Err _ => []
          | Ok events =>
              map (fun e => MkProtoTimelineEvent (TimelineEvent_Type e) (TimelineEvent_Reason e)
                              (Unix (TimelineEvent_Occurred e))) events
          end).

(** The critical section under [sagaMu], then the goroutine. *)
Definition runSagaAsync (job : saga_job) : M unit :=
  added ← call SagaTryAdd;
  when added (call (GoSaga job)).

Definition item_error (idx : Z) (what : string) : status :=
  Status codes_InvalidArgument ("item[" +:+ pretty idx +:+ "]" +:+ what).

(** The loop over the items of [createOrderInternal]: the items so far and
    their 64-bit sum. *)
Fixpoint create_items (t : Time) (currency : string) (idx : Z) (todo : list (option ProtoOrderItem))
    (items : list OrderItem) (amountSum : Z) : M (reply (list OrderItem * Z)) :=
  match todo with
  | [] => mret (Resp (items, amountSum))
  | item :: rest =>
      match item with
      | None => mret (Fail (item_error idx " is nil"))
      | Some item =>
          match PItem_Price item with
          | None => mret (Fail (item_error idx ".price is required"))
          | Some price =>
              if Money_Currency price <>s? currency
              then mret (Fail (item_error idx ".price.currency mismatch"))
              else if PItem_Qty item <=? 0
              then mret (Fail (item_error idx ".qty must be > 0"))
              else if Money_AmountMinor price <? 0
              then mret (Fail (item_error idx ".price.amount must be >= 0"))
              else
                id ← call NewUUID;
                create_items t currency (idx + 1) rest
                  (items ++ [MkOrderItem id (PItem_Sku item) (PItem_Qty item) (Money_AmountMinor price) t])
                  (wrap64 (amountSum + wrap64 (PItem_Qty item * Money_AmountMinor price)))
          end
      end
  end.

Definition createOrderInternal (req : option CreateOrderRequest) : M (reply CreateOrderResponse) :=
  match req with
  | None => mret (Fail (Status codes_InvalidArgument "request is required"))
  | Some req =>
      if CreateOrder_CustomerId req =s? ""
      then mret (Fail (Status codes_InvalidArgument "customer_id is required"))
      else if CreateOrder_Currency req =s? ""
      then mret (Fail (Status codes_InvalidArgument "currency is required"))
      else if (length (CreateOrder_Items req) =? 0)%nat
      then mret (Fail (Status codes_InvalidArgument "order must contain at least one item"))
      else
        t ← now;
        built ← create_items t (CreateOrder_Currency req) 0 (CreateOrder_Items req) [] 0;
        match built with
        | Fail st => mret (Fail st)
        | Resp (items, amountSum) =>
            id ← call NewUUID;
            let order := MkOrder id (CreateOrder_CustomerId req) OrderStatusPending
                           (CreateOrder_Currency req) amountSum items 0 t t in
            match ValidateInvariants order with
            | (_ :: _) as errs => mret (Fail (Status codes_InvalidArgument (joinErrors errs)))
            | [] =>
                created ← call (OrdersCreate order);
                match created with
                | Err e =>
                    mret (Fail (if errors_Is e ErrOrderVersionConflict
                                then Status codes_AlreadyExists (Error e)
                                else Status codes_Internal "failed to persist order"))
                | Ok _ =>
                    appendStatusTimeline (Order_ID order) (Order_Status order) (Order_UpdatedAt order);;
                    mret (Resp (MkCreateOrderResponse (toProtoOrder order)))
                end
            end
        end
  end.

Definition orderIdRequired {T} : reply T := Fail (Status codes_InvalidArgument "order_id is required").

Definition payOrderInternal (req : option PayOrderRequest) : M (reply StatusResponse) :=
  match req with
  | None => mret orderIdRequired
  | Some req =>
      if PayOrder_OrderId req =s? "" then mret orderIdRequired
      else
        loaded ← loadOrder (PayOrder_OrderId req);
        match loaded with
        | Fail st => mret (Fail st)
        | Resp order =>
            if Order_Status order <>s? OrderStatusPending then
              mret (Fail (Status codes_FailedPrecondition
                ("order " +:+ Order_ID order +:+ " status=" +:+ Order_Status order +:+
                 ", expected=" +:+ OrderStatusPending)))
            else
              when (svc_has_saga s) (runSagaAsync (JobStart (Order_ID order)));;
              mret (Resp (MkStatusResponse (Order_ID order) (toProtoStatus (Order_Status order))))
        end
  end.

(** The end of the cancel and refund handlers: the order is read again. *)
Definition reload_status (orderID : string) : M (reply StatusResponse) :=
  updated ← loadOrder orderID;
  mret (match updated with
        | Fail st => Fail st
        | Resp updated => Resp (MkStatusResponse (Order_ID updated) (toProtoStatus (Order_Status updated)))
        end).

Definition cancelOrderInternal (req : option CancelOrderRequest) : M (reply StatusResponse) :=
  match req with
  | None => mret orderIdRequired
  | Some req =>
      if CancelOrder_OrderId req =s? "" then mret orderIdRequired
      else
        loaded ← loadOrder (CancelOrder_OrderId req);
        match loaded with
        | Fail st => mret (Fail st)
        | Resp order =>
            failed ←
              (if svc_has_saga s then
                 runSagaAsync (JobCancel (Order_ID order) (CancelOrder_Reason req));; mret None
               else if Order_Status order <>s? OrderStatusCanceled then
                 t ← now;
                 let order := set_status order OrderStatusCanceled t in
                 saved ← saveOrder order "failed to cancel order";
                 match saved with
                 | Some st => mret (Some st)
                 | None =>
                     appendStatusTimeline (Order_ID order) (Order_Status order) (Order_UpdatedAt order);;
                     appendTimelineEvent (Order_ID order) timelineEventOrderCanceled (CancelOrder_Reason req);;
                     mret None
                 end
               else mret None);
            match failed with
            | Some st => mret (Fail st)
            | None => reload_status (Order_ID order)
            end
        end
  end.

(** The checks of the requested refund. *)
Definition refund_request_amount (order : Order) (amount : option Money) : reply Z :=
  match amount with
  | None => Resp 0
  | Some m =>
      if Money_AmountMinor m <? 0
      then Fail (Status codes_InvalidArgument "amount.amount_minor must be >= 0")
      else if (Money_Currency m <>s? "") && (Money_Currency m <>s? Order_Currency order)
      then Fail (Status codes_InvalidArgument "amount.currency must match order currency")
      else Resp (Money_AmountMinor m)
  end.

Definition refundOrderInternal (req : option RefundOrderRequest) : M (reply StatusResponse) :=
  match req with
  | None => mret orderIdRequired
  | Some req =>
      if RefundOrder_OrderId req =s? "" then mret orderIdRequired
      else
        loaded ← loadOrder (RefundOrder_OrderId req);
        match loaded with
        | Fail st => mret (Fail st)
        | Resp order =>
            match refund_request_amount order (RefundOrder_Amount req) with
            | Fail st => mret (Fail st)
            | Resp amountMinor =>
                if (Order_Status order <>s? OrderStatusPaid) && (Order_Status order <>s? OrderStatusConfirmed)
                then mret (Fail (Status codes_FailedPrecondition "order is not eligible for refund"))
                else
                  failed ←
                    (if svc_has_saga s then
                       runSagaAsync (JobRefund (Order_ID order) amountMinor (RefundOrder_Reason req));;
                       mret None
                     else
                       t ← now;
                       let order := set_status order OrderStatusRefunded t in
                       saved ← saveOrder order "failed to refund order";
                       match saved with
                       | Some st => mret (Some st)
                       | None =>
                           appendStatusTimeline (Order_ID order) (Order_Status order) (Order_UpdatedAt order);;
                           appendTimelineEvent (Order_ID order) timelineEventOrderRefunded
                             (RefundOrder_Reason req);;
                           mret None
                       end);
                  match failed with
                  | Some st => mret (Fail st)
                  | None => reload_status (Order_ID order)
                  end
            end
        end
  end.

Definition GetOrder (orderID : option string) : M (reply GetOrderResponse) :=
  match orderID with
  | None => mret orderIdRequired
  | Some orderID =>
      if orderID =s? "" then mret orderIdRequired
      else
        loaded ← loadOrder orderID;
        match loaded with
        | Fail st => mret (Fail st)
        | Resp order =>
            timeline ← buildTimeline (Order_ID order);
            mret (Resp (MkGetOrderResponse (toProtoOrder order) timeline))
        end
  end.

Definition customerIdRequired {T} : reply T := Fail (Status codes_InvalidArgument "customer_id is required").

Definition ListOrders (req : option ListOrdersRequest) : M (reply ListOrdersResponse) :=
  match req with
  | None => mret customerIdRequired
  | Some req =>
      if ListOrders_CustomerId req =s? "" then mret customerIdRequired
      else
        let limit := if ListOrders_PageSize req <=? 0 then defaultListOrdersLimit
                     else ListOrders_PageSize req in
        listed ← call (OrdersListByCustomer (ListOrders_CustomerId req) limit);
        mret (match listed with
              | Err _ => Fail (Status codes_Internal "failed to list orders")
              | Ok orders => Resp (MkListOrdersResponse (map toProtoOrder orders))
              end)
  end.

(** ** The wrapped handlers *)

Context `{ProtoMessage CreateOrderRequest} `{ProtoMessage CreateOrderResponse}
        `{ProtoMessage PayOrderRequest} `{ProtoMessage CancelOrderRequest}
        `{ProtoMessage RefundOrderRequest} `{ProtoMessage StatusResponse}.

Definition CreateOrder (ctx : Context) (req : option CreateOrderRequest) : M (reply CreateOrderResponse) :=
  match req with
  | None => mret (Fail (Status codes_InvalidArgument "request is required"))
  | Some _ => withIdempotency ctx grpcMethodCreateOrder req (createOrderInternal req)
  end.

Definition PayOrder (ctx : Context) (req : option PayOrderRequest) : M (reply StatusResponse) :=
  match req with
  | None => mret orderIdRequired
  | Some r => if PayOrder_OrderId r =s? "" then mret orderIdRequired
              else withIdempotency ctx grpcMethodPayOrder req (payOrderInternal req)
  end.

Definition CancelOrder (ctx : Context) (req : option CancelOrderRequest) : M (reply StatusResponse) :=
  match req with
  | None => mret orderIdRequired
  | Some r => if CancelOrder_OrderId r =s? "" then mret orderIdRequired
              else withIdempotency ctx grpcMethodCancelOrder req (cancelOrderInternal req)
  end.

Definition RefundOrder (ctx : Context) (req : option RefundOrderRequest) : M (reply StatusResponse) :=
  match req with
  | None => mret orderIdRequired
  | Some r => if RefundOrder_OrderId r =s? "" then mret orderIdRequired
              else withIdempotency ctx grpcMethodRefundOrder req (refundOrderInternal req)
  end.

Definition Shutdown : M (option err) :=
  call SagaClose;;
  call SagaWait.

End Service.
