(* ===== verification/OrderServiceSpec.v ===== *)
(** * What the order handlers guarantee

    Validation and creation of orders on every run, the round trip of the stored
    failures, and the replay of a request with the same idempotency key. *)

From stdpp Require Import pretty.
From S2P Require Import Prelude GoLib Json Strconv JsonText Sha256 Domain Prog Ports OrderService.

(** ** CreateOrder *)

Definition item_request_ok (currency : string) (item : option ProtoOrderItem) : bool :=
  match item with
  | Some (MkProtoOrderItem _ qty (Some price)) =>
      (Money_Currency price =s? currency) && (qty >? 0) && (Money_AmountMinor price >=? 0)
  | _ => false
  end.

(** The exact value of the items of a request. *)
Definition item_total (item : option ProtoOrderItem) : Z :=
  match item with
  | Some (MkProtoOrderItem _ qty (Some price)) => qty * Money_AmountMinor price
  | _ => 0
  end.

Definition request_total (items : list (option ProtoOrderItem)) : Z := foldr (fun i acc => item_total i + acc) 0 items.

(** The requests [createOrderInternal] accepts: the last test is the only
    protection against a sum that leaves 64 bits. *)
Definition request_ok (req : CreateOrderRequest) : bool :=
  (CreateOrder_CustomerId req <>s? "") && (CreateOrder_Currency req <>s? "") &&
  negb (length (CreateOrder_Items req) =? 0)%nat &&
  forallb (item_request_ok (CreateOrder_Currency req)) (CreateOrder_Items req) &&
  (wrap64 (request_total (CreateOrder_Items req)) >=? 0).

(** An item of the order is the item of the request. *)
Definition item_matches (req : option ProtoOrderItem) (item : OrderItem) : Prop :=
  exists price, req = Some (MkProtoOrderItem (OrderItem_SKU item) (OrderItem_Qty item) (Some price)) /\
    Money_AmountMinor price = OrderItem_PriceMinor item.

Record order_for (req : CreateOrderRequest) (o : Order) : Prop := {
  for_customer : Order_CustomerID o = CreateOrder_CustomerId req;
  for_currency : Order_Currency o = CreateOrder_Currency req;
  for_status : Order_Status o = OrderStatusPending;
  for_version : Order_Version o = 0;
  for_items : Forall2 item_matches (CreateOrder_Items req) (Order_Items o);
  for_amount : Order_AmountMinor o = wrap64 (request_total (CreateOrder_Items req));
  for_valid : order_ok o;
}.

Definition creations X (c : port X) : X -> list (Order * result unit) :=
  match c in port X return X -> list (Order * result unit) with
  | OrdersCreate o => fun r => [(o, r)]
  | _ => fun _ => []
  end.

Definition repository_calls : environment port (Order * result unit) :=
  Environment _ _ (fun _ _ _ => True) creations.

Section Create.
Context (s : OrderService).

Lemma item_matches_total ritem item : item_matches ritem item ->
  item_total ritem = OrderItem_Qty item * OrderItem_PriceMinor item.
Proof. intros (price & -> & <-). done. Qed.

Lemma items_total ritems items : Forall2 item_matches ritems items ->
  items_sum items = request_total ritems.
Proof.
  induction 1 as [|r i rs l Hm _ IH]; simpl; [done|]. by rewrite IH, (item_matches_total r i).
Qed.

Lemma request_total_snoc l item : request_total (l ++ [item]) = request_total l + item_total item.
Proof. unfold request_total. induction l as [|x l IH]; simpl; [lia|]. rewrite IH. lia. Qed.

(** What the loop returns for the items not visited yet. *)
Definition create_outcome (currency : string) (seen todo : list (option ProtoOrderItem))
    (r : reply (list OrderItem * Z)) : Prop :=
  match r with
  | Resp (items, sum) =>
      forallb (item_request_ok currency) todo = true /\
      Forall2 item_matches (seen ++ todo) items /\ Forall item_ok items /\
      sum = wrap64 (request_total (seen ++ todo))
  | Fail st => forallb (item_request_ok currency) todo = false /\ status_code st = codes_InvalidArgument
  end.

(** The loop: all items are taken, or the first bad one stops it. *)
Lemma create_items_traces t currency todo : forall idx items sum seen,
  sum = wrap64 (request_total seen) -> Forall2 item_matches seen items -> Forall item_ok items ->
  traces repository_calls (create_items t currency idx todo items sum)
    (fun tr r => tr = [] /\ create_outcome currency seen todo r).
Proof.
  induction todo as [|item rest IH]; intros idx items sum seen Hsum Hm Hok; cbn [create_items].
  { apply traces_ret. simpl. by rewrite app_nil_r. }
  destruct item as [[sku qty [price|]]|]; [|by apply traces_ret..]. cbn [PItem_Price PItem_Qty PItem_Sku].
  destruct (Money_Currency price =s? currency) eqn:Ec; simpl negb; cbv iota.
  2: { apply traces_ret. split; [done|]. simpl. by rewrite Ec. }
  destruct (Z.leb_spec qty 0) as [Hq|Hq].
  { apply traces_ret. split; [done|]. simpl. rewrite Ec. by destruct (Z.gtb_spec qty 0); [lia|]. }
  destruct (Z.ltb_spec (Money_AmountMinor price) 0) as [Hp|Hp].
  { apply traces_ret. split; [done|]. simpl. rewrite Ec.
    destruct (Z.gtb_spec qty 0); [|lia]. by destruct (Z.geb_spec (Money_AmountMinor price) 0); [lia|]. }
  apply traces_call. intros id _.
  set (ritem := Some (MkProtoOrderItem sku qty (Some price))).
  eapply traces_mono; [apply (IH _ _ _ (seen ++ [ritem]))|].
  - rewrite request_total_snoc. simpl. rewrite Hsum. by autorewrite with oms.
  - apply Forall2_app; [done|]. repeat constructor. by exists price.
  - apply Forall_app. split; [done|]. repeat constructor; simpl; lia.
  - intros tr r [-> Hr]. split; [done|]. unfold create_outcome in *.
    replace ((seen ++ [ritem]) ++ rest) with (seen ++ ritem :: rest) in Hr by (by rewrite <- app_assoc).
    simpl. rewrite Ec. destruct (Z.gtb_spec qty 0); [|lia].
    destruct (Z.geb_spec (Money_AmountMinor price) 0); [|lia]. exact Hr.
Qed.

Lemma silent_status_timeline id st t : silent repository_calls (appendStatusTimeline s id st t).
Proof. unfold appendStatusTimeline. solve_silent. Qed.
#[local] Hint Resolve silent_status_timeline : oms.

(** How the outcome of [Create] reaches the client. *)
Definition create_reply (o : Order) (res : result unit) (r : reply CreateOrderResponse) : Prop :=
  match res with
  | Ok _ => r = Resp (MkCreateOrderResponse (toProtoOrder o))
  | Err e => r = Fail (if errors_Is e ErrOrderVersionConflict then Status codes_AlreadyExists (Error e)
                       else Status codes_Internal "failed to persist order")
  end.

Lemma createOrder_traces req :
  traces repository_calls (createOrderInternal s (Some req))
    (fun t r =>
       if request_ok req
       then exists o res, t = [(o, res)] /\ order_for req o /\ create_reply o res r
       else t = [] /\ exists msg, r = Fail (Status codes_InvalidArgument msg)).
Proof.
  unfold createOrderInternal, request_ok.
  destruct (CreateOrder_CustomerId req =s? "") eqn:E1; [apply traces_ret; simpl; eauto|].
  destruct (CreateOrder_Currency req =s? "") eqn:E2; [apply traces_ret; simpl; eauto|].
  destruct (length (CreateOrder_Items req) =? 0)%nat eqn:E3; [apply traces_ret; simpl; eauto|].
  cbn [negb andb]. apply traces_call. intros t _. simpl app.
  eapply traces_bind; [apply (create_items_traces _ _ _ 0 [] 0 []); [done|constructor|constructor]|].
  intros tr [[items sum]|st] [-> Hout]; unfold create_outcome in Hout.
  2: { destruct Hout as [-> Hst]. apply traces_ret. simpl. split; [done|]. destruct st as [c m].
       simpl in Hst. subst. eauto. }
  destruct Hout as (-> & Hm & Hok & Hsum). simpl app in *. cbn [andb].
  apply traces_call. intros id _. simpl app. cbv zeta.
  set (o := MkOrder _ _ _ _ _ _ _ _ _).
  assert (order_ok o <-> 0 <= sum) as Hvalid.
  { unfold order_ok, o. simpl. rewrite (items_total _ _ Hm), <- Hsum.
    apply String.eqb_neq in E1, E2. apply Nat.eqb_neq in E3.
    assert (items <> []) by (intros ->; apply Forall2_length in Hm; simpl in Hm; lia).
    naive_solver. }
  rewrite <- Hsum.
  destruct (ValidateInvariants o) as [|e errs] eqn:Hv.
  - apply ValidateInvariants_nil in Hv. destruct (Z.geb_spec sum 0); [|naive_solver lia].
    apply traces_call. intros [u|e] _; simpl app.
    + apply traces_silent; [solve_silent|]. intros ?. apply traces_ret. exists o, (Ok u). done.
    + apply traces_ret. exists o, (Err e). split_and!; done.
  - assert (~ order_ok o) as Hno by (rewrite <- ValidateInvariants_nil, Hv; done).
    destruct (Z.geb_spec sum 0); [naive_solver|]. apply traces_ret. eauto.
Qed.

(** C14. [CreateOrder], whatever the environment does: a request with a missing
    field, a bad item or a negative 64-bit total is answered InvalidArgument and
    nothing is stored; every other request leads to exactly one [Create], of a
    pending order of version 0 that satisfies the domain invariants and carries
    the customer, currency and items of the request, and the client is told
    what the repository answered. *)
Theorem create_order_exact req :
  traces repository_calls (createOrderInternal s (Some req))
    (fun t r =>
       if request_ok req
       then exists o res, t = [(o, res)] /\ order_for req o /\ create_reply o res r
       else t = [] /\ exists msg, r = Fail (Status codes_InvalidArgument msg)).
Proof. apply createOrder_traces. Qed.
End Create.

(** The total is summed on 64 bits without an overflow test: a request for
    four units at 2^62, worth 2^64, becomes a valid order of amount 0. *)
Theorem create_order_overflow s :
  exists req, request_total (CreateOrder_Items req) = 2 ^ 64 /\
    traces repository_calls (createOrderInternal s (Some req))
      (fun t _ => exists o res, t = [(o, res)] /\ order_ok o /\ Order_AmountMinor o = 0).
Proof.
  set (req := MkCreateOrderRequest "c" [Some (MkProtoOrderItem "sku" 4 (Some (MkMoney "USD" (2 ^ 62))))] "USD").
  exists req. split; [done|]. eapply traces_mono; [apply createOrder_traces|].
  intros t r. replace (request_ok req) with true by (by vm_compute).
  intros (o & res & -> & Ho & _). exists o, res. split; [done|]. split; [apply Ho|].
  by rewrite (for_amount _ _ Ho).
Qed.

(** ** Stored failures *)

(** The text of a payload up to the message, for a code of gRPC. *)
Definition payload_prefix (z : Z) : list ascii :=
  list_ascii_of_string
    ("{" +:+ quoted "code" +:+ ":" +:+ pretty z +:+ "," +:+ quoted "message" +:+ ":").

Definition message_text (msg : string) : list ascii :=
  let l := list_ascii_of_string msg in escape_string (length l) l ++ [chr 34; chr 125].

Lemma marshalPayload_list z msg :
  list_ascii_of_string (marshalPayload (MkPayload z msg)) = payload_prefix z ++ chr 34 :: message_text msg.
Proof.
  unfold marshalPayload, payload_prefix, message_text, json_string. cbn [Payload_Code Payload_Message].
  rewrite !list_ascii_app, list_ascii_of_string_of_list_ascii. simpl. by rewrite <- !app_assoc.
Qed.

Definition is_grpc_code (z : Z) : Prop := 0 <= z <= 16.

Lemma grpc_code_cases (P : Z -> Prop) :
  Forall P [0; 1; 2; 3; 4; 5; 6; 7; 8; 9; 10; 11; 12; 13; 14; 15; 16] -> forall z, is_grpc_code z -> P z.
Proof.
  intros H z Hz. unfold is_grpc_code in Hz. rewrite Forall_forall in H. apply H.
  rewrite list_elem_of_In. simpl. lia.
Qed.

(** The digits of a code read back. *)
Definition code_reads (z : Z) : Prop := exists lit, ParseInt_literal lit = Some z /\
  list_ascii_of_string (pretty z) = lit /\
  forall n d r, parse_value (S n) d (lit ++ chr 44 :: r) = Some (JsonNumber lit, chr 44 :: r).

Lemma code_reads_grpc z : is_grpc_code z -> code_reads z.
Proof.
  revert z. apply grpc_code_cases.
  repeat first [apply Forall_nil; exact I | apply Forall_cons; split];
    (eexists; split_and!; [|vm_compute; reflexivity|reflexivity]; reflexivity).
Qed.

Lemma payload_prefix_split z : payload_prefix z =
  chr 123 :: chr 34 :: list_ascii_of_string "code" ++ chr 34 :: chr 58 ::
  list_ascii_of_string (pretty z) ++ chr 44 ::
  chr 34 :: list_ascii_of_string "message" ++ [chr 34; chr 58].
Proof. unfold payload_prefix. rewrite !list_ascii_app. done. Qed.

(** The parser on such a text: the members are the code and the message. *)
Lemma parse_payload z body msg n d :
  is_grpc_code z -> unquote (length body) body = Some (msg, [chr 125]) ->
  exists lit, ParseInt_literal lit = Some z /\
    parse_value (4 + n) (S d) (payload_prefix z ++ chr 34 :: body) =
      Some (JsonObject [("code", JsonNumber lit); ("message", JsonString (string_of_list_ascii msg))], []).
Proof.
  intros Hz Hb. destruct (code_reads_grpc z Hz) as (lit & Hlit & Hp & Hread).
  exists lit. split; [done|]. rewrite payload_prefix_split, Hp.
  cbn [app list_ascii_of_string plus]. rewrite <- app_assoc. cbn [app].
  rewrite <- (string_of_list_ascii_of_string "code"), <- (string_of_list_ascii_of_string "message").
  apply parse_value_object.
  eapply parse_members_next; [reflexivity|apply Hread|].
  eapply parse_members_last; [reflexivity|]. by apply parse_value_string.
Qed.

Lemma unmarshal_marshal z msg :
  is_grpc_code z ->
  unmarshalPayload (marshalPayload (MkPayload z msg)) = Some (MkPayload z (ToValidUTF8 msg)).
Proof.
  intros Hz. unfold unmarshalPayload, json_parse. rewrite marshalPayload_list.
  set (l := payload_prefix z ++ chr 34 :: message_text msg).
  assert (exists n, 2 * length l + 1 = 4 + n)%nat as [n ->].
  { exists (2 * length l - 3)%nat. unfold l. rewrite payload_prefix_split. simpl. lia. }
  destruct (parse_payload z (message_text msg) (list_ascii_of_string (ToValidUTF8 msg)) n 9999)
    as (lit & Hlit & Hparse); [done| |].
  { unfold message_text. by apply unquote_json_string. }
  change maxNestingDepth with (S 9999). unfold l. rewrite Hparse. simpl skip_space. cbv iota.
  rewrite string_of_list_ascii_of_string. cbn [foldl].
  unfold decode_member at 2. cbn [fst snd].
  change (matches_field "code" "code") with true. cbv iota. rewrite Hlit.
  unfold is_grpc_code in Hz.
  rewrite (proj2 (Z.leb_le (-2147483648) z)), (proj2 (Z.leb_le z 2147483647)) by lia. done.
Qed.

(** The status a client gets when it repeats a failed request. *)
Definition replayed_status (st : status) : status :=
  let msg := ToValidUTF8 (status_message st) in
  Status (status_code st) (if msg =s? "" then previousFailed else msg).

(** The record [cacheIdempotencyFailure] leaves behind. *)
Definition failure_record (r : IdempotencyRecord) (st : status) : Prop :=
  Idem_Status r = IdempotencyStatusFailed /\
  Idem_ResponseBody r = marshalPayload (MkPayload (grpcCodeToInt32 (status_code st)) (status_message st)) /\
  Idem_HTTPStatus r = status_code st.

Lemma grpc_code_round_trip code : is_grpc_code code ->
  grpcCodeFromInt64 (grpcCodeToInt32 code) = (code, true) /\ is_grpc_code (grpcCodeToInt32 code).
Proof. revert code. apply grpc_code_cases. repeat constructor; simpl; done. Qed.

Lemma payload_nonempty p : marshalPayload p <> "".
Proof. done. Qed.

Lemma decode_failure r st :
  failure_record r st -> is_grpc_code (status_code st) -> status_code st <> codes_OK ->
  decodeIdempotencyFailure r = replayed_status st.
Proof.
  intros (_ & Hbody & _) Hc Hok. unfold decodeIdempotencyFailure. rewrite Hbody.
  rewrite (proj2 (String.eqb_neq _ _) (payload_nonempty _)). simpl negb. cbv iota.
  destruct (grpc_code_round_trip _ Hc) as [Hrt Hc']. rewrite unmarshal_marshal by done.
  cbn [Payload_Code Payload_Message]. unfold grpcCodeFromInt32. rewrite Hrt.
  by rewrite (proj2 (Z.eqb_neq _ _) Hok).
Qed.

(** C27. A failure stored for an idempotency key reads back: every gRPC code other
    than OK survives the way through the JSON payload, and so does the message
    when it is UTF-8 and not empty. *)
Theorem failure_round_trip r st :
  failure_record r st -> is_grpc_code (status_code st) -> status_code st <> codes_OK ->
  valid_utf8 (status_message st) = true -> status_message st <> "" ->
  decodeIdempotencyFailure r = st.
Proof.
  intros Hr Hc Hok Hv Hm. rewrite (decode_failure r st) by done. unfold replayed_status.
  rewrite (valid_utf8_id _ Hv), (proj2 (String.eqb_neq _ _) Hm). by destruct st.
Qed.
