(* ===== verification/OutboxWorker.v ===== *)
(** * Outbox worker: src/internal/service/outbox/worker.go

    The worker that publishes the pending messages of the outbox, with retries
    and a dead letter queue.  The poll loop [Run] takes the number of ticks it
    may see; everything else terminates by itself. *)

From stdpp Require Import pretty.
From S2P Require Import Prelude GoLib Json Float64 Domain Prog Ports.

Definition defaultPollInterval : Duration := 1 * Second.
Definition defaultBatchSize : Z := 100.
Definition defaultMaxAttempts : Z := 3.
Definition defaultRetryBaseDelay : Duration := 50 * Millisecond.

Record WorkerOptions := MkWorkerOptions {
  opt_hasDLQ : bool;
  opt_PollInterval : Duration;
  opt_BatchSize : Z;
  opt_MaxAttempts : Z;
  opt_RetryBaseDelay : Duration;
}.

(** The functional options. *)
Inductive Option_ : Type :=
| WithDLQPublisher (present : bool)
| WithPollInterval (interval : Duration)
| WithBatchSize (batchSize : Z)
| WithMaxAttempts (maxAttempts : Z)
| WithRetryBaseDelay (delay : Duration).

Definition apply_option (opts : WorkerOptions) (o : Option_) : WorkerOptions :=
  match opts with
  | MkWorkerOptions dlq poll batch attempts base =>
      match o with
      | WithDLQPublisher p => MkWorkerOptions p poll batch attempts base
      | WithPollInterval i => MkWorkerOptions dlq i batch attempts base
      | WithBatchSize b => MkWorkerOptions dlq poll b attempts base
      | WithMaxAttempts m => MkWorkerOptions dlq poll batch m base
      | WithRetryBaseDelay d => MkWorkerOptions dlq poll batch attempts d
      end
  end.

Record Worker := MkWorker {
  has_repo : bool;
  has_publisher : bool;
  has_dlq : bool;
  pollInterval : Duration;
  batchSize : Z;
  maxAttempts : Z;
  retryBaseDelay : Duration;
}.

Definition NewWorker (repo publisher : bool) (options : list Option_) : Worker :=
  let opts := foldl apply_option
    (MkWorkerOptions false defaultPollInterval defaultBatchSize defaultMaxAttempts defaultRetryBaseDelay)
    options in
  MkWorker repo publisher (opt_hasDLQ opts)
    (if opt_PollInterval opts <=? 0 then defaultPollInterval else opt_PollInterval opts)
    (if opt_BatchSize opts <=? 0 then defaultBatchSize else opt_BatchSize opts)
    (if opt_MaxAttempts opts <=? 0 then defaultMaxAttempts else opt_MaxAttempts opts)
    (if opt_RetryBaseDelay opts <? 0 then 0 else opt_RetryBaseDelay opts).

(** [maxDuration/2] of [retryBackoff] truncates. *)
Definition maxDuration : Duration := 2 ^ 63 - 1.

(** The loop from [i] to [attempt - 1], [n] rounds. *)
Fixpoint backoff_loop (n : nat) (delay : Duration) : Duration :=
  match n with
  | O => delay
  | S n => if delay >? Z.quot maxDuration 2 then maxDuration
           else backoff_loop n (wrap64 (delay * 2))
  end.

Definition retryBackoff (base : Duration) (attempt : Z) : Duration :=
  if base <=? 0 then 0
  else if attempt <=? 1 then base
  else backoff_loop (Z.to_nat (attempt - 1)) base.

(** ** The message for the dead letter queue *)

(** [json.RawMessage] is compacted when it is marshalled: white space outside
    strings goes, and the runes HTML does not like are escaped. *)
Fixpoint compact (fuel : nat) (in_string : bool) (l : list ascii) : list ascii :=
  match fuel, l with
  | O, _ | _, [] => []
  | S n, a :: r =>
      let code := nat_of_ascii a in
      if negb in_string && is_space a then compact n false r
      else if Nat.eqb code 60 || Nat.eqb code 62 || Nat.eqb code 38
      then escape_u00 a ++ compact n in_string r
      else match strip_prefix [chr 226; chr 128; chr 168] l, strip_prefix [chr 226; chr 128; chr 169] l with
           | Some r', _ => [backslash; chr 117; chr 50; chr 48; chr 50; chr 56] ++ compact n in_string r'
           | _, Some r' => [backslash; chr 117; chr 50; chr 48; chr 50; chr 57] ++ compact n in_string r'
           | None, None =>
               if in_string && Ascii.eqb a backslash then
                 match r with
                 | e :: r' => a :: e :: compact n true r'
                 | [] => [a]
                 end
               else a :: compact n (if Ascii.eqb a (chr 34) then negb in_string else in_string) r
           end
  end.

(** [None] when the payload is not JSON.  A missing payload is [null]. *)
Definition raw_message (payload : bytes) : option string :=
  if payload =s? "" then Some "null"
  else match json_parse payload with
       | None => None
       | Some _ => let l := list_ascii_of_string payload in
                   Some (string_of_list_ascii (compact (length l) false l))
       end.

(** The keys in the order [json.Marshal] writes them. *)
Definition dlq_payload (event : OutboxMessage) (publishErr : err) (t : Time) : option bytes :=
  match raw_message (OutboxMessage_Payload event) with
  | None => None
  | Some raw =>
      let member k v := json_string k +:+ ":" +:+ v in
      Some ("{" +:+ join_comma
        [member "aggregate_id" (json_string (OutboxMessage_AggregateID event));
         member "aggregate_type" (json_string (OutboxMessage_AggregateType event));
         member "dlq_published_at" (json_string (FormatRFC3339Nano t));
         member "event_type" (json_string (OutboxMessage_EventType event));
         member "outbox_id" (json_string (OutboxMessage_ID event));
         member "payload" raw;
         member "publish_error" (json_string (Error publishErr))] +:+ "}")
  end.

Section Worker.
Context (w : Worker).

(** The attempts from [attempt] on; [remaining] of them are left. *)
Fixpoint publish_attempts (remaining : nat) (attempt : Z) (lastErr : err) (event : OutboxMessage)
  : M (option err) :=
  match remaining with
  | O => mret (Some (ErrWrap ("publish failed after " +:+ pretty (maxAttempts w) +:+ " attempts") lastErr))
  | S remaining =>
      published ← call (PublisherPublish MainPublisher event);
      match published with
      | None => call (WorkerMetric (OutboxPublishAttempts "sent"));; mret None
      | Some e =>
          call (WorkerMetric (OutboxPublishAttempts "retry_error"));;
          if attempt >=? maxAttempts w
          then mret (Some (ErrWrap ("publish failed after " +:+ pretty (maxAttempts w) +:+ " attempts") e))
          else
            let delay := retryBackoff (retryBaseDelay w) attempt in
            if delay <=? 0 then publish_attempts remaining (attempt + 1) e event
            else
              done ← call (SleepOrDone delay);
              match done with
              | Some ctxErr => mret (Some ctxErr)
              | None => publish_attempts remaining (attempt + 1) e event
              end
      end
  end.

(** [lastErr] starts as nil; with at least one attempt it is never returned. *)
Definition publishWithRetry (event : OutboxMessage) : M (option err) :=
  publish_attempts (Z.to_nat (maxAttempts w)) 1 (ErrOther "%!w(<nil>)") event.

Definition refreshBacklogMetrics : M unit :=
  stats ← call OutboxReadStats;
  match stats with
  | Err _ => mret tt
  | Ok stats =>
      call (WorkerMetric (OutboxPendingRecords (float64_of_int (OutboxStats_PendingCount stats))));;
      if (OutboxStats_PendingCount stats =? 0) || IsZero (OutboxStats_OldestPendingAt stats)
      then call (WorkerMetric (OutboxOldestPendingAge (float64_of_int 0)))
      else
        t ← now;
        let age := Seconds (time_Sub t (OutboxStats_OldestPendingAt stats)) in
        let zero := float64_of_int 0 in
        call (WorkerMetric (OutboxOldestPendingAge (if SFltb age zero then zero else age)))
  end.

Definition publishToDLQ (event : OutboxMessage) (publishErr : err) : M (option err) :=
  if negb (has_dlq w) then mret None
  else
    t ← now;
    match dlq_payload event publishErr t with
    | None => mret (Some (ErrWrap "marshal dlq payload" (ErrOther "invalid payload")))
    | Some payload =>
        let dlqEvent := MkOutboxMessage (OutboxMessage_ID event) (OutboxMessage_AggregateType event)
                          (OutboxMessage_AggregateID event) (OutboxMessage_EventType event) payload in
        published ← call (PublisherPublish DLQPublisher dlqEvent);
        mret (match published with
              | Some e => Some (ErrWrap "publish to dlq" e)
              | None => None
              end)
    end.

(** One event of the loop of [ProcessOnce]. *)
Definition process_event (event : OutboxMessage) : M unit :=
  published ← publishWithRetry event;
  match published with
  | Some e =>
      call (WorkerMetric (OutboxPublishAttempts "failed"));;
      dlq ← publishToDLQ event e;
      (match dlq with
       | Some _ => call (WorkerMetric (OutboxPublishAttempts "dlq_failed"))
       | None => mret tt
       end);;
      call (OutboxMarkFailed (OutboxMessage_ID event));; mret tt
  | None => call (OutboxMarkSent (OutboxMessage_ID event));; mret tt
  end.

(** The loop; [true] when it was left because the context is done. *)
Fixpoint process_events (events : list OutboxMessage) : M bool :=
  match events with
  | [] => mret false
  | event :: rest =>
      done ← call CtxErr;
      match done with
      | Some _ => mret true
      | None => process_event event;; process_events rest
      end
  end.

Definition ProcessOnce : M unit :=
  done ← call CtxErr;
  match done with
  | Some _ => mret tt
  | None =>
      refreshBacklogMetrics;;
      events ← call (OutboxPullPending (batchSize w));
      match events with
      | Err _ => mret tt
      | Ok [] => mret tt
      | Ok events =>
          stopped ← process_events events;
          if (stopped : bool) then mret tt else refreshBacklogMetrics
      end
  end.

Fixpoint run_ticks (ticks : nat) : M unit :=
  match ticks with
  | O => mret tt
  | S n =>
      done ← call TickOrDone;
      if (done : bool) then mret tt else ProcessOnce;; run_ticks n
  end.

Definition Run (ticks : nat) : M unit :=
  if negb (has_repo w) || negb (has_publisher w) then mret tt
  else ProcessOnce;; run_ticks ticks.
End Worker.

(** ** Backoff *)

Lemma backoff_loop_min n : forall delay, 0 < delay <= maxDuration ->
  backoff_loop n delay = Z.min maxDuration (delay * 2 ^ Z.of_nat n).
Proof.
  induction n as [|n IH]; intros delay Hd; [simpl; lia|].
  cbn [backoff_loop]. rewrite Nat2Z.inj_succ, Z.pow_succ_r by lia.
  assert (0 < 2 ^ Z.of_nat n) by lia.
  change (Z.quot maxDuration 2) with (2 ^ 62 - 1). unfold maxDuration in *.
  destruct (Z.gtb_spec delay (2 ^ 62 - 1)); [nia|].
  rewrite wrap64_id by (unfold_widths; lia). rewrite IH by lia. f_equal. lia.
Qed.

(** The delay before attempt [attempt + 1] is the base delay doubled
    [attempt - 1] times, capped at the largest duration: the loop never
    overflows. *)
Theorem retryBackoff_exponential base attempt :
  0 < base <= maxDuration -> 1 <= attempt ->
  retryBackoff base attempt = Z.min maxDuration (base * 2 ^ (attempt - 1)).
Proof.
  intros Hb Ha. unfold retryBackoff.
  rewrite (proj2 (Z.leb_gt _ _)) by lia.
  destruct (Z.leb_spec attempt 1).
  - replace attempt with 1 by lia. simpl. lia.
  - rewrite backoff_loop_min by done. rewrite Z2Nat.id by lia. done.
Qed.

(** A worker always has at least one attempt and a batch to pull. *)
Lemma NewWorker_ok repo publisher options :
  let w := NewWorker repo publisher options in
  0 < maxAttempts w /\ 0 < batchSize w /\ 0 < pollInterval w /\ 0 <= retryBaseDelay w.
Proof.
  unfold NewWorker. simpl.
  repeat match goal with |- context [if ?a <=? 0 then _ else _] => destruct (Z.leb_spec a 0) end;
  repeat match goal with |- context [if ?a <? 0 then _ else _] => destruct (Z.ltb_spec a 0) end;
  unfold defaultMaxAttempts, defaultBatchSize, defaultPollInterval, Second, Millisecond in *; lia.
Qed.

(** ** What a poll does, on every run *)

Inductive weffect : Type :=
| Pulled (limit : Z) (r : result (list OutboxMessage))
| Published (event : OutboxMessage) (r : option err)
| Waited (d : Duration) (r : option err)       (* an error: the context ended the wait *)
| DeadLettered (event : OutboxMessage) (r : option err)
| MarkedSent (id : string)
| MarkedFailed (id : string)
| Stopped.                                     (* the context was done before an event *)

Definition worker_effects X (c : port X) : X -> list weffect :=
  match c in port X return X -> list weffect with
  | CtxErr => fun r => match r with None => [] | Some _ => [Stopped] end
  | SleepOrDone d => fun r => [Waited d r]
  | OutboxPullPending limit => fun r => [Pulled limit r]
  | OutboxMarkSent id => fun _ => [MarkedSent id]
  | OutboxMarkFailed id => fun _ => [MarkedFailed id]
  | PublisherPublish MainPublisher e => fun r => [Published e r]
  | PublisherPublish DLQPublisher e => fun r => [DeadLettered e r]
  | _ => fun _ => []
  end.

Definition broker : environment port weffect := Environment _ _ (fun _ _ _ => True) worker_effects.

(** The wait after the failed attempt number [attempt]. *)
Definition waited (w : Worker) (attempt : nat) : list weffect :=
  let d := retryBackoff (retryBaseDelay w) (Z.of_nat attempt) in if d <=? 0 then [] else [Waited d None].

(** Failed attempts, from number [attempt] on, each with the whole wait for the
    next one. *)
Fixpoint retried (w : Worker) (event : OutboxMessage) (attempt : nat) (es : list err) : list weffect :=
  match es with
  | [] => []
  | e :: es => Published event (Some e) :: waited w attempt ++ retried w event (S attempt) es
  end.

(** The message on the dead letter queue, with the error, when there is a queue
    and the message can be encoded. *)
Definition dead_letter (w : Worker) (event : OutboxMessage) (e : err) (l : list weffect) : Prop :=
  if has_dlq w
  then exists t, match dlq_payload event e t with
       | None => l = []
       | Some payload => exists r, l =
           [DeadLettered (MkOutboxMessage (OutboxMessage_ID event) (OutboxMessage_AggregateType event)
                            (OutboxMessage_AggregateID event) (OutboxMessage_EventType event) payload) r]
       end
  else l = [].

Definition attempts_error (w : Worker) (e : err) : err :=
  ErrWrap ("publish failed after " +:+ pretty (maxAttempts w) +:+ " attempts") e.

(** The effects of one event: failed attempts, then a success and [MarkSent],
    or a last failure or an interrupted wait, the dead letter queue and
    [MarkFailed]. *)
Inductive event_effects (w : Worker) (event : OutboxMessage) : list weffect -> Prop :=
| event_sent es : Z.of_nat (length es) < maxAttempts w ->
    event_effects w event
      (retried w event 1 es ++ [Published event None; MarkedSent (OutboxMessage_ID event)])
| event_failed es e dlq : Z.of_nat (S (length es)) = maxAttempts w ->
    dead_letter w event (attempts_error w e) dlq ->
    event_effects w event
      (retried w event 1 es ++ [Published event (Some e)] ++ dlq ++ [MarkedFailed (OutboxMessage_ID event)])
| event_interrupted es e d ctxErr dlq : Z.of_nat (S (length es)) < maxAttempts w ->
    d = retryBackoff (retryBaseDelay w) (Z.of_nat (S (length es))) -> 0 < d -> dead_letter w event ctxErr dlq ->
    event_effects w event
      (retried w event 1 es ++ [Published event (Some e); Waited d (Some ctxErr)] ++ dlq ++
       [MarkedFailed (OutboxMessage_ID event)]).

Inductive batch_effects (w : Worker) : list OutboxMessage -> list weffect -> Prop :=
| batch_end : batch_effects w [] []
| batch_stopped event rest : batch_effects w (event :: rest) [Stopped]
| batch_next event rest l l' : event_effects w event l -> batch_effects w rest l' ->
    batch_effects w (event :: rest) (l ++ l').

(** The effects of a poll. *)
Inductive poll_effects (w : Worker) : list weffect -> Prop :=
| poll_stopped : poll_effects w [Stopped]
| poll_failed e : poll_effects w [Pulled (batchSize w) (Err e)]
| poll_batch events l : batch_effects w events l -> poll_effects w (Pulled (batchSize w) (Ok events) :: l).

Section Effects.
Context (w : Worker).
Hypothesis attempts_pos : 0 < maxAttempts w.

(** What [publish_attempts] observed when it returns, from attempt number
    [attempt] on. *)
Definition publish_outcome (event : OutboxMessage) (attempt : nat) (t : list weffect) (r : option err) : Prop :=
  (r = None /\ exists es, t = retried w event attempt es ++ [Published event None] /\
     Z.of_nat (attempt + length es) <= maxAttempts w) \/
  (exists es e, r = Some (attempts_error w e) /\ t = retried w event attempt es ++ [Published event (Some e)] /\
     Z.of_nat (attempt + length es) = maxAttempts w) \/
  (exists es e d ctxErr, r = Some ctxErr /\
     t = retried w event attempt es ++ [Published event (Some e); Waited d (Some ctxErr)] /\
     Z.of_nat (attempt + length es) < maxAttempts w /\
     d = retryBackoff (retryBaseDelay w) (Z.of_nat (attempt + length es)) /\ 0 < d).

Lemma publish_outcome_retry event attempt e t r :
  publish_outcome event (S attempt) t r ->
  publish_outcome event attempt (Published event (Some e) :: waited w attempt ++ t) r.
Proof.
  assert (forall es : list err, (attempt + length (e :: es) = S attempt + length es)%nat) as Hlen
    by (intros es; simpl; lia).
  intros [(-> & es & -> & ?)|[(es & e' & -> & -> & ?)|(es & e' & d & ce & -> & -> & ? & ? & ?)]].
  - left. split; [done|]. exists (e :: es). rewrite Hlen. split; [|done]. simpl. by rewrite <- app_assoc.
  - right; left. exists (e :: es), e'. rewrite Hlen. split_and!; [done| |done]. simpl. by rewrite <- app_assoc.
  - right; right. exists (e :: es), e', d, ce. rewrite Hlen. split_and!; [done| |done..]. simpl. by rewrite <- app_assoc.
Qed.

Lemma publish_attempts_traces remaining : forall attempt lastErr event,
  (0 < remaining)%nat -> Z.of_nat (attempt + remaining) = maxAttempts w + 1 ->
  traces broker (publish_attempts w remaining (Z.of_nat attempt) lastErr event) (publish_outcome event attempt).
Proof.
  induction remaining as [|n IH]; intros attempt lastErr event Hpos Hsum; [lia|].
  cbn [publish_attempts]. apply traces_call. intros [e|] _; simpl.
  2: { apply traces_vis. intros ? _. apply traces_ret. left. split; [done|]. exists []. split; [done|]. simpl. lia. }
  apply traces_vis. intros ? _. simpl. destruct (Z.geb_spec (Z.of_nat attempt) (maxAttempts w)).
  { apply traces_ret. right; left. exists [], e. split_and!; [done|done|simpl; lia]. }
  assert (traces broker (publish_attempts w n (Z.of_nat attempt + 1) e event)
            (fun t r => publish_outcome event attempt (Published event (Some e) :: waited w attempt ++ t) r)) as Hnext.
  { replace (Z.of_nat attempt + 1) with (Z.of_nat (S attempt)) by lia.
    eapply traces_mono; [apply IH; lia|]. intros t r. apply publish_outcome_retry. }
  unfold waited in Hnext. destruct (Z.leb_spec (retryBackoff (retryBaseDelay w) (Z.of_nat attempt)) 0); [exact Hnext|].
  apply traces_vis. intros [ctxErr|] _; [|exact Hnext].
  apply traces_ret. right; right. exists [], e, (retryBackoff (retryBaseDelay w) (Z.of_nat attempt)), ctxErr.
  simpl. rewrite Nat.add_0_r. split_and!; [done|done|lia|done|done].
Qed.

Lemma publishToDLQ_traces event e : traces broker (publishToDLQ w event e) (fun t _ => dead_letter w event e t).
Proof.
  unfold publishToDLQ, dead_letter. destruct (has_dlq w); simpl; [|by apply traces_ret].
  apply traces_vis. intros t _. simpl. destruct (dlq_payload event e t) as [payload|] eqn:E.
  - apply traces_vis. intros r _. apply traces_ret. exists t. rewrite E. by exists r.
  - apply traces_ret. exists t. by rewrite E.
Qed.

(** After a failed publish. *)
Lemma dead_letter_traces event e (Q : list weffect -> Prop) :
  (forall dlq, dead_letter w event e dlq -> Q (dlq ++ [MarkedFailed (OutboxMessage_ID event)])) ->
  traces broker
    (call (WorkerMetric (OutboxPublishAttempts "failed"));;
     dlq ← publishToDLQ w event e;
     (match dlq with
      | Some _ => call (WorkerMetric (OutboxPublishAttempts "dlq_failed"))
      | None => mret tt
      end);;
     call (OutboxMarkFailed (OutboxMessage_ID event));; mret tt) (fun t _ => Q t).
Proof.
  intros HQ. apply traces_vis. intros ? _. simpl.
  eapply traces_bind; [apply publishToDLQ_traces|]. intros t r Ht. apply HQ in Ht. destruct r as [e'|].
  - apply traces_vis. intros ? _. apply traces_vis. intros ? _. apply traces_ret. exact Ht.
  - apply traces_silent; [solve_silent|]. intros _. apply traces_vis. intros ? _. apply traces_ret. exact Ht.
Qed.

Lemma process_event_traces event :
  traces broker (process_event w event) (fun t _ => event_effects w event t).
Proof.
  unfold process_event, publishWithRetry.
  eapply traces_bind; [apply (publish_attempts_traces _ 1); lia|].
  intros t r [(-> & es & -> & Hk)|[(es & e & -> & -> & Hk)|(es & e & d & ce & -> & -> & Hk & Hd & Hp)]].
  - apply traces_vis. intros ? _. apply traces_ret. simpl. rewrite <- app_assoc. apply event_sent. lia.
  - apply dead_letter_traces. intros dlq Hq. rewrite <- app_assoc. apply event_failed; [lia|done].
  - apply dead_letter_traces. intros dlq Hq. rewrite <- app_assoc. by apply event_interrupted.
Qed.

Lemma process_events_traces events :
  traces broker (process_events w events) (fun t _ => batch_effects w events t).
Proof.
  induction events as [|event rest IH]; simpl; [apply traces_ret; constructor|].
  apply traces_vis. intros [e|] _; simpl; [apply traces_ret; constructor|].
  eapply traces_bind; [apply process_event_traces|]. intros t ? Ht.
  eapply traces_mono; [exact IH|]. intros t' r Ht'. by apply batch_next.
Qed.

Lemma silent_refresh : silent broker refreshBacklogMetrics.
Proof. unfold refreshBacklogMetrics. solve_silent. Qed.
#[local] Hint Resolve silent_refresh : oms.

Lemma ProcessOnce_traces : traces broker (ProcessOnce w) (fun t _ => poll_effects w t).
Proof.
  unfold ProcessOnce. apply traces_call. intros [e|] _.
  { apply traces_ret. constructor. }
  apply traces_silent; [solve_silent|]. intros _.
  apply traces_call. intros [[|event rest]|e] _.
  - apply traces_ret. apply poll_batch. constructor.
  - eapply traces_bind; [apply process_events_traces|]. intros t stopped Ht.
    apply traces_of_silent; [solve_silent|]. intros _. rewrite app_nil_r. by apply poll_batch.
  - apply traces_ret. constructor.
Qed.
End Effects.

