(* ===== verification/CleanupWorker.v ===== *)
(** * Idempotency cleanup worker: src/internal/service/idempotency/cleanup_worker.go

    The worker that deletes expired idempotency records in batches.  The loop of
    [DeleteExpired] goes on while batches are full, so its model takes fuel;
    [cleanup_complete] (in Workers.v) shows how much is enough. *)

From S2P Require Import Prelude GoLib Domain Prog Ports.

Definition defaultCleanupInterval : Duration := 10 * Minute.
Definition defaultCleanupBatchSize : Z := 500.

Inductive CleanupOption : Type :=
| WithCleanupInterval (interval : Duration)
| WithCleanupBatchSize (batchSize : Z).

Record CleanupOptions := MkCleanupOptions { copt_Interval : Duration; copt_BatchSize : Z }.

Definition apply_cleanup_option (opts : CleanupOptions) (o : CleanupOption) : CleanupOptions :=
  match o with
  | WithCleanupInterval i => MkCleanupOptions i (copt_BatchSize opts)
  | WithCleanupBatchSize b => MkCleanupOptions (copt_Interval opts) b
  end.

Record CleanupWorker := MkCleanupWorker {
  cleanup_has_repo : bool;
  cleanup_interval : Duration;
  cleanup_batchSize : Z;
}.

Definition NewCleanupWorker (repo : bool) (options : list CleanupOption) : CleanupWorker :=
  let opts := foldl apply_cleanup_option
                (MkCleanupOptions defaultCleanupInterval defaultCleanupBatchSize) options in
  MkCleanupWorker repo
    (if copt_Interval opts <=? 0 then defaultCleanupInterval else copt_Interval opts)
    (if copt_BatchSize opts <=? 0 then defaultCleanupBatchSize else copt_BatchSize opts).

Lemma NewCleanupWorker_ok repo options :
  0 < cleanup_batchSize (NewCleanupWorker repo options) /\
  0 < cleanup_interval (NewCleanupWorker repo options).
Proof.
  unfold NewCleanupWorker. simpl.
  repeat match goal with |- context [if ?a <=? 0 then _ else _] => destruct (Z.leb_spec a 0) end;
  unfold defaultCleanupInterval, defaultCleanupBatchSize, Minute, Second, Millisecond in *; lia.
Qed.

Definition context_Canceled : err := ErrOther "context canceled".

Section Worker.
Context (w : CleanupWorker).

(** The loop: the number of deleted records with an error or none; [None] when
    the fuel runs out. *)
Fixpoint delete_batches (fuel : nat) (before : Time) (totalDeleted : Z) : M (option (Z * option err)) :=
  match fuel with
  | O => mret None
  | S n =>
      done ← call CtxErr;
      match done with
      | Some e => mret (Some (totalDeleted, Some e))
      | None =>
          deleted ← call (IdemDeleteExpired before (cleanup_batchSize w));
          match deleted with
          | Err e => mret (Some (totalDeleted, Some e))
          | Ok deleted =>
              let totalDeleted := wrap64 (totalDeleted + deleted) in
              when (deleted >? 0) (call (WorkerMetric (CleanupDeletedTotal deleted)));;
              if deleted <? cleanup_batchSize w then mret (Some (totalDeleted, None))
              else delete_batches n before totalDeleted
          end
      end
  end.

Definition CleanupDeleteExpired (fuel : nat) (before : Time) : M (option (Z * option err)) :=
  before ← (if IsZero before then now else mret before);
  delete_batches fuel before 0.

Definition cleanup (fuel : nat) (before : Time) : M unit :=
  r ← CleanupDeleteExpired fuel before;
  match r with
  | None => mret tt
  | Some (_, Some e) =>
      if errors_Is e context_Canceled then mret tt else call (WorkerMetric (CleanupRunsTotal "error"))
  | Some (deleted, None) =>
      call (WorkerMetric (CleanupRunsTotal "ok"));;
      call (WorkerMetric (CleanupLastDeleted deleted))
  end.

Fixpoint cleanup_ticks (ticks fuel : nat) : M unit :=
  match ticks with
  | O => mret tt
  | S n =>
      done ← call TickOrDone;
      if (done : bool) then mret tt
      else t ← now; cleanup fuel t;; cleanup_ticks n fuel
  end.

Definition CleanupRun (ticks fuel : nat) : M unit :=
  if negb (cleanup_has_repo w) then mret tt
  else t ← now; cleanup fuel t;; cleanup_ticks ticks fuel.
End Worker.
