(* ===== verification/Concurrency.v ===== *)
(** * Goroutines: programs interleaved command by command

    A pool of threads shares a state.  A schedule is the list of the indices of
    the threads that move; a move runs one command, and a command may start new
    threads.  [exec_invariant] is the proof rule: when every thread is correct
    under a specification that survives the moves of the others, a global
    invariant holds after every schedule. *)

From S2P Require Import Prelude Prog.

Section Pool.
Context {C : Type -> Type} {W : Type}.
Context (h : handler C W) (forks : forall X, C X -> X -> list (prog C unit)).

Abbreviation thread := (prog C unit).

Definition step (i : nat) (s : list thread * W) : list thread * W :=
  match s.1 !! i with
  | Some (Vis c k) =>
      let '(x, w) := h _ c s.2 in
      (<[i := k x]> s.1 ++ forks _ c x, w)
  | _ => s
  end.

Definition exec (schedule : list nat) (s : list thread * W) : list thread * W :=
  foldl (fun s i => step i s) s schedule.

Lemma exec_app l1 l2 s : exec (l1 ++ l2) s = exec l2 (exec l1 s).
Proof. apply foldl_app. Qed.

(** A thread that has returned. *)
Definition finished (p : thread) : bool := match p with Ret _ => true | Vis _ _ => false end.

Section Rely.
Context {G : Type} (le : relation G) {pre : PreOrder le} (spec : cmd_spec C G).
Context {mono : MonotoneSpec spec}.
Context (I : nat -> W -> G -> Prop) (bound : nat).

(** A command that was fine stays fine when other threads have moved. *)
Hypothesis spec_stable : forall X (c : C X) g g' Q, le g g' -> spec X c g Q -> spec X c g' Q.

Hypothesis sound : forall n X (c : C X) w g Q, (n < bound)%nat -> I n w g -> spec X c g Q ->
  exists g', le g g' /\ I (S n) (h X c w).2 g' /\ Q (h X c w).1 g'.

Hypothesis idle : forall n w g, I n w g -> I (S n) w g.

Definition thread_ok (g : G) (p : thread) : Prop := wp spec p g (fun _ _ => True).

Hypothesis forks_ok : forall X (c : C X) x g, Forall (thread_ok g) (forks X c x).

Lemma thread_ok_stable g g' p : le g g' -> thread_ok g p -> thread_ok g' p.
Proof. unfold thread_ok. destruct p as [r|X c k]; simpl; [done|]. by apply spec_stable. Qed.

Lemma step_invariant i n pool w g :
  (n < bound)%nat -> I n w g -> Forall (thread_ok g) pool ->
  exists g', le g g' /\ I (S n) (step i (pool, w)).2 g' /\ Forall (thread_ok g') (step i (pool, w)).1.
Proof.
  intros Hn HI Hpool. unfold step. simpl. destruct (pool !! i) as [p|] eqn:Hi.
  2: { exists g. split; [reflexivity|]. eauto. }
  pose proof (proj1 (Forall_lookup _ _) Hpool i p Hi) as Hp.
  destruct p as [r|X c k]; simpl; [exists g; split; [reflexivity|]; eauto|].
  destruct (sound n X c w g _ Hn HI Hp) as (g' & Hle & HI' & Hk).
  destruct (h X c w) as [x w'] eqn:E. simpl in *. exists g'. split_and!; [done..|].
  apply Forall_app. split; [|apply forks_ok]. apply Forall_insert; [|done].
  eapply Forall_impl; [exact Hpool|]. intros q. by apply thread_ok_stable.
Qed.

Lemma exec_invariant schedule : forall n pool w g,
  (n + length schedule <= bound)%nat -> I n w g -> Forall (thread_ok g) pool ->
  exists g', le g g' /\ I (n + length schedule)%nat (exec schedule (pool, w)).2 g' /\
             Forall (thread_ok g') (exec schedule (pool, w)).1.
Proof.
  induction schedule as [|i l IH]; intros n pool w g Hb HI Hpool; simpl in *.
  { exists g. rewrite Nat.add_0_r. split; [reflexivity|done]. }
  destruct (step_invariant i n pool w g) as (g1 & Hle1 & HI1 & Hp1); [lia|done..|].
  destruct (step i (pool, w)) as [pool1 w1]. simpl in *.
  destruct (IH (S n) pool1 w1 g1) as (g2 & Hle2 & HI2 & Hp2); [lia|done..|].
  exists g2. split; [by trans g1|]. by rewrite <- plus_n_Sm.
Qed.
End Rely.

(** ** Invariants of the commands

    An invariant every allowed command keeps holds after every schedule of
    threads that use allowed commands only. *)
Section Frame.
Context (allow : forall X, C X -> bool) (I : W -> Prop).
Hypothesis kept : forall X (c : C X) w, allow X c = true -> I w -> I (h X c w).2.
Hypothesis forks_only : forall X (c : C X) x, Forall (only allow) (forks X c x).

Lemma exec_kept schedule : forall pool w,
  Forall (only allow) pool -> I w -> I (exec schedule (pool, w)).2.
Proof.
  induction schedule as [|i l IH]; intros pool w Hp HI; simpl; [done|]. unfold step. simpl.
  destruct (pool !! i) as [p|] eqn:Hi; [|by apply IH].
  pose proof (proj1 (Forall_lookup _ _) Hp i p Hi) as Hpi. destruct p as [r|X c k]; [by apply IH|].
  destruct Hpi as [Hc Hk]. pose proof (kept X c w Hc HI) as HI'.
  destruct (h X c w) as [x w']. simpl in *. apply IH; [|done].
  apply Forall_app. split; [by apply Forall_insert|apply forks_only].
Qed.
End Frame.

(** ** Tokens

    The state counts what the threads owe.  Each thread is in a role, which
    says how much it owes; [duty] says how a command changes the role. *)
Section Tokens.
Context {T : Type} (weight : T -> Z) (duty : cmd_spec C T).
Context (forked : T -> bool) (count : W -> Z).

Definition owed (roles : list T) : Z := foldr (fun r acc => weight r + acc) 0 roles.

(** A thread in its role ends owing nothing. *)
Definition settles (r : T) (p : thread) : Prop := wp duty p r (fun _ r' => weight r' = 0).

Hypothesis duty_sound : forall X (c : C X) w r Q, duty X c r Q ->
  exists r' new, Q (h X c w).1 r' /\ forked r' = forked r /\
    Forall2 settles new (forks X c (h X c w).1) /\ Forall (fun r => forked r = true) new /\
    count (h X c w).2 - count w = weight r' - weight r + owed new.

Lemma owed_insert i r r' (rs : list T) : rs !! i = Some r ->
  owed (<[i := r']> rs) = owed rs + (weight r' - weight r).
Proof.
  revert i. unfold owed. induction rs as [|a rs IH]; intros [|i] Hi; simplify_eq/=; [lia|].
  rewrite (IH i) by done. lia.
Qed.

Lemma owed_app l1 l2 : owed (l1 ++ l2) = owed l1 + owed l2.
Proof. unfold owed. induction l1; simpl; lia. Qed.

(** The threads after the first [n0] were started by other threads. *)
Definition accounted (n0 : nat) (rs : list T) (s : list thread * W) : Prop :=
  Forall2 settles rs s.1 /\ count s.2 = owed rs /\ (n0 <= length rs)%nat /\
  forall i r, (n0 <= i)%nat -> rs !! i = Some r -> forked r = true.

Lemma step_tokens n0 i pool w rs :
  accounted n0 rs (pool, w) -> exists rs', accounted n0 rs' (step i (pool, w)).
Proof.
  intros (Hrs & Hc & Hn & Hf). unfold step. simpl in *.
  destruct (pool !! i) as [p|] eqn:Hi; [|by exists rs].
  destruct (Forall2_lookup_r _ _ _ _ _ Hrs Hi) as (r & Hri & Hr).
  destruct p as [u|X c k]; [by exists rs|]. simpl in Hr.
  destruct (duty_sound X c w r _ Hr) as (r' & new & Hk & Hkin & Hnew & Hborn & Hcount).
  destruct (h X c w) as [x w']. simpl in *.
  exists (<[i := r']> rs ++ new). split_and!; simpl.
  - apply Forall2_app; [|done]. by apply Forall2_insert.
  - rewrite owed_app, (owed_insert _ r) by done. lia.
  - rewrite length_app, length_insert. lia.
  - intros j q Hj. rewrite lookup_app_Some. intros [Hq|[_ Hq]].
    + destruct (decide (i = j)) as [->|Hne].
      * rewrite list_lookup_insert_eq in Hq by (by eapply lookup_lt_Some).
        simplify_eq. rewrite Hkin. by eapply Hf.
      * rewrite list_lookup_insert_ne in Hq by done. by eapply Hf.
    + by apply (proj1 (Forall_lookup _ _) Hborn _ _ Hq).
Qed.

Lemma exec_tokens n0 schedule : forall pool w rs,
  accounted n0 rs (pool, w) -> exists rs', accounted n0 rs' (exec schedule (pool, w)).
Proof.
  induction schedule as [|i l IH]; intros pool w rs Hrs; simpl; [by exists rs|].
  destruct (step_tokens n0 i pool w rs Hrs) as (rs1 & Hrs1).
  destruct (step i (pool, w)) as [pool1 w1]. by eapply IH.
Qed.
End Tokens.
End Pool.
