(* ===== verification/World.v ===== *)
(** * The assembled service

    The state behind the ports: an order repository, the in-memory outbox,
    timeline and idempotency repositories (src/internal/storage/memory), and the
    saga bookkeeping of [OrderService].  What is outside the program (clock,
    identifiers, inventory, payment, Kafka, contexts) answers by the record
    [Externals]; every answer may depend on how many commands were run before,
    so any behaviour of the outside is an instance.  With a pool of goroutines
    this is the concurrent system: clients' requests, the sagas they start, and
    the background workers. *)

From S2P Require Import Prelude GoLib Domain OrderStore TimelineStore OutboxStore IdempotencyStore Prog Ports Saga SagaTraces Concurrency.

Record Externals := MkExternals {
  ext_clock : nat -> Time;
  ext_uuid : nat -> string;
  ext_reserve : nat -> string -> list OrderItem -> option err;
  ext_release : nat -> string -> list OrderItem -> option err;
  ext_pay : nat -> string -> Z -> string -> PaymentStatus * option err;
  ext_refund : nat -> string -> Z -> string -> PaymentStatus * option err;
  ext_publish : nat -> publisher -> OutboxMessage -> option err;
  ext_kafka : nat -> string -> string -> SagaEvent -> option err;
  ext_ctx : nat -> option err;
}.

Record World (S : Type) := MkWorld {
  w_tick : nat;                     (* commands run so far *)
  w_orders : S;
  w_outbox : MemoryOutbox.records;
  w_timeline : MemoryTimeline.events;
  w_idem : MemoryIdempotency.items;
  w_sagaClosed : bool;
  w_sagaWG : Z;
  w_effects : list effect;          (* calls to inventory and payment, saves and loads *)
  w_kafka : list SagaEvent;
  w_active : Z;                     (* the gauge of active sagas *)
}.
Arguments MkWorld {S}.
Arguments w_tick {S} _.
Arguments w_orders {S} _.
Arguments w_outbox {S} _.
Arguments w_timeline {S} _.
Arguments w_idem {S} _.
Arguments w_sagaClosed {S} _.
Arguments w_sagaWG {S} _.
Arguments w_effects {S} _.
Arguments w_kafka {S} _.
Arguments w_active {S} _.

Section System.
Context {S : Type} {R : OrderRepository S} {rt : GoRuntime} (ext : Externals).

Definition with_orders (s : S) (w : World S) : World S :=
  MkWorld (w_tick w) s (w_outbox w) (w_timeline w) (w_idem w) (w_sagaClosed w) (w_sagaWG w)
    (w_effects w) (w_kafka w) (w_active w).
Definition with_outbox (b : MemoryOutbox.records) (w : World S) : World S :=
  MkWorld (w_tick w) (w_orders w) b (w_timeline w) (w_idem w) (w_sagaClosed w) (w_sagaWG w)
    (w_effects w) (w_kafka w) (w_active w).
Definition with_timeline (t : MemoryTimeline.events) (w : World S) : World S :=
  MkWorld (w_tick w) (w_orders w) (w_outbox w) t (w_idem w) (w_sagaClosed w) (w_sagaWG w)
    (w_effects w) (w_kafka w) (w_active w).
Definition with_idem (i : MemoryIdempotency.items) (w : World S) : World S :=
  MkWorld (w_tick w) (w_orders w) (w_outbox w) (w_timeline w) i (w_sagaClosed w) (w_sagaWG w)
    (w_effects w) (w_kafka w) (w_active w).
Definition with_saga (closed : bool) (wg : Z) (w : World S) : World S :=
  MkWorld (w_tick w) (w_orders w) (w_outbox w) (w_timeline w) (w_idem w) closed wg
    (w_effects w) (w_kafka w) (w_active w).
Definition with_kafka (e : SagaEvent) (w : World S) : World S :=
  MkWorld (w_tick w) (w_orders w) (w_outbox w) (w_timeline w) (w_idem w) (w_sagaClosed w) (w_sagaWG w)
    (w_effects w) (w_kafka w ++ [e]) (w_active w).
Definition with_active (d : Z) (w : World S) : World S :=
  MkWorld (w_tick w) (w_orders w) (w_outbox w) (w_timeline w) (w_idem w) (w_sagaClosed w) (w_sagaWG w)
    (w_effects w) (w_kafka w) (w_active w + d).

(** One command is over: the tick advances and the effects are recorded. *)
Definition log (es : list effect) (w : World S) : World S :=
  MkWorld (Datatypes.S (w_tick w)) (w_orders w) (w_outbox w) (w_timeline w) (w_idem w)
    (w_sagaClosed w) (w_sagaWG w) (w_effects w ++ es) (w_kafka w) (w_active w).

(** The answer to a command and the state after it. *)
Definition answer X (c : port X) : World S -> X * World S :=
  match c in port X return World S -> X * World S with
  | Now => fun w => (ext_clock ext (w_tick w), w)
  | NewUUID => fun w => (ext_uuid ext (w_tick w), w)
  | Sleep _ => fun w => (tt, w)
  | CtxErr => fun w => (ext_ctx ext (w_tick w), w)
  | SleepOrDone _ => fun w => (ext_ctx ext (w_tick w), w)
  | TickOrDone => fun w => (match ext_ctx ext (w_tick w) with Some _ => true | None => false end, w)
  | OrdersCreate o => fun w => let '(r, s) := repo_Create (w_tick w) o (w_orders w) in (r, with_orders s w)
  | OrdersGet id => fun w => (repo_Get (w_tick w) id (w_orders w), w)
  | OrdersListByCustomer c limit => fun w =>
      (repo_ListByCustomer (w_tick w) c limit (w_orders w), w)
  | OrdersSave o => fun w => let '(r, s) := repo_Save (w_tick w) o (w_orders w) in (r, with_orders s w)
  | OutboxEnqueue msg => fun w =>
      let '(r, b) := MemoryOutbox.Enqueue (ext_uuid ext (w_tick w)) (ext_clock ext (w_tick w)) msg
                       (w_outbox w) in (r, with_outbox b w)
  | OutboxPullPending limit => fun w =>
      let '(r, b) := MemoryOutbox.PullPending (w_tick w) (ext_clock ext (w_tick w)) limit
                       (w_outbox w) in (r, with_outbox b w)
  | OutboxReadStats => fun w => (MemoryOutbox.Stats (w_tick w) (w_outbox w), w)
  | OutboxMarkSent id => fun w =>
      let '(r, b) := MemoryOutbox.MarkSent (ext_clock ext (w_tick w)) id (w_outbox w) in
      (r, with_outbox b w)
  | OutboxMarkFailed id => fun w =>
      let '(r, b) := MemoryOutbox.MarkFailed (ext_clock ext (w_tick w)) id (w_outbox w) in
      (r, with_outbox b w)
  | TimelineAppend e => fun w =>
      let '(r, t) := MemoryTimeline.Append e (w_timeline w) in (r, with_timeline t w)
  | TimelineList id => fun w => (MemoryTimeline.List id (w_timeline w), w)
  | IdemCreateProcessing key hash ttlAt => fun w =>
      let '(r, i) := MemoryIdempotency.CreateProcessing (ext_clock ext (w_tick w)) key hash ttlAt
                       (w_idem w) in (r, with_idem i w)
  | IdemMarkDone key body st => fun w =>
      let '(r, i) := MemoryIdempotency.MarkDone (ext_clock ext (w_tick w)) key body st (w_idem w) in
      (r, with_idem i w)
  | IdemMarkFailed key body st => fun w =>
      let '(r, i) := MemoryIdempotency.MarkFailed (ext_clock ext (w_tick w)) key body st (w_idem w) in
      (r, with_idem i w)
  | IdemDeleteExpired before limit => fun w =>
      let '(r, i) := MemoryIdempotency.DeleteExpired (w_tick w) (ext_clock ext (w_tick w)) before limit
                       (w_idem w) in (r, with_idem i w)
  | InventoryReserve id items => fun w => (ext_reserve ext (w_tick w) id items, w)
  | InventoryRelease id items => fun w => (ext_release ext (w_tick w) id items, w)
  | PaymentPay id amount cur => fun w => (ext_pay ext (w_tick w) id amount cur, w)
  | PaymentRefund id amount cur => fun w => (ext_refund ext (w_tick w) id amount cur, w)
  | PublisherPublish p e => fun w => (ext_publish ext (w_tick w) p e, w)
  | KafkaPublishEvent topic key e => fun w =>
      match ext_kafka ext (w_tick w) topic key e with
      | None => (None, with_kafka e w)
      | Some er => (Some er, w)
      end
  | Metric m => fun w => (tt, with_active (active_delta m) w)
  | WorkerMetric _ => fun w => (tt, w)
  | SagaTryAdd => fun w =>
      if w_sagaClosed w then (false, w) else (true, with_saga false (w_sagaWG w + 1) w)
  | GoSaga _ => fun w => (tt, w)
  | SagaDone => fun w => (tt, with_saga (w_sagaClosed w) (w_sagaWG w - 1) w)
  | SagaClose => fun w => (tt, with_saga true (w_sagaWG w) w)
  | SagaWait => fun w =>
      if w_sagaWG w =? 0 then (None, w)
      else (Some (default (ErrOther "context deadline exceeded") (ext_ctx ext (w_tick w))), w)
  end.

Definition handle : handler port (World S) := fun X c w =>
  let '(x, w') := answer X c w in (x, log (saga_effects X c x) w').

(** The goroutine [runSagaAsync] starts: the saga, then [sagaWG.Done()]. *)
Definition saga_thread (o : orchestrator) (job : saga_job) : M unit :=
  run_saga_job o job;; call SagaDone.

Definition saga_forks (o : orchestrator) X (c : port X) : X -> list (M unit) :=
  match c in port X return X -> list (M unit) with
  | GoSaga job => fun _ => [saga_thread o job]
  | _ => fun _ => []
  end.

Definition system (o : orchestrator) (schedule : list nat) (pool : list (M unit)) (w : World S)
  : list (M unit) * World S :=
  exec handle (saga_forks o) schedule (pool, w).

End System.

(** Executes the command at the head of a program. *)
Ltac run_step := rewrite run_call; unfold handle at 1; cbn [answer saga_effects].

(** The state of a service that has just started, over the in-memory
    repositories. *)
Definition empty_world : World MemoryOrders.items :=
  MkWorld 0 MemoryOrders.NewOrderRepository MemoryOutbox.NewOutboxRepository
    MemoryTimeline.NewTimelineRepository MemoryIdempotency.NewIdempotencyRepository
    false 0 [] [] 0.

(** ** The mock services: src/internal/service/inventory/mock.go,
      src/internal/service/payment/mock.go *)

Record MockService := MkMockService {
  Mock_ReserveErr : option err;
  Mock_ReleaseErr : option err;
  Mock_PayStatus : PaymentStatus;
  Mock_PayErr : option err;
  Mock_RefundStatus : PaymentStatus;
  Mock_RefundErr : option err;
}.

Definition NewMockService : MockService :=
  MkMockService None None PaymentStatusCaptured None PaymentStatusRefunded None.

(** An outside built of the mocks, a clock that advances a millisecond per
    command and numbered identifiers. *)
Definition mock_externals (m : MockService) (uuid : nat -> string) : Externals :=
  MkExternals (fun n => (unixToInternal + 1700000000) * Second + Z.of_nat n * Millisecond) uuid
    (fun _ _ _ => Mock_ReserveErr m) (fun _ _ _ => Mock_ReleaseErr m)
    (fun _ _ _ _ => (Mock_PayStatus m, Mock_PayErr m))
    (fun _ _ _ _ => (Mock_RefundStatus m, Mock_RefundErr m))
    (fun _ _ _ => None) (fun _ _ _ _ => None) (fun _ => None).
