(* ===== verification/OrderSafety.v ===== *)
(** * Orders under concurrency

    Any number of clients create, pay, cancel, refund and read orders, and the
    sagas they start run concurrently, against any order repository that keeps
    the contract [OrderRepositoryLaws] and any behaviour of the outside.  The
    ghost state is the history: every order value that was ever stored.  A
    thread knows orders of the history, and saves only successors of what it
    knows; optimistic locking turns this into a guarantee about the store. *)

From S2P Require Import Prelude GoLib Domain OrderStore Prog Ports Saga SagaTraces OrderService OutboxWorker CleanupWorker Concurrency World.

(** ** What a stored order may become *)

(** Everything but status, version and update time. *)
Definition same_order (a b : Order) : Prop :=
  Order_ID b = Order_ID a /\ Order_CustomerID b = Order_CustomerID a /\
  Order_Currency b = Order_Currency a /\ Order_AmountMinor b = Order_AmountMinor a /\
  Order_Items b = Order_Items a /\ Order_CreatedAt b = Order_CreatedAt a.

(** The statuses a saga saves: everything but pending. *)
Definition saga_statuses : list OrderStatus :=
  [OrderStatusReserved; OrderStatusPaid; OrderStatusConfirmed; OrderStatusCanceled; OrderStatusRefunded].

(** A pending order is exactly one that was never saved after its creation;
    every other order has one of the statuses of the sagas. *)
Definition order_typed (o : Order) : Prop :=
  (Order_Status o = OrderStatusPending /\ Order_Version o = 0) \/
  (Order_Status o ∈ saga_statuses /\ 0 < Order_Version o).

Record evolved (a b : Order) : Prop := MkEvolved {
  evolved_same : same_order a b;
  evolved_version : Order_Version a <= Order_Version b;
  evolved_terminal : terminal (Order_Status a) = true -> Order_Status b = Order_Status a;
  evolved_eq : Order_Version a = Order_Version b -> a = b;
  evolved_status : a = b \/ Order_Status b ∈ saga_statuses;
}.

#[global] Instance evolved_preorder : PreOrder evolved.
Proof.
  split.
  - intros a. split; [done|lia|done|done|by left].
  - intros a b c [Hs1 Hv1 Ht1 He1 Hst1] [Hs2 Hv2 Ht2 He2 Hst2]. split.
    + unfold same_order in *. destruct_and!. split_and!; congruence.
    + lia.
    + intros Ht. rewrite Ht2; [auto|]. by rewrite Ht1.
    + intros Hv. assert (Order_Version a = Order_Version b) as Hab by lia.
      rewrite He1 by done. apply He2. lia.
    + destruct Hst2 as [<-|Hst2]; [exact Hst1|by right].
Qed.

(** ** Histories and what a thread knows *)

Abbreviation history := (list Order).

Definition hist_le (g g' : history) : Prop := g ⊆ g'.

#[global] Instance hist_le_preorder : PreOrder hist_le.
Proof. unfold hist_le. split; [by intros ?|by intros ? ? ? ->]. Qed.

(** A copy of a stored order, but for its update time. *)
Definition known (g : history) (o : Order) : Prop :=
  exists o0 t, o0 ∈ g /\ o = set_status o0 (Order_Status o0) t.

(** What may be saved: a known order with a new status, unless the status was
    final. *)
Definition successor (g : history) (o : Order) : Prop :=
  exists o0 s t, o0 ∈ g /\ o = set_status o0 s t /\ s ∈ saga_statuses /\
    (terminal (Order_Status o0) = true -> s = Order_Status o0).

Definition fresh_order (o : Order) : Prop :=
  order_ok o /\ Order_Status o = OrderStatusPending /\ Order_Version o = 0.

Lemma known_elem g o : o ∈ g -> known g o.
Proof. intros H. exists o, (Order_UpdatedAt o). split; [done|]. by destruct o. Qed.

Lemma known_mono g g' o : hist_le g g' -> known g o -> known g' o.
Proof. intros Hle (o0 & t & Hin & ->). exists o0, t. split; [by apply Hle|done]. Qed.

Lemma successor_mono g g' o : hist_le g g' -> successor g o -> successor g' o.
Proof. intros Hle (o0 & s & t & Hin & H). exists o0, s, t. split; [by apply Hle|done]. Qed.

Lemma known_successor g o s t :
  known g o -> s ∈ saga_statuses -> (terminal (Order_Status o) = true -> s = Order_Status o) ->
  successor g (set_status o s t).
Proof. intros (o0 & t0 & Hin & ->) Hst Hs. exists o0, s, t. by split_and!. Qed.

#[export] Hint Resolve known_elem known_mono successor_mono : oms.

Ltac saga_status := unfold saga_statuses; rewrite !elem_of_cons; tauto.

(** ** The specification of the commands *)

(** In the history [g], and after the others have extended it to [g'], the
    command may be issued and the thread goes on for every possible answer. *)
Definition order_spec : cmd_spec port history := fun X c =>
  match c in port X return history -> (X -> history -> Prop) -> Prop with
  | OrdersGet id => fun g Q => forall g' x, hist_le g g' ->
      (forall o, x = Ok o -> o ∈ g' /\ Order_ID o = id) -> Q x g'
  | OrdersSave o => fun g Q => successor g o /\
      forall g', hist_le g g' -> (forall e, Q (Err e) g') /\ forall t, Q (Ok tt) (g' ++ [saved_as o t])
  | OrdersCreate o => fun g Q => fresh_order o /\
      forall g', hist_le g g' -> (forall e, Q (Err e) g') /\ forall o', read_back o o' -> Q (Ok tt) (g' ++ [o'])
  | PaymentPay id amount _ => fun g Q =>
      (exists o, known g o /\ Order_ID o = id /\ Order_AmountMinor o = amount) /\
      forall g' x, hist_le g g' -> Q x g'
  | PaymentRefund id amount _ => fun g Q =>
      (exists o a, known g o /\ Order_ID o = id /\ amount = refund_amount a o) /\
      forall g' x, hist_le g g' -> Q x g'
  | _ => fun g Q => forall g' x, hist_le g g' -> Q x g'
  end.

#[global] Instance order_spec_mono : MonotoneSpec order_spec.
Proof. intros X c g P Q HPQ. destruct c; simpl; naive_solver. Qed.

Lemma order_spec_stable X (c : port X) g g' Q :
  hist_le g g' -> order_spec X c g Q -> order_spec X c g' Q.
Proof.
  intros Hle. assert (forall h, hist_le g' h -> hist_le g h) as Htr by (intros h Hh; by trans g').
  destruct c; simpl; try (intros H ? ? ?; apply H; auto; done);
    intros [Hpre H]; (split; [|auto]); eauto with oms.
  - destruct Hpre as (o & Hk & ?). eauto with oms.
  - destruct Hpre as (o & a & Hk & ?). eauto with oms.
Qed.

(** ** Programs that leave the orders alone *)

(** The commands without a precondition that store no order. *)
Definition calm_cmd X (c : port X) : bool :=
  match c with
  | OrdersSave _ | OrdersCreate _ | PaymentPay _ _ _ | PaymentRefund _ _ _ => false
  | _ => true
  end.

Abbreviation calm := (only calm_cmd).

Lemma calm_wp {A} (p : M A) g : calm p -> wp order_spec p g (fun _ g' => hist_le g g').
Proof.
  intros Hp. apply (wp_only calm_cmd hist_le); [apply _| |done].
  intros X c h Q Hc HQ. destruct c; simpl in Hc; try discriminate Hc; simpl; auto.
Qed.

(** Run a part of a program that leaves the orders alone, and keep what was
    known before it. *)
Lemma wp_calm {A B} (p : M A) (f : A -> M B) Q g :
  calm p -> (forall a g', hist_le g g' -> wp order_spec (f a) g' Q) -> wp order_spec (p ≫= f) g Q.
Proof. intros Hp Hf. eapply wp_seq; [apply _|by apply calm_wp|]. simpl. auto. Qed.

Lemma wp_calm_end {A} (p : M A) (Q : A -> history -> Prop) g :
  calm p -> (forall a g', hist_le g g' -> Q a g') -> wp order_spec p g Q.
Proof. intros Hp HQ. eapply wp_mono; [apply _| |by apply calm_wp]. simpl. auto. Qed.

(** ** The sagas *)

Section Sagas.
Context (o : orchestrator).

Lemma calm_metric m : calm (metric o m).
Proof. unfold metric. solve_only. Qed.
#[local] Hint Resolve calm_metric : oms.

Lemma calm_publish et id md : calm (publishSagaEvent o et id md).
Proof. unfold publishSagaEvent. solve_only. Qed.
#[local] Hint Resolve calm_publish : oms.

Lemma calm_emitEvent order et payload t : calm (emitEvent o order et payload t).
Proof. unfold emitEvent. solve_only. Qed.
#[local] Hint Resolve calm_emitEvent : oms.

Lemma calm_release order : calm (releaseInventory order).
Proof. unfold releaseInventory. solve_only. Qed.
#[local] Hint Resolve calm_release : oms.

(** After a successful update the new order is known. *)
Definition update_post (g : history) (r : Order * option err) (g' : history) : Prop :=
  r.2 = None -> known g' r.1.

Lemma updateStatus_loop_safe n : forall attempt order new g, known g order -> new ∈ saga_statuses ->
  wp order_spec (updateStatus_loop o n attempt order new) g (update_post g).
Proof.
  induction n as [|n IH]; intros attempt order new g Hk Hnew; simpl; [by intros ?|].
  fold (terminal (Order_Status order)).
  destruct (terminal (Order_Status order) && _) eqn:Et; simpl; [by intros ?|].
  intros g1 t Hg1. split.
  { apply known_successor; [by eapply known_mono|done|]. intros Ht. rewrite Ht in Et. simpl in Et.
    by reflect_tests. }
  intros g2 Hg2. split.
  - intros e. destruct (IsVersionConflict e && _); simpl; [|by intros ?].
    intros g3 loaded Hg3 Hl. destruct loaded as [fresh|le]; simpl; [|by intros ?].
    intros g4 ? Hg4. eapply wp_mono; [apply _| |apply IH].
    + done.
    + apply known_elem, Hg4. by apply (Hl fresh).
    + done.
  - intros ts. apply wp_calm; [unfold emitStatusEvent; solve_only|]. intros a g3 Hg3 _. simpl.
    eexists _, t. split; [apply Hg3, elem_of_app; right; by apply list_elem_of_singleton|done].
Qed.

Lemma updateStatus_safe order new g : known g order -> new ∈ saga_statuses ->
  wp order_spec (updateStatus o order new) g (update_post g).
Proof.
  intros Hk Hnew. unfold updateStatus. destruct (_ =s? _); [by intros ?|].
  by apply updateStatus_loop_safe.
Qed.

(** Use [updateStatus_safe]: nothing is known after a failed update, the order
    after a successful one. *)
Lemma update_then {B} order new (f : Order * option err -> M B) Q g :
  known g order -> new ∈ saga_statuses ->
  (forall order' e g', wp order_spec (f (order', Some e)) g' Q) ->
  (forall order' g', known g' order' -> wp order_spec (f (order', None)) g' Q) ->
  wp order_spec (updateStatus o order new ≫= f) g Q.
Proof.
  intros Hk Hnew Herr Hok. eapply wp_seq; [apply _|by apply updateStatus_safe|].
  intros [order' [e|]] g' Hpost; [apply Herr|]. apply Hok. by apply Hpost.
Qed.

Ltac calm_finish := eapply wp_calm_end; [solve_only|done].

Lemma failOrder_safe order st e g : known g order -> st ∈ saga_statuses ->
  wp order_spec (failOrder o order st e) g (fun _ _ => True).
Proof.
  intros Hk Hst. unfold failOrder. apply wp_calm; [solve_only|]. intros _ g1 Hg1.
  apply update_then; [by eapply known_mono|done|done|]. intros order' g2 _. calm_finish.
Qed.

Lemma fail_then {B} order st e (p : M B) Q g :
  known g order -> st ∈ saga_statuses -> (forall g', wp order_spec p g' Q) ->
  wp order_spec (failOrder o order st e;; p) g Q.
Proof.
  intros Hk Hst Hp. eapply wp_seq; [apply _|by apply failOrder_safe|]. simpl. auto.
Qed.

(** A step of [Start] hands on a known order when it succeeds. *)
Definition step_post (r : Order * option err) (g' : history) : Prop := r.2 = None -> known g' r.1.

Lemma handleReserve_safe order g : known g order ->
  wp order_spec (handleReserve o order) g step_post.
Proof.
  intros Hk. unfold handleReserve. apply wp_call. intros g1 reserved Hg1. pose proof (known_mono _ _ _ Hg1 Hk) as Hk1.
  destruct reserved as [e|].
  - apply fail_then; [done|saga_status|]. by intros g2 ?.
  - apply update_then; [done|saga_status|by intros ? ? ? ?|]. intros order' g2 Hk2.
    apply wp_calm; [solve_only|]. intros _ g3 Hg3 _. simpl. by eapply known_mono.
Qed.

Lemma handlePayment_safe order g : known g order ->
  wp order_spec (handlePayment o order) g step_post.
Proof.
  intros Hk. unfold handlePayment. apply wp_call. split; [by exists order|]. intros g1 [st [e|]] Hg1;
    pose proof (known_mono _ _ _ Hg1 Hk) as Hk1.
  - apply wp_calm; [solve_only|]. intros _ g2 Hg2.
    apply fail_then; [by eapply known_mono|saga_status|]. by intros g3 ?.
  - destruct (_ && _).
    + apply wp_calm; [solve_only|]. intros _ g2 Hg2.
      apply fail_then; [by eapply known_mono|saga_status|]. by intros g3 ?.
    + apply update_then; [done|saga_status|by intros ? ? ? ?|]. intros order' g2 Hk2.
      apply wp_calm; [solve_only|]. intros _ g3 Hg3 _. simpl. by eapply known_mono.
Qed.

Lemma handleConfirm_safe order g : known g order ->
  wp order_spec (handleConfirm o order) g (fun _ _ => True).
Proof.
  intros Hk. apply update_then; [done|saga_status|intros order' e g'|intros order' g' _].
  - calm_finish.
  - calm_finish.
Qed.

Lemma start_reserved_safe order g : known g order ->
  wp order_spec (start_reserved o order) g (fun _ _ => True).
Proof.
  intros Hk. eapply wp_seq; [apply _|by apply handlePayment_safe|].
  intros [order' [e|]] g' Hp; [done|]. by apply handleConfirm_safe, Hp.
Qed.

Lemma start_pending_safe order g : known g order ->
  wp order_spec (start_pending o order) g (fun _ _ => True).
Proof.
  intros Hk. eapply wp_seq; [apply _|by apply handleReserve_safe|].
  intros [order' [e|]] g' Hp; [done|]. by apply start_reserved_safe, Hp.
Qed.

Lemma start_body_safe orderID g : wp order_spec (start_body o orderID) g (fun _ _ => True).
Proof.
  unfold start_body. apply wp_call. intros g1 loaded Hg1 Hl. destruct loaded as [order|e]; [|calm_finish].
  destruct (Hl order eq_refl) as [Hin _].
  apply wp_calm; [solve_only|]. intros _ g2 Hg2.
  assert (known g2 order) as Hk by (apply known_elem, Hg2, Hin).
  repeat case_match; [by apply start_pending_safe|by apply start_reserved_safe|
    by apply handleConfirm_safe|done].
Qed.

Lemma cancel_body_safe orderID reason g :
  wp order_spec (cancel_body o orderID reason) g (fun _ _ => True).
Proof.
  unfold cancel_body. apply wp_call. intros g1 loaded Hg1 Hl. destruct loaded as [order|e]; [|calm_finish].
  destruct (Hl order eq_refl) as [Hin _]. destruct (_ || _); [done|].
  apply wp_calm; [solve_only|]. intros _ g2 Hg2.
  assert (known g2 order) as Hk by (apply known_elem, Hg2, Hin).
  eapply (wp_seq _ _ _ (fun _ g' => known g' order)).
  - destruct (_ || _); [|done]. apply wp_call. split.
    { exists order, (Order_AmountMinor order). split_and!; [done..|]. unfold refund_amount. by case_match. }
    intros g3 x Hg3. by eapply known_mono.
  - intros [e|] g3 Hk3; [calm_finish|].
    apply update_then; [done|saga_status|done|]. intros order' g4 _. calm_finish.
Qed.

Lemma refund_body_safe orderID amount reason g :
  wp order_spec (refund_body o orderID amount reason) g (fun _ _ => True).
Proof.
  unfold refund_body. apply wp_call. intros g1 loaded Hg1 Hl. destruct loaded as [order|e]; [|calm_finish].
  destruct (Hl order eq_refl) as [Hin _]. case_match; [done|]. case_match; [done|].
  apply wp_call. split; [exists order, amount; by eauto with oms|]. intros g2 [st [e|]] Hg2; [calm_finish|].
  case_match; [calm_finish|]. apply wp_calm; [solve_only|]. intros _ g3 Hg3.
  apply update_then; [by apply known_elem, Hg3, Hg2|saga_status|done|]. intros order' g4 _. calm_finish.
Qed.

Lemma saga_thread_safe job g : thread_ok order_spec g (saga_thread o job).
Proof.
  unfold thread_ok, saga_thread. eapply (wp_seq _ _ _ (fun _ _ => True)).
  2: { intros _ g' _. calm_finish. }
  destruct job; cbn [run_saga_job].
  - unfold Start. apply wp_calm; [solve_only|]. intros st g1 _.
    apply wp_calm; [solve_only|]. intros _ g2 _.
    eapply wp_seq; [apply _|apply start_body_safe|]. intros _ g3 _. calm_finish.
  - unfold Cancel. apply wp_calm; [solve_only|]. intros _ g1 _.
    eapply wp_seq; [apply _|apply cancel_body_safe|]. intros _ g2 _. calm_finish.
  - unfold Refund. apply wp_calm; [solve_only|]. intros _ g1 _.
    eapply wp_seq; [apply _|apply refund_body_safe|]. intros _ g2 _. calm_finish.
Qed.
End Sagas.

(** ** The clients and the workers *)

Section Clients.
Context `{ProtoMessage CreateOrderRequest} `{ProtoMessage CreateOrderResponse}
        `{ProtoMessage PayOrderRequest} `{ProtoMessage CancelOrderRequest}
        `{ProtoMessage RefundOrderRequest} `{ProtoMessage StatusResponse}.
Context (s : OrderService).

(** The goroutines of the server: one per request, and the workers. *)
Inductive client : Type :=
| CallCreateOrder (ctx : Context) (req : option CreateOrderRequest)
| CallPayOrder (ctx : Context) (req : option PayOrderRequest)
| CallCancelOrder (ctx : Context) (req : option CancelOrderRequest)
| CallRefundOrder (ctx : Context) (req : option RefundOrderRequest)
| CallGetOrder (orderID : option string)
| CallListOrders (req : option ListOrdersRequest)
| CallShutdown
| OutboxWorkerRun (w : Worker) (ticks : nat)
| CleanupWorkerRun (w : CleanupWorker) (ticks fuel : nat).

Definition client_thread (c : client) : M unit :=
  match c with
  | CallCreateOrder ctx req => CreateOrder s ctx req;; mret tt
  | CallPayOrder ctx req => PayOrder s ctx req;; mret tt
  | CallCancelOrder ctx req => CancelOrder s ctx req;; mret tt
  | CallRefundOrder ctx req => RefundOrder s ctx req;; mret tt
  | CallGetOrder id => GetOrder s id;; mret tt
  | CallListOrders req => ListOrders req;; mret tt
  | CallShutdown => Shutdown;; mret tt
  | OutboxWorkerRun w ticks => Run w ticks
  | CleanupWorkerRun w ticks fuel => CleanupRun w ticks fuel
  end.

(** What the clients' programs are made of: calm programs and the creation of
    fresh orders, put together.  A property of programs that these have and
    that sequences keep is one of every client. *)
Section Closed.
Context (P : forall A, M A -> Prop).
Hypothesis P_calm : forall A (p : M A), calm p -> P A p.
Hypothesis P_bind : forall A B (p : M A) (f : A -> M B), P A p -> (forall a, P B (f a)) -> P B (p ≫= f).
Hypothesis P_create : forall order, fresh_order order -> P _ (call (OrdersCreate order)).

Lemma withIdempotency_closed {Req T} `{ProtoMessage Req} `{ProtoMessage T} ctx method
    (req : option Req) (handler : M (reply T)) :
  P _ handler -> P _ (withIdempotency s ctx method req handler).
Proof.
  intros Hh. unfold withIdempotency. destruct (negb _); [done|].
  destruct (readIdempotencyKey ctx); [|by apply P_calm].
  destruct (buildIdempotencyRequestHash method req); [|by apply P_calm].
  apply P_bind; [apply P_calm; solve_only|]. intros t.
  apply P_bind; [apply P_calm; solve_only|]. intros [record [e|]]; [by apply P_calm|].
  apply P_bind; [done|]. intros [resp|st]; apply P_calm.
  - unfold cacheIdempotencySuccess. solve_only.
  - unfold cacheIdempotencyFailure. solve_only.
Qed.

Lemma calm_create_items t cur todo : forall idx items sum, calm (create_items t cur idx todo items sum).
Proof.
  induction todo as [|item rest IH]; intros idx items sum; simpl; [done|]. solve_only.
Qed.
#[local] Hint Resolve calm_create_items : oms.

Lemma calm_appendStatusTimeline id st t : calm (appendStatusTimeline s id st t).
Proof. unfold appendStatusTimeline. solve_only. Qed.
#[local] Hint Resolve calm_appendStatusTimeline : oms.

Lemma createOrder_closed req : P _ (createOrderInternal s req).
Proof.
  unfold createOrderInternal. destruct req as [req|]; [|by apply P_calm].
  destruct (_ =s? ""); [by apply P_calm|]. destruct (_ =s? ""); [by apply P_calm|].
  destruct (_ =? 0)%nat; [by apply P_calm|].
  apply P_bind; [apply P_calm; solve_only|]. intros t.
  apply P_bind; [apply P_calm; solve_only|]. intros [[items sum]|st]; [|by apply P_calm].
  apply P_bind; [apply P_calm; solve_only|]. intros id.
  cbv zeta. destruct (ValidateInvariants _) as [|e errs] eqn:Hv; [|by apply P_calm].
  apply P_bind; [|intros [u|e]; apply P_calm; solve_only].
  apply P_create. split; [by apply ValidateInvariants_nil|done].
Qed.

Lemma calm_loadOrder id : calm (loadOrder id).
Proof. unfold loadOrder. solve_only. Qed.
#[local] Hint Resolve calm_loadOrder : oms.

Lemma calm_runSagaAsync job : calm (runSagaAsync job).
Proof. unfold runSagaAsync. solve_only. Qed.
#[local] Hint Resolve calm_runSagaAsync : oms.

Lemma calm_reload id : calm (reload_status id).
Proof. unfold reload_status. solve_only. Qed.
#[local] Hint Resolve calm_reload : oms.

Hypothesis with_saga : svc_has_saga s = true.

Lemma calm_pay req : calm (payOrderInternal s req).
Proof. unfold payOrderInternal. solve_only. Qed.

Lemma calm_cancel req : calm (cancelOrderInternal s req).
Proof. unfold cancelOrderInternal. rewrite with_saga. solve_only. Qed.

Lemma calm_refund req : calm (refundOrderInternal s req).
Proof. unfold refundOrderInternal. rewrite with_saga. solve_only. Qed.

Lemma calm_publish_attempts w remaining : forall attempt e event,
  calm (publish_attempts w remaining attempt e event).
Proof.
  induction remaining as [|n IH]; intros attempt e event; simpl; [done|]. solve_only.
Qed.
#[local] Hint Resolve calm_publish_attempts : oms.

Lemma calm_process_events w events : calm (process_events w events).
Proof.
  induction events as [|event rest IH]; simpl; [done|].
  unfold process_event, publishWithRetry, publishToDLQ. solve_only.
Qed.
#[local] Hint Resolve calm_process_events : oms.

Lemma calm_ProcessOnce w : calm (ProcessOnce w).
Proof. unfold ProcessOnce, refreshBacklogMetrics. solve_only. Qed.
#[local] Hint Resolve calm_ProcessOnce : oms.

Lemma calm_run_ticks w ticks : calm (run_ticks w ticks).
Proof. induction ticks as [|n IH]; simpl; solve_only. Qed.
#[local] Hint Resolve calm_run_ticks : oms.

Lemma calm_delete_batches w fuel : forall before total, calm (delete_batches w fuel before total).
Proof. induction fuel as [|n IH]; intros before total; simpl; solve_only. Qed.
#[local] Hint Resolve calm_delete_batches : oms.

Lemma calm_cleanup w fuel t : calm (cleanup w fuel t).
Proof. unfold cleanup, CleanupDeleteExpired. solve_only. Qed.
#[local] Hint Resolve calm_cleanup : oms.

Lemma calm_cleanup_ticks w ticks fuel : calm (cleanup_ticks w ticks fuel).
Proof. induction ticks as [|n IH]; simpl; solve_only. Qed.
#[local] Hint Resolve calm_cleanup_ticks : oms.

Lemma client_thread_closed c : P _ (client_thread c).
Proof.
  destruct c; cbn [client_thread].
  - apply P_bind; [|intros; by apply P_calm]. destruct req; [|by apply P_calm].
    apply withIdempotency_closed, createOrder_closed.
  - apply P_bind; [|intros; by apply P_calm]. unfold PayOrder. destruct req; [|by apply P_calm].
    destruct (_ =s? _); [by apply P_calm|]. apply withIdempotency_closed, P_calm, calm_pay.
  - apply P_bind; [|intros; by apply P_calm]. unfold CancelOrder. destruct req; [|by apply P_calm].
    destruct (_ =s? _); [by apply P_calm|]. apply withIdempotency_closed, P_calm, calm_cancel.
  - apply P_bind; [|intros; by apply P_calm]. unfold RefundOrder. destruct req; [|by apply P_calm].
    destruct (_ =s? _); [by apply P_calm|]. apply withIdempotency_closed, P_calm, calm_refund.
  - apply P_calm. unfold GetOrder, buildTimeline. solve_only.
  - apply P_calm. unfold ListOrders. solve_only.
  - apply P_calm. unfold Shutdown. solve_only.
  - apply P_calm. unfold Run. solve_only.
  - apply P_calm. unfold CleanupRun. solve_only.
Qed.
End Closed.

Lemma client_thread_safe c g : svc_has_saga s = true -> thread_ok order_spec g (client_thread c).
Proof.
  intros Hs. apply (client_thread_closed (fun A p => forall g, wp order_spec p g (fun _ _ => True))); [..|exact Hs].
  - intros A p Hp g'. by apply wp_calm_end.
  - intros A B p f Hp Hf g'. eapply wp_seq; [apply _|apply Hp|]. intros a h _. apply Hf.
  - intros order Hf g'. split; [done|]. by intros g1 _.
Qed.
End Clients.

(** ** The invariant of the store *)

Section Store.
Context {S : Type} {R : OrderRepository S} {laws : OrderRepositoryLaws S} {rt : GoRuntime}.
Context (ext : Externals).

Definition orders (w : World S) : gmap string Order := repo_orders (w_orders w).

(** A payment is for the amount of its order, a refund for no more. *)
Definition effect_ok (g : history) (e : effect) : Prop :=
  match e with
  | Paid id amount _ _ => exists o, o ∈ g /\ Order_ID o = id /\ amount = Order_AmountMinor o
  | Refunded id amount _ _ => exists o, o ∈ g /\ Order_ID o = id /\ 0 <= amount <= Order_AmountMinor o
  | _ => True
  end.

(** After [n] commands. *)
Record store_inv (n : nat) (w : World S) (g : history) : Prop := MkStoreInv {
  inv_wf : repo_wf (w_orders w);
  inv_stored : forall id o, orders w !! id = Some o -> Order_ID o = id /\ o ∈ g;
  inv_history : forall o, o ∈ g -> exists cur, orders w !! Order_ID o = Some cur /\ evolved o cur;
  inv_valid : forall o, o ∈ g -> order_ok o /\ 0 <= Order_Version o <= Z.of_nat (length g);
  inv_typed : Forall order_typed g;
  inv_length : (length g <= n)%nat;
  inv_effects : Forall (effect_ok g) (w_effects w);
}.

Lemma effect_ok_mono g g' e : hist_le g g' -> effect_ok g e -> effect_ok g' e.
Proof. intros Hle. destruct e; simpl; naive_solver. Qed.

(** A command that does not write orders. *)
Lemma inv_frame n w w' g :
  store_inv n w g -> repo_wf (w_orders w') -> orders w' = orders w ->
  Forall (effect_ok g) (w_effects w') -> store_inv (Datatypes.S n) w' g.
Proof. intros [H0 H1 H2 H3 Hty H4 H5] Hw Ho He. split; rewrite ?Ho; auto. Qed.

Lemma inv_effect n w w' g es :
  store_inv n w g -> repo_wf (w_orders w') -> orders w' = orders w -> w_effects w' = w_effects w ++ es ->
  Forall (effect_ok g) es -> store_inv (Datatypes.S n) w' g.
Proof.
  intros HI Hw Ho He Hes. eapply inv_frame; [exact HI|done|done|]. rewrite He. apply Forall_app.
  by split; [apply HI|].
Qed.

Lemma history_app (g : history) o : hist_le g (g ++ [o]).
Proof. unfold hist_le. set_solver. Qed.

(** A new value of an order enters the store and the history. *)
Lemma inv_write n w w' g o es :
  store_inv n w g -> (n < Z.to_nat (2 ^ 63 - 1))%nat -> repo_wf (w_orders w') ->
  orders w' = <[Order_ID o := o]> (orders w) -> w_effects w' = w_effects w ++ es ->
  Forall (effect_ok g) es -> order_ok o -> order_typed o -> 0 <= Order_Version o <= Z.of_nat (Datatypes.S (length g)) ->
  (forall cur, orders w !! Order_ID o = Some cur -> evolved cur o) ->
  store_inv (Datatypes.S n) w' (g ++ [o]).
Proof.
  intros [H0 H1 H2 H3 Hty H4 H5] Hn Hw Ho He Hes Hok Hot Hv Hev. split; [done|..].
  - intros id o'. rewrite Ho, lookup_insert_Some. intros [[<- <-]|[Hne Hl]].
    + split; [done|set_solver].
    + destruct (H1 id o' Hl). split; [done|set_solver].
  - intros o' [Hin| ->%list_elem_of_singleton]%elem_of_app; rewrite Ho.
    2: { exists o. rewrite lookup_insert_eq. split; [done|reflexivity]. }
    destruct (H2 o' Hin) as (cur & Hcur & Hevo).
    destruct (decide (Order_ID o = Order_ID o')) as [Heq|Hne].
    + exists o. rewrite Heq, lookup_insert_eq. split; [done|].
      trans cur; [done|]. apply Hev. by rewrite Heq.
    + exists cur. by rewrite lookup_insert_ne.
  - intros o' Hin. rewrite length_app. simpl.
    apply elem_of_app in Hin as [Hin| ->%list_elem_of_singleton]; [|split; [done|lia]].
    destruct (H3 o' Hin). split; [done|lia].
  - apply Forall_app. by split; [|constructor].
  - rewrite length_app. simpl. lia.
  - rewrite He. apply Forall_app. split; (eapply Forall_impl; [eassumption|]);
      intros e; apply effect_ok_mono, history_app.
Qed.

(** Optimistic locking: a save that takes effect replaces the very order it was
    derived from. *)
Lemma save_evolves n w g k o r s' :
  store_inv n w g -> (n < Z.to_nat (2 ^ 63 - 1))%nat -> successor g o ->
  repo_Save k o (w_orders w) = (r, s') ->
  repo_wf s' /\
  ((r <> Ok tt /\ repo_orders s' = orders w) \/
   exists t, repo_orders s' = <[Order_ID o := saved_as o t]> (orders w) /\
     order_ok (saved_as o t) /\ order_typed (saved_as o t) /\ 0 <= Order_Version (saved_as o t) <= Z.of_nat (Datatypes.S (length g)) /\
     (forall cur, orders w !! Order_ID o = Some cur -> evolved cur (saved_as o t))).
Proof.
  intros [H0 H1 H2 H3 _ H4 _] Hn (o0 & s & t & Hin & -> & Hs & Hterm) Hsave.
  destruct (repo_Save_effect _ _ _ _ _ H0 Hsave) as (Hwf & [Hno|(cur & Hcur & Hver & o' & t' & Ho' & Horders)]); (split; [done|]); [by left|].
  right. destruct (H2 o0 Hin) as (cur' & Hcur' & Hevo). destruct (H3 o0 Hin) as [Hok Hv].
  unfold orders in Hcur'. simpl in Hcur. simplify_eq.
  pose proof (evolved_same _ _ Hevo) as (Hid & Hcust & Hcy & Ham & Hit & Hcr).
  assert (o' = set_status o0 s t) as -> by (destruct Ho' as [->| ->]; [|apply keeping_same]; simpl; congruence).
  simpl in Hver. assert (o0 = cur) as <- by (apply (evolved_eq _ _ Hevo); done).
  assert (wrap64 (Order_Version o0 + 1) = Order_Version o0 + 1) as Hw
    by (apply wrap64_id; unfold_widths; lia).
  exists t'. unfold saved_as in *. simpl in *. split_and!; [done|done|right; simpl; split; [done|lia]|rewrite Hw; lia..|].
  intros cur' Hcur2. unfold orders in *. simplify_eq. split; simpl; [done|lia|done|lia|by right].
Qed.

Lemma refund_amount_ok a (o : Order) : order_ok o -> 0 <= refund_amount a o <= Order_AmountMinor o.
Proof.
  intros (_ & _ & _ & H & _). unfold refund_amount.
  destruct (Z.leb_spec a 0), (Z.gtb_spec a (Order_AmountMinor o)); simpl; lia.
Qed.

(** The effects are only recorded after the answer. *)
Lemma answer_effects X (c : port X) w : w_effects (answer ext X c w).2 = w_effects w.
Proof. destruct c; simpl; by repeat case_match. Qed.

Definition writes_orders X (c : port X) : bool :=
  match c with OrdersSave _ | OrdersCreate _ => true | _ => false end.

Lemma answer_orders X (c : port X) w :
  writes_orders X c = false -> w_orders (answer ext X c w).2 = w_orders w.
Proof. destruct c; simpl; try done; intros _; by repeat case_match. Qed.

Lemma handle_frame n X (c : port X) w g :
  store_inv n w g -> writes_orders X c = false ->
  Forall (effect_ok g) (saga_effects X c (answer ext X c w).1) ->
  store_inv (Datatypes.S n) (handle ext X c w).2 g.
Proof.
  intros HI Hc He. unfold handle.
  pose proof (answer_orders X c w Hc) as Ho. pose proof (answer_effects X c w) as Hf.
  destruct (answer ext X c w) as [x w']. simpl in *.
  eapply inv_effect; [exact HI|simpl; rewrite Ho; apply HI|unfold orders; simpl; by rewrite Ho|
    simpl; by rewrite Hf|done].
Qed.

Lemma handle_answer X (c : port X) w : (handle ext X c w).1 = (answer ext X c w).1.
Proof. unfold handle. by destruct (answer ext X c w). Qed.

(** A command that only extends nothing: the history stays. *)
Lemma sound_frame n X (c : port X) w g (Q : X -> history -> Prop) :
  store_inv n w g -> writes_orders X c = false ->
  Forall (effect_ok g) (saga_effects X c (answer ext X c w).1) -> Q (answer ext X c w).1 g ->
  exists g', hist_le g g' /\ store_inv (Datatypes.S n) (handle ext X c w).2 g' /\ Q (handle ext X c w).1 g'.
Proof.
  intros HI Hc He HQ. exists g. split; [reflexivity|]. rewrite handle_answer. split; [|done].
  by apply handle_frame.
Qed.

Lemma sound_get n id w g (Q : result Order -> history -> Prop) :
  store_inv n w g -> order_spec _ (OrdersGet id) g Q ->
  exists g', hist_le g g' /\ store_inv (Datatypes.S n) (handle ext _ (OrdersGet id) w).2 g' /\
             Q (handle ext _ (OrdersGet id) w).1 g'.
Proof.
  intros HI Hspec. apply sound_frame; [done|done| |].
  - simpl. case_match; by repeat constructor.
  - apply Hspec; [reflexivity|]. simpl. intros o Ho%repo_Get_ok; [|apply HI].
    destruct (inv_stored _ _ _ HI id o Ho). done.
Qed.

Lemma sound_save n o w g (Q : result unit -> history -> Prop) :
  (n < Z.to_nat (2 ^ 63 - 1))%nat -> store_inv n w g -> order_spec _ (OrdersSave o) g Q ->
  exists g', hist_le g g' /\ store_inv (Datatypes.S n) (handle ext _ (OrdersSave o) w).2 g' /\
             Q (handle ext _ (OrdersSave o) w).1 g'.
Proof.
  intros Hn HI [Hs HQ]. destruct (HQ g) as [Herr Hok]; [reflexivity|].
  unfold handle. simpl. destruct (repo_Save (w_tick w) o (w_orders w)) as [r s'] eqn:E. simpl.
  destruct (save_evolves n w g _ o r s' HI Hn Hs E) as (Hwf & [(Hr & Ho)|(t & Ho & Hv & Hty & Hver & Hevo)]).
  - exists g. split_and!; [reflexivity| |by destruct r as [[]|e]].
    eapply inv_effect; [done..|by destruct r as [[]|e]].
  - exists (g ++ [saved_as o t]). split_and!; [apply history_app| |].
    + eapply inv_write; [done|done|done|done|done|destruct r as [[]|e]; by repeat constructor|done|done|done|done].
    + destruct r as [[]|e]; [apply Hok|]. apply HQ, history_app.
Qed.

Lemma sound_create n o w g (Q : result unit -> history -> Prop) :
  (n < Z.to_nat (2 ^ 63 - 1))%nat -> store_inv n w g -> order_spec _ (OrdersCreate o) g Q ->
  exists g', hist_le g g' /\ store_inv (Datatypes.S n) (handle ext _ (OrdersCreate o) w).2 g' /\
             Q (handle ext _ (OrdersCreate o) w).1 g'.
Proof.
  intros Hn HI [(Hv & Hst & Hver) HQ]. destruct (HQ g) as [Herr Hok]; [reflexivity|].
  unfold handle. simpl. destruct (repo_Create (w_tick w) o (w_orders w)) as [r s'] eqn:E. simpl.
  destruct (repo_Create_effect _ _ _ _ _ (inv_wf _ _ _ HI) E) as (Hwf & [(Hr & Ho)|(Hnone & o' & Hb & Ho)]).
  - exists g. split_and!; [reflexivity| |by destruct r as [[]|e]].
    eapply inv_effect; [done..|by destruct r as [[]|e]].
  - exists (g ++ [o']). split_and!; [apply history_app| |].
    + pose proof (rb_id _ _ Hb) as Hid. rewrite <- Hid in Ho, Hnone.
      eapply inv_write; [done|done|done|done|done|destruct r as [[]|e]; constructor|by eapply read_back_ok| | |].
      * left. by rewrite (rb_status _ _ Hb), (rb_version _ _ Hb).
      * rewrite (rb_version _ _ Hb). lia.
      * intros cur Hcur. unfold orders in Hcur. congruence.
    + destruct r as [[]|e]; [by apply Hok|]. apply HQ, history_app.
Qed.

Lemma known_in n w g o : store_inv n w g -> known g o ->
  exists o0, o0 ∈ g /\ Order_ID o0 = Order_ID o /\ Order_AmountMinor o0 = Order_AmountMinor o /\ order_ok o0.
Proof.
  intros HI (o0 & t & Hin & ->). exists o0. split_and!; [done..|]. by apply (inv_valid _ _ _ HI).
Qed.

Lemma order_spec_sound n X (c : port X) w g Q :
  (n < Z.to_nat (2 ^ 63 - 1))%nat -> store_inv n w g -> order_spec X c g Q ->
  exists g', hist_le g g' /\ store_inv (Datatypes.S n) (handle ext X c w).2 g' /\ Q (handle ext X c w).1 g'.
Proof.
  intros Hn HI Hspec.
  destruct c; try (apply sound_frame; [exact HI|done|by repeat constructor|by apply Hspec]).
  - by apply sound_create.
  - by apply sound_get.
  - by apply sound_save.
  - destruct Hspec as [(o & Hk & <- & <-) HQ]. apply sound_frame; [exact HI|done| |by apply HQ].
    destruct (known_in _ _ _ _ HI Hk) as (o0 & ? & ? & ? & _).
    simpl. repeat constructor. by exists o0.
  - destruct Hspec as [(o & a & Hk & <- & ->) HQ]. apply sound_frame; [exact HI|done| |by apply HQ].
    destruct (known_in _ _ _ _ HI Hk) as (o0 & ? & ? & Ha & Hok).
    simpl. repeat constructor. exists o0. split_and!; [done..| |]; unfold refund_amount;
      rewrite <- Ha; by apply (refund_amount_ok a o0).
Qed.

(** ** The system *)

Context `{ProtoMessage CreateOrderRequest} `{ProtoMessage CreateOrderResponse}
        `{ProtoMessage PayOrderRequest} `{ProtoMessage CancelOrderRequest}
        `{ProtoMessage RefundOrderRequest} `{ProtoMessage StatusResponse}.

(** A repository without orders, before any call was made. *)
Definition initial (w : World S) : Prop := repo_wf (w_orders w) /\ orders w = ∅ /\ w_effects w = [].

Lemma initial_inv w : initial w -> store_inv 0 w [].
Proof.
  intros (Hw & Ho & He). split; [done|..].
  - intros id o. rewrite Ho. by intros ?%lookup_empty_Some.
  - intros o Hin. by apply not_elem_of_nil in Hin.
  - intros o Hin. by apply not_elem_of_nil in Hin.
  - constructor.
  - done.
  - rewrite He. constructor.
Qed.

Lemma system_inv (o : orchestrator) schedule w n pool g :
  (n + length schedule <= Z.to_nat (2 ^ 63 - 1))%nat ->
  store_inv n w g -> Forall (thread_ok order_spec g) pool ->
  exists g', hist_le g g' /\
    store_inv (n + length schedule) (system ext o schedule pool w).2 g' /\
    Forall (thread_ok order_spec g') (system ext o schedule pool w).1.
Proof.
  intros Hn HI Hpool. unfold system.
  apply (exec_invariant (handle ext) (saga_forks o) hist_le order_spec store_inv (Z.to_nat (2 ^ 63 - 1)));
    try done.
  - intros X c g1 g2 Q. apply order_spec_stable.
  - intros k X c w1 g1 Q. apply order_spec_sound.
  - intros k w1 g1 HI1. eapply inv_frame; [done|apply HI1|done|apply HI1].
  - intros X c x g1. destruct c; simpl; repeat constructor. apply saga_thread_safe.
Qed.

Lemma clients_ok (s : OrderService) clients g :
  svc_has_saga s = true -> Forall (thread_ok order_spec g) (map (client_thread s) clients).
Proof.
  intros Hs. apply Forall_forall. intros p (c & -> & _)%list_elem_of_fmap. by apply client_thread_safe.
Qed.

Lemma clients_inv (s : OrderService) (o : orchestrator) clients schedule w :
  svc_has_saga s = true -> initial w -> (length schedule <= Z.to_nat (2 ^ 63 - 1))%nat ->
  exists g, store_inv (length schedule) (system ext o schedule (map (client_thread s) clients) w).2 g /\
    Forall (thread_ok order_spec g) (system ext o schedule (map (client_thread s) clients) w).1.
Proof.
  intros Hs Hi Hn. destruct (system_inv o schedule w 0 (map (client_thread s) clients) [])
    as (g & _ & HI & Hp); [done|by apply initial_inv|by apply clients_ok|eauto].
Qed.

(** C1. Whatever clients do, however their goroutines and the sagas interleave,
    and whatever the outside answers: an order that is in the repository stays
    there; its customer, currency, amount, items and creation time never change;
    its version never decreases and identifies its contents; once it is
    canceled or refunded its status never changes again; and an order that was
    changed never becomes pending again. *)
Theorem orders_evolve (s : OrderService) (o : orchestrator) clients l1 l2 w id a :
  svc_has_saga s = true -> initial w -> (length (l1 ++ l2) <= Z.to_nat (2 ^ 63 - 1))%nat ->
  let pool := map (client_thread s) clients in
  orders (system ext o l1 pool w).2 !! id = Some a ->
  exists b, orders (system ext o (l1 ++ l2) pool w).2 !! id = Some b /\ evolved a b.
Proof.
  intros Hs Hi Hn pool Ha. rewrite length_app in Hn.
  destruct (clients_inv s o clients l1 w Hs Hi) as (g & HI & Hp); [lia|].
  fold pool in HI, Hp. unfold system at 1. rewrite exec_app.
  fold (system ext o l1 pool w). destruct (system ext o l1 pool w) as [pool1 w1]. simpl in *.
  destruct (system_inv o l2 w1 (length l1) pool1 g) as (g' & Hle & HI' & _); [lia|done..|].
  destruct (inv_stored _ _ _ HI id a Ha) as [<- Hin].
  exact (inv_history _ _ _ HI' a (Hle _ Hin)).
Qed.

(** C3. Every order the repository ever holds, in every execution, has one of
    the six statuses, a version that fits its 64 bits, and is pending exactly
    as long as its version is 0, that is until it is first saved: no order
    becomes pending again, and no save leaves one pending. *)
Theorem stored_orders_typed (s : OrderService) (o : orchestrator) clients schedule w id order :
  svc_has_saga s = true -> initial w -> (length schedule <= Z.to_nat (2 ^ 63 - 1))%nat ->
  orders (system ext o schedule (map (client_thread s) clients) w).2 !! id = Some order ->
  Order_Status order ∈ OrderStatusPending :: saga_statuses /\ is_int64 (Order_Version order) /\
  (Order_Status order = OrderStatusPending <-> Order_Version order = 0).
Proof.
  intros Hs Hi Hn Horder. destruct (clients_inv s o clients schedule w Hs Hi Hn) as (g & HI & _).
  destruct (inv_stored _ _ _ HI id order Horder) as [_ Hin].
  destruct (inv_valid _ _ _ HI order Hin) as [_ Hv]. pose proof (inv_length _ _ _ HI) as Hl.
  pose proof (proj1 (Forall_forall _ _) (inv_typed _ _ _ HI) order Hin) as [[Hst Hv0]|[Hst Hpos]].
  - rewrite Hst, Hv0. split_and!; [by constructor|done|done].
  - split; [by right|]. split; [unfold_widths; lia|]. split; [|lia]. intros E. rewrite E in Hst.
    revert Hst. unfold saga_statuses. rewrite !elem_of_cons, elem_of_nil. intuition discriminate.
Qed.

(** C2. At every moment of every execution the repository holds valid orders
    only, under their own identifiers; the payment service was only ever asked
    to pay exactly the amount of an order, and to refund no more than it. *)
Theorem payments_match_orders (s : OrderService) (o : orchestrator) clients schedule w :
  svc_has_saga s = true -> initial w -> (length schedule <= Z.to_nat (2 ^ 63 - 1))%nat ->
  let w' := (system ext o schedule (map (client_thread s) clients) w).2 in
  (forall id order, orders w' !! id = Some order -> Order_ID order = id /\ order_ok order) /\
  (forall id amount st e, Paid id amount st e ∈ w_effects w' ->
     exists order, orders w' !! id = Some order /\ amount = Order_AmountMinor order) /\
  (forall id amount st e, Refunded id amount st e ∈ w_effects w' ->
     exists order, orders w' !! id = Some order /\ 0 <= amount <= Order_AmountMinor order).
Proof.
  intros Hs Hi Hn w'. destruct (clients_inv s o clients schedule w Hs Hi Hn) as (g & HI & _).
  fold w' in HI. pose proof (proj1 (Forall_forall _ _) (inv_effects _ _ _ HI)) as Heff.
  split_and!.
  - intros id order Ho. destruct (inv_stored _ _ _ HI id order Ho) as [? Hin].
    split; [done|]. by apply (inv_valid _ _ _ HI).
  - intros id amount st e Hin. destruct (Heff _ Hin) as (a & Ha & <- & ->).
    destruct (inv_history _ _ _ HI a Ha) as (cur & Hcur & Hevo). exists cur. split; [done|].
    by destruct (evolved_same _ _ Hevo) as (_ & _ & _ & -> & _).
  - intros id amount st e Hin. destruct (Heff _ Hin) as (a & Ha & <- & Hle).
    destruct (inv_history _ _ _ HI a Ha) as (cur & Hcur & Hevo). exists cur. split; [done|].
    by destruct (evolved_same _ _ Hevo) as (_ & _ & _ & -> & _).
Qed.
End Store.
