(* ===== verification/ShutdownSafety.v ===== *)
(** * Graceful shutdown: [OrderService.Shutdown] and [runSagaAsync]

    The wait group counts the sagas that were dispatched and have not finished.
    Each goroutine has a role that says how many [Done] calls it owes: a request
    handler owes one between the critical section of [runSagaAsync] and its [go]
    statement, a saga owes one until its deferred call. *)

From S2P Require Import Prelude GoLib Domain OrderStore Prog Ports Saga SagaTraces OrderService OutboxWorker CleanupWorker Concurrency World OrderSafety.

Inductive role : Type :=
| Serving (tokens : nat)
| Running
| Over.

Definition weight (r : role) : Z :=
  match r with Serving t => Z.of_nat t | Running => 1 | Over => 0 end.

Definition is_saga (r : role) : bool := match r with Serving _ => false | _ => true end.

Definition duty : cmd_spec port role := fun X c =>
  match c in port X return role -> (X -> role -> Prop) -> Prop with
  | SagaTryAdd => fun r Q =>
      exists t, r = Serving t /\ Q true (Serving (S t)) /\ Q false (Serving t)
  | GoSaga _ => fun r Q => exists t, r = Serving (S t) /\ Q tt (Serving t)
  | SagaDone => fun r Q => r = Running /\ Q tt Over
  | _ => fun r Q => r <> Over /\ forall x, Q x r
  end.

#[global] Instance duty_mono : MonotoneSpec duty.
Proof. intros X c g P Q HPQ. destruct c; simpl; naive_solver. Qed.

(** The commands that do not touch the wait group. *)
Definition plain_cmd X (c : port X) : bool :=
  match c with SagaTryAdd | GoSaga _ | SagaDone => false | _ => true end.

Abbreviation plain := (only plain_cmd).

Lemma plain_wp {A} (p : M A) r : plain p -> r <> Over -> wp duty p r (fun _ r' => r' = r).
Proof.
  intros Hp Hr. revert Hp. induction p as [a|X c k IH]; simpl; [done|]. intros [Hc Hk].
  destruct c; simpl in Hc; try discriminate Hc; simpl; (split; [done|]); intros x; by apply IH.
Qed.

Section Sagas.
Context (o : orchestrator).

Lemma plain_metric m : plain (metric o m).
Proof. unfold metric. solve_only. Qed.
#[local] Hint Resolve plain_metric : oms.

Lemma plain_publish et id md : plain (publishSagaEvent o et id md).
Proof. unfold publishSagaEvent. solve_only. Qed.
#[local] Hint Resolve plain_publish : oms.

Lemma plain_emitEvent order et payload t : plain (emitEvent o order et payload t).
Proof. unfold emitEvent. solve_only. Qed.
#[local] Hint Resolve plain_emitEvent : oms.

Lemma plain_updateStatus_loop n : forall attempt order new, plain (updateStatus_loop o n attempt order new).
Proof.
  induction n as [|n IH]; intros attempt order new; simpl; [done|].
  unfold emitStatusEvent. solve_only.
Qed.
#[local] Hint Resolve plain_updateStatus_loop : oms.

Lemma plain_updateStatus order new : plain (updateStatus o order new).
Proof. unfold updateStatus. solve_only. Qed.
#[local] Hint Resolve plain_updateStatus : oms.

Lemma plain_failOrder order st e : plain (failOrder o order st e).
Proof. unfold failOrder. solve_only. Qed.
#[local] Hint Resolve plain_failOrder : oms.

Lemma plain_job job : plain (run_saga_job o job).
Proof.
  destruct job; cbn [run_saga_job].
  - unfold Start, start_body, start_pending, start_reserved, start_paid, handleReserve, handlePayment,
      handleConfirm, releaseInventory. solve_only.
  - unfold Cancel, cancel_body, releaseInventory. solve_only.
  - unfold Refund, refund_body, releaseInventory. solve_only.
Qed.

Lemma saga_settles job : settles weight duty Running (saga_thread o job).
Proof.
  unfold settles, saga_thread. eapply wp_seq; [apply _|apply plain_wp; [apply plain_job|done]|].
  intros a r ->. simpl. done.
Qed.
End Sagas.

(** ** The clients *)

Section Clients.
Context `{ProtoMessage CreateOrderRequest} `{ProtoMessage CreateOrderResponse}
        `{ProtoMessage PayOrderRequest} `{ProtoMessage CancelOrderRequest}
        `{ProtoMessage RefundOrderRequest} `{ProtoMessage StatusResponse}.
Context (s : OrderService).

(** A handler is back to owing nothing at its end. *)
Definition balanced {A} (p : M A) : Prop := wp duty p (Serving 0) (fun _ r => r = Serving 0).

Lemma plain_balanced {A} (p : M A) : plain p -> balanced p.
Proof. intros Hp. by apply plain_wp. Qed.

Lemma balanced_bind {A B} (p : M A) (f : A -> M B) :
  balanced p -> (forall a, balanced (f a)) -> balanced (p ≫= f).
Proof. intros Hp Hf. eapply wp_seq; [apply _|apply Hp|]. intros a r ->. apply Hf. Qed.

Lemma balanced_ret {A} (a : A) : balanced (Ret a).
Proof. done. Qed.

Lemma runSagaAsync_balanced job : balanced (runSagaAsync job).
Proof.
  unfold runSagaAsync, balanced. apply wp_call. exists 0%nat. split_and!; [done| |done].
  simpl. by exists 0%nat.
Qed.

Ltac solve_balanced :=
  repeat first
    [ match goal with |- forall _, _ => intro end
    | apply balanced_ret
    | apply runSagaAsync_balanced
    | solve [apply plain_balanced; solve_only]
    | apply balanced_bind
    | match goal with |- balanced (when ?b _) => destruct b; unfold when end
    | match goal with |- balanced (match ?x with _ => _ end) => destruct x end
    | match goal with |- balanced (let _ := _ in _) => cbv zeta end ].

Lemma withIdempotency_balanced {Req T} `{ProtoMessage Req} `{ProtoMessage T} ctx method
    (req : option Req) (handler : M (reply T)) :
  balanced handler -> balanced (withIdempotency s ctx method req handler).
Proof.
  intros Hh. unfold withIdempotency, cacheIdempotencySuccess, cacheIdempotencyFailure.
  destruct (negb _); [done|]. destruct (readIdempotencyKey ctx); [|apply balanced_ret].
  destruct (buildIdempotencyRequestHash method req); [|apply balanced_ret].
  apply balanced_bind; [solve_balanced|]. intros t.
  apply balanced_bind; [solve_balanced|]. intros [record [e|]]; [apply balanced_ret|].
  apply balanced_bind; [done|]. solve_balanced.
Qed.

Lemma plain_create_items t cur todo : forall idx items sum, plain (create_items t cur idx todo items sum).
Proof. induction todo as [|item rest IH]; intros idx items sum; simpl; [done|]. solve_only. Qed.
#[local] Hint Resolve plain_create_items : oms.

Lemma plain_publish_attempts w remaining : forall attempt e event,
  plain (publish_attempts w remaining attempt e event).
Proof. induction remaining as [|n IH]; intros attempt e event; simpl; [done|]. solve_only. Qed.
#[local] Hint Resolve plain_publish_attempts : oms.

Lemma plain_process_events w events : plain (process_events w events).
Proof.
  induction events as [|event rest IH]; simpl; [done|].
  unfold process_event, publishWithRetry, publishToDLQ. solve_only.
Qed.
#[local] Hint Resolve plain_process_events : oms.

Lemma plain_ProcessOnce w : plain (ProcessOnce w).
Proof. unfold ProcessOnce, refreshBacklogMetrics. solve_only. Qed.
#[local] Hint Resolve plain_ProcessOnce : oms.

Lemma plain_run_ticks w ticks : plain (run_ticks w ticks).
Proof. induction ticks as [|n IH]; simpl; solve_only. Qed.
#[local] Hint Resolve plain_run_ticks : oms.

Lemma plain_delete_batches w fuel : forall before total, plain (delete_batches w fuel before total).
Proof. induction fuel as [|n IH]; intros before total; simpl; solve_only. Qed.
#[local] Hint Resolve plain_delete_batches : oms.

Lemma plain_cleanup w fuel t : plain (cleanup w fuel t).
Proof. unfold cleanup, CleanupDeleteExpired. solve_only. Qed.
#[local] Hint Resolve plain_cleanup : oms.

Lemma plain_cleanup_ticks w ticks fuel : plain (cleanup_ticks w ticks fuel).
Proof. induction ticks as [|n IH]; simpl; solve_only. Qed.
#[local] Hint Resolve plain_cleanup_ticks : oms.

Lemma client_settles c : settles weight duty (Serving 0) (client_thread s c).
Proof.
  apply (wp_mono duty (client_thread s c) (fun _ r => r = Serving 0)); [by intros a r ->|].
  change (balanced (client_thread s c)).
  destruct c; cbn [client_thread].
  - unfold CreateOrder. destruct req; [|solve_balanced]. apply balanced_bind; [|solve_balanced].
    apply withIdempotency_balanced. unfold createOrderInternal, appendStatusTimeline. solve_balanced.
  - unfold PayOrder. apply balanced_bind; [|solve_balanced]. destruct req; [|solve_balanced].
    destruct (_ =s? _); [solve_balanced|]. apply withIdempotency_balanced.
    unfold payOrderInternal, loadOrder. solve_balanced.
  - unfold CancelOrder. apply balanced_bind; [|solve_balanced]. destruct req; [|solve_balanced].
    destruct (_ =s? _); [solve_balanced|]. apply withIdempotency_balanced.
    unfold cancelOrderInternal, loadOrder, saveOrder, appendStatusTimeline, appendTimelineEvent,
      reload_status. solve_balanced.
  - unfold RefundOrder. apply balanced_bind; [|solve_balanced]. destruct req; [|solve_balanced].
    destruct (_ =s? _); [solve_balanced|]. apply withIdempotency_balanced.
    unfold refundOrderInternal, loadOrder, saveOrder, appendStatusTimeline, appendTimelineEvent,
      reload_status. solve_balanced.
  - unfold GetOrder, buildTimeline, loadOrder. solve_balanced.
  - unfold ListOrders. solve_balanced.
  - unfold Shutdown. solve_balanced.
  - unfold Run. solve_balanced.
  - unfold CleanupRun. solve_balanced.
Qed.
End Clients.

(** ** The wait group *)

Section Drain.
Context {St : Type} {R : OrderRepository St} {rt : GoRuntime} (ext : Externals) (o : orchestrator).

Lemma answer_wg X (c : port X) (w : World St) : plain_cmd X c = true ->
  w_sagaWG (answer ext X c w).2 = w_sagaWG w.
Proof. destruct c; simpl; try done; intros _; by repeat case_match. Qed.

Lemma handle_wg X (c : port X) (w : World St) :
  w_sagaWG (handle ext X c w).2 = w_sagaWG (answer ext X c w).2.
Proof. unfold handle. by destruct (answer ext X c w). Qed.

Lemma duty_sound X (c : port X) (w : World St) r Q : duty X c r Q ->
  exists r' new, Q (handle ext X c w).1 r' /\ is_saga r' = is_saga r /\
    Forall2 (settles weight duty) new (saga_forks o X c (handle ext X c w).1) /\
    Forall (fun r => is_saga r = true) new /\
    w_sagaWG (handle ext X c w).2 - w_sagaWG w = weight r' - weight r + owed weight new.
Proof.
  intros Hd. rewrite handle_wg, handle_answer.
  destruct c; try (destruct Hd as [Hr HQ]; exists r, []; rewrite answer_wg by done;
    split_and!; [apply HQ|done|constructor|constructor|simpl; lia]).
  - destruct Hd as (t & -> & Ht & Hf). simpl. destruct (w_sagaClosed w); simpl.
    + exists (Serving t), []. split_and!; [done..|constructor|constructor|simpl; lia].
    + exists (Serving (S t)), []. split_and!; [done..|constructor|constructor|]. simpl. lia.
  - destruct Hd as (t & -> & HQ). exists (Serving t), [Running]. split_and!; [done..| | |simpl; lia].
    + simpl. repeat constructor. apply saga_settles.
    + by repeat constructor.
  - destruct Hd as (-> & HQ). exists Over, []. split_and!; [done..|constructor|constructor|simpl; lia].
Qed.

Lemma owed_zero rs : owed weight rs = 0 -> Forall (fun r => weight r = 0) rs.
Proof.
  assert (forall r, 0 <= weight r) as Hw by (intros []; simpl; lia).
  assert (forall l, 0 <= owed weight l) as Ho.
  { unfold owed. intros l. induction l as [|r l IH]; simpl; [lia|]. pose proof (Hw r). lia. }
  unfold owed. induction rs as [|r rs IH]; simpl; intros H; [constructor|].
  pose proof (Hw r). pose proof (Ho rs). unfold owed in *. constructor; [lia|]. apply IH. lia.
Qed.

(** Closed, and nobody owes anything. *)
Definition drained (n0 : nat) (rs : list role) (s : list (M unit) * World St) : Prop :=
  accounted weight duty is_saga (fun w : World St => w_sagaWG w) n0 rs s /\
  w_sagaClosed s.2 = true /\ w_sagaWG s.2 = 0.

Lemma answer_closed X (c : port X) (w : World St) :
  w_sagaClosed w = true -> w_sagaClosed (answer ext X c w).2 = true.
Proof. destruct c; simpl; intros Hc; repeat case_match; simplify_eq/=; done. Qed.

Lemma step_drained n0 i rs pool (w : World St) :
  drained n0 rs (pool, w) ->
  exists rs', drained n0 rs' (step (handle ext) (saga_forks o) i (pool, w)) /\
    length (step (handle ext) (saga_forks o) i (pool, w)).1 = length pool.
Proof.
  intros ((Hrs & Hc & Hn & Hf) & Hcl & Hwg). simpl in *.
  destruct (step_tokens (handle ext) (saga_forks o) weight duty is_saga (fun w => w_sagaWG w)
              duty_sound n0 i pool w rs) as (rs' & Hrs'); [done|].
  exists rs'. pose proof (owed_zero rs ltac:(lia)) as Hz.
  unfold drained. split; [split; [done|]|]; clear rs' Hrs'; unfold step; simpl;
    (destruct (pool !! i) as [[u|X c k]|] eqn:Hi; [done| |done]);
    destruct (Forall2_lookup_r _ _ _ _ _ Hrs Hi) as (r & Hri & Hr);
    pose proof (proj1 (Forall_lookup _ _) Hz i r Hri) as Hw; simpl in Hr, Hw.
  - pose proof (answer_closed X c w Hcl) as Hcl'. pose proof (answer_wg X c w) as Hwg'.
    unfold handle. destruct c; simpl in Hr, Hcl' |- *;
      try (simpl in Hwg'; repeat case_match; simplify_eq/=; rewrite ?Hwg'; done).
    + destruct Hr as [-> _]. done.
  - assert (saga_forks o X c (handle ext X c w).1 = []) as E.
    { destruct c; try done. simpl in Hr. destruct Hr as (t & -> & _). simpl in Hw. lia. }
    destruct (handle ext X c w) as [x w']. simpl in *. rewrite length_app, length_insert, E. simpl. lia.
Qed.
Lemma exec_drained n0 l : forall rs pool (w : World St),
  drained n0 rs (pool, w) ->
  exists rs', drained n0 rs' (system ext o l pool w) /\ length (system ext o l pool w).1 = length pool.
Proof.
  unfold system. induction l as [|i l IH]; intros rs pool w Hd; simpl; [by exists rs|].
  destruct (step_drained n0 i rs pool w Hd) as (rs1 & Hd1 & Hlen).
  destruct (step (handle ext) (saga_forks o) i (pool, w)) as [pool1 w1].
  destruct (IH rs1 pool1 w1 Hd1) as (rs2 & Hd2 & Hlen2). exists rs2. split; [done|]. simpl in Hlen. lia.
Qed.

(** A saga that owes nothing has returned. *)
Lemma over_finished p : settles weight duty Over p -> finished p = true.
Proof. destruct p as [u|X c k]; [done|]. unfold settles. simpl. destruct c; simpl; naive_solver. Qed.

Lemma drained_finished n0 rs s i p :
  drained n0 rs s -> (n0 <= i)%nat -> s.1 !! i = Some p -> finished p = true.
Proof.
  intros ((Hrs & Hc & Hn & Hf) & Hcl & Hwg) Hi Hp.
  destruct (Forall2_lookup_r _ _ _ _ _ Hrs Hp) as (r & Hri & Hr).
  pose proof (owed_zero rs ltac:(lia)) as Hz.
  pose proof (proj1 (Forall_lookup _ _) Hz i r Hri) as Hw. specialize (Hf i r Hi Hri).
  destruct r; simpl in *; [done|lia|]. by apply over_finished.
Qed.

Context `{ProtoMessage CreateOrderRequest} `{ProtoMessage CreateOrderResponse}
        `{ProtoMessage PayOrderRequest} `{ProtoMessage CancelOrderRequest}
        `{ProtoMessage RefundOrderRequest} `{ProtoMessage StatusResponse}.

(** C10. Graceful shutdown: if at some moment [Shutdown] has closed the
    dispatcher and its wait returns nil, then every saga that was ever started
    has finished, and whatever runs afterwards starts no saga: the goroutines
    beyond the clients stay finished and no new ones appear. *)
Theorem shutdown_drains (s : OrderService) (clients : list client) l1 l2 (w : World St) :
  let pool := map (client_thread s) clients in
  w_sagaWG w = 0 ->
  w_sagaClosed (system ext o l1 pool w).2 = true ->
  (handle ext _ SagaWait (system ext o l1 pool w).2).1 = None ->
  let s1 := (system ext o l1 pool w).1 in
  let s2 := (system ext o (l1 ++ l2) pool w).1 in
  length s2 = length s1 /\
  forall i p, (length clients <= i)%nat -> s2 !! i = Some p -> finished p = true.
Proof.
  intros pool Hw Hcl Hwait s1 s2.
  destruct (exec_tokens (handle ext) (saga_forks o) weight duty is_saga (fun w => w_sagaWG w)
              duty_sound (length clients) l1 pool w (replicate (length clients) (Serving 0)))
    as (rs1 & Hacc).
  { split_and!; simpl.
    - apply Forall2_replicate_l; [by unfold pool; rewrite length_map|].
      apply Forall_forall. intros p (c & -> & _)%list_elem_of_fmap. apply client_settles.
    - rewrite Hw. unfold owed. by induction (length clients).
    - by rewrite length_replicate.
    - intros i r Hi [_ Hlt]%lookup_replicate. lia. }
  unfold s1, s2, system in *. rewrite exec_app. fold (system ext o l1 pool w) in *.
  destruct (system ext o l1 pool w) as [pool1 w1]. simpl in *.
  assert (drained (length clients) rs1 (pool1, w1)) as Hd.
  { split; [done|]. split; [done|]. simpl. unfold handle in Hwait. simpl in Hwait.
    destruct (Z.eqb_spec (w_sagaWG w1) 0); [done|]. done. }
  destruct (exec_drained (length clients) l2 rs1 pool1 w1 Hd) as (rs2 & Hd2 & Hlen).
  split; [done|]. intros i p Hi Hp. by eapply drained_finished.
Qed.
End Drain.
