(* ===== verification/SagaRuns.v ===== *)
(** * Sagas that run alone

    [Start], [Cancel] and [Refund] run to their end against the in-memory order
    repository with nothing else running: the order they leave behind, and the
    calls they made.  The ghost state is the view: the stored orders and the
    recorded effects. *)

From S2P Require Import Prelude GoLib Domain OrderStore Prog Ports Saga SagaTraces World.

Definition view : Type := MemoryOrders.items * list effect.

Section Alone.
Context {rt : GoRuntime} (ext : Externals).

(** What a command does to the view; every answer of the outside and of the
    other repositories is possible where it does not matter. *)
Definition alone : cmd_spec port view := fun X c v =>
  match c in port X return (X -> view -> Prop) -> Prop with
  | OrdersCreate o => fun Q =>
      let '(r, m) := MemoryOrders.Create o v.1 in Q r (m, v.2)
  | OrdersGet id => fun Q =>
      Q (MemoryOrders.Get id v.1) (v.1, v.2 ++ saga_effects _ (OrdersGet id) (MemoryOrders.Get id v.1))
  | OrdersSave o => fun Q =>
      let '(r, m) := MemoryOrders.Save o v.1 in Q r (m, v.2 ++ saga_effects _ (OrdersSave o) r)
  | InventoryReserve id items => fun Q =>
      forall n, Q (ext_reserve ext n id items) (v.1, v.2 ++ [Reserved id (ext_reserve ext n id items)])
  | InventoryRelease id items => fun Q =>
      forall x, Q x (v.1, v.2 ++ [Released id])
  | PaymentPay id amount cur => fun Q =>
      forall n, let x := ext_pay ext n id amount cur in Q x (v.1, v.2 ++ [Paid id amount x.1 x.2])
  | PaymentRefund id amount cur => fun Q =>
      forall n, let x := ext_refund ext n id amount cur in Q x (v.1, v.2 ++ [Refunded id amount x.1 x.2])
  | _ => fun Q => forall x, Q x v
  end.

#[global] Instance alone_mono : MonotoneSpec alone.
Proof.
  intros X c v P Q HPQ. destruct c; simpl; try naive_solver.
  - destruct (MemoryOrders.Create _ _). naive_solver.
  - destruct (MemoryOrders.Save _ _). naive_solver.
Qed.

Definition viewed (w : World MemoryOrders.items) (v : view) : Prop := v = (w_orders w, w_effects w).

Lemma alone_sound : spec_sound alone (handle ext) viewed.
Proof.
  intros X c w v Q -> Hspec. unfold handle.
  destruct c; simpl in Hspec |- *; repeat case_match; simplify_eq/=;
    (eexists; split; [reflexivity|]); simpl; rewrite ?app_nil_r in *; apply Hspec.
Qed.

(** Reason about the view, conclude about the execution. *)
Lemma alone_run {A} (p : M A) (w : World MemoryOrders.items) Q :
  wp alone p (w_orders w, w_effects w) (fun _ v => Q v) ->
  Q (w_orders (run (handle ext) p w).2, w_effects (run (handle ext) p w).2).
Proof.
  intros Hp. destruct (wp_run alone (handle ext) viewed p _ alone_sound w _ eq_refl Hp) as (v & -> & HQ).
  exact HQ.
Qed.

(** The commands that leave the view alone. *)
Definition aside_cmd X (c : port X) : bool :=
  match c with
  | OrdersCreate _ | OrdersGet _ | OrdersSave _
  | InventoryReserve _ _ | InventoryRelease _ _ | PaymentPay _ _ _ | PaymentRefund _ _ _ => false
  | _ => true
  end.

Abbreviation aside := (only aside_cmd).

Lemma aside_wp {A} (p : M A) v : aside p -> wp alone p v (fun _ v' => v = v').
Proof.
  intros Hp. apply (wp_only aside_cmd eq); [apply _| |done].
  intros X c g Q Hc HQ. destruct c; simpl in Hc; try discriminate Hc; simpl; auto.
Qed.

Lemma wp_aside {A B} (p : M A) (f : A -> M B) Q v :
  aside p -> (forall a, wp alone (f a) v Q) -> wp alone (p ≫= f) v Q.
Proof. intros Hp Hf. eapply wp_seq; [apply _|by apply aside_wp|]. by intros a v' <-. Qed.

Lemma wp_aside_end {A} (p : M A) (Q : A -> view -> Prop) v :
  aside p -> (forall a, Q a v) -> wp alone p v Q.
Proof. intros Hp HQ. eapply wp_mono; [apply _| |by apply aside_wp]. by intros a v' <-. Qed.

Context (o : orchestrator).

Lemma aside_metric m : aside (metric o m).
Proof. unfold metric. solve_only. Qed.
#[local] Hint Resolve aside_metric : oms.

Lemma aside_publish et id md : aside (publishSagaEvent o et id md).
Proof. unfold publishSagaEvent. solve_only. Qed.
#[local] Hint Resolve aside_publish : oms.

Lemma aside_emitEvent order et payload t : aside (emitEvent o order et payload t).
Proof. unfold emitEvent. solve_only. Qed.
#[local] Hint Resolve aside_emitEvent : oms.

(** The order after a status change at time [t]. *)
Definition moved (order : Order) (new : OrderStatus) (t : Time) : Order :=
  set_version (set_status order new t) (wrap64 (Order_Version order + 1)).

(** The stored order is the one the saga holds: an update succeeds at once. *)
Lemma updateStatus_alone order new m es {B} (f : Order * option err -> M B) Q :
  Order_Status order <> new -> terminal (Order_Status order) = false ->
  m !! Order_ID order = Some order ->
  (forall t, wp alone (f (moved order new t, None))
     (<[Order_ID order := moved order new t]> m, es ++ [Saved (Order_ID order) new]) Q) ->
  wp alone (updateStatus o order new ≫= f) (m, es) Q.
Proof.
  intros Hne Hterm Hget Hf. apply wp_bind; [apply _|].
  unfold updateStatus. rewrite (proj2 (String.eqb_neq _ _) Hne).
  change (Z.to_nat maxRetries) with 3%nat. cbn [updateStatus_loop].
  fold (terminal (Order_Status order)). rewrite Hterm. apply wp_call. intros t.
  apply wp_call. unfold alone, MemoryOrders.Save. simpl. rewrite Hget, Z.eqb_refl. simpl.
  apply wp_aside; [unfold emitStatusEvent; solve_only|]. intros ?. apply Hf.
Qed.

Ltac aside_next := apply wp_aside; [solve_only|]; intros ?.
Ltac aside_end := apply wp_aside_end; [solve_only|]; intros ?.

Section Confirm.
Hypothesis stock_available : forall n id items, ext_reserve ext n id items = None.
Context (paid_as : PaymentStatus).
Hypothesis payment_accepted : forall n id amount cur, ext_pay ext n id amount cur = (paid_as, None).
Hypothesis status_accepted : accepted paid_as.

Definition confirmed_from (order : Order) (v v' : view) : Prop :=
  exists final, v'.1 = <[Order_ID order := final]> v.1 /\
    Order_Status final = OrderStatusConfirmed /\ Order_Version final = Order_Version order + 3 /\
    Order_ID final = Order_ID order /\ Order_CustomerID final = Order_CustomerID order /\
    Order_Currency final = Order_Currency order /\ Order_AmountMinor final = Order_AmountMinor order /\
    Order_Items final = Order_Items order /\ Order_CreatedAt final = Order_CreatedAt order /\
    v'.2 = v.2 ++
      [Loaded order;
       Reserved (Order_ID order) None; Saved (Order_ID order) OrderStatusReserved;
       Paid (Order_ID order) (Order_AmountMinor order) paid_as None;
       Saved (Order_ID order) OrderStatusPaid; Saved (Order_ID order) OrderStatusConfirmed].

Lemma start_body_confirms order v :
  Order_Status order = OrderStatusPending -> v.1 !! Order_ID order = Some order ->
  0 <= Order_Version order < maxInt64 - 3 ->
  wp alone (start_body o (Order_ID order)) v (fun _ => confirmed_from order v).
Proof.
  destruct v as [m es]. intros Hst Hget Hver. simpl in Hget.
  unfold start_body. apply wp_call. cbn [alone fst snd]. unfold MemoryOrders.Get. rewrite Hget. simpl saga_effects.
  apply wp_aside; [solve_only|]. intros _. rewrite Hst. cbn [String.eqb].
  unfold start_pending, handleReserve.
  apply wp_bind; [apply _|]. apply wp_call. cbn [alone fst snd]. intros n. rewrite stock_available.
  apply updateStatus_alone; [by rewrite Hst|by rewrite Hst|done|]. intros t1.
  set (o1 := moved order OrderStatusReserved t1). aside_next.
  unfold start_reserved, handlePayment. apply wp_bind; [apply _|]. apply wp_call. cbn [alone fst snd]. intros n'.
  rewrite payment_accepted. cbv beta iota zeta.
  replace ((paid_as <>s? PaymentStatusCaptured) && (paid_as <>s? PaymentStatusAuthorized)) with false
    by (by destruct status_accepted as [->| ->]).
  apply updateStatus_alone; [done|done|by rewrite lookup_insert_eq|]. intros t2.
  set (o2 := moved o1 OrderStatusPaid t2). aside_next.
  unfold start_paid, handleConfirm.
  apply updateStatus_alone; [done|done|by rewrite lookup_insert_eq|]. intros t3.
  set (o3 := moved o2 OrderStatusConfirmed t3). aside_next. aside_end.
  exists o3. unfold o3, o2, o1. simpl. rewrite !insert_insert_eq, <- !app_assoc.
  split_and!; try done. rewrite (wrap64_id (Order_Version order + 1)), (wrap64_id (Order_Version order + 1 + 1)), wrap64_id
    by (unfold_widths; lia). lia.
Qed.

(** C15. With stock available and the payment accepted, a saga that runs alone
    takes a pending order to confirmed: three saves, each raising the version
    by one, one reservation before one payment of the order's amount, and
    everything else of the order unchanged. *)
Theorem start_confirms order (w : World MemoryOrders.items) :
  Order_Status order = OrderStatusPending -> w_orders w !! Order_ID order = Some order ->
  0 <= Order_Version order < maxInt64 - 3 ->
  let w' := (run (handle ext) (Start o (Order_ID order)) w).2 in
  confirmed_from order (w_orders w, w_effects w) (w_orders w', w_effects w').
Proof.
  intros Hst Hget Hver w'. unfold w'. apply alone_run. unfold Start.
  aside_next. aside_next. eapply wp_seq; [apply _|by apply start_body_confirms|].
  intros ? v Hv. aside_next. aside_end. done.
Qed.
End Confirm.

Section Reversal.
Hypothesis refund_accepted : forall n id amount cur,
  ext_refund ext n id amount cur = (PaymentStatusRefunded, None).

Definition refunded_from (amountMinor : Z) (order : Order) (v v' : view) : Prop :=
  exists final, v'.1 = <[Order_ID order := final]> v.1 /\
    Order_Status final = OrderStatusRefunded /\ Order_Version final = Order_Version order + 1 /\
    Order_Items final = Order_Items order /\ Order_AmountMinor final = Order_AmountMinor order /\
    v'.2 = v.2 ++
      [Loaded order;
       Refunded (Order_ID order) (refund_amount amountMinor order) PaymentStatusRefunded None;
       Released (Order_ID order); Saved (Order_ID order) OrderStatusRefunded].

Lemma charged_not_terminal order : charged (Order_Status order) = true ->
  terminal (Order_Status order) = false /\ Order_Status order <> OrderStatusRefunded /\
  Order_Status order <> OrderStatusCanceled /\ holds_stock (Order_Status order) = true.
Proof.
  unfold charged, terminal, holds_stock. rewrite orb_true_iff, !String.eqb_eq. by intros [->| ->].
Qed.

(** With the refund accepted, a refund saga that runs alone takes a paid or
    confirmed order to refunded: one refund of the requested amount or of the
    whole, then the release of the inventory, then one save. *)
Theorem refund_refunds order amountMinor reason (w : World MemoryOrders.items) :
  charged (Order_Status order) = true -> w_orders w !! Order_ID order = Some order ->
  0 <= Order_Version order < maxInt64 ->
  let w' := (run (handle ext) (Refund o (Order_ID order) amountMinor reason) w).2 in
  refunded_from amountMinor order (w_orders w, w_effects w) (w_orders w', w_effects w').
Proof.
  intros Hch Hget Hver w'. unfold w'. apply alone_run. unfold Refund. aside_next.
  destruct (charged_not_terminal order Hch) as (Hterm & Hne & _ & _).
  apply (wp_seq _ _ _ (fun _ => refunded_from amountMinor order (w_orders w, w_effects w)));
    [|intros ? v Hv; aside_end; done].
  unfold refund_body. apply wp_call. cbn [alone fst snd]. unfold MemoryOrders.Get. rewrite Hget.
  simpl saga_effects. rewrite (proj2 (String.eqb_neq _ _) Hne), not_charged, Hch. simpl negb. cbv iota.
  apply wp_call. cbn [alone fst snd]. intros n. rewrite refund_accepted. cbv beta iota zeta.
  simpl (_ <>s? _). cbv iota. unfold releaseInventory. apply wp_bind; [apply _|].
  apply wp_call. cbn [alone fst snd]. intros ?. simpl wp.
  apply updateStatus_alone; [done|done|done|]. intros t.
  aside_end. eexists. split; [done|]. simpl. rewrite <- !app_assoc.
  split_and!; try done. rewrite wrap64_id by (unfold_widths; lia). done.
Qed.
End Reversal.
End Alone.
