(* ===== verification/SagaTurns.v ===== *)
(** * The books

    What the customer of an order was charged and got back, against the status
    of the order, when the requests and the sagas run one after the other over
    the in-memory repositories.  The books agree after every turn, whatever the
    inventory and the payment service answer; under concurrency they need not
    ([Scenarios]). *)

From S2P Require Import Prelude GoLib Domain OrderStore Prog Ports Saga SagaTraces OrderService World OrderSafety SagaRuns.

(** ** Money *)

Inductive transfer : Type :=
| Charge (amount : Z)
| Return (amount : Z).

(** A payment moves money when the service answers captured or authorized, a
    refund when it answers refunded. *)
Definition transfer_of (id : string) (e : effect) : option transfer :=
  match e with
  | Paid id' amount st None =>
      if (id' =s? id) && ((st =s? PaymentStatusCaptured) || (st =s? PaymentStatusAuthorized))
      then Some (Charge amount) else None
  | Refunded id' amount st None =>
      if (id' =s? id) && (st =s? PaymentStatusRefunded) then Some (Return amount) else None
  | _ => None
  end.

Definition transfers (id : string) (es : list effect) : list transfer := omap (transfer_of id) es.

(** An order and the money: nothing before the payment, its amount once it is
    paid, at most that amount back when it is refunded.  A canceled order cost
    nothing, or everything came back; or the payment service took the refund of
    the whole without an error and without calling it refunded. *)
Inductive account_ok (order : Order) (es : list effect) : Prop :=
| account_open :
    Order_Status order = OrderStatusPending \/ Order_Status order = OrderStatusReserved ->
    transfers (Order_ID order) es = [] -> account_ok order es
| account_charged :
    charged (Order_Status order) = true ->
    transfers (Order_ID order) es = [Charge (Order_AmountMinor order)] -> account_ok order es
| account_refunded amount :
    Order_Status order = OrderStatusRefunded -> 0 <= amount <= Order_AmountMinor order ->
    transfers (Order_ID order) es = [Charge (Order_AmountMinor order); Return amount] -> account_ok order es
| account_canceled :
    Order_Status order = OrderStatusCanceled ->
    transfers (Order_ID order) es = [] \/
    transfers (Order_ID order) es = [Charge (Order_AmountMinor order); Return (Order_AmountMinor order)] ->
    account_ok order es
| account_unclear st :
    Order_Status order = OrderStatusCanceled ->
    transfers (Order_ID order) es = [Charge (Order_AmountMinor order)] ->
    st <> PaymentStatusRefunded ->
    Refunded (Order_ID order) (Order_AmountMinor order) st None ∈ es -> account_ok order es.

(** The row of the books for an identifier. *)
Definition row (id : string) (v : view) : Prop :=
  match v.1 !! id with
  | Some order => Order_ID order = id /\ order_ok order /\ account_ok order v.2
  | None => transfers id v.2 = []
  end.

Definition books (v : view) : Prop := forall id, row id v.

(** ** One entry *)

Lemma transfers_app id es es' : transfers id (es ++ es') = transfers id es ++ transfers id es'.
Proof. apply omap_app. Qed.

Lemma account_app order es es' :
  transfers (Order_ID order) es' = [] -> account_ok order es -> account_ok order (es ++ es').
Proof.
  intros Ht Hs. assert (transfers (Order_ID order) (es ++ es') = transfers (Order_ID order) es) as E
    by (rewrite transfers_app, Ht; apply app_nil_r).
  destruct Hs; [eapply account_open|eapply account_charged|eapply account_refunded|eapply account_canceled|
    eapply account_unclear]; rewrite ?E; try eassumption. set_solver.
Qed.

Lemma row_app id m es es' : transfers id es' = [] -> row id (m, es) -> row id (m, es ++ es').
Proof.
  unfold row. simpl. intros Ht. destruct (m !! id) as [order|].
  - intros (Hid & Hok & Hs). split_and!; [done..|]. apply account_app; [by rewrite Hid|done].
  - intros Hr. by rewrite transfers_app, Hr, Ht.
Qed.

(** While a saga works on an order: the order it holds is the stored one, and
    the rows of the others are in order. *)
Record holds (order : Order) (v : view) : Prop := MkHolds {
  holds_stored : v.1 !! Order_ID order = Some order;
  holds_ok : order_ok order;
  holds_others : forall id, id <> Order_ID order -> row id v;
}.

Definition concerns (id : string) (e : effect) : Prop := forall id', id' <> id -> transfer_of id' e = None.

Lemma holds_effect order m es e :
  concerns (Order_ID order) e -> holds order (m, es) -> holds order (m, es ++ [e]).
Proof.
  intros He [H1 H2 H3]. split; [done..|]. intros id Hid. apply row_app; [|auto].
  unfold transfers. simpl. by rewrite He.
Qed.

Lemma concerns_paid id a st x : concerns id (Paid id a st x).
Proof. intros id' Hne. simpl. destruct x; [done|]. by rewrite (proj2 (String.eqb_neq _ _)). Qed.

Lemma concerns_refunded id a st x : concerns id (Refunded id a st x).
Proof. intros id' Hne. simpl. destruct x; [done|]. by rewrite (proj2 (String.eqb_neq _ _)). Qed.

Lemma holds_books order v : holds order v -> account_ok order v.2 -> books v.
Proof.
  destruct v as [m es]. intros [H1 H2 H3] Hs id. destruct (decide (id = Order_ID order)) as [->|Hne]; [|auto].
  unfold row. simpl in *. by rewrite H1.
Qed.

Lemma books_holds id order m es e :
  concerns id e -> transfer_of id e = None -> books (m, es) -> m !! id = Some order ->
  Order_ID order = id /\ holds order (m, es ++ [e]) /\ account_ok order (es ++ [e]).
Proof.
  intros He Hn Hb Hget. pose proof (Hb id) as Hr. unfold row in Hr. simpl in Hr. rewrite Hget in Hr.
  destruct Hr as (<- & Hok & Hs). split; [done|]. split.
  - apply holds_effect; [done|]. split; [done..|]. intros id _. apply Hb.
  - apply account_app; [|done]. unfold transfers. simpl. by rewrite Hn.
Qed.

Lemma holds_moved order new t m es :
  holds order (m, es) ->
  holds (moved order new t) (<[Order_ID order := moved order new t]> m, es ++ [Saved (Order_ID order) new]).
Proof.
  intros [H1 H2 H3]. split; [simpl; by rewrite lookup_insert_eq|done|]. simpl. intros id Hid.
  apply row_app; [done|]. unfold row. simpl. rewrite lookup_insert_ne by done. by apply H3.
Qed.

(** What is left of [account_ok] once the money of the order is known. *)
Lemma transfers_silent id es e : transfer_of id e = None -> transfers id (es ++ [e]) = transfers id es.
Proof. intros He. rewrite transfers_app. unfold transfers at 2. simpl. rewrite He. apply app_nil_r. Qed.

(** What an order that is not final has cost. *)
Lemma account_due order es :
  account_ok order es -> terminal (Order_Status order) = false ->
  transfers (Order_ID order) es = if charged (Order_Status order) then [Charge (Order_AmountMinor order)] else [].
Proof. by intros [[E|E] ?|Hc ?|? E|E|? E] Ht; rewrite ?E in *; [..|rewrite Hc| | |]. Qed.

Section Turns.
Context {rt : GoRuntime} (ext : Externals) (o : orchestrator).

#[local] Hint Resolve aside_metric aside_publish aside_emitEvent : oms.

(** A part that leaves the books in order. *)
Definition keeps {A} (p : M A) : Prop := forall v, books v -> wp (alone ext) p v (fun _ => books).

(** A status change of the order a saga holds. *)
Lemma update_holds order new v {B} (f : Order * option err -> M B) Q :
  Order_Status order <> new -> terminal (Order_Status order) = false -> holds order v ->
  (forall t v', holds (moved order new t) v' -> v'.2 = v.2 ++ [Saved (Order_ID order) new] ->
     wp (alone ext) (f (moved order new t, None)) v' Q) ->
  wp (alone ext) (updateStatus o order new ≫= f) v Q.
Proof.
  destruct v as [m es]. intros Hne Hterm Hh Hf. apply updateStatus_alone; [done..|apply Hh|].
  intros t. apply Hf; [|done]. by apply holds_moved.
Qed.

(** The last status change, and what is reported of it. *)
Lemma update_settles order new v {B} (f : Order * option err -> M B) :
  Order_Status order <> new -> terminal (Order_Status order) = false -> holds order v ->
  (forall t, account_ok (moved order new t) (v.2 ++ [Saved (Order_ID order) new])) ->
  (forall order', only aside_cmd (f (order', None))) ->
  wp (alone ext) (updateStatus o order new ≫= f) v (fun _ => books).
Proof.
  intros Hne Hterm Hh Hs Hf. apply update_holds; [done..|]. intros t v' Hh' Hv.
  apply wp_aside_end; [apply Hf|]. intros _. apply (holds_books _ _ Hh'). rewrite Hv. apply Hs.
Qed.

(** A saga that failed before any payment. *)
Lemma fail_settles order e v :
  Order_Status order <> OrderStatusCanceled -> terminal (Order_Status order) = false -> holds order v ->
  transfers (Order_ID order) v.2 = [] ->
  wp (alone ext) (failOrder o order OrderStatusCanceled e) v (fun _ => books).
Proof.
  intros Hne Hterm Hh Ht. unfold failOrder. apply wp_aside; [solve_only|]. intros _.
  apply update_settles; [done..| |intros; solve_only].
  intros t. apply account_canceled; [done|]. left. by rewrite transfers_silent.
Qed.

Lemma releaseInventory_holds order v :
  holds order v ->
  wp (alone ext) (releaseInventory order) v
    (fun _ v' => holds order v' /\ v'.2 = v.2 ++ [Released (Order_ID order)]).
Proof.
  destruct v as [m es]. intros Hh. apply wp_call. cbn [alone fst snd]. intros x.
  split; [|done]. by apply holds_effect.
Qed.

Lemma start_paid_settles order v :
  charged (Order_Status order) = true -> Order_Status order <> OrderStatusConfirmed ->
  holds order v -> transfers (Order_ID order) v.2 = [Charge (Order_AmountMinor order)] ->
  wp (alone ext) (start_paid o order) v (fun _ => books).
Proof.
  intros Hch Hne Hh Ht. unfold start_paid, handleConfirm.
  apply update_settles; [done|by apply charged_not_terminal|done| |intros; solve_only].
  intros t. apply account_charged; [done|]. by rewrite transfers_silent.
Qed.

Lemma start_reserved_settles order v :
  Order_Status order = OrderStatusReserved -> holds order v -> transfers (Order_ID order) v.2 = [] ->
  wp (alone ext) (start_reserved o order) v (fun _ => books).
Proof.
  destruct v as [m es]. intros Hst Hh Ht. unfold start_reserved, handlePayment. simpl in Ht.
  apply wp_bind; [apply _|]. apply wp_call. cbn [alone fst snd]. intros n.
  destruct (ext_pay ext n _ _ _) as [st answer]. cbv beta iota zeta. simpl fst. simpl snd.
  set (paid := Paid _ _ st answer).
  assert (holds order (m, es ++ [paid])) as Hp by (apply holds_effect; [apply concerns_paid|done]).
  assert (forall e, transfer_of (Order_ID order) paid = None ->
    wp (alone ext) (releaseInventory order;; failOrder o order OrderStatusCanceled e;;
      mret (order, Some e)) (m, es ++ [paid])
      (fun r v => wp (alone ext) match r with (_, Some _) => mret tt | (order, None) => start_paid o order end
                    v (fun _ => books))) as Hfail.
  { intros e Hn. eapply wp_seq; [apply _|by apply releaseInventory_holds|]. intros ? v' [Hh' Hv].
    eapply wp_seq; [apply _|apply fail_settles; rewrite ?Hst; try done|by intros ? v2 Hb].
    rewrite Hv. simpl. by rewrite !transfers_silent. }
  destruct answer as [e|]; [by apply Hfail|]. rewrite <- negb_orb.
  destruct (_ || _) eqn:Est; simpl negb; cbv iota; [|apply Hfail; simpl; by rewrite Est, andb_false_r].
  apply update_holds; [by rewrite Hst|by rewrite Hst|done|]. intros t v' Hh' Hv. apply wp_aside; [solve_only|].
  intros _. apply start_paid_settles; [done..|]. rewrite Hv. simpl.
  rewrite transfers_silent, transfers_app, Ht by done. unfold transfers, paid. simpl.
  by rewrite String.eqb_refl, Est.
Qed.

Lemma start_pending_settles order v :
  Order_Status order = OrderStatusPending -> holds order v -> transfers (Order_ID order) v.2 = [] ->
  wp (alone ext) (start_pending o order) v (fun _ => books).
Proof.
  destruct v as [m es]. intros Hst Hh Ht. unfold start_pending, handleReserve. simpl in Ht.
  apply wp_bind; [apply _|]. apply wp_call. cbn [alone fst snd]. intros n.
  set (reserved := Reserved _ _).
  assert (holds order (m, es ++ [reserved])) as Hp by (by apply holds_effect).
  destruct (ext_reserve ext n _ _) as [e|].
  - eapply wp_seq; [apply _|apply fail_settles; rewrite ?Hst; try done|by intros ? v2 Hb].
    simpl. by rewrite transfers_silent.
  - apply update_holds; [by rewrite Hst|by rewrite Hst|done|]. intros t v' Hh' Hv.
    apply wp_aside; [solve_only|]. intros _. apply start_reserved_settles; [done..|].
    rewrite Hv. simpl. by rewrite !transfers_silent.
Qed.

(** A saga loads its order. *)
Lemma load_settles id v (f : result Order -> M unit) :
  books v -> (forall e v', books v' -> wp (alone ext) (f (Err e)) v' (fun _ => books)) ->
  (forall order v', Order_ID order = id -> holds order v' -> account_ok order v'.2 ->
     wp (alone ext) (f (Ok order)) v' (fun _ => books)) ->
  wp (alone ext) (call (OrdersGet id) ≫= f) v (fun _ => books).
Proof.
  destruct v as [m es]. intros Hb Herr Hok. apply wp_call. cbn [alone fst snd].
  unfold MemoryOrders.Get. destruct (m !! id) as [order|] eqn:Hget; simpl saga_effects.
  - destruct (books_holds id order m es (Loaded order)) as (Hid & Hh & Ha); [by intros ? ?|done..|]. by apply Hok.
  - rewrite app_nil_r. by apply Herr.
Qed.

(** A program that neither stores orders nor pays. *)
Lemma keeps_calm A (p : M A) : only calm_cmd p -> keeps p.
Proof.
  intros Hp v Hb. assert (PreOrder (fun v v' => books v -> books v')) as Hpre by (split; unfold Reflexive, Transitive; auto).
  eapply wp_mono; [apply _|intros ? ? Hv; exact (Hv Hb)|].
  apply (wp_only calm_cmd (fun v v' => books v -> books v')); [apply _| |exact Hp].
  intros X c [m es] Q Hc HQ. destruct c; simpl in Hc; try discriminate Hc; simpl; intros; apply HQ; auto;
    intros Hbooks id'; apply row_app; auto. by destruct (MemoryOrders.Get id m).
Qed.

Lemma keeps_bind A B (p : M A) (f : A -> M B) : keeps p -> (forall a, keeps (f a)) -> keeps (p ≫= f).
Proof. intros Hp Hf v Hb. eapply wp_seq; [apply _|by apply Hp|]. intros a v' Hv. by apply Hf. Qed.

Lemma keeps_start id : keeps (start_body o id).
Proof.
  intros v Hb. unfold start_body. apply load_settles; [done|by intros; apply wp_aside_end; [solve_only|]|].
  intros order v' <- Hh Ha. apply wp_aside; [solve_only|]. intros _.
  destruct (_ =s? OrderStatusPending) eqn:E1; reflect_tests.
  { apply start_pending_settles; [done..|]. by rewrite (account_due _ _ Ha); rewrite E1. }
  destruct (_ =s? OrderStatusReserved) eqn:E2; reflect_tests.
  { apply start_reserved_settles; [done..|]. by rewrite (account_due _ _ Ha); rewrite E2. }
  destruct (_ =s? OrderStatusPaid) eqn:E3; reflect_tests; [|by apply (holds_books order)].
  apply start_paid_settles; rewrite ?E3; [done..|]. by rewrite (account_due _ _ Ha); rewrite E3.
Qed.

Lemma keeps_refund id amount reason : keeps (refund_body o id amount reason).
Proof.
  intros v Hb. unfold refund_body. apply load_settles; [done|by intros; apply wp_aside_end; [solve_only|]|].
  intros order [m es] <- Hh Ha. destruct (_ =s? OrderStatusRefunded) eqn:E1; [by apply (holds_books order)|].
  rewrite not_charged. destruct (charged (Order_Status order)) eqn:Ech; simpl negb; cbv iota;
    [|by apply (holds_books order)].
  destruct (charged_not_terminal order Ech) as (Hterm & Hne & _ & _).
  pose proof (account_due _ _ Ha Hterm) as Hdue. rewrite Ech in Hdue. simpl in Hdue.
  cbv zeta. set (a := refund_amount amount order). apply wp_call. cbn [alone fst snd]. intros n.
  destruct (ext_refund ext n _ _ _) as [st answer]. simpl fst. simpl snd.
  assert (holds order (m, es ++ [Refunded (Order_ID order) a st answer])) as Hh'
    by (apply holds_effect; [apply concerns_refunded|done]).
  assert (transfer_of (Order_ID order) (Refunded (Order_ID order) a st answer) = None ->
    books (m, es ++ [Refunded (Order_ID order) a st answer])) as Hsame.
  { intros Hn. apply (holds_books order); [done|]. apply account_app; [|done]. unfold transfers. simpl in *. by rewrite Hn. }
  destruct answer as [e|]; [by apply wp_aside_end; [solve_only|intros; apply Hsame]|].
  destruct (st =s? PaymentStatusRefunded) eqn:Est; simpl negb; cbv iota.
  2: { apply wp_aside_end; [solve_only|]. intros _. apply Hsame. simpl. by rewrite Est, andb_false_r. }
  eapply wp_seq; [apply _|by apply releaseInventory_holds|]. intros ? v' [Hr Hv].
  apply update_settles; [done..| |intros; solve_only]. intros t. apply (account_refunded _ _ a); [done| |].
  - apply (refund_amount_ok amount order), Hh.
  - rewrite transfers_silent, Hv by done. simpl. rewrite transfers_silent, transfers_app, Hdue by done.
    unfold transfers. simpl. by rewrite String.eqb_refl, Est.
Qed.

(** The refund of a cancellation: after an error the order stays as it was,
    otherwise it may be canceled. *)
Lemma cancel_refund_settles order v :
  holds order v -> account_ok order v.2 -> terminal (Order_Status order) = false ->
  wp (alone ext)
    (if charged (Order_Status order)
     then r ← call (PaymentRefund (Order_ID order) (Order_AmountMinor order) (Order_Currency order));
          mret (snd r)
     else mret None) v
    (fun answer v' => holds order v' /\
       match answer with
       | Some _ => account_ok order v'.2
       | None => forall t, account_ok (moved order OrderStatusCanceled t) (v'.2 ++ [Saved (Order_ID order) OrderStatusCanceled])
       end).
Proof.
  destruct v as [m es]. intros Hh Ha Hterm. pose proof (account_due _ _ Ha Hterm) as Hdue.
  destruct (charged (Order_Status order)).
  2: { split; [done|]. intros t. apply account_canceled; [done|]. left. by rewrite transfers_silent. }
  simpl in Hdue. apply wp_call. cbn [alone fst snd]. intros n.
  destruct (ext_refund ext n _ _ _) as [st [e|]]; simpl.
  - split; [apply holds_effect; [apply concerns_refunded|done]|]. by apply account_app.
  - split; [apply holds_effect; [apply concerns_refunded|done]|]. intros t.
    destruct (st =s? PaymentStatusRefunded) eqn:Est.
    + apply account_canceled; [done|]. right. rewrite transfers_silent, transfers_app by done. simpl.
      rewrite Hdue. unfold transfers. simpl. by rewrite String.eqb_refl, Est.
    + apply (account_unclear _ _ st); [done| |by reflect_tests|set_solver].
      rewrite transfers_silent, transfers_silent by (simpl; rewrite ?Est, ?andb_false_r; done). done.
Qed.

Lemma keeps_cancel id reason : keeps (cancel_body o id reason).
Proof.
  intros v Hb. unfold cancel_body. apply load_settles; [done|by intros; apply wp_aside_end; [solve_only|]|].
  intros order v' <- Hh Ha. fold (terminal (Order_Status order)) (holds_stock (Order_Status order))
    (charged (Order_Status order)). destruct (terminal (Order_Status order)) eqn:Hterm; [by apply (holds_books order)|].
  eapply (wp_seq _ _ _ (fun _ v1 => holds order v1 /\ account_ok order v1.2)).
  { destruct (holds_stock _); [|done]. eapply wp_mono; [apply _| |by apply releaseInventory_holds].
    intros ? v1 [H1 ->]. split; [done|]. by apply account_app. }
  intros ? v1 [H1 Ha1]. eapply wp_seq; [apply _|by apply cancel_refund_settles|].
  intros [e|] v2 [H2 Ha2]; [apply wp_aside_end; [solve_only|]; intros _; by apply (holds_books order)|].
  apply update_settles; [|done..|intros; solve_only]. intros E. by rewrite E in Hterm.
Qed.

Lemma keeps_job job : keeps (run_saga_job o job).
Proof.
  pose proof (calm_metric o) as Hm.
  destruct job; cbn [run_saga_job].
  - unfold Start. apply keeps_bind; [apply keeps_calm; solve_only|]. intros t.
    apply keeps_bind; [by apply keeps_calm|]. intros _. apply keeps_bind; [apply keeps_start|].
    intros _. apply keeps_calm. solve_only.
  - unfold Cancel. apply keeps_bind; [by apply keeps_calm|]. intros _.
    apply keeps_bind; [apply keeps_cancel|]. intros _. by apply keeps_calm.
  - unfold Refund. apply keeps_bind; [by apply keeps_calm|]. intros _.
    apply keeps_bind; [apply keeps_refund|]. intros _. by apply keeps_calm.
Qed.

(** A request stores a fresh order under an identifier that is not taken. *)
Lemma keeps_create order : fresh_order order -> keeps (call (OrdersCreate order)).
Proof.
  intros (Hok & Hst & _) [m es] Hb. cbn [call wp alone fst snd]. unfold MemoryOrders.Create.
  destruct (m !! Order_ID order) eqn:Hget; [done|]. intros id. unfold row. simpl.
  pose proof (Hb id) as Hr. unfold row in Hr. simpl in Hr.
  destruct (decide (Order_ID order = id)) as [<-|Hne].
  - rewrite lookup_insert_eq. rewrite Hget in Hr. split_and!; [done..|]. apply account_open; auto.
  - by rewrite lookup_insert_ne.
Qed.
End Turns.

(** ** Turns *)

Section Service.
Context `{ProtoMessage CreateOrderRequest} `{ProtoMessage CreateOrderResponse}
        `{ProtoMessage PayOrderRequest} `{ProtoMessage CancelOrderRequest}
        `{ProtoMessage RefundOrderRequest} `{ProtoMessage StatusResponse}.
Context {rt : GoRuntime} (ext : Externals) (s : OrderService) (o : orchestrator).

(** A turn: a request, a worker or a saga, from its start to its end. *)
Inductive turn : Type :=
| ClientTurn (c : client)
| SagaTurn (job : saga_job).

Definition turn_program (t : turn) : M unit :=
  match t with
  | ClientTurn c => client_thread s c
  | SagaTurn job => run_saga_job o job
  end.

Lemma keeps_turn t : svc_has_saga s = true -> keeps ext (turn_program t).
Proof.
  intros Hs. destruct t as [c|job]; [|apply keeps_job].
  apply (client_thread_closed s (fun A p => keeps ext p)); [apply keeps_calm|apply keeps_bind|
    apply keeps_create|done].
Qed.

(** C7. Taken in turns, the requests and the sagas keep the books: whatever is
    asked in whatever order, and however the inventory and the payment service
    answer, every order in the repository has cost exactly what its status
    says.  Nothing was charged before it is paid, its amount exactly once while
    it is paid or confirmed; a refunded order gave back at most its amount,
    once; a canceled one cost nothing or gave everything back, unless the
    payment service took the refund without calling it refunded.  No money
    moved for an order that is not there. *)
Theorem books_balance (turns : list turn) (w : World MemoryOrders.items) :
  svc_has_saga s = true -> initial w ->
  let w' := (run (handle ext) (for_each turns turn_program) w).2 in
  (forall id order, w_orders w' !! id = Some order ->
     Order_ID order = id /\ account_ok order (w_effects w')) /\
  (forall id, w_orders w' !! id = None -> transfers id (w_effects w') = []).
Proof.
  intros Hs (_ & Ho & He) w'. cut (books (w_orders w', w_effects w')).
  { intros Hb. split; intros id.
    - intros order Hget. pose proof (Hb id) as Hr. unfold row in Hr. simpl in Hr. rewrite Hget in Hr. tauto.
    - intros Hget. pose proof (Hb id) as Hr. unfold row in Hr. simpl in Hr. by rewrite Hget in Hr. }
  unfold w'. apply (alone_run ext). apply wp_for_each; [apply _|intros t v _; by apply keeps_turn|].
  intros id. unfold row. simpl. unfold orders in Ho. simpl in Ho. by rewrite Ho, He, lookup_empty.
Qed.
End Service.
