(* ===== verification/Replay.v ===== *)
(** * Repeating a request with the same idempotency key

    The idempotency wrapper of OrderService.v over the in-memory idempotency
    repository: the first request runs its handler and stores the outcome; every
    later one with the same key gets that outcome and runs nothing. *)

From S2P Require Import Prelude GoLib Json Sha256 Domain OrderStore IdempotencyStore Prog Ports SagaTraces OrderService OrderServiceSpec World.

(** The commands handlers use: none of the idempotency repository. *)
Definition no_idem_cmd X (c : port X) : bool :=
  match c with
  | IdemCreateProcessing _ _ _ | IdemMarkDone _ _ _ | IdemMarkFailed _ _ _ | IdemDeleteExpired _ _ => false
  | _ => true
  end.

Section Replay.
Context {S : Type} {R : OrderRepository S} {rt : GoRuntime} (ext : Externals).
Context (s : OrderService).
Hypothesis enabled : svc_has_idempotency s = true.

Lemma no_idem_handle X (c : port X) (w : World S) :
  no_idem_cmd X c = true -> w_idem (handle ext X c w).2 = w_idem w.
Proof.
  intros Hc. unfold handle. destruct c; simpl in Hc; try discriminate Hc; simpl;
    repeat case_match; simplify_eq/=; done.
Qed.

Lemma no_idem_run {A} (p : M A) : only no_idem_cmd p ->
  forall w : World S, w_idem (run (handle ext) p w).2 = w_idem w.
Proof.
  induction p as [a|X c k IH]; intros Hp w; [done|]. destruct Hp as [Hc Hk]. simpl.
  pose proof (no_idem_handle X c w Hc) as Hw. destruct (handle ext X c w) as [x w']. simpl in *.
  rewrite <- Hw. by apply IH.
Qed.

Context {Req T : Type} `{!ProtoMessage Req} `{!ProtoMessage T} `{!ProtoJSONLaws T}.

Lemma key_trimmed ctx key : readIdempotencyKey ctx = Resp key -> TrimSpace key = key /\ key <> "".
Proof.
  assert (forall md k, header_key md = Some k -> TrimSpace k = k /\ k <> "") as Hh.
  { intros md k. unfold header_key. repeat case_match; intros; simplify_eq/=; try done.
    autorewrite with oms. split; [done|]. by reflect_tests. }
  unfold readIdempotencyKey. repeat case_match; intros; simplify_eq; eauto.
Qed.

Lemma hash_trimmed method (req : option Req) hash :
  buildIdempotencyRequestHash method req = Ok hash -> TrimSpace hash = hash /\ hash <> "".
Proof.
  unfold buildIdempotencyRequestHash. repeat case_match; intros; simplify_eq. apply digest_text.
Qed.

(** The record stored for an outcome. *)
Definition outcome_record (rec : IdempotencyRecord) (key hash : string) (r : reply T) : Prop :=
  Idem_Key rec = key /\ Idem_RequestHash rec = hash /\
  match r with
  | Resp resp => Idem_Status rec = IdempotencyStatusDone /\ protojson_Marshal resp = Ok (Idem_ResponseBody rec)
  | Fail st => failure_record rec st
  end.

(** What a repeated request is answered. *)
Definition replayed (r : reply T) : reply T :=
  match r with
  | Resp resp => Resp resp
  | Fail st => Fail (replayed_status st)
  end.

(** The outcomes that can be stored: the response encodes, the code of the
    failure is one of gRPC's. *)
Definition storable (r : reply T) : Prop :=
  match r with
  | Resp resp => exists data, protojson_Marshal resp = Ok data
  | Fail st => is_grpc_code (status_code st) /\ status_code st <> codes_OK
  end.

Lemma markStatus_found now key st body code (m : MemoryIdempotency.items) rec :
  TrimSpace key = key -> key <> "" -> m !! key = Some rec ->
  MemoryIdempotency.markStatus now key st body code m =
  (None, <[key := MkIdempotencyRecord (Idem_Key rec) (Idem_RequestHash rec) body code st
                    (Idem_TTLAt rec) (Idem_CreatedAt rec) now]> m).
Proof.
  intros Ht Hne Hm. unfold MemoryIdempotency.markStatus. rewrite Ht, Hm.
  by rewrite (proj2 (String.eqb_neq _ _) Hne).
Qed.

(** The first request stores its outcome. *)
Lemma first_request ctx method (req : option Req) (h : M (reply T)) key hash (w : World S) :
  readIdempotencyKey ctx = Resp key -> buildIdempotencyRequestHash method req = Ok hash ->
  only no_idem_cmd h -> w_idem w !! key = None ->
  let '(r, w') := run (handle ext) (withIdempotency s ctx method req h) w in
  storable r -> exists rec, w_idem w' !! key = Some rec /\ outcome_record rec key hash r.
Proof.
  intros Hkey Hhash Hh Hnone. destruct (key_trimmed _ _ Hkey) as [Htk Hnk].
  destruct (hash_trimmed _ _ _ Hhash) as [Hth Hnh].
  unfold withIdempotency. rewrite enabled, Hkey, Hhash. simpl negb. cbv iota.
  run_step. run_step. unfold MemoryIdempotency.CreateProcessing. rewrite Htk, Hth.
  rewrite (proj2 (String.eqb_neq _ _) Hnk), (proj2 (String.eqb_neq _ _) Hnh).
  cbn [w_idem log]. rewrite Hnone. cbn [fst snd].
  set (w1 := log [] _). rewrite run_bind.
  pose proof (no_idem_run h Hh w1) as Hidem.
  destruct (run (handle ext) h w1) as [r w2]. simpl in Hidem.
  set (rec0 := MkIdempotencyRecord _ _ _ _ _ _ _ _) in Hidem.
  assert (w_idem w2 !! key = Some rec0) as Hrec by (rewrite Hidem; apply lookup_insert_eq).
  destruct r as [resp|st].
  - unfold cacheIdempotencySuccess. destruct (protojson_Marshal resp) as [data|e] eqn:Em.
    + run_step. unfold MemoryIdempotency.MarkDone. rewrite (markStatus_found _ _ _ _ _ _ rec0) by done.
      simpl. intros _. eexists. rewrite lookup_insert_eq. split; [done|]. by split_and!.
    + simpl. intros [data Hd]. congruence.
  - unfold cacheIdempotencyFailure. rewrite run_bind. run_step.
    unfold MemoryIdempotency.MarkFailed. rewrite (markStatus_found _ _ _ _ _ _ rec0) by done.
    simpl. intros [Hc Hok]. eexists. rewrite lookup_insert_eq. split; [done|].
    rewrite (proj2 (Z.eqb_neq _ _) Hok). by split_and!.
Qed.

(** A later request with the same key and payload reads it. *)
Lemma later_request ctx method (req : option Req) (h : M (reply T)) key hash rec r (w : World S) :
  readIdempotencyKey ctx = Resp key -> buildIdempotencyRequestHash method req = Ok hash ->
  w_idem w !! key = Some rec -> outcome_record rec key hash r -> storable r ->
  run (handle ext) (withIdempotency s ctx method req h) w = (replayed r, log [] (log [] w)).
Proof.
  intros Hkey Hhash Hw (Hk & Hrh & Hr) Hst. destruct (key_trimmed _ _ Hkey) as [Htk Hnk].
  destruct (hash_trimmed _ _ _ Hhash) as [Hth Hnh].
  unfold withIdempotency. rewrite enabled, Hkey, Hhash. simpl negb. cbv iota.
  run_step. run_step. unfold MemoryIdempotency.CreateProcessing, MemoryIdempotency.cloneIdempotencyRecord.
  rewrite Htk, Hth, (proj2 (String.eqb_neq _ _) Hnk), (proj2 (String.eqb_neq _ _) Hnh).
  cbn [w_idem log]. rewrite Hw, Hrh, String.eqb_refl. cbn [negb]. cbv iota beta.
  unfold mret, prog_mret. cbn [run saga_effects].
  assert (replayIdempotency ErrIdempotencyKeyAlreadyExists rec = replayed r) as ->.
  2: { by destruct w. }
  unfold replayIdempotency. simpl errors_Is. cbv iota. destruct r as [resp|st]; simpl in *.
  - destruct Hr as [-> Hm]. simpl (_ =s? _).
    rewrite (proj2 (String.eqb_neq _ _) (protojson_nonempty _ _ Hm)).
    by rewrite (protojson_round_trip _ _ Hm).
  - pose proof Hr as (Hs & _). rewrite Hs. simpl. by rewrite (decode_failure _ _ Hr) by apply Hst.
Qed.

(** C8. Idempotency: after a request with a new key has run, a second request
    with the same key, method and payload, made in any later state in which the
    key's record is still there, returns the same response (or the same failure)
    without running its handler: nothing of the state changes. *)
Theorem idempotent_replay ctx method (req : option Req) (h h' : M (reply T)) key hash (w w2 : World S) :
  readIdempotencyKey ctx = Resp key -> buildIdempotencyRequestHash method req = Ok hash ->
  only no_idem_cmd h -> w_idem w !! key = None ->
  let '(r, w1) := run (handle ext) (withIdempotency s ctx method req h) w in
  storable r -> w_idem w2 !! key = w_idem w1 !! key ->
  run (handle ext) (withIdempotency s ctx method req h') w2 = (replayed r, log [] (log [] w2)).
Proof.
  intros Hkey Hhash Hh Hnone.
  pose proof (first_request ctx method req h key hash w Hkey Hhash Hh Hnone) as Hfirst.
  destruct (run _ _ w) as [r w1]. intros Hst Hsame. destruct (Hfirst Hst) as (rec & Hrec & Hout).
  rewrite Hrec in Hsame. by eapply later_request.
Qed.

(** C9. A key that was used for a request is refused for another payload, with
    AlreadyExists and without running the handler, whatever the outcome of the
    first request was. *)
Theorem key_reuse_refused ctx method (req : option Req) (h : M (reply T)) key hash rec (w : World S) :
  readIdempotencyKey ctx = Resp key -> buildIdempotencyRequestHash method req = Ok hash ->
  w_idem w !! key = Some rec -> Idem_RequestHash rec <> hash ->
  run (handle ext) (withIdempotency s ctx method req h) w =
  (Fail (Status codes_AlreadyExists "idempotency key is already used with different request payload"),
   log [] (log [] w)).
Proof.
  intros Hkey Hhash Hw Hne. destruct (key_trimmed _ _ Hkey) as [Htk Hnk].
  destruct (hash_trimmed _ _ _ Hhash) as [Hth Hnh].
  unfold withIdempotency. rewrite enabled, Hkey, Hhash. simpl negb. cbv iota.
  run_step. run_step. unfold MemoryIdempotency.CreateProcessing, MemoryIdempotency.cloneIdempotencyRecord.
  rewrite Htk, Hth, (proj2 (String.eqb_neq _ _) Hnk), (proj2 (String.eqb_neq _ _) Hnh).
  cbn [w_idem log]. rewrite Hw, (proj2 (String.eqb_neq _ _) Hne). by destruct w.
Qed.

(** The handlers that run under a key satisfy the hypothesis on [h]. *)
Lemma create_items_no_idem t currency todo : forall idx items sum,
  only no_idem_cmd (create_items t currency idx todo items sum).
Proof.
  induction todo as [|[item|] todo IH]; intros idx items sum; simpl; [apply only_ret| |apply only_ret].
  destruct (PItem_Price item) as [price|]; [|apply only_ret].
  repeat (match goal with |- only _ (if ?b then _ else _) => destruct b; [apply only_ret|] end).
  apply only_vis; [reflexivity|]. intros id. apply IH.
Qed.

Lemma handlers_no_idem create pay cancel refund :
  only no_idem_cmd (createOrderInternal s create) /\ only no_idem_cmd (payOrderInternal s pay) /\
  only no_idem_cmd (cancelOrderInternal s cancel) /\ only no_idem_cmd (refundOrderInternal s refund).
Proof.
  pose proof create_items_no_idem.
  unfold createOrderInternal, payOrderInternal, cancelOrderInternal, refundOrderInternal, appendStatusTimeline,
    appendTimelineEvent, reload_status, loadOrder, saveOrder, runSagaAsync.
  split_and!; solve_only.
Qed.
End Replay.
