(* ===== verification/Workers.v ===== *)
(** * The background workers over the in-memory repositories

    The programs of OutboxWorker.v and CleanupWorker.v run to their end against
    the state of World.v: what is left in the repositories afterwards. *)

From S2P Require Import Prelude GoLib Domain OrderStore OutboxStore IdempotencyStore Prog Ports SagaTraces CleanupWorker World.
Import MemoryIdempotency.

Section Cleanup.
Context {S : Type} {R : OrderRepository S} {rt : GoRuntime} {laws : GoRuntimeLaws rt}.
Context (ext : Externals) (cw : CleanupWorker).

Lemma pruned_refl before (m : items) : pruned before m m.
Proof. split; [done|]. intros k r H1 H2. congruence. Qed.

Lemma pruned_trans before (m1 m2 m3 : items) : pruned before m1 m2 -> pruned before m2 m3 -> pruned before m1 m3.
Proof.
  intros [Hs1 Hp1] [Hs2 Hp2]. split; [by etrans|]. intros k r Hk Hn.
  destruct (m2 !! k) as [r'|] eqn:E; [|by eauto].
  rewrite (lookup_weaken _ _ _ _ E Hs1) in Hk. simplify_eq. by eauto.
Qed.

(** A pruned map without expired records keeps exactly the others. *)
Lemma pruned_exact before (m m' : items) :
  pruned before m m' -> (forall k r, m' !! k = Some r -> expired before r = false) ->
  forall k r, m' !! k = Some r <-> m !! k = Some r /\ expired before r = false.
Proof.
  intros Hp Hn k r. split.
  - intros Hk. split; [|by eauto]. by eapply lookup_weaken; [|apply Hp].
  - intros [Hk He]. by eapply pruned_keeps.
Qed.

Lemma no_expired_count before (m : items) :
  (forall k r, m !! k = Some r -> expired before r = false) -> expired_count before m = 0%nat.
Proof.
  intros H. unfold expired_count.
  assert (List.filter (expired before) (map snd (map_to_list m)) = []) as ->; [|done].
  destruct (List.filter _ _) as [|r l] eqn:E; [done|].
  assert (In r (List.filter (expired before) (map snd (map_to_list m)))) as [Hin He]%filter_In
    by (rewrite E; by left).
  apply list_elem_of_In, elem_of_values in Hin as [k Hk]. rewrite (H k r Hk) in He. done.
Qed.

Lemma delete_batches_run fuel : forall before total (w : World S),
  (forall n, ext_ctx ext n = None) -> IsZero before = false -> 0 < cleanup_batchSize cw ->
  0 <= total -> total + Z.of_nat (expired_count before (w_idem w)) < 2 ^ 63 ->
  (expired_count before (w_idem w) < fuel)%nat ->
  exists w', run (handle ext) (delete_batches cw fuel before total) w =
    (Some (total + Z.of_nat (expired_count before (w_idem w)), None), w') /\
    pruned before (w_idem w) (w_idem w') /\
    (forall k r, w_idem w' !! k = Some r -> expired before r = false).
Proof.
  induction fuel as [|fuel IH]; intros before total w Hctx Hb Hbatch Ht0 Ht Hfuel; [lia|].
  cbn [delete_batches]. run_step. rewrite Hctx. set (w1 := log [] w). run_step.
  destruct (DeleteExpired (w_tick w1) (ext_clock ext (w_tick w1)) before (cleanup_batchSize cw) (w_idem w1))
    as [r m'] eqn:E.
  assert (exists n, r = Ok n) as [n ->].
  { rewrite DeleteExpired_loop in E. simplify_eq. eauto. }
  pose proof (DeleteExpired_spec _ _ _ _ _ _ _ E) as Hspec. unfold effective_before in Hspec.
  rewrite Hb in Hspec. destruct Hspec as (Hp & Hn0 & Hn & Hle & Hall).
  unfold w1 in *. cbn [w_idem log] in *. clear w1. cbv zeta.
  rewrite wrap64_id by (unfold_widths; lia).
  set (w2 := log [] (with_idem m' (log [] w))).
  assert (exists w3, run (handle ext) (when (n >? 0) (call (WorkerMetric (CleanupDeletedTotal n)))) w2 = (tt, w3)
          /\ w_idem w3 = m') as (w3 & Hrun & Hw3).
  { destruct (n >? 0); simpl; [eexists; split; [done|done]|]. eexists; split; [done|done]. }
  rewrite run_bind, Hrun. destruct (Z.ltb_spec n (cleanup_batchSize cw)).
  - simpl. exists w3. rewrite Hw3. rewrite (no_expired_count before m') in Hn by eauto.
    replace (total + n) with (total + Z.of_nat (expired_count before (w_idem w))) by lia. by eauto.
  - destruct (IH before (total + n) w3) as (w' & Hr & Hp' & Hall'); rewrite ?Hw3; try done; try lia.
    exists w'. rewrite Hr, Hw3 in *.
    replace (total + n + Z.of_nat (expired_count before m'))
      with (total + Z.of_nat (expired_count before (w_idem w))) by lia.
    split; [done|]. split; [|done].
    by eapply pruned_trans.
Qed.

(** C26. [CleanupWorker.DeleteExpired] terminates, one round per expired record
    being enough, and deletes exactly the records whose TTL is not after
    [before], reporting their number. *)
Theorem cleanup_complete fuel before (w : World S) :
  (forall n, ext_ctx ext n = None) -> IsZero before = false -> 0 < cleanup_batchSize cw ->
  Z.of_nat (expired_count before (w_idem w)) < 2 ^ 63 ->
  (expired_count before (w_idem w) < fuel)%nat ->
  exists w', run (handle ext) (CleanupDeleteExpired cw fuel before) w =
    (Some (Z.of_nat (expired_count before (w_idem w)), None), w') /\
    forall k r, w_idem w' !! k = Some r <-> w_idem w !! k = Some r /\ expired before r = false.
Proof.
  intros Hctx Hb Hbatch Hmax Hfuel. unfold CleanupDeleteExpired. rewrite Hb.
  destruct (delete_batches_run fuel before 0 w) as (w' & Hr & Hp & Hn); try done; try lia.
  exists w'. split; [exact Hr|]. by apply pruned_exact.
Qed.
End Cleanup.
