(* ===== verification/OutboxDelivery.v ===== *)
(** * The outbox is drained

    The outbox worker of OutboxWorker.v over the in-memory outbox: with a
    broker that accepts and a context that lives, enough polls deliver every
    message that waits. *)

From S2P Require Import Prelude GoLib Domain OrderStore OutboxStore Prog Ports SagaTraces OutboxWorker World.
Import MemoryOutbox.

(** ** Records by message *)

Definition outbox_keyed (m : records) : Prop := forall id r, m !! id = Some r -> OutboxMessage_ID (rec_msg r) = id.

Lemma outbox_keyed_insert m r id : outbox_keyed m -> OutboxMessage_ID (rec_msg r) = id -> outbox_keyed (<[id := r]> m).
Proof. intros Hm Hid id' r' [[<- <-]|[_ H]]%lookup_insert_Some; [done|by apply Hm]. Qed.

Lemma Enqueue_keyed uuid t msg m : outbox_keyed m -> outbox_keyed (Enqueue uuid t msg m).2.
Proof. intros H. unfold Enqueue. destruct (_ =s? _); simpl; by apply outbox_keyed_insert. Qed.

Lemma mark_keyed status t id m : outbox_keyed m -> outbox_keyed (mark status t id m).2.
Proof.
  intros H. unfold mark. destruct (m !! id) as [r|] eqn:E; [|done]. apply outbox_keyed_insert; [done|exact (H id r E)].
Qed.

(** The messages that wait: pending, or pulled and not marked. *)
Definition waiting (m : records) : gset string := dom (filter (fun p => backlog p.2 = true) m).

Lemma elem_of_waiting m id : id ∈ waiting m <-> exists r, m !! id = Some r /\ backlog r = true.
Proof.
  unfold waiting. rewrite elem_of_dom. unfold is_Some. setoid_rewrite map_lookup_filter_Some. simpl. naive_solver.
Qed.

(** [id] was delivered between the two. *)
Definition sent_from (m m' : records) (id : string) : Prop :=
  exists r r', m !! id = Some r /\ m' !! id = Some r' /\ rec_msg r' = rec_msg r /\
    rec_createdAt r' = rec_createdAt r /\ rec_status r' = "sent".

(** Exactly the messages of [ids] were delivered. *)
Definition delivered (ids : gset string) (m m' : records) : Prop := forall id,
  (id ∈ ids -> sent_from m m' id) /\ (id ∉ ids -> m' !! id = m !! id).

Lemma delivered_refl m : delivered ∅ m m.
Proof. intros id. split; [set_solver|done]. Qed.

Lemma delivered_trans x y (m1 m2 m3 : records) : delivered x m1 m2 -> delivered y m2 m3 -> delivered (x ∪ y) m1 m3.
Proof.
  intros H1 H2 id. destruct (H1 id) as [Hin1 Hout1], (H2 id) as [Hin2 Hout2].
  split; [|intros [? ?]%not_elem_of_union; rewrite Hout2 by done; by apply Hout1].
  intros Hid. destruct (decide (id ∈ y)) as [Hy|Hy].
  - destruct (Hin2 Hy) as (r2 & r3 & E2 & E3 & M3 & C3 & S3). destruct (decide (id ∈ x)) as [Hx|Hx].
    + destruct (Hin1 Hx) as (r1 & r2' & E1 & E2' & M2 & C2 & S2). simplify_eq.
      exists r1, r3. split_and!; congruence.
    + rewrite (Hout1 Hx) in E2. by exists r2, r3.
  - assert (id ∈ x) as Hx by set_solver. destruct (Hin1 Hx) as (r1 & r2 & E1 & E2 & M2 & C2 & S2).
    exists r1, r2. rewrite (Hout2 Hy). by split_and!.
Qed.

Lemma delivered_keyed ids m m' : delivered ids m m' -> outbox_keyed m -> outbox_keyed m'.
Proof.
  intros H Hk id r Hr. destruct (H id) as [Hin Hout]. destruct (decide (id ∈ ids)) as [Hid|Hid].
  - destruct (Hin Hid) as (r1 & r2 & E1 & E2 & M & _). simplify_eq. rewrite M. by apply (Hk id).
  - apply (Hk id). by rewrite <- (Hout Hid).
Qed.

Lemma delivered_waiting ids m m' : delivered ids m m' -> waiting m' = waiting m ∖ ids.
Proof.
  intros H. apply set_eq. intros id. rewrite elem_of_difference, !elem_of_waiting. destruct (H id) as [Hin Hout].
  destruct (decide (id ∈ ids)) as [Hid|Hid]; [|rewrite Hout by done; naive_solver].
  destruct (Hin Hid) as (r & r' & _ & E & _ & _ & S). split; [|naive_solver].
  intros (r2 & E2 & Hb). simplify_eq. unfold backlog in Hb. rewrite S in Hb. done.
Qed.

Lemma delivered_dom ids m m' id : delivered ids m m' -> is_Some (m !! id) -> is_Some (m' !! id).
Proof.
  intros H Hid. destruct (H id) as [Hin Hout]. destruct (decide (id ∈ ids)) as [Hi|Hi]; [|by rewrite Hout].
  destruct (Hin Hi) as (r & r' & _ & -> & _). done.
Qed.

Lemma mark_delivered t id m : is_Some (m !! id) -> delivered {[id]} m (mark "sent" t id m).2.
Proof.
  intros [r Hr] id'. unfold mark. rewrite Hr. simpl. split.
  - intros ->%elem_of_singleton. eexists r, _. by rewrite lookup_insert_eq.
  - intros Hne%not_elem_of_singleton. by rewrite lookup_insert_ne.
Qed.

Definition pending (m : records) (id : string) : Prop := exists r, m !! id = Some r /\ rec_status r = "pending".

Lemma pending_waiting m id : pending m id -> id ∈ waiting m.
Proof. intros (r & Hr & Hs). apply elem_of_waiting. exists r. split; [done|]. unfold backlog. by rewrite Hs. Qed.

Lemma delivered_pending ids m m' id : delivered ids m m' -> pending m' id -> pending m id /\ id ∉ ids.
Proof.
  intros H (r & Hr & Hs). destruct (H id) as [Hin Hout]. destruct (decide (id ∈ ids)) as [Hi|Hi].
  - destruct (Hin Hi) as (r1 & r2 & _ & E & _ & _ & S). simplify_eq. congruence.
  - split; [|done]. exists r. by rewrite <- (Hout Hi).
Qed.

(** ** A pull *)

Section Pull.
Context {rt : GoRuntime} {laws : GoRuntimeLaws rt}.

Lemma pulled_waiting loop t limit m id : id ∈ pulled loop t limit m -> id ∈ waiting m.
Proof.
  intros H%pulled_eligible. unfold eligible in H. apply elem_of_waiting. destruct (m !! id) as [r|]; [|done].
  exists r. split; [done|]. unfold claimable in H. unfold backlog.
  destruct (rec_status r =s? "pending"), (rec_status r =s? "processing"); done.
Qed.

Lemma pulled_NoDup loop t limit m : NoDup (pulled loop t limit m).
Proof.
  unfold pulled, chosen. eapply sublist_NoDup; [|apply sublist_take].
  apply NoDup_ListNoDup, List.NoDup_filter. apply NoDup_ListNoDup, visit_order_NoDup.
Qed.

(** A pull that is not full takes every pending message. *)
Lemma pulled_all loop t limit m : 0 < limit ->
  Z.of_nat (length (pulled loop t limit m)) = limit \/ forall id, pending m id -> id ∈ pulled loop t limit m.
Proof.
  intros Hl. unfold pulled, chosen, effective_limit. destruct (Z.leb_spec limit 0); [lia|].
  set (l := List.filter _ _). destruct (Nat.le_gt_cases (Z.to_nat limit) (length l)).
  - left. rewrite length_take. lia.
  - right. intros id (r & Hr & Hs). rewrite take_ge by lia. apply list_elem_of_In, filter_In.
    rewrite <- list_elem_of_In, elem_of_visit_order. split; [by eexists|]. unfold eligible, claimable. by rewrite Hr, Hs.
Qed.

(** The messages come with the identifiers of their records. *)
Lemma pulled_messages loop t limit m : outbox_keyed m ->
  map OutboxMessage_ID (flat_map (message_at m) (pulled loop t limit m)) = pulled loop t limit m.
Proof.
  intros Hk. assert (forall id, id ∈ pulled loop t limit m -> is_Some (m !! id)) as H.
  { intros id (r & Hr & _)%pulled_waiting%elem_of_waiting. by eexists. }
  induction (pulled loop t limit m) as [|id ids IH]; [done|]. simpl. rewrite map_app, IH by (intros; apply H; by constructor).
  destruct (H id) as [r Hr]; [by constructor|]. unfold message_at. rewrite Hr. simpl. by rewrite (Hk id r Hr).
Qed.

(** Delivered after a pull is delivered. *)
Lemma delivered_after_pull loop t limit m m' :
  delivered (list_to_set (pulled loop t limit m)) (PullPending loop t limit m).2 m' ->
  delivered (list_to_set (pulled loop t limit m)) m m'.
Proof.
  intros H id. destruct (H id) as [Hin Hout]. rewrite elem_of_list_to_set in *.
  pose proof (PullPending_store loop t limit m id) as Hst. unfold claimed in Hst.
  split; intros Hid; [rewrite decide_True in Hst by done|rewrite decide_False in Hst by done].
  - destruct (Hin Hid) as (r & r' & E & E' & M & C & S). rewrite E in Hst.
    destruct (m !! id) as [r0|] eqn:E0; [|done]. injection Hst as ->. exists r0, r'. by split_and!.
  - by rewrite (Hout Hid).
Qed.
End Pull.

(** ** Polls in a row *)

Section Polls.
Context (w : Worker).

Definition idle (m : records) : Prop := forall id, ~ pending m id.

Lemma idle_delivered ids m m' : delivered ids m m' -> idle m -> idle m'.
Proof. intros H Hi id [Hp _]%(delivered_pending _ _ _ _ H). by apply (Hi id). Qed.

(** What [k] polls deliver. *)
Definition polled (k : nat) (m m' : records) : Prop := exists ids, delivered ids m m' /\ ids ⊆ waiting m /\
  (Z.of_nat k * batchSize w <= Z.of_nat (size ids) \/ idle m').

Lemma polled_one m m' ids : delivered ids m m' -> ids ⊆ waiting m ->
  Z.of_nat (size ids) = batchSize w \/ idle m' -> polled 1 m m'.
Proof. intros H1 H2 H3. exists ids. split_and!; [done|done|]. destruct H3; [left; lia|by right]. Qed.

Lemma polled_add k j m1 m2 m3 : polled k m1 m2 -> polled j m2 m3 -> polled (k + j) m1 m3.
Proof.
  intros (x & Hx & Sx & Cx) (y & Hy & Sy & Cy). rewrite (delivered_waiting _ _ _ Hx) in Sy.
  exists (x ∪ y). split_and!; [by eapply delivered_trans|set_solver|].
  destruct Cx as [Cx|Cx]; [|right; by eapply idle_delivered]. destruct Cy as [Cy|Cy]; [left|by right].
  rewrite size_union by set_solver. lia.
Qed.

(** Enough polls leave nothing pending. *)
Lemma polled_enough k m m' : polled k m m' -> Z.of_nat (size (waiting m)) <= Z.of_nat k * batchSize w -> idle m'.
Proof.
  intros (ids & Hd & Hs & [Hc|Hi]) Hk; [|done]. assert (ids ≡ waiting m) as Heq.
  { apply set_subseteq_antisymm; [done|]. assert (size (waiting m ∖ ids) = 0%nat) as H0 by (rewrite size_difference by done; lia).
    apply size_empty_inv in H0. set_solver. }
  intros id [Hp Hn]%(delivered_pending _ _ _ _ Hd). apply Hn. rewrite Heq. by apply pending_waiting.
Qed.
End Polls.

(** ** A poll *)

Section Worker.
Context {S : Type} {R : OrderRepository S} {rt : GoRuntime} {laws : GoRuntimeLaws rt}.
Context (ext : Externals) (w : Worker).
Context (Hctx : forall n, ext_ctx ext n = None) (Hbroker : forall n e, ext_publish ext n MainPublisher e = None).
Context (Hattempts : 0 < maxAttempts w) (Hbatch : 0 < batchSize w).

(** Commands that leave the outbox alone. *)
Lemma refresh_run (st : World S) : exists st', run (handle ext) refreshBacklogMetrics st = (tt, st') /\ w_outbox st' = w_outbox st.
Proof.
  unfold refreshBacklogMetrics. run_step. unfold Stats. run_step. destruct (_ || _); eexists; by split.
Qed.

Lemma process_event_run event (st : World S) : is_Some (w_outbox st !! OutboxMessage_ID event) ->
  exists st', run (handle ext) (process_event w event) st = (tt, st') /\
    delivered {[OutboxMessage_ID event]} (w_outbox st) (w_outbox st').
Proof.
  intros Hr. unfold process_event, publishWithRetry.
  destruct (Z.to_nat (maxAttempts w)) as [|n] eqn:E; [lia|]. cbn [publish_attempts].
  rewrite run_bind. run_step. rewrite Hbroker. cbv iota beta. run_step.
  change (run (handle ext) (mret None) ?st) with (@None err, st). cbv iota beta. run_step.
  unfold MarkSent. cbn [w_outbox log]. pose proof (mark_delivered (ext_clock ext (w_tick (log [] (log [] st)))) _ _ Hr) as Hm.
  destruct (mark _ _ _ _) as [res b]. eexists. split; [reflexivity|]. exact Hm.
Qed.

Lemma process_events_run events : forall st : World S,
  (forall e, e ∈ events -> is_Some (w_outbox st !! OutboxMessage_ID e)) ->
  exists st', run (handle ext) (process_events w events) st = (false, st') /\
    delivered (list_to_set (map OutboxMessage_ID events)) (w_outbox st) (w_outbox st').
Proof.
  induction events as [|e events IH]; intros st Hall; [exists st; split; [done|apply delivered_refl]|].
  cbn [process_events]. run_step. rewrite Hctx. cbv iota beta. rewrite run_bind.
  destruct (process_event_run e (log [] st)) as (st1 & -> & H1); [apply Hall; by constructor|].
  destruct (IH st1) as (st2 & -> & H2).
  { intros e' He'. eapply delivered_dom; [exact H1|]. apply Hall. by constructor. }
  exists st2. split; [done|]. simpl. by eapply delivered_trans.
Qed.

(** A poll delivers messages that waited: a whole batch, or all that are
    pending. *)
Lemma poll_run (st : World S) : outbox_keyed (w_outbox st) -> exists st' ids,
  run (handle ext) (ProcessOnce w) st = (tt, st') /\ delivered ids (w_outbox st) (w_outbox st') /\
  ids ⊆ waiting (w_outbox st) /\
  (Z.of_nat (size ids) = batchSize w \/ forall id, ~ pending (w_outbox st') id).
Proof.
  intros Hk. unfold ProcessOnce. run_step. rewrite Hctx. cbv iota beta. rewrite run_bind.
  destruct (refresh_run (log [] st)) as (st1 & -> & H1). change (w_outbox (log [] st)) with (w_outbox st) in H1.
  run_step. rewrite H1. set (t := ext_clock ext (w_tick st1)).
  pose proof (PullPending_messages (w_tick st1) t (batchSize w) (w_outbox st)) as Hmsg.
  pose proof (delivered_after_pull (w_tick st1) t (batchSize w) (w_outbox st)) as Hafter.
  pose proof (pulled_messages (w_tick st1) t (batchSize w) (w_outbox st) Hk) as Hids.
  pose proof (pulled_all (w_tick st1) t (batchSize w) (w_outbox st) Hbatch) as Hfull.
  pose proof (pulled_NoDup (w_tick st1) t (batchSize w) (w_outbox st)) as Hnd.
  assert (forall id, id ∈ pulled (w_tick st1) t (batchSize w) (w_outbox st) -> id ∈ waiting (w_outbox st)) as Hsub
    by apply pulled_waiting.
  assert (forall id, id ∈ pulled (w_tick st1) t (batchSize w) (w_outbox st) ->
    is_Some ((PullPending (w_tick st1) t (batchSize w) (w_outbox st)).2 !! id)) as Hsome.
  { intros id Hid. rewrite PullPending_store. unfold claimed. rewrite decide_True by done.
    apply Hsub, elem_of_waiting in Hid as (r & -> & _). done. }
  destruct (PullPending (w_tick st1) t (batchSize w) (w_outbox st)) as [r b]. simpl in Hmsg, Hafter, Hsome. subst r.
  set (ids := pulled _ _ _ _) in *. set (events := flat_map _ ids) in *.
  assert (exists st', run (handle ext)
    match events with [] => mret tt | _ => stopped ← process_events w events; if (stopped : bool) then mret tt else refreshBacklogMetrics end
    (log [] (with_outbox b st1)) = (tt, st') /\ delivered (list_to_set ids) b (w_outbox st')) as (st' & Hrun & Hd).
  { assert (forall e, e ∈ events -> is_Some (b !! OutboxMessage_ID e)) as Hev.
    { intros e He. apply Hsome. rewrite <- Hids. apply list_elem_of_fmap. by exists e. }
    rewrite <- Hids. clearbody events. destruct events as [|e0 events].
    { exists (log [] (with_outbox b st1)). split; [done|apply delivered_refl]. }
    destruct (process_events_run (e0 :: events) (log [] (with_outbox b st1))) as (st2 & Hr2 & Hd2); [exact Hev|].
    rewrite run_bind, Hr2. destruct (refresh_run st2) as (st3 & Hr3 & H3). exists st3. split; [exact Hr3|].
    rewrite H3. exact Hd2. }
  exists st', (list_to_set ids). split_and!.
  - exact Hrun.
  - by apply Hafter.
  - intros id. rewrite elem_of_list_to_set. apply Hsub.
  - rewrite size_list_to_set by done. destruct Hfull as [Hfull|Hfull]; [by left|right].
    intros id Hp. eapply delivered_pending in Hp as [Hp Hn]; [|by apply Hafter]. apply Hn, elem_of_list_to_set. auto.
Qed.

Lemma ticks_run k : forall st : World S, outbox_keyed (w_outbox st) -> exists st',
  run (handle ext) (run_ticks w k) st = (tt, st') /\ polled w k (w_outbox st) (w_outbox st').
Proof.
  induction k as [|k IH]; intros st Hk.
  - exists st. split; [done|]. exists ∅. split_and!; [apply delivered_refl|set_solver|]. left. rewrite size_empty. lia.
  - cbn [run_ticks]. run_step. rewrite Hctx. cbv iota beta. rewrite run_bind.
    destruct (poll_run (log [] st) Hk) as (st1 & ids & -> & Hd & Hs & Hc).
    destruct (IH st1) as (st2 & -> & Hp); [by eapply delivered_keyed|].
    exists st2. split; [done|]. eapply (polled_add w 1); [by eapply polled_one|done].
Qed.
End Worker.

(** C24. The outbox is drained: over the in-memory repository, with a broker
    that accepts and a context that is not done, an outbox worker with any
    options ends, and after as many polls as the waiting messages make batches
    no message is pending; every message that was pending is still there, with
    its contents, as sent; and nothing that was not waiting is touched. *)
Theorem outbox_drained {S} {R : OrderRepository S} {rt : GoRuntime} {laws : GoRuntimeLaws rt} (ext : Externals)
    options ticks (st : World S) :
  let w := NewWorker true true options in
  (forall n, ext_ctx ext n = None) -> (forall n e, ext_publish ext n MainPublisher e = None) ->
  outbox_keyed (w_outbox st) ->
  Z.of_nat (size (waiting (w_outbox st))) <= (Z.of_nat ticks + 1) * batchSize w ->
  exists st', run (handle ext) (Run w ticks) st = (tt, st') /\
    (forall id r', w_outbox st' !! id = Some r' -> rec_status r' <> "pending") /\
    (forall id, pending (w_outbox st) id -> sent_from (w_outbox st) (w_outbox st') id) /\
    (forall id, id ∉ waiting (w_outbox st) -> w_outbox st' !! id = w_outbox st !! id).
Proof.
  intros w Hctx Hbroker Hk Hsize. destruct (NewWorker_ok true true options) as (Ha & Hb & _). fold w in Ha, Hb.
  unfold Run. change (has_repo w) with true. change (has_publisher w) with true. cbn [negb orb].
  destruct (poll_run ext w Hctx Hbroker Ha Hb st Hk) as (st1 & ids & Hr1 & Hd1 & Hs1 & Hc1).
  destruct (ticks_run ext w Hctx Hbroker Ha Hb ticks st1) as (st2 & Hr2 & Hp2); [by eapply delivered_keyed|].
  exists st2. rewrite run_bind, Hr1, Hr2. split; [done|].
  assert (polled w (1 + ticks) (w_outbox st) (w_outbox st2)) as Hp
    by (eapply (polled_add w 1); [exact (polled_one w _ _ ids Hd1 Hs1 Hc1)|exact Hp2]).
  assert (idle (w_outbox st2)) as Hidle by (eapply polled_enough; [done|lia]).
  destruct Hp as (all & Hd & Hs & _). split_and!.
  - intros id r' Hr' Hst. apply (Hidle id). by exists r'.
  - intros id Hp. destruct (Hd id) as [Hin Hout]. destruct (decide (id ∈ all)) as [Hi|Hi]; [by apply Hin|].
    exfalso. apply (Hidle id). destruct Hp as (r & Hr & Hst). exists r. by rewrite (Hout Hi).
  - intros id Hn. apply (Hd id). set_solver.
Qed.
