(* ===== verification/OutboxSafety.v ===== *)
(** * The transactional outbox under concurrency

    Clients, sagas, any number of outbox workers and the cleanup interleave
    over the in-memory outbox, next to a broker that keeps what it accepts: no
    message is lost or altered, nothing else is published, and a message is only
    marked sent after the broker has taken it.  The ghost state is what was ever
    enqueued, by identifier, and what the broker has accepted. *)

From S2P Require Import Prelude GoLib Domain OrderStore OutboxStore Prog Ports Saga SagaTraces OrderService OutboxWorker CleanupWorker Concurrency World OrderSafety OutboxDelivery.
Import MemoryOutbox.

Record outbox_history := MkOutboxHistory {
  oh_enqueued : gmap string OutboxMessage;
  oh_accepted : list OutboxMessage;
}.

Definition oh_le (g g' : outbox_history) : Prop :=
  oh_enqueued g ⊆ oh_enqueued g' /\ oh_accepted g ⊆ oh_accepted g'.

#[global] Instance oh_le_preorder : PreOrder oh_le.
Proof. split; [by intros g; split|]. intros a b c [H1 H2] [H3 H4]. split; by etrans. Qed.

(** A message is published as it was enqueued, and marked after it was
    accepted. *)
Definition outbox_spec : cmd_spec port outbox_history := fun X c =>
  match c in port X return outbox_history -> (X -> outbox_history -> Prop) -> Prop with
  | OutboxEnqueue msg => fun g Q => OutboxMessage_ID msg = "" /\ forall g' x, oh_le g g' -> Q x g'
  | OutboxPullPending _ => fun g Q => forall g' x, oh_le g g' ->
      (forall events e, x = Ok events -> e ∈ events -> oh_enqueued g' !! OutboxMessage_ID e = Some e) -> Q x g'
  | PublisherPublish MainPublisher event => fun g Q =>
      oh_enqueued g !! OutboxMessage_ID event = Some event /\ forall g', oh_le g g' ->
      (forall e, Q (Some e) g') /\ Q None (MkOutboxHistory (oh_enqueued g') (oh_accepted g' ++ [event]))
  | OutboxMarkSent id => fun g Q =>
      (exists event, event ∈ oh_accepted g /\ oh_enqueued g !! id = Some event) /\ forall g' x, oh_le g g' -> Q x g'
  | _ => fun g Q => forall g' x, oh_le g g' -> Q x g'
  end.

#[global] Instance outbox_spec_mono : MonotoneSpec outbox_spec.
Proof. intros X c g P Q HPQ. destruct c; try match goal with q : publisher |- _ => destruct q end; simpl; naive_solver. Qed.

Lemma outbox_spec_stable X (c : port X) g g' Q : oh_le g g' -> outbox_spec X c g Q -> outbox_spec X c g' Q.
Proof.
  intros Hle. assert (forall h, oh_le g' h -> oh_le g h) as Htr by (intros h Hh; by trans g').
  destruct c; try match goal with q : publisher |- _ => destruct q end; simpl; try (by auto); try (intros [? ?]; by auto).
  2: { intros [He H]. split; [|by auto]. destruct Hle as [Hm _]. by eapply lookup_weaken. }
  intros [(event & Ha & He) H]. split; [|by auto]. exists event. destruct Hle as [Hm Hl].
  split; [by apply Hl|by eapply lookup_weaken].
Qed.

(** Commands that need nothing. *)
Definition quiet_cmd X (c : port X) : bool :=
  match c with
  | OutboxEnqueue msg => OutboxMessage_ID msg =s? ""
  | OutboxMarkSent _ | PublisherPublish MainPublisher _ => false
  | _ => true
  end.

Abbreviation quiet := (only quiet_cmd).

Lemma quiet_wp {A} (p : M A) g : quiet p -> wp outbox_spec p g (fun _ g' => oh_le g g').
Proof.
  intros Hp. apply (wp_only quiet_cmd oh_le); [apply _| |done]. intros X c h Q Hc HQ. destruct c; try match goal with q : publisher |- _ => destruct q end; simpl in *; try discriminate Hc; auto.
  split; [by reflect_tests|auto].
Qed.

Lemma quiet_ok (p : M unit) g : quiet p -> thread_ok outbox_spec g p.
Proof. intros Hp. eapply wp_mono; [apply _| |by apply quiet_wp]. done. Qed.

(** ** Sagas and handlers *)

Section Sagas.
Context (o : orchestrator).

Lemma still_metric m : quiet (metric o m).
Proof. unfold metric. solve_only. Qed.
#[local] Hint Resolve still_metric : oms.

Lemma still_publish et id md : quiet (publishSagaEvent o et id md).
Proof. unfold publishSagaEvent. solve_only. Qed.
#[local] Hint Resolve still_publish : oms.

Lemma still_emitEvent order et payload t : quiet (emitEvent o order et payload t).
Proof. unfold emitEvent. solve_only. Qed.
#[local] Hint Resolve still_emitEvent : oms.

Lemma still_updateStatus_loop n : forall attempt order new, quiet (updateStatus_loop o n attempt order new).
Proof. induction n as [|n IH]; intros attempt order new; simpl; [done|]. unfold emitStatusEvent. solve_only. Qed.
#[local] Hint Resolve still_updateStatus_loop : oms.

Lemma still_failOrder order st e : quiet (failOrder o order st e).
Proof. unfold failOrder, updateStatus. solve_only. Qed.
#[local] Hint Resolve still_failOrder : oms.

Lemma quiet_saga_thread job : quiet (saga_thread o job).
Proof.
  unfold saga_thread. apply only_bind; [|solve_only]. destruct job; cbn [run_saga_job].
  - unfold Start, start_body, start_pending, start_reserved, start_paid, handleReserve, handlePayment,
      handleConfirm, releaseInventory, updateStatus. solve_only.
  - unfold Cancel, cancel_body, releaseInventory, updateStatus. solve_only.
  - unfold Refund, refund_body, releaseInventory, updateStatus. solve_only.
Qed.
End Sagas.

Section Clients.
Context `{ProtoMessage CreateOrderRequest} `{ProtoMessage CreateOrderResponse}
        `{ProtoMessage PayOrderRequest} `{ProtoMessage CancelOrderRequest}
        `{ProtoMessage RefundOrderRequest} `{ProtoMessage StatusResponse}.
Context (s : OrderService).

Lemma quiet_withIdempotency {Req T} `{ProtoMessage Req} `{ProtoMessage T} ctx method (req : option Req)
    (handler : M (reply T)) : quiet handler -> quiet (withIdempotency s ctx method req handler).
Proof.
  intros Hh. unfold withIdempotency, cacheIdempotencySuccess, cacheIdempotencyFailure. solve_only.
Qed.

Ltac solve_quiet := repeat first [apply quiet_withIdempotency | progress solve_only].

Lemma quiet_create_items t cur todo : forall idx items sum, quiet (create_items t cur idx todo items sum).
Proof. induction todo as [|item rest IH]; intros idx items sum; simpl; [done|]. solve_only. Qed.
#[local] Hint Resolve quiet_create_items : oms.

Lemma quiet_delete_batches w fuel : forall before total, quiet (delete_batches w fuel before total).
Proof. induction fuel as [|n IH]; intros before total; simpl; solve_only. Qed.
#[local] Hint Resolve quiet_delete_batches : oms.

Lemma quiet_cleanup_ticks w ticks fuel : quiet (cleanup_ticks w ticks fuel).
Proof. induction ticks as [|n IH]; simpl; unfold cleanup, CleanupDeleteExpired in *; solve_only. Qed.
#[local] Hint Resolve quiet_cleanup_ticks : oms.

Lemma quiet_client c : (forall w ticks, c <> OutboxWorkerRun w ticks) -> quiet (client_thread s c).
Proof.
  intros Hc. destruct c; cbn [client_thread].
  - unfold CreateOrder, createOrderInternal, appendStatusTimeline, runSagaAsync. solve_quiet.
  - unfold PayOrder, payOrderInternal, loadOrder, runSagaAsync. solve_quiet.
  - unfold CancelOrder, cancelOrderInternal, loadOrder, saveOrder, appendStatusTimeline, appendTimelineEvent,
      reload_status, runSagaAsync. solve_quiet.
  - unfold RefundOrder, refundOrderInternal, loadOrder, saveOrder, appendStatusTimeline, appendTimelineEvent,
      reload_status, runSagaAsync. solve_quiet.
  - unfold GetOrder, buildTimeline, loadOrder. solve_quiet.
  - unfold ListOrders. solve_quiet.
  - unfold Shutdown. solve_quiet.
  - by destruct (Hc w ticks).
  - unfold CleanupRun, cleanup, CleanupDeleteExpired. solve_quiet.
Qed.
End Clients.

(** ** The worker *)

Section Worker.
Context (w : Worker).

(** An event as it was enqueued. *)
Definition enqueued (g : outbox_history) (event : OutboxMessage) : Prop :=
  oh_enqueued g !! OutboxMessage_ID event = Some event.

Lemma enqueued_mono g g' event : oh_le g g' -> enqueued g event -> enqueued g' event.
Proof. intros [Hm _] He. by eapply lookup_weaken. Qed.
#[local] Hint Resolve enqueued_mono : oms.

Lemma wp_quiet {A B} (p : M A) (f : A -> M B) Q g :
  quiet p -> (forall a g', oh_le g g' -> wp outbox_spec (f a) g' Q) -> wp outbox_spec (p ≫= f) g Q.
Proof. intros Hp Hf. eapply wp_seq; [apply _|by apply quiet_wp|]. simpl. auto. Qed.

Lemma wp_later {A} (p : M A) g0 g : oh_le g0 g -> wp outbox_spec p g (fun _ => oh_le g) ->
  wp outbox_spec p g (fun _ => oh_le g0).
Proof. intros Hle. apply wp_mono; [apply _|]. intros _ g' ?. by trans g. Qed.

(** A publish that succeeds leaves the event with the broker. *)
Lemma publish_attempts_wp n : forall attempt lastErr event g, enqueued g event ->
  wp outbox_spec (publish_attempts w n attempt lastErr event) g
    (fun r g' => oh_le g g' /\ (r = None -> event ∈ oh_accepted g')).
Proof.
  induction n as [|n IH]; intros attempt lastErr event g He; [done|]. cbn [publish_attempts].
  split; [exact He|]. intros g1 H1. split.
  - intros e g2 [] H2. simpl. assert (oh_le g g2) as Hle by (by trans g1).
    assert (enqueued g2 event) as He2 by eauto with oms.
    assert (forall g3, oh_le g2 g3 -> wp outbox_spec (publish_attempts w n (attempt + 1) e event) g3
      (fun r g' => oh_le g g' /\ (r = None -> event ∈ oh_accepted g'))) as Hnext.
    { intros g3 H3. eapply wp_mono; [apply _| |apply IH; eauto with oms]. simpl.
      intros r g' [? ?]. split; [|done]. trans g3; [by trans g2|done]. }
    destruct (_ >=? _); [by split|]. destruct (_ <=? 0); [by apply Hnext|].
    intros g3 [ctxErr|] H3; [|by apply Hnext]. split; [by trans g2|done].
  - intros g2 [] H2. simpl. destruct H1 as [Hm1 Hl1], H2 as [Hm2 Hl2]. simpl in *. split; [|set_solver].
    split; [by trans (oh_enqueued g1)|set_solver].
Qed.

Lemma process_event_wp event g : enqueued g event ->
  wp outbox_spec (process_event w event) g (fun _ g' => oh_le g g').
Proof.
  intros He. unfold process_event, publishWithRetry. eapply wp_seq; [apply _|by apply publish_attempts_wp|].
  intros [e|] g1 [H1 Ha]; cbv iota beta.
  - apply (wp_later _ g g1 H1).
    apply quiet_wp. unfold publishToDLQ. solve_only.
  - split; [|intros g2 x H2; exact (transitivity H1 H2)]. exists event.
    split; [by apply Ha|]. by apply (enqueued_mono g).
Qed.

Lemma process_events_wp events : forall g, Forall (enqueued g) events ->
  wp outbox_spec (process_events w events) g (fun _ g' => oh_le g g').
Proof.
  induction events as [|event rest IH]; intros g Hall; [done|]. apply Forall_cons in Hall as [He Hrest].
  cbn [process_events]. intros g1 [e|] H1; [exact H1|]. simpl.
  eapply wp_seq; [apply _|apply process_event_wp; eauto with oms|]. intros ? g2 H2. simpl in H2.
  apply (wp_later _ g g2); [by trans g1|]. apply IH.
  eapply Forall_impl; [exact Hrest|]. intros x Hx. eapply enqueued_mono; [|exact Hx]. by trans g1.
Qed.

Lemma quiet_refresh : quiet refreshBacklogMetrics.
Proof. unfold refreshBacklogMetrics. solve_only. Qed.

Lemma ProcessOnce_wp g : wp outbox_spec (ProcessOnce w) g (fun _ g' => oh_le g g').
Proof.
  unfold ProcessOnce. apply wp_call. intros g1 [e|] H1; cbv iota beta; [exact H1|].
  apply wp_quiet; [exact quiet_refresh|]. intros _ g2 H2. assert (oh_le g g2) as Hle2 by (by trans g1).
  apply wp_call. intros g3 [[|event rest]|e] H3 Hev; cbv iota beta; [by apply (transitivity Hle2)| |by apply (transitivity Hle2)].
  eapply wp_seq; [apply _|apply process_events_wp|].
  { apply Forall_forall. intros x Hx. by eapply Hev. }
  intros stopped g4 H4. simpl in H4. assert (oh_le g g4) as Hle4 by (trans g3; [by trans g2|done]).
  destruct stopped; [exact Hle4|]. apply (wp_later _ g g4 Hle4), quiet_wp, quiet_refresh.
Qed.

Lemma Run_wp ticks g : thread_ok outbox_spec g (Run w ticks).
Proof.
  unfold thread_ok, Run. destruct (_ || _); [done|]. eapply wp_seq; [apply _|apply ProcessOnce_wp|].
  intros ? g0 _. revert g0. induction ticks as [|n IH]; intros g0; [done|]. cbn [run_ticks].
  apply wp_call. intros g1 [] _; cbv iota beta; [exact I|].
  eapply wp_seq; [apply _|apply ProcessOnce_wp|]. intros ? g2 _. apply IH.
Qed.
End Worker.

(** ** The system and the broker *)

Section System.
Context {S : Type} {R : OrderRepository S} {rt : GoRuntime} {laws : GoRuntimeLaws rt}.
Context (ext : Externals).

(** The broker keeps the messages it accepted, in order. *)
Definition accepted_by X (c : port X) : X -> list OutboxMessage :=
  match c in port X return X -> list OutboxMessage with
  | PublisherPublish MainPublisher event => fun r => match r with None => [event] | Some _ => [] end
  | _ => fun _ => []
  end.

Definition broker_handle : handler port (World S * list OutboxMessage) := fun X c wb =>
  let '(x, w) := handle ext X c wb.1 in (x, (w, wb.2 ++ accepted_by X c x)).

Definition broker_system (o : orchestrator) (schedule : list nat) (pool : list (M unit))
    (wb : World S * list OutboxMessage) : list (M unit) * (World S * list OutboxMessage) :=
  exec broker_handle (saga_forks o) schedule (pool, wb).

Lemma broker_step o i pool w b : exists b', step broker_handle (saga_forks o) i (pool, (w, b)) =
  ((step (handle ext) (saga_forks o) i (pool, w)).1, ((step (handle ext) (saga_forks o) i (pool, w)).2, b')).
Proof.
  unfold step. simpl. destruct (pool !! i) as [[r|X c k]|]; [by exists b| |by exists b].
  unfold broker_handle. simpl. destruct (handle ext X c w). by eexists.
Qed.

(** The broker only watches. *)
Lemma broker_system_world o schedule : forall pool w b, exists b', broker_system o schedule pool (w, b) =
  ((system ext o schedule pool w).1, ((system ext o schedule pool w).2, b')).
Proof.
  unfold broker_system, system. induction schedule as [|i l IH]; intros pool w b; [by exists b|]. simpl.
  destruct (broker_step o i pool w b) as (b1 & ->). destruct (step _ _ i (pool, w)) as [pool1 w1]. apply IH.
Qed.

(** ** The invariant *)

Record outbox_inv (tick : nat) (m : records) (log : list OutboxMessage) (g : outbox_history) : Prop := {
  oi_enqueued : rec_msg <$> m = oh_enqueued g;
  oi_accepted : oh_accepted g = log;
  oi_published : forall event, event ∈ log -> enqueued g event;
  oi_sent : forall id r, m !! id = Some r -> rec_status r = "sent" -> rec_msg r ∈ log;
  oi_keyed : outbox_keyed m;
  oi_ids : forall id r, m !! id = Some r -> exists k, (k < tick)%nat /\ id = ext_uuid ext k;
}.

Definition broker_inv (_ : nat) (wb : World S * list OutboxMessage) (g : outbox_history) : Prop :=
  outbox_inv (w_tick wb.1) (w_outbox wb.1) wb.2 g.

(** The same messages, and no more of them sent than the broker has. *)
Definition relabeled (log : list OutboxMessage) (m m' : records) : Prop := forall id,
  match m !! id, m' !! id with
  | Some r, Some r' => rec_msg r' = rec_msg r /\ (rec_status r' = "sent" -> rec_status r = "sent" \/ rec_msg r ∈ log)
  | None, None => True
  | _, _ => False
  end.

Lemma relabeled_refl log m : relabeled log m m.
Proof. intros id. destruct (m !! id); auto. Qed.

Lemma relabeled_insert log m id r r' : m !! id = Some r -> rec_msg r' = rec_msg r ->
  (rec_status r' = "sent" -> rec_msg r ∈ log) -> relabeled log m (<[id := r']> m).
Proof.
  intros Hr Hm Hs id'. destruct (decide (id = id')) as [<-|Hne].
  - rewrite lookup_insert_eq, Hr. auto.
  - rewrite lookup_insert_ne by done. apply relabeled_refl.
Qed.

Lemma inv_relabel t t' m m' log g : (t <= t')%nat -> relabeled log m m' -> outbox_inv t m log g -> outbox_inv t' m' log g.
Proof.
  intros Ht Hrel [He Ha Hp Hs Hk Hi]. assert (forall id r', m' !! id = Some r' -> exists r, m !! id = Some r /\
    rec_msg r' = rec_msg r /\ (rec_status r' = "sent" -> rec_status r = "sent" \/ rec_msg r ∈ log)) as Hback.
  { intros id r' Hr'. specialize (Hrel id). rewrite Hr' in Hrel. destruct (m !! id) as [r|]; [|done]. by exists r. }
  split; [|done|done| | |].
  - rewrite <- He. apply map_eq. intros id. rewrite !lookup_fmap. specialize (Hrel id).
    destruct (m !! id), (m' !! id); try done. simpl. by destruct Hrel as [-> _].
  - intros id r' (r & Hr & -> & Hst)%Hback [Hsent|Hin]%Hst; [by eapply Hs|done].
  - intros id r' (r & Hr & -> & _)%Hback. by apply Hk.
  - intros id r' (r & Hr & _)%Hback. destruct (Hi id r Hr) as (k & Hlt & ->). exists k. split; [lia|done].
Qed.

Lemma pull_relabeled log loop t limit m : relabeled log m (PullPending loop t limit m).2.
Proof.
  intros id. rewrite PullPending_store. unfold claimed. case_decide; [|apply relabeled_refl].
  destruct (m !! id) as [r|]; simpl; [|done]. split; [done|]. discriminate.
Qed.

Lemma mark_relabeled log status t id m : (status = "sent" -> forall r, m !! id = Some r -> rec_msg r ∈ log) ->
  relabeled log m (mark status t id m).2.
Proof.
  intros Hs. unfold mark. destruct (m !! id) as [r|] eqn:Hr; [|apply relabeled_refl].
  eapply relabeled_insert; [done|done|]. intros E. by apply (Hs E).
Qed.

Lemma enqueue_inv t t' now msg m log g : OutboxMessage_ID msg = "" -> (t < t')%nat ->
  (forall k, (k < t)%nat -> ext_uuid ext k <> ext_uuid ext t) -> outbox_inv t m log g ->
  exists g', oh_le g g' /\ outbox_inv t' (Enqueue (ext_uuid ext t) now msg m).2 log g'.
Proof.
  intros Hid Ht Hfresh [He Ha Hp Hs Hk Hi]. unfold Enqueue. rewrite Hid. simpl.
  set (e := set_id msg (ext_uuid ext t)).
  assert (m !! ext_uuid ext t = None) as Hnew.
  { destruct (m !! ext_uuid ext t) as [r|] eqn:Hr; [|done]. destruct (Hi _ _ Hr) as (k & Hlt & E). by destruct (Hfresh k Hlt). }
  assert (oh_le g (MkOutboxHistory (<[ext_uuid ext t := e]> (oh_enqueued g)) (oh_accepted g))) as Hle.
  { split; [|done]. apply insert_subseteq. rewrite <- He, lookup_fmap. by rewrite Hnew. }
  exists (MkOutboxHistory (<[ext_uuid ext t := e]> (oh_enqueued g)) (oh_accepted g)). split; [exact Hle|]. split.
  - rewrite fmap_insert. simpl. by rewrite He.
  - done.
  - intros event Hev. eapply enqueued_mono; [exact Hle|]. by apply Hp.
  - intros id r [[<- <-]|[_ Hr]]%lookup_insert_Some Hst; [discriminate Hst|by eapply Hs].
  - by apply outbox_keyed_insert.
  - intros id r [[<- <-]|[_ Hr]]%lookup_insert_Some; [by exists t|].
    destruct (Hi id r Hr) as (k & Hlt & ->). exists k. split; [lia|done].
Qed.

Lemma accept_inv t t' m log g event : (t <= t')%nat -> enqueued g event -> outbox_inv t m log g ->
  outbox_inv t' m (log ++ [event]) (MkOutboxHistory (oh_enqueued g) (oh_accepted g ++ [event])).
Proof.
  intros Ht Hev [He Ha Hp Hs Hk Hi]. subst log. split; simpl; [done|done| | |done|].
  - intros e [Hin| ->%list_elem_of_singleton]%elem_of_app; [by apply Hp|done].
  - intros id r Hr Hst. apply elem_of_app. left. by eapply Hs.
  - intros id r Hr. destruct (Hi id r Hr) as (k & Hlt & ->). exists k. split; [lia|done].
Qed.

(** A pull hands out the messages as they were enqueued. *)
Lemma pull_enqueued t loop now limit m log g events e : outbox_inv t m log g ->
  (PullPending loop now limit m).1 = Ok events -> e ∈ events -> enqueued g e.
Proof.
  intros [He _ _ _ Hk _] Hpull Hin. rewrite PullPending_messages in Hpull. simplify_eq.
  apply list_elem_of_In, in_flat_map in Hin as (id & _ & Hm). unfold message_at in Hm.
  destruct (m !! id) as [r|] eqn:Hr; [|done]. destruct Hm as [<- |[ ] ]. unfold enqueued.
  by rewrite (Hk id r Hr), <- He, lookup_fmap, Hr.
Qed.

(** Commands that leave the outbox and the broker alone. *)
Definition leaves_outbox X (c : port X) : bool :=
  match c with
  | OutboxEnqueue _ | OutboxPullPending _ | OutboxMarkSent _ | OutboxMarkFailed _ => false
  | PublisherPublish MainPublisher _ => false
  | _ => true
  end.

Lemma answer_outbox X (c : port X) (w : World S) : leaves_outbox X c = true ->
  w_outbox (answer ext X c w).2 = w_outbox w.
Proof. destruct c; simpl; try done; intros _; repeat case_match; simplify_eq/=; done. Qed.

Lemma answer_tick X (c : port X) (w : World S) : w_tick (answer ext X c w).2 = w_tick w.
Proof. destruct c; simpl; repeat case_match; simplify_eq/=; done. Qed.

Lemma accepted_none X (c : port X) x : leaves_outbox X c = true -> accepted_by X c x = [].
Proof. destruct c; simpl; try done. match goal with q : publisher |- _ => by destruct q end. Qed.

Lemma sound_leave n X (c : port X) wb g (Q : X -> outbox_history -> Prop) :
  leaves_outbox X c = true -> broker_inv n wb g -> (forall x g', oh_le g g' -> Q x g') ->
  exists g', oh_le g g' /\ broker_inv (Datatypes.S n) (broker_handle X c wb).2 g' /\ Q (broker_handle X c wb).1 g'.
Proof.
  intros Hc HI HQ. exists g. split; [done|]. split; [|by apply HQ]. unfold broker_inv, broker_handle, handle.
  pose proof (answer_outbox X c wb.1 Hc) as Ho. pose proof (answer_tick X c wb.1) as Ht.
  destruct (answer ext X c wb.1) as [x w]. simpl in *. rewrite Ho, Ht.
  rewrite accepted_none by done.
  rewrite app_nil_r. eapply inv_relabel; [|apply relabeled_refl|exact HI]. lia.
Qed.

Section Sound.
Hypothesis fresh : forall i k, ext_uuid ext i = ext_uuid ext k -> i = k.

(** Commands that change the labels of the records only. *)
Lemma sound_relabel n X (c : port X) wb g (Q : X -> outbox_history -> Prop) x m :
  answer ext X c wb.1 = (x, with_outbox m wb.1) -> (forall x, accepted_by X c x = []) ->
  relabeled wb.2 (w_outbox wb.1) m -> broker_inv n wb g -> Q x g ->
  exists g', oh_le g g' /\ broker_inv (Datatypes.S n) (broker_handle X c wb).2 g' /\ Q (broker_handle X c wb).1 g'.
Proof.
  intros Ha Hb Hrel HI HQ. exists g. split; [done|]. unfold broker_inv, broker_handle, handle. rewrite Ha. simpl.
  split; [|done]. rewrite Hb, app_nil_r. eapply inv_relabel; [|exact Hrel|exact HI]. lia.
Qed.

Lemma outbox_spec_sound n X (c : port X) wb g Q : broker_inv n wb g -> outbox_spec X c g Q ->
  exists g', oh_le g g' /\ broker_inv (Datatypes.S n) (broker_handle X c wb).2 g' /\ Q (broker_handle X c wb).1 g'.
Proof.
  intros HI Hspec. destruct (leaves_outbox X c) eqn:Hc.
  { apply sound_leave; [done|done|]. intros x g' Hle. destruct c; try discriminate Hc; try (by apply Hspec).
    match goal with q : publisher |- _ => destruct q end; [discriminate Hc|by apply Hspec]. }
  destruct c; try discriminate Hc; cbn [outbox_spec] in Hspec.
  - destruct Hspec as [Hid HQ].
    destruct (enqueue_inv (w_tick wb.1) (Datatypes.S (w_tick wb.1)) (ext_clock ext (w_tick wb.1)) msg (w_outbox wb.1) wb.2 g)
      as (g' & Hle & HI'); [done|lia|intros k Hk E; apply fresh in E; lia|exact HI|].
    exists g'. split; [done|]. unfold broker_inv, broker_handle, handle, answer.
    destruct (Enqueue _ _ _ _) as [r m]. simpl in *. rewrite app_nil_r. split; [exact HI'|by apply HQ].
  - assert (forall events e, (PullPending (w_tick wb.1) (ext_clock ext (w_tick wb.1)) limit (w_outbox wb.1)).1 = Ok events ->
      e ∈ events -> enqueued g e) as Hpull by (intros events e; by eapply pull_enqueued).
    pose proof (pull_relabeled wb.2 (w_tick wb.1) (ext_clock ext (w_tick wb.1)) limit (w_outbox wb.1)) as Hrel.
    destruct (PullPending _ _ _ _) as [r m] eqn:E. simpl in Hpull, Hrel.
    apply (sound_relabel n _ _ wb g Q r m); [cbn [answer]; by rewrite E|done|done|done|]. by apply Hspec.
  - destruct Hspec as [(event & Hin & He) HQ].
    assert (relabeled wb.2 (w_outbox wb.1) (MarkSent (ext_clock ext (w_tick wb.1)) id (w_outbox wb.1)).2) as Hrel.
    { apply mark_relabeled. intros _ r Hr. rewrite <- (oi_enqueued _ _ _ _ HI), lookup_fmap, Hr in He. simplify_eq/=.
      by rewrite <- (oi_accepted _ _ _ _ HI). }
    destruct (MarkSent _ _ _) as [r m] eqn:E. apply (sound_relabel n _ _ wb g Q r m); [cbn [answer]; by rewrite E|done|exact Hrel|done|].
    by apply HQ.
  - assert (relabeled wb.2 (w_outbox wb.1) (MarkFailed (ext_clock ext (w_tick wb.1)) id (w_outbox wb.1)).2) as Hrel
      by (by apply mark_relabeled).
    destruct (MarkFailed _ _ _) as [r m] eqn:E. apply (sound_relabel n _ _ wb g Q r m); [cbn [answer]; by rewrite E|done|exact Hrel|done|].
    by apply Hspec.
  - match goal with q : publisher |- _ => destruct q end; [|discriminate Hc]. destruct Hspec as [He HQ].
    destruct (HQ g) as [Hfail Hok]; [done|]. unfold broker_inv, broker_handle, handle, answer.
    destruct (ext_publish ext (w_tick wb.1) MainPublisher event) as [e|]; simpl.
    + exists g. split; [done|]. split; [|by apply Hfail]. rewrite app_nil_r.
      eapply inv_relabel; [|apply relabeled_refl|exact HI]. lia.
    + eexists. split; [|split; [|exact Hok]]; [split; [done|]; set_solver|]. eapply accept_inv; [|done|exact HI]. lia.
Qed.
End Sound.

Section Runs.
Hypothesis fresh : forall i k, ext_uuid ext i = ext_uuid ext k -> i = k.

Lemma broker_system_inv (o : orchestrator) schedule n pool wb g :
  broker_inv n wb g -> Forall (thread_ok outbox_spec g) pool -> exists g', oh_le g g' /\
    broker_inv (n + length schedule) (broker_system o schedule pool wb).2 g' /\
    Forall (thread_ok outbox_spec g') (broker_system o schedule pool wb).1.
Proof.
  intros HI Hpool. unfold broker_system. destruct wb as [w b].
  apply (exec_invariant broker_handle (saga_forks o) oh_le outbox_spec broker_inv (n + length schedule)); try done.
  - intros X c g1 g2 Q. apply outbox_spec_stable.
  - intros k X c w1 g1 Q _. by apply outbox_spec_sound.
  - intros X c x g1. destruct c; simpl; repeat constructor. apply quiet_ok, quiet_saga_thread.
Qed.

Lemma broker_initial w : w_outbox w = ∅ -> broker_inv 0 (w, []) (MkOutboxHistory ∅ []).
Proof.
  intros Hw. unfold broker_inv. simpl. rewrite Hw. split; simpl; try done.
  - intros e He. by apply elem_of_nil in He.
Qed.
End Runs.
End System.

Section Outbox.
Context {S : Type} {R : OrderRepository S} {rt : GoRuntime} {laws : GoRuntimeLaws rt}.
Context (ext : Externals).
Context `{ProtoMessage CreateOrderRequest} `{ProtoMessage CreateOrderResponse}
        `{ProtoMessage PayOrderRequest} `{ProtoMessage CancelOrderRequest}
        `{ProtoMessage RefundOrderRequest} `{ProtoMessage StatusResponse}.

Lemma outbox_clients (s : OrderService) clients g : Forall (thread_ok outbox_spec g) (map (client_thread s) clients).
Proof.
  apply Forall_forall. intros p (c & -> & _)%list_elem_of_fmap.
  destruct c; try (by apply quiet_ok, quiet_client). apply Run_wp.
Qed.

(** C22. The transactional outbox delivers at least once, under concurrency:
    start any clients, with any number of outbox workers, on an empty outbox,
    and let them and the sagas they start interleave in any way, with any
    behaviour of the outside.  Next to them a broker keeps what it accepts; it
    does not influence the run.  Then a message that was ever put in the outbox
    is there ever after, unaltered; a message marked sent has been accepted by
    the broker, exactly as it was enqueued; and the broker gets nothing that is
    not a message of the outbox. *)
Theorem outbox_at_least_once (s : OrderService) (o : orchestrator) clients l1 l2 (w : World S) :
  w_outbox w = ∅ -> (forall i k, ext_uuid ext i = ext_uuid ext k -> i = k) ->
  let pool := map (client_thread s) clients in
  let before := (broker_system ext o l1 pool (w, [])).2 in
  let after := (broker_system ext o (l1 ++ l2) pool (w, [])).2 in
  after.1 = (system ext o (l1 ++ l2) pool w).2 /\
  (forall id r, w_outbox before.1 !! id = Some r ->
     exists r', w_outbox after.1 !! id = Some r' /\ rec_msg r' = rec_msg r) /\
  (forall id r, w_outbox after.1 !! id = Some r -> rec_status r = "sent" -> rec_msg r ∈ after.2) /\
  (forall event, event ∈ after.2 ->
     exists r, w_outbox after.1 !! OutboxMessage_ID event = Some r /\ rec_msg r = event).
Proof.
  intros Hw Hfresh pool before after.
  destruct (broker_system_inv ext Hfresh o l1 0 pool (w, []) _ (broker_initial ext w Hw) (outbox_clients s clients _))
    as (g & _ & HI & Hp).
  fold before in HI. assert (after = (broker_system ext o l2 (broker_system ext o l1 pool (w, [])).1 before).2) as Hafter.
  { unfold after, before, broker_system. by rewrite exec_app, <- surjective_pairing. }
  destruct (broker_system_inv ext Hfresh o l2 _ _ before g HI Hp) as (g' & [Hle _] & HI' & _).
  rewrite <- Hafter in HI'. pose proof (oi_enqueued _ _ _ _ _ HI) as He. pose proof (oi_enqueued _ _ _ _ _ HI') as He'.
  split_and!.
  - unfold after. by destruct (broker_system_world ext o (l1 ++ l2) pool w []) as (b & ->).
  - intros id r Hr. assert (oh_enqueued g' !! id = Some (rec_msg r)) as Hid.
    { eapply lookup_weaken; [|exact Hle]. by rewrite <- He, lookup_fmap, Hr. }
    rewrite <- He', lookup_fmap in Hid. destruct (w_outbox after.1 !! id) as [r'|]; simplify_eq/=. by exists r'.
  - intros id r. apply (oi_sent _ _ _ _ _ HI').
  - intros event Hin. pose proof (oi_published _ _ _ _ _ HI' _ Hin) as Hid. unfold enqueued in Hid.
    rewrite <- He', lookup_fmap in Hid. destruct (w_outbox after.1 !! _) as [r'|]; simplify_eq/=. by exists r'.
Qed.
End Outbox.
