(* ===== verification/Scenarios.v ===== *)
(** * Concrete executions

    Message encodings, an outside and a stored order to evaluate the model
    with, and executions that show what the code does not protect against: the
    retry of [updateStatus] after a version conflict checks the reloaded order
    for a final status only, and no payment is compensated when the order was
    canceled meanwhile. *)

From stdpp Require Import pretty.
From S2P Require Import Prelude GoLib Json Sha256 Domain OrderStore IdempotencyStore Prog Ports Saga SagaTraces OrderService OrderServiceSpec OutboxWorker CleanupWorker Concurrency World OrderSafety.

(** ** Encodings *)

(** An encoding as text, for the requests. *)
Definition request_message {T} (text : T -> string) : ProtoMessage T := {|
  proto_Marshal := fun r => Ok (text r);
  protojson_Marshal := fun _ => Err (ErrOther "not used");
  protojson_Unmarshal := fun _ => Err (ErrOther "not used");
|}.

#[global] Instance demo_create : ProtoMessage CreateOrderRequest := request_message CreateOrder_CustomerId.
#[global] Instance demo_pay : ProtoMessage PayOrderRequest := request_message PayOrder_OrderId.
#[global] Instance demo_cancel : ProtoMessage CancelOrderRequest := request_message CancelOrder_OrderId.
#[global] Instance demo_refund : ProtoMessage RefundOrderRequest := request_message RefundOrder_OrderId.
#[global] Instance demo_created : ProtoMessage CreateOrderResponse :=
  request_message (fun r => POrder_Id (CreateOrder_Order r)).

(** The status in the first byte, the identifier after it. *)
Definition encode_status (r : StatusResponse) : result bytes :=
  if (0 <=? Resp_Status r) && (Resp_Status r <? 256)
  then Ok (String (chr (Z.to_nat (Resp_Status r))) (Resp_OrderId r))
  else Err (ErrOther "status out of range").

Definition decode_status (data : bytes) : result StatusResponse :=
  match data with
  | String a id => Ok (MkStatusResponse id (Z.of_nat (nat_of_ascii a)))
  | "" => Err (ErrOther "empty")
  end.

#[global] Instance demo_status : ProtoMessage StatusResponse := {|
  proto_Marshal := encode_status;
  protojson_Marshal := encode_status;
  protojson_Unmarshal := decode_status;
|}.

#[global] Instance demo_status_laws : ProtoJSONLaws StatusResponse.
Proof.
  split; intros [id st] data; simpl; unfold encode_status; simpl;
    (destruct (_ && _) eqn:E; [|done]); intros [= <-]; [|done].
  apply andb_true_iff in E as [?%Z.leb_le ?%Z.ltb_lt]. simpl. unfold chr.
  rewrite nat_ascii_embedding by lia. by rewrite Z2Nat.id.
Qed.

(** ** A state *)

Definition demo_item : OrderItem := MkOrderItem "i1" "sku" 2 500 1.

Definition demo_order (st : OrderStatus) : Order := MkOrder "o1" "c1" st "USD" 1000 [demo_item] 0 1 1.

Definition demo_world (st : OrderStatus) : World MemoryOrders.items :=
  with_orders {["o1" := demo_order st]} empty_world.

Definition demo_ext : Externals := mock_externals NewMockService (fun n => "id-" +:+ pretty n).

(** An orchestrator without timeline, metrics and Kafka, and a service with
    sagas and idempotency. *)
Definition bare : orchestrator := MkOrchestrator false false false.
Definition demo_service : OrderService := MkOrderService false true true.

Definition with_key (key : string) : Context :=
  MkContext (Some {[idempotencyKeyHeader := [key]]}) None.

(** A schedule as runs: the thread and how many of its commands. *)
Definition runs (l : list (nat * nat)) : list nat := mjoin (map (fun '(i, n) => replicate n i) l).

Definition outcome (schedule : list (nat * nat)) (clients : list client) (w : World MemoryOrders.items)
  : World MemoryOrders.items :=
  (system demo_ext bare (runs schedule) (map (client_thread demo_service) clients) w).2.

(** The payments and refunds that went through, by amount. *)
Definition captured (w : World MemoryOrders.items) : list Z :=
  flat_map (fun e => match e with Paid _ a _ None => [a] | _ => [] end) (w_effects w).
Definition returned (w : World MemoryOrders.items) : list Z :=
  flat_map (fun e => match e with Refunded _ a _ None => [a] | _ => [] end) (w_effects w).
Definition saved_statuses (w : World MemoryOrders.items) : list OrderStatus :=
  flat_map (fun e => match e with Saved _ st => [st] | _ => [] end) (w_effects w).
Definition status_of (w : World MemoryOrders.items) : option OrderStatus :=
  match w_orders w !! "o1" with Some o => Some (Order_Status o) | None => None end.

Definition pay_twice : list client :=
  [CallPayOrder (with_key "k1") (Some (MkPayOrderRequest "o1"));
   CallPayOrder (with_key "k2") (Some (MkPayOrderRequest "o1"))].


Definition pay_and_cancel : list client :=
  [CallPayOrder (with_key "k1") (Some (MkPayOrderRequest "o1"));
   CallCancelOrder (with_key "k2") (Some (MkCancelOrderRequest "o1" "no longer needed"))].

Definition refund_twice : list client :=
  [CallRefundOrder (with_key "k1") (Some (MkRefundOrderRequest "o1" None ""));
   CallRefundOrder (with_key "k2") (Some (MkRefundOrderRequest "o1" None ""))].

Definition released (w : World MemoryOrders.items) : nat :=
  length (List.filter (fun e => match e with Released _ => true | _ => false end) (w_effects w)).

(** Two payment requests with different idempotency keys for one pending
    order both start a saga; the second saga, after its version conflict, takes
    the confirmed order back to reserved and charges the customer again. *)
Theorem concurrent_payments_charge_twice :
  let w := outcome [(0, 9); (1, 9); (2, 3); (3, 3); (2, 40); (3, 40)]%nat pay_twice
             (demo_world OrderStatusPending) in
  w_sagaWG w = 0 /\ captured w = [1000; 1000] /\ returned w = [] /\
  saved_statuses w = [OrderStatusReserved; OrderStatusPaid; OrderStatusConfirmed;
                      OrderStatusReserved; OrderStatusPaid; OrderStatusConfirmed].
Proof. vm_compute. done. Qed.

(** A cancellation that overlaps a payment saga can leave a canceled order
    whose payment was captured and never refunded: when it comes between the
    payment and the save of its status (the saga then stops without
    compensation), and when it was dispatched while the order was pending and
    retries its save after the order was confirmed (the stock is not released
    either). *)
Theorem cancel_keeps_payment :
  let during := outcome [(0, 9); (1, 9); (2, 6); (3, 1); (2, 1); (3, 50); (2, 50)]%nat pay_and_cancel
                  (demo_world OrderStatusPending) in
  let after := outcome [(0, 9); (1, 9); (3, 1); (2, 50); (3, 50)]%nat pay_and_cancel
                 (demo_world OrderStatusPending) in
  (w_sagaWG during = 0 /\ status_of during = Some OrderStatusCanceled /\
   captured during = [1000] /\ returned during = []) /\
  (w_sagaWG after = 0 /\ status_of after = Some OrderStatusCanceled /\
   captured after = [1000] /\ returned after = [] /\ released after = 0%nat).
Proof. vm_compute. done. Qed.

(** Two refund requests for one confirmed order both reach the payment
    service: the amount of the order is paid back twice. *)
Theorem concurrent_refunds_pay_back_twice :
  let w := outcome [(0, 9); (1, 9); (2, 1); (3, 1); (2, 50); (3, 50)]%nat refund_twice
             (demo_world OrderStatusConfirmed) in
  w_sagaWG w = 0 /\ returned w = [1000; 1000] /\ status_of w = Some OrderStatusRefunded.
Proof. vm_compute. done. Qed.

(** The payment service answers a refund without an error, but with pending
    instead of refunded: [Refund] leaves the order alone, [Cancel] cancels it
    all the same. *)
Definition unclear_refunds : Externals :=
  mock_externals (MkMockService None None PaymentStatusCaptured None PaymentStatusPending None) pretty.

Theorem cancel_takes_unclear_refund :
  let after p := (run (handle unclear_refunds) p (demo_world OrderStatusConfirmed)).2 in
  status_of (after (Refund bare "o1" 0 "damaged")) = Some OrderStatusConfirmed /\
  status_of (after (Cancel bare "o1" "damaged")) = Some OrderStatusCanceled /\
  Refunded "o1" 1000 PaymentStatusPending None ∈ w_effects (after (Cancel bare "o1" "damaged")).
Proof. split_and!; [by vm_compute..|]. apply list_elem_of_In. vm_compute. tauto. Qed.

(** ** The outbox worker when the service stops *)

(** The broker refuses the first attempt only, and the context ends during the
    wait after it. *)
Definition stopping_ext : Externals :=
  MkExternals (ext_clock demo_ext) (ext_uuid demo_ext) (ext_reserve demo_ext) (ext_release demo_ext)
    (ext_pay demo_ext) (ext_refund demo_ext)
    (fun n _ _ => if (n <? 8)%nat then Some ErrOutboxPublish else None)
    (ext_kafka demo_ext)
    (fun n => if (n <? 9)%nat then None else Some context_Canceled).

Definition pending_outbox : World MemoryOrders.items :=
  with_outbox {["m1" := OutboxStore.MemoryOutbox.MkOutboxRecord
                         (MkOutboxMessage "m1" "order" "o1" "OrderStatusChanged" "{}") "pending" 0 1 1]}
    empty_world.

(** The same broker, without the end of the context. *)
Definition running_ext : Externals :=
  MkExternals (ext_clock demo_ext) (ext_uuid demo_ext) (ext_reserve demo_ext) (ext_release demo_ext)
    (ext_pay demo_ext) (ext_refund demo_ext) (ext_publish stopping_ext) (ext_kafka demo_ext) (fun _ => None).

(** A message whose publishing is interrupted by the end of the context is
    marked failed although attempts are left and the next one would succeed, so
    it is not published when the service comes back. *)
Theorem interrupted_message_is_failed :
  let w := (run (handle stopping_ext) (ProcessOnce (NewWorker true true [])) pending_outbox).2 in
  let w' := (run (handle running_ext) (ProcessOnce (NewWorker true true [])) pending_outbox).2 in
  match w_outbox w' !! "m1" with
  | Some r => OutboxStore.MemoryOutbox.rec_status r = "sent"
  | None => False
  end /\
  match w_outbox w !! "m1" with
  | Some r => OutboxStore.MemoryOutbox.rec_status r = "failed"
  | None => False
  end.
Proof. vm_compute. done. Qed.
