(* ===== verification/Retry.v ===== *)
(** * Retry and circuit breaker: src/internal/service/saga/retry.go

    The retry loop with its exponential delay on [float64], the circuit breaker
    as a state machine whose two critical sections are separate steps, and the
    two orchestrator wrappers. *)

From S2P Require Import Prelude GoLib Float64 Domain Prog Ports Saga.

(** ** The retry loop *)

Record RetryConfig := MkRetryConfig {
  cfg_MaxAttempts : Z;
  cfg_InitialDelay : Duration;
  cfg_MaxDelay : Duration;
  cfg_BackoffFactor : float64;
}.

Definition DefaultRetryConfig : RetryConfig :=
  MkRetryConfig 3 (100 * Millisecond) (5 * Second) (float64_of_int 2).

Definition shouldRetry (e : err) : bool :=
  if errors_Is e ErrOrderNotFound || errors_Is e ErrOrderVersionConflict
     || errors_Is e ErrInventoryUnavailable || errors_Is e ErrPaymentDeclined then false
  else if errors_Is e ErrInventoryTemporary || errors_Is e ErrPaymentTemporary
          || errors_Is e ErrPaymentIndeterminate then true
  else true.

Definition next_delay (cfg : RetryConfig) (delay : Duration) : Duration :=
  let delay := int_of_float64 (float64_mul (float64_of_int delay) (cfg_BackoffFactor cfg)) in
  if delay >? cfg_MaxDelay cfg then cfg_MaxDelay cfg else delay.

(** How the loop ended. *)
Inductive retry_end : Type :=
| Succeeded
| GaveUp (e : err)          (* an error that is not retried *)
| Exhausted (lastErr : option err).

Section Execute.
Context (cfg : RetryConfig) (fn : M (option err)).

Fixpoint retry_loop (remaining : nat) (attempt : Z) (delay : Duration) (lastErr : option err)
  : M retry_end :=
  match remaining with
  | O => mret (Exhausted lastErr)
  | S remaining =>
      r ← fn;
      match r with
      | None => mret Succeeded
      | Some e =>
          if negb (shouldRetry e) then mret (GaveUp e)
          else if attempt <? cfg_MaxAttempts cfg then
            call (Sleep delay);;
            retry_loop remaining (attempt + 1) (next_delay cfg delay) (Some e)
          else retry_loop remaining (attempt + 1) delay (Some e)
      end
  end.

Definition executeWithRetry : M retry_end :=
  retry_loop (Z.to_nat (cfg_MaxAttempts cfg)) 1 (cfg_InitialDelay cfg) None.
End Execute.

(** ** The circuit breaker *)

Inductive CircuitState : Type := CircuitClosed | CircuitOpen | CircuitHalfOpen.

#[global] Instance CircuitState_eq_dec : EqDecision CircuitState.
Proof. solve_decision. Defined.

Record CircuitBreaker := MkCircuitBreaker {
  cb_maxFailures : Z;
  cb_resetTimeout : Duration;
  cb_failures : Z;
  cb_lastFailure : Time;
  cb_state : CircuitState;
}.

Definition NewCircuitBreaker (maxFailures : Z) (resetTimeout : Duration) : CircuitBreaker :=
  MkCircuitBreaker maxFailures resetTimeout 0 0 CircuitClosed.

Definition set_state (cb : CircuitBreaker) (st : CircuitState) : CircuitBreaker :=
  MkCircuitBreaker (cb_maxFailures cb) (cb_resetTimeout cb) (cb_failures cb) (cb_lastFailure cb) st.

(** The first critical section: [false] when the call is refused. *)
Definition cb_enter (now : Time) (cb : CircuitBreaker) : bool * CircuitBreaker :=
  match cb_state cb with
  | CircuitOpen =>
      if time_Sub now (cb_lastFailure cb) >? cb_resetTimeout cb
      then (true, set_state cb CircuitHalfOpen)
      else (false, cb)
  | _ => (true, cb)
  end.

(** The second critical section, with the outcome of the operation. *)
Definition cb_exit (now : Time) (failed : bool) (cb : CircuitBreaker) : CircuitBreaker :=
  if failed then
    let failures := wrap64 (cb_failures cb + 1) in
    let opened := bool_decide (cb_state cb = CircuitHalfOpen) || (failures >=? cb_maxFailures cb) in
    MkCircuitBreaker (cb_maxFailures cb) (cb_resetTimeout cb) failures now
      (if opened then CircuitOpen else cb_state cb)
  else
    MkCircuitBreaker (cb_maxFailures cb) (cb_resetTimeout cb) 0 (cb_lastFailure cb)
      (if bool_decide (cb_state cb = CircuitHalfOpen) then CircuitClosed else cb_state cb).

Definition errCircuitOpen : err := ErrOther "circuit breaker is open".

(** [time.Since] is read only when the breaker is open, [time.Now] only after a
    failure. *)
Definition Execute (cb : CircuitBreaker) (fn : M (option err)) : M (CircuitBreaker * option err) :=
  entered ←
    (match cb_state cb with
     | CircuitOpen => t ← now; mret (cb_enter t cb)
     | _ => mret (true, cb)
     end);
  if fst entered : bool then
    r ← fn;
    match r with
    | Some e => t ← now; mret (cb_exit t true (snd entered), Some e)
    | None => mret (cb_exit 0 false (snd entered), None)
    end
  else mret (snd entered, Some errCircuitOpen).

(** ** The orchestrators with retry and with a breaker *)

(** [RetryableOrchestrator] only delegates. *)
Definition retryable_job (o : orchestrator) (job : saga_job) : M unit := run_saga_job o job.

(** [CircuitBreakerOrchestrator]: the operation always reports success. *)
Definition breaker_job (o : orchestrator) (cb : CircuitBreaker) (job : saga_job) : M CircuitBreaker :=
  r ← Execute cb (run_saga_job o job;; mret None);
  mret (fst r).

(** ** What the retry loop does, on every run *)

Section RetryTraces.
Context (cfg : RetryConfig) (fn : M (option err)).

Inductive retry_event : Type := Tried (r : option err) | Slept (d : Duration).

(** An environment that observes the outcomes of the operation and the waits. *)
Context (env : environment port retry_event).
Hypothesis fn_observed : traces env fn (fun t r => t = [Tried r]).
Hypothesis sleep_observed : forall d, traces env (call (Sleep d)) (fun t _ => t = [Slept d]).

(** The first [n] delays, from [d] on. *)
Fixpoint delays (d : Duration) (n : nat) : list Duration :=
  match n with O => [] | S n => d :: delays (next_delay cfg d) n end.

(** The failed attempts with the delays after them. *)
Fixpoint interleave (outcomes : list err) (ds : list Duration) : list retry_event :=
  match outcomes, ds with
  | e :: es, d :: ds => Tried (Some e) :: Slept d :: interleave es ds
  | e :: es, [] => Tried (Some e) :: interleave es []
  | [], _ => []
  end.

(** With [n] attempts left: some failures that were retried, then the end. *)
Definition retry_outcome (n : nat) (d : Duration) (t : list retry_event) (r : retry_end) : Prop :=
  exists failed, Forall (fun e => shouldRetry e = true) failed /\
    match r with
    | Succeeded => (length failed < n)%nat /\
        t = interleave failed (delays d (length failed)) ++ [Tried None]
    | GaveUp e => (length failed < n)%nat /\ shouldRetry e = false /\
        t = interleave failed (delays d (length failed)) ++ [Tried (Some e)]
    | Exhausted _ => length failed = n /\ t = interleave failed (delays d (pred n))
    end.

Lemma retry_loop_traces remaining : forall attempt d lastErr,
  attempt + Z.of_nat remaining = cfg_MaxAttempts cfg + 1 ->
  traces env (retry_loop cfg fn remaining attempt d lastErr) (retry_outcome remaining d).
Proof.
  induction remaining as [|n IH]; intros attempt d lastErr Hsum; cbn [retry_loop].
  { apply traces_ret. exists []. split; [constructor|]. done. }
  eapply traces_bind; [exact fn_observed|]. intros t r ->. destruct r as [e|].
  2: { apply traces_ret. exists []. split; [constructor|]. split; [simpl; lia|done]. }
  destruct (shouldRetry e) eqn:Er; simpl negb; cbv iota.
  2: { apply traces_ret. exists []. split; [constructor|]. split_and!; [simpl; lia|done|done]. }
  destruct (Z.ltb_spec attempt (cfg_MaxAttempts cfg)) as [Hlt|Hge].
  - eapply traces_bind; [apply sleep_observed|]. intros t ? ->.
    eapply traces_mono; [apply IH; lia|]. intros t r (failed & Hf & Hr).
    exists (e :: failed). split; [by constructor|].
    destruct r; simpl; [|destruct Hr as (? & ? & ->); split_and!; [lia|done|done]|].
    + destruct Hr as (? & ->). split; [lia|done].
    + destruct Hr as (Hl & ->). split; [lia|]. destruct n as [|n]; [lia|]. done.
  - assert (n = 0%nat) as -> by lia. cbn [retry_loop]. apply traces_ret.
    exists [e]. split; [by repeat constructor|]. done.
Qed.

(** The retry loop calls the operation at most [MaxAttempts] times, waits
    between two calls only, with delays that grow by the factor up to the
    maximum, goes on after retryable failures only, and stops at the first
    success and at the first error that is not to be retried. *)
Theorem executeWithRetry_attempts :
  0 <= cfg_MaxAttempts cfg ->
  traces env (executeWithRetry cfg fn)
    (retry_outcome (Z.to_nat (cfg_MaxAttempts cfg)) (cfg_InitialDelay cfg)).
Proof. intros H. apply retry_loop_traces. lia. Qed.
End RetryTraces.

(** The default delays: 100 ms, doubled up to 5 s. *)
Example default_delays :
  delays DefaultRetryConfig (cfg_InitialDelay DefaultRetryConfig) 8 =
  map (fun ms => ms * Millisecond) [100; 200; 400; 800; 1600; 3200; 5000; 5000].
Proof. vm_compute. reflexivity. Qed.

(** ** The breaker as an automaton *)

(** The breaker when calls do not overlap: closed with a number of consecutive
    failures, or open since a time. *)
Inductive breaker_spec : Type :=
| SpecClosed (failures : Z)
| SpecOpen (since : Time).

(** One call: when it starts, when it ends, and whether it fails. *)
Record breaker_call := MkCall { call_start : Time; call_end : Time; call_fails : bool }.

(** [false] when the call is refused. *)
Definition spec_call (maxFailures : Z) (timeout : Duration) (st : breaker_spec) (c : breaker_call)
  : bool * breaker_spec :=
  match st with
  | SpecClosed k =>
      (true, if call_fails c
             then if k + 1 >=? maxFailures then SpecOpen (call_end c) else SpecClosed (k + 1)
             else SpecClosed 0)
  | SpecOpen since =>
      if call_start c - since >? timeout
      then (true, if call_fails c then SpecOpen (call_end c) else SpecClosed 0)
      else (false, st)
  end.

(** The code's call, when nothing runs in between. *)
Definition breaker_run (cb : CircuitBreaker) (c : breaker_call) : bool * CircuitBreaker :=
  let '(entered, cb) := cb_enter (call_start c) cb in
  if entered then (true, cb_exit (call_end c) (call_fails c) cb) else (false, cb).

Definition breaker_rel (maxFailures : Z) (timeout : Duration) (cb : CircuitBreaker) (st : breaker_spec) : Prop :=
  cb_maxFailures cb = maxFailures /\ cb_resetTimeout cb = timeout /\
  match st with
  | SpecClosed k => cb_state cb = CircuitClosed /\ cb_failures cb = k /\ 0 <= k < maxFailures
  | SpecOpen since => cb_state cb = CircuitOpen /\ cb_lastFailure cb = since
  end.

Lemma breaker_simulation maxFailures timeout cb st c :
  0 < maxFailures <= maxInt64 -> minInt64 <= timeout < maxInt64 -> breaker_rel maxFailures timeout cb st ->
  (breaker_run cb c).1 = (spec_call maxFailures timeout st c).1 /\
  breaker_rel maxFailures timeout (breaker_run cb c).2 (spec_call maxFailures timeout st c).2.
Proof.
  intros Hm Hto (Hmax & Ht & Hst). unfold breaker_run, cb_enter.
  destruct st as [k|since]; destruct Hst as [Hs Hst]; rewrite Hs; simpl.
  - destruct Hst as [Hk Hb]. split; [done|]. unfold cb_exit. rewrite Hs, Hk, Hmax.
    destruct (call_fails c); simpl; [|split_and!; simpl; auto; lia].
    rewrite wrap64_id by (unfold_widths; lia).
    destruct (Z.geb_spec (k + 1) maxFailures); split_and!; simpl; auto; lia.
  - rewrite Hst, Ht.
    assert (time_Sub (call_start c) since >? timeout = (call_start c - since >? timeout)) as ->
      by (unfold time_Sub; unfold_widths; lia).
    destruct (_ >? timeout); simpl; [|done]. split; [done|].
    unfold cb_exit. simpl. destruct (call_fails c); split_and!; simpl; auto; lia.
Qed.

(** C28. Without overlapping calls the circuit breaker is the automaton: it opens
    exactly at the [maxFailures]-th consecutive failure, refuses every call until
    the timeout (any but the largest duration) has passed since the last failure, and then one trial call
    closes it or opens it again. *)
Theorem breaker_refines_automaton maxFailures timeout calls :
  0 < maxFailures <= maxInt64 -> minInt64 <= timeout < maxInt64 ->
  let run cb c := (breaker_run cb c).2 in
  let spec st c := (spec_call maxFailures timeout st c).2 in
  breaker_rel maxFailures timeout
    (foldl run (NewCircuitBreaker maxFailures timeout) calls)
    (foldl spec (SpecClosed 0) calls).
Proof.
  intros Hm Hto run spec.
  assert (breaker_rel maxFailures timeout (NewCircuitBreaker maxFailures timeout) (SpecClosed 0)) as H0.
  { split_and!; simpl; auto; lia. }
  revert H0. generalize (NewCircuitBreaker maxFailures timeout) as cb, (SpecClosed 0) as st.
  induction calls as [|c calls IH]; intros cb st Hrel; simpl; [done|].
  apply IH. by apply breaker_simulation.
Qed.

(** ** Overlapping calls *)

(** A critical section of some call. *)
Inductive breaker_op : Type := OpEnter (t : Time) | OpExit (t : Time) (failed : bool).

Definition breaker_step (cb : CircuitBreaker) (op : breaker_op) : CircuitBreaker :=
  match op with
  | OpEnter t => (cb_enter t cb).2
  | OpExit t failed => cb_exit t failed cb
  end.

(** However the critical sections of concurrent calls interleave, a closed
    breaker has seen fewer than [maxFailures] failures since the last success. *)
Theorem closed_breaker_below_limit maxFailures timeout ops :
  0 < maxFailures -> Z.of_nat (length ops) <= maxInt64 ->
  let cb := foldl breaker_step (NewCircuitBreaker maxFailures timeout) ops in
  cb_state cb = CircuitClosed -> 0 <= cb_failures cb < maxFailures.
Proof.
  intros Hm Hlen cb Hc.
  assert (0 <= cb_failures cb <= Z.of_nat (length ops) /\ cb_maxFailures cb = maxFailures /\
          (cb_state cb = CircuitClosed -> cb_failures cb < maxFailures)) as (? & _ & ?); [|naive_solver lia].
  clear Hc. unfold cb. clear cb. induction ops as [|op ops IH] using rev_ind; [simpl; split_and!; auto; lia|].
  rewrite length_app in *. simpl in *. destruct IH as (Hf & Hmx & Hcl); [lia|].
  rewrite foldl_app. simpl. set (cb := foldl _ _ ops) in *.
  destruct op as [t|t failed]; simpl.
  - unfold cb_enter. destruct (cb_state cb) eqn:E; simpl; rewrite ?E; [| |]; try (split_and!; auto; try lia; naive_solver).
    destruct (_ >? _); simpl; rewrite ?E; split_and!; auto; try lia; naive_solver.
  - unfold cb_exit. destruct failed; simpl; [|split_and!; auto; lia].
    rewrite wrap64_id by (unfold_widths; lia). split_and!; [lia..|done|].
    destruct (Z.geb_spec (cb_failures cb + 1) (cb_maxFailures cb)); [by rewrite orb_true_r|lia].
Qed.

(** ** The wrapped orchestrator *)

(** [CircuitBreakerOrchestrator] never refuses a saga: the operation it
    hands to the breaker always reports success, so a closed breaker stays
    closed and every call runs the saga, whatever the saga's outcome. *)
Theorem breaker_orchestrator_passes_through {W} (h : handler port W) o cb job w :
  cb_state cb = CircuitClosed ->
  let '(cb', w') := run h (breaker_job o cb job) w in
  cb_state cb' = CircuitClosed /\ w' = (run h (run_saga_job o job) w).2.
Proof.
  intros Hc. unfold breaker_job, Execute. rewrite Hc. rewrite run_bind.
  change (mret (true, cb) ≫= ?f) with (f (true, cb)). cbv beta. simpl fst. cbv iota.
  rewrite run_bind. change (?p;; ?q) with (p ≫= fun _ => q). rewrite run_bind.
  destruct (run h (run_saga_job o job) w) as [u w']. simpl. by rewrite Hc.
Qed.
