(* ===== verification/BatchProcessor.v ===== *)
(** * Batch processor: src/internal/service/saga/batch_processor.go

    Each kind of operation (start, cancel, refund) has a buffered channel, a
    batch and a worker goroutine; the three pipelines have the same shape and
    share nothing but the orchestrator, so one is modelled for any type of
    request.  The goroutines interleave by the steps of [pipe_step]; a flushed
    batch goes through [processInParallel], which is modelled apart. *)

From S2P Require Import Prelude Domain.

Record cancelRequest := MkCancelRequest { cancel_orderID : string; cancel_reason : string }.
Record refundRequest := MkRefundRequest {
  refund_orderID : string;
  refund_amountMinor : Z;
  refund_reason : string;
}.

(** The constants of [NewBatchProcessor]. *)
Definition channelSize : nat := 100.
Definition batchLimit : nat := 10.
Definition maxParallelOps : Z := 8.

(** ** One pipeline *)

Record pipe (A : Type) := MkPipe {
  pipe_ch : list A;        (* the channel, oldest first *)
  pipe_batch : list A;     (* the batch under construction *)
  pipe_sent : list A;      (* handed to the orchestrator, in this order *)
  pipe_stopped : bool;     (* the worker has returned *)
}.
Arguments MkPipe {A}.
Arguments pipe_ch {A} _.
Arguments pipe_batch {A} _.
Arguments pipe_sent {A} _.
Arguments pipe_stopped {A} _.

Section Pipe.
Context {A : Type}.

Definition new_pipe : pipe A := MkPipe [] [] [] false.

(** [StartOrder], [CancelOrder], [RefundOrder]: a full channel makes the caller
    run the operation itself. *)
Definition submit (x : A) (p : pipe A) : pipe A :=
  if (length (pipe_ch p) <? channelSize)%nat
  then MkPipe (pipe_ch p ++ [x]) (pipe_batch p) (pipe_sent p) (pipe_stopped p)
  else MkPipe (pipe_ch p) (pipe_batch p) (pipe_sent p ++ [x]) (pipe_stopped p).

(** [flushStartBatch] and its siblings. *)
Definition flush (p : pipe A) : pipe A :=
  MkPipe (pipe_ch p) [] (pipe_sent p ++ pipe_batch p) (pipe_stopped p).

(** The worker receives from the channel. *)
Definition receive (p : pipe A) : pipe A :=
  match pipe_ch p with
  | [] => p
  | x :: rest =>
      let p := MkPipe rest (pipe_batch p ++ [x]) (pipe_sent p) (pipe_stopped p) in
      if (batchLimit <=? length (pipe_batch p))%nat then flush p else p
  end.

(** The context is done or [stopCh] is closed. *)
Definition stop (p : pipe A) : pipe A :=
  MkPipe (pipe_ch p) [] (pipe_sent p ++ pipe_batch p) true.

(** The moves of the callers and of the worker. *)
Inductive pipe_step : pipe A -> list A -> pipe A -> Prop :=
| step_submit x p : pipe_step p [x] (submit x p)
| step_receive p : pipe_stopped p = false -> pipe_step p [] (receive p)
| step_tick p : pipe_stopped p = false -> pipe_step p [] (flush p)
| step_stop p : pipe_stopped p = false -> pipe_step p [] (stop p).

(** Executions, with the requests submitted in order. *)
Inductive pipe_run : pipe A -> list A -> pipe A -> Prop :=
| run_nil p : pipe_run p [] p
| run_step p1 l1 p2 l2 p3 : pipe_run p1 l1 p2 -> pipe_step p2 l2 p3 -> pipe_run p1 (l1 ++ l2) p3.

(** Everything submitted is in exactly one place. *)
Definition content (p : pipe A) : list A := pipe_sent p ++ pipe_batch p ++ pipe_ch p.

Record pipe_inv (submitted : list A) (p : pipe A) : Prop := MkPipeInv {
  inv_content : content p ≡ₚ submitted;
  inv_channel : (length (pipe_ch p) <= channelSize)%nat;
  inv_batch : (length (pipe_batch p) < batchLimit)%nat;
  inv_stopped : pipe_stopped p = true -> pipe_batch p = [];
}.

Lemma pipe_step_inv submitted p l p' :
  pipe_inv submitted p -> pipe_step p l p' -> pipe_inv (submitted ++ l) p'.
Proof.
  intros [Hc Hch Hb Hs] Hstep. unfold content in *. destruct Hstep as [x p|p Hr|p Hr|p Hr].
  - unfold submit. destruct (Nat.ltb_spec (length (pipe_ch p)) channelSize); split; simpl; auto.
    + unfold content. simpl. rewrite <- Hc. by rewrite !app_assoc.
    + rewrite length_app. simpl. lia.
    + unfold content. simpl. rewrite <- Hc, <- !app_assoc. apply Permutation_app_head.
      by rewrite (Permutation_app_comm [x]), <- app_assoc.
  - rewrite app_nil_r. unfold receive. destruct (pipe_ch p) as [|x rest] eqn:E; [split; unfold content; rewrite ?E; auto|].
    simpl pipe_batch. destruct (Nat.leb_spec batchLimit (length (pipe_batch p ++ [x]))); split; simpl; try done;
      unfold content; simpl; rewrite <- ?Hc, <- ?app_assoc; simpl in Hch; try done; try lia; congruence.
  - rewrite app_nil_r. split; simpl; auto; unfold batchLimit; [|lia]. unfold content. simpl. by rewrite <- app_assoc.
  - rewrite app_nil_r. split; simpl; auto; unfold batchLimit; [|lia]. unfold content. simpl. by rewrite <- app_assoc.
Qed.

Lemma pipe_run_inv l p : pipe_run new_pipe l p -> pipe_inv l p.
Proof.
  remember new_pipe as p0 eqn:E. induction 1 as [p|p1 l1 p2 l2 p3 _ IH Hstep]; subst.
  - split; simpl; auto; unfold channelSize, batchLimit; lia.
  - eapply pipe_step_inv; [by apply IH|done].
Qed.

(** C29. However callers, worker and ticker interleave: every submitted request is
    in exactly one of the channel, the batch and the requests handed to the
    orchestrator, none twice; the channel and the batch keep to their limits;
    and what a stopped worker has not handed over is in the channel. *)
Theorem batch_conserves l p :
  pipe_run new_pipe l p ->
  pipe_sent p ++ pipe_batch p ++ pipe_ch p ≡ₚ l /\
  (length (pipe_ch p) <= channelSize)%nat /\ (length (pipe_batch p) < batchLimit)%nat /\
  (pipe_stopped p = true -> pipe_sent p ++ pipe_ch p ≡ₚ l).
Proof.
  intros H%pipe_run_inv. destruct H as [Hc Hch Hb Hs]. split_and!; auto.
  intros Hst. rewrite <- Hc. unfold content. by rewrite (Hs Hst).
Qed.

(** [Stop] loses requests: one that is still in the channel when the worker
    stops is never handed to the orchestrator, whatever happens afterwards. *)
Theorem stop_drops_queued p l p' :
  pipe_run p l p' -> pipe_stopped p = true ->
  (length (pipe_ch p) + length l <= channelSize)%nat ->
  pipe_sent p' = pipe_sent p /\ pipe_ch p' = pipe_ch p ++ l.
Proof.
  intros Hrun Hst Hl.
  assert (pipe_stopped p' = true /\ pipe_sent p' = pipe_sent p /\ pipe_ch p' = pipe_ch p ++ l) as (_ & ? & ?);
    [|done].
  revert Hl. induction Hrun as [p|p1 l1 p2 l2 p3 Hrun IH Hstep]; intros Hl; [by rewrite app_nil_r|].
  rewrite length_app in Hl. destruct IH as (Hs2 & Hsent & Hc2); [done..|lia|].
  destruct Hstep; try congruence. simpl in Hl. unfold submit. rewrite Hc2, length_app.
  rewrite (proj2 (Nat.ltb_lt _ _)) by lia. simpl. by rewrite Hsent, app_assoc.
Qed.
End Pipe.

(** ** processInParallel *)

(** The slots of the semaphore. *)
Definition parallel_limit (size : Z) : Z :=
  let limit := if maxParallelOps <=? 0 then 1 else maxParallelOps in
  if limit >? size then size else limit.

(** [next] indices were started, [running] have not finished, [finished] have,
    the latest first. *)
Record batch_state := MkBatch { b_next : nat; b_running : list nat; b_finished : list nat }.

(** The loop acquires a slot and starts the next index; a running operation
    finishes and releases its slot. *)
Inductive batch_step (size : nat) : batch_state -> batch_state -> Prop :=
| batch_start b : (b_next b < size)%nat ->
    Z.of_nat (length (b_running b)) < parallel_limit (Z.of_nat size) ->
    batch_step size b (MkBatch (S (b_next b)) (b_running b ++ [b_next b]) (b_finished b))
| batch_finish b l1 i l2 : b_running b = l1 ++ i :: l2 ->
    batch_step size b (MkBatch (b_next b) (l1 ++ l2) (i :: b_finished b)).

Inductive batch_reach (size : nat) : batch_state -> Prop :=
| reach_init : batch_reach size (MkBatch 0 [] [])
| reach_step b b' : batch_reach size b -> batch_step size b b' -> batch_reach size b'.

(** The loop is over and [wg.Wait] returns. *)
Definition batch_done (size : nat) (b : batch_state) : Prop := b_next b = size /\ b_running b = [].

Lemma batch_inv size b : batch_reach size b ->
  b_finished b ++ b_running b ≡ₚ seq 0 (b_next b) /\ (b_next b <= size)%nat /\
  Z.of_nat (length (b_running b)) <= Z.max 0 (parallel_limit (Z.of_nat size)).
Proof.
  induction 1 as [|b b' _ IH Hstep]; [simpl; split_and!; [done|lia|lia]|].
  destruct IH as (Hp & Hn & Hr). destruct Hstep as [b Hlt Hlim|b l1 i l2 E]; cbn [b_next b_running b_finished].
  - split_and!; [|lia|rewrite length_app; simpl; lia].
    rewrite seq_S. simpl. rewrite <- Hp. by rewrite app_assoc.
  - rewrite E in *. rewrite length_app in *. simpl in Hr. split_and!; [|done|lia].
    rewrite <- Hp. simpl. by rewrite <- !Permutation_middle.
Qed.

(** A batch is processed with at most eight operations at a time, and when
    [processInParallel] returns every index was processed exactly once. *)
Theorem parallel_batch size b :
  batch_reach size b ->
  Z.of_nat (length (b_running b)) <= maxParallelOps /\
  (batch_done size b -> b_finished b ≡ₚ seq 0 size).
Proof.
  intros H%batch_inv. destruct H as (Hp & Hn & Hr). split.
  - revert Hr. unfold parallel_limit, maxParallelOps. simpl.
    destruct (Z.gtb_spec 8 (Z.of_nat size)); lia.
  - intros [<- Hrun]. by rewrite <- Hp, Hrun, app_nil_r.
Qed.

(** A batch can always finish: while work is left, some step is possible. *)
Lemma batch_progress size b : batch_reach size b -> batch_done size b \/ exists b', batch_step size b b'.
Proof.
  intros H%batch_inv. destruct H as (Hp & Hn & Hr).
  destruct (b_running b) as [|i l] eqn:E.
  - destruct (decide (b_next b = size)); [by left|]. right. eexists. apply batch_start; [lia|].
    rewrite E. unfold parallel_limit, maxParallelOps. simpl.
    destruct (Z.gtb_spec 8 (Z.of_nat size)); lia.
  - right. eexists. by apply (batch_finish size b [] i l).
Qed.
