(* ===== verification/Courier.v ===== *)
(** * Courier domain: src/internal/domain/courier.go, moscow_zones.go

    Couriers with their zones, slots and ratings, and the validation of each.
    [strings.ToLower] is modelled with the table of [unicode.ToLower] for runes
    outside ASCII as the class [UnicodeLower]. *)

From S2P Require Import Prelude GoLib Json Float64 Domain.

(** ** Vehicles *)

Definition MaxCouriersPerZoneDefault : Z := 100.
Definition minPhoneDigits : Z := 11.
Definition maxPhoneDigits : Z := 15.
Definition moscowUTCOffsetSeconds : Z := 3 * 60 * 60.

Definition VehicleType := string.
Definition VehicleTypeScooter : VehicleType := "scooter".
Definition VehicleTypeBike : VehicleType := "bike".
Definition VehicleTypeCar : VehicleType := "car".

Definition VehicleType_Valid (v : VehicleType) : bool :=
  (v =s? VehicleTypeScooter) || (v =s? VehicleTypeBike) || (v =s? VehicleTypeCar).

Definition AllowsMultipleZones (v : VehicleType) : bool := v =s? VehicleTypeCar.

Record CourierVehicleCapability := MkCapability {
  Cap_VehicleType : VehicleType;
  Cap_MaxWeightGrams : Z;
  Cap_MaxVolumeCM3 : Z;
  Cap_MaxOrdersPerTrip : Z;
  Cap_UpdatedAt : Time;
}.

Definition Capability_ValidateInvariants (c : CourierVehicleCapability) : list err :=
  let errs := if negb (VehicleType_Valid (Cap_VehicleType c)) then [ErrCourierVehicleTypeInvalid] else [] in
  if (Cap_MaxWeightGrams c <=? 0) || (Cap_MaxVolumeCM3 c <=? 0) || (Cap_MaxOrdersPerTrip c <=? 0)
  then errs ++ [ErrCourierVehicleCapabilityInvalid] else errs.

Definition DefaultCourierVehicleCapabilities : list CourierVehicleCapability :=
  [MkCapability VehicleTypeScooter 5000 35000 2 0;
   MkCapability VehicleTypeBike 10000 65000 3 0;
   MkCapability VehicleTypeCar 25000 250000 10 0].

(** ** Time of day in Moscow *)

Definition in_msk (t : Time) : Time := t + moscowUTCOffsetSeconds * Second.

(** The clock of a time is read from its seconds since the absolute zero of the
    time package (March 1 of a year before every 64-bit time), on 64 bits
    unsigned; 730692556 times 400 years of 146097 days, and 306 days. *)
Definition internalToAbsolute : Z := (730692556 * 146097 + 306) * 86400.
Definition abs_seconds (t : Time) : Z := (t / Second + internalToAbsolute) mod 2 ^ 64.

Definition clock_Hour (t : Time) : Z := abs_seconds t mod 86400 / 3600.
Definition clock_Minute (t : Time) : Z := abs_seconds t mod 3600 / 60.
Definition clock_Second (t : Time) : Z := abs_seconds t mod 60.
Definition clock_Nanosecond (t : Time) : Z := t mod Second.

Definition at_hour (t : Time) (hour : Z) : bool :=
  (clock_Hour t =? hour) && (clock_Minute t =? 0) && (clock_Second t =? 0) && (clock_Nanosecond t =? 0).

Definition IsNightShiftSlot (slotStart slotEnd : Time) : bool :=
  if IsZero slotStart || IsZero slotEnd then false
  else
    let startMSK := in_msk slotStart in
    let endMSK := in_msk slotEnd in
    if negb (time_Sub endMSK startMSK =? 12 * Hour) then false
    else at_hour startMSK 20 && at_hour endMSK 8.

(** ** Phones *)

(** The loop over the runes of the trimmed phone; [idx] is the byte index.  A
    byte outside ASCII starts a rune that is not accepted. *)
Fixpoint phone_digits (idx : nat) (l : list ascii) (digits : list ascii) : option (list ascii) :=
  match l with
  | [] => Some digits
  | r :: rest =>
      let n := nat_of_ascii r in
      if in_range r 48 57 then phone_digits (S idx) rest (digits ++ [r])
      else if Nat.eqb n 43 && Nat.eqb idx 0 then phone_digits (S idx) rest digits
      else if Nat.eqb n 32 || Nat.eqb n 45 || Nat.eqb n 40 || Nat.eqb n 41 || Nat.eqb n 9
      then phone_digits (S idx) rest digits
      else None
  end.

Definition NormalizePhone (phone : string) : result string :=
  let trimmed := TrimSpace phone in
  if trimmed =s? "" then Err ErrCourierPhoneRequired
  else
    match phone_digits 0 (list_ascii_of_string trimmed) [] with
    | None => Err ErrCourierPhoneFormatInvalid
    | Some digits =>
        if (Z.of_nat (length digits) <? minPhoneDigits) || (Z.of_nat (length digits) >? maxPhoneDigits)
        then Err ErrCourierPhoneFormatInvalid
        else Ok ("+" +:+ string_of_list_ascii digits)
    end.

(** ** Couriers *)

Record Courier := MkCourier {
  Courier_ID : string;
  Courier_Phone : string;
  Courier_FirstName : string;
  Courier_LastName : string;
  Courier_VehicleType : VehicleType;
  Courier_IsActive : bool;
  Courier_CreatedAt : Time;
  Courier_UpdatedAt : Time;
}.

Definition Courier_ValidateInvariants (c : Courier) : list err :=
  let errs := if TrimSpace (Courier_ID c) =s? "" then [ErrCourierIDRequired] else [] in
  let errs :=
    if TrimSpace (Courier_Phone c) =s? "" then errs ++ [ErrCourierPhoneRequired]
    else match NormalizePhone (Courier_Phone c) with
         | Err e => errs ++ [e]
         | Ok _ => errs
         end in
  let errs := if TrimSpace (Courier_FirstName c) =s? "" then errs ++ [ErrCourierFirstNameRequired] else errs in
  let errs := if TrimSpace (Courier_LastName c) =s? "" then errs ++ [ErrCourierLastNameRequired] else errs in
  if negb (VehicleType_Valid (Courier_VehicleType c)) then errs ++ [ErrCourierVehicleTypeInvalid] else errs.

(** ** Zones *)

Record MoscowZone := MkMoscowZone { Zone_ID : string; Zone_Okrug : string; Zone_Name : string }.

Definition moscowZones : list MoscowZone :=
  [
   MkMoscowZone "msk-cao-arbat" "cao" "Arbat";
   MkMoscowZone "msk-cao-basmanny" "cao" "Basmanny";
   MkMoscowZone "msk-cao-zamoskvorechye" "cao" "Zamoskvorechye";
   MkMoscowZone "msk-cao-krasnoselsky" "cao" "Krasnoselsky";
   MkMoscowZone "msk-cao-meshchansky" "cao" "Meshchansky";
   MkMoscowZone "msk-cao-presnensky" "cao" "Presnensky";
   MkMoscowZone "msk-cao-tagansky" "cao" "Tagansky";
   MkMoscowZone "msk-cao-tverskoy" "cao" "Tverskoy";
   MkMoscowZone "msk-cao-khamovniki" "cao" "Khamovniki";
   MkMoscowZone "msk-cao-yakimanka" "cao" "Yakimanka";
   MkMoscowZone "msk-sao-aeroport" "sao" "Aeroport";
   MkMoscowZone "msk-sao-begovoy" "sao" "Begovoy";
   MkMoscowZone "msk-sao-beskudnikovsky" "sao" "Beskudnikovsky";
   MkMoscowZone "msk-sao-voykovsky" "sao" "Voykovsky";
   MkMoscowZone "msk-sao-vostochnoe-degunino" "sao" "Vostochnoe-Degunino";
   MkMoscowZone "msk-sao-golovinsky" "sao" "Golovinsky";
   MkMoscowZone "msk-sao-dmitrovsky" "sao" "Dmitrovsky";
   MkMoscowZone "msk-sao-zapadnoe-degunino" "sao" "Zapadnoe-Degunino";
   MkMoscowZone "msk-sao-koptevo" "sao" "Koptevo";
   MkMoscowZone "msk-sao-levoberezhny" "sao" "Levoberezhny";
   MkMoscowZone "msk-sao-molzhaninovsky" "sao" "Molzhaninovsky";
   MkMoscowZone "msk-sao-savelovsky" "sao" "Savelovsky";
   MkMoscowZone "msk-sao-sokol" "sao" "Sokol";
   MkMoscowZone "msk-sao-timiryazevsky" "sao" "Timiryazevsky";
   MkMoscowZone "msk-sao-khovrino" "sao" "Khovrino";
   MkMoscowZone "msk-sao-khoroshevsky" "sao" "Khoroshevsky";
   MkMoscowZone "msk-svao-alekseevsky" "svao" "Alekseevsky";
   MkMoscowZone "msk-svao-altufyevsky" "svao" "Altufyevsky";
   MkMoscowZone "msk-svao-babushkinsky" "svao" "Babushkinsky";
   MkMoscowZone "msk-svao-bibirevo" "svao" "Bibirevo";
   MkMoscowZone "msk-svao-butyrsky" "svao" "Butyrsky";
   MkMoscowZone "msk-svao-lianozovo" "svao" "Lianozovo";
   MkMoscowZone "msk-svao-losinoostrovsky" "svao" "Losinoostrovsky";
   MkMoscowZone "msk-svao-marfino" "svao" "Marfino";
   MkMoscowZone "msk-svao-maryina-roshcha" "svao" "Maryina-Roshcha";
   MkMoscowZone "msk-svao-ostankinsky" "svao" "Ostankinsky";
   MkMoscowZone "msk-svao-otradnoe" "svao" "Otradnoe";
   MkMoscowZone "msk-svao-rostokino" "svao" "Rostokino";
   MkMoscowZone "msk-svao-sviblovo" "svao" "Sviblovo";
   MkMoscowZone "msk-svao-severny" "svao" "Severny";
   MkMoscowZone "msk-svao-severnoe-medvedkovo" "svao" "Severnoe-Medvedkovo";
   MkMoscowZone "msk-svao-yuzhnoe-medvedkovo" "svao" "Yuzhnoe-Medvedkovo";
   MkMoscowZone "msk-svao-yaroslavsky" "svao" "Yaroslavsky";
   MkMoscowZone "msk-vao-bogorodskoe" "vao" "Bogorodskoe";
   MkMoscowZone "msk-vao-veshnyaki" "vao" "Veshnyaki";
   MkMoscowZone "msk-vao-vostochny" "vao" "Vostochny";
   MkMoscowZone "msk-vao-vostochnoe-izmaylovo" "vao" "Vostochnoe-Izmaylovo";
   MkMoscowZone "msk-vao-golyanovo" "vao" "Golyanovo";
   MkMoscowZone "msk-vao-ivanovskoe" "vao" "Ivanovskoe";
   MkMoscowZone "msk-vao-izmaylovo" "vao" "Izmaylovo";
   MkMoscowZone "msk-vao-kosino-ukhtomsky" "vao" "Kosino-Ukhtomsky";
   MkMoscowZone "msk-vao-metrogorodok" "vao" "Metrogorodok";
   MkMoscowZone "msk-vao-novogireevo" "vao" "Novogireevo";
   MkMoscowZone "msk-vao-novokosino" "vao" "Novokosino";
   MkMoscowZone "msk-vao-perovo" "vao" "Perovo";
   MkMoscowZone "msk-vao-preobrazhenskoe" "vao" "Preobrazhenskoe";
   MkMoscowZone "msk-vao-severnoe-izmaylovo" "vao" "Severnoe-Izmaylovo";
   MkMoscowZone "msk-vao-sokolinaya-gora" "vao" "Sokolinaya-Gora";
   MkMoscowZone "msk-vao-sokolniki" "vao" "Sokolniki";
   MkMoscowZone "msk-yuvao-vykhino-zhulebino" "yuvao" "Vykhino-Zhulebino";
   MkMoscowZone "msk-yuvao-kapotnya" "yuvao" "Kapotnya";
   MkMoscowZone "msk-yuvao-kuzminki" "yuvao" "Kuzminki";
   MkMoscowZone "msk-yuvao-lefortovo" "yuvao" "Lefortovo";
   MkMoscowZone "msk-yuvao-lyublino" "yuvao" "Lyublino";
   MkMoscowZone "msk-yuvao-maryino" "yuvao" "Maryino";
   MkMoscowZone "msk-yuvao-nekrasovka" "yuvao" "Nekrasovka";
   MkMoscowZone "msk-yuvao-nizhegorodsky" "yuvao" "Nizhegorodsky";
   MkMoscowZone "msk-yuvao-pechatniki" "yuvao" "Pechatniki";
   MkMoscowZone "msk-yuvao-ryazansky" "yuvao" "Ryazansky";
   MkMoscowZone "msk-yuvao-tekstilshchiki" "yuvao" "Tekstilshchiki";
   MkMoscowZone "msk-yuvao-yuzhnoportovy" "yuvao" "Yuzhnoportovy";
   MkMoscowZone "msk-yuao-biryulyovo-vostochnoe" "yuao" "Biryulyovo-Vostochnoe";
   MkMoscowZone "msk-yuao-biryulyovo-zapadnoe" "yuao" "Biryulyovo-Zapadnoe";
   MkMoscowZone "msk-yuao-brateevo" "yuao" "Brateevo";
   MkMoscowZone "msk-yuao-danilovsky" "yuao" "Danilovsky";
   MkMoscowZone "msk-yuao-donskoy" "yuao" "Donskoy";
   MkMoscowZone "msk-yuao-zyablikovo" "yuao" "Zyablikovo";
   MkMoscowZone "msk-yuao-moskvorechye-saburovo" "yuao" "Moskvorechye-Saburovo";
   MkMoscowZone "msk-yuao-nagatino-sadovniki" "yuao" "Nagatino-Sadovniki";
   MkMoscowZone "msk-yuao-nagatinsky-zaton" "yuao" "Nagatinsky-Zaton";
   MkMoscowZone "msk-yuao-nagorny" "yuao" "Nagorny";
   MkMoscowZone "msk-yuao-orekhovo-borisovo-severnoe" "yuao" "Orekhovo-Borisovo-Severnoe";
   MkMoscowZone "msk-yuao-orekhovo-borisovo-yuzhnoe" "yuao" "Orekhovo-Borisovo-Yuzhnoe";
   MkMoscowZone "msk-yuao-tsaritsyno" "yuao" "Tsaritsyno";
   MkMoscowZone "msk-yuao-chertanovo-severnoe" "yuao" "Chertanovo-Severnoe";
   MkMoscowZone "msk-yuao-chertanovo-tsentralnoe" "yuao" "Chertanovo-Tsentralnoe";
   MkMoscowZone "msk-yuao-chertanovo-yuzhnoe" "yuao" "Chertanovo-Yuzhnoe";
   MkMoscowZone "msk-yuzao-akademichesky" "yuzao" "Akademichesky";
   MkMoscowZone "msk-yuzao-gagarinsky" "yuzao" "Gagarinsky";
   MkMoscowZone "msk-yuzao-zyuzino" "yuzao" "Zyuzino";
   MkMoscowZone "msk-yuzao-konkovo" "yuzao" "Konkovo";
   MkMoscowZone "msk-yuzao-kotlovka" "yuzao" "Kotlovka";
   MkMoscowZone "msk-yuzao-lomonosovsky" "yuzao" "Lomonosovsky";
   MkMoscowZone "msk-yuzao-obruchevsky" "yuzao" "Obruchevsky";
   MkMoscowZone "msk-yuzao-severnoe-butovo" "yuzao" "Severnoe-Butovo";
   MkMoscowZone "msk-yuzao-teply-stan" "yuzao" "Teply-Stan";
   MkMoscowZone "msk-yuzao-cheryomushki" "yuzao" "Cheryomushki";
   MkMoscowZone "msk-yuzao-yuzhnoe-butovo" "yuzao" "Yuzhnoe-Butovo";
   MkMoscowZone "msk-yuzao-yasenevo" "yuzao" "Yasenevo";
   MkMoscowZone "msk-zao-dorogomilovo" "zao" "Dorogomilovo";
   MkMoscowZone "msk-zao-krylatskoe" "zao" "Krylatskoe";
   MkMoscowZone "msk-zao-kuntsevo" "zao" "Kuntsevo";
   MkMoscowZone "msk-zao-mozhaysky" "zao" "Mozhaysky";
   MkMoscowZone "msk-zao-novo-peredelkino" "zao" "Novo-Peredelkino";
   MkMoscowZone "msk-zao-ochakovo-matveevskoe" "zao" "Ochakovo-Matveevskoe";
   MkMoscowZone "msk-zao-prospekt-vernadskogo" "zao" "Prospekt-Vernadskogo";
   MkMoscowZone "msk-zao-ramenki" "zao" "Ramenki";
   MkMoscowZone "msk-zao-solntsevo" "zao" "Solntsevo";
   MkMoscowZone "msk-zao-troparevo-nikulino" "zao" "Troparevo-Nikulino";
   MkMoscowZone "msk-zao-filevsky-park" "zao" "Filevsky-Park";
   MkMoscowZone "msk-zao-fili-davydkovo" "zao" "Fili-Davydkovo";
   MkMoscowZone "msk-szao-kurkino" "szao" "Kurkino";
   MkMoscowZone "msk-szao-mitino" "szao" "Mitino";
   MkMoscowZone "msk-szao-pokrovskoe-streshnevo" "szao" "Pokrovskoe-Streshnevo";
   MkMoscowZone "msk-szao-severnoe-tushino" "szao" "Severnoe-Tushino";
   MkMoscowZone "msk-szao-strogino" "szao" "Strogino";
   MkMoscowZone "msk-szao-khoroshevo-mnevniki" "szao" "Khoroshevo-Mnevniki";
   MkMoscowZone "msk-szao-shchukino" "szao" "Shchukino";
   MkMoscowZone "msk-szao-yuzhnoe-tushino" "szao" "Yuzhnoe-Tushino";
   MkMoscowZone "msk-zelao-matushkino" "zelao" "Matushkino";
   MkMoscowZone "msk-zelao-savelki" "zelao" "Savelki";
   MkMoscowZone "msk-zelao-staroe-kryukovo" "zelao" "Staroe-Kryukovo";
   MkMoscowZone "msk-zelao-silino" "zelao" "Silino";
   MkMoscowZone "msk-zelao-kryukovo" "zelao" "Kryukovo";
   MkMoscowZone "msk-nao-vnukovo" "nao" "Vnukovo";
   MkMoscowZone "msk-nao-kommunarka" "nao" "Kommunarka";
   MkMoscowZone "msk-nao-filimonkovsky" "nao" "Filimonkovsky";
   MkMoscowZone "msk-nao-shcherbinka" "nao" "Shcherbinka";
   MkMoscowZone "msk-tao-bekasovo" "tao" "Bekasovo";
   MkMoscowZone "msk-tao-voronovo" "tao" "Voronovo";
   MkMoscowZone "msk-tao-krasnopakhorsky" "tao" "Krasnopakhorsky";
   MkMoscowZone "msk-tao-troitsk" "tao" "Troitsk"
  ].

(** The table of [unicode.ToLower] for runes from 0x80 on. *)
Class UnicodeLower := unicode_ToLower : Z -> Z.

(** The rune at the head of a string: its value and its bytes; U+FFFD and one
    byte for an invalid encoding. *)
Definition decode_rune (l : list ascii) : Z * nat :=
  let at_ i := Z.of_nat (nat_of_ascii (nth i l zero)) in
  if at_ 0%nat <? 128 then (at_ 0%nat, 1%nat)
  else match rune_size l with
       | Some 2%nat => ((at_ 0%nat - 192) * 64 + (at_ 1%nat - 128), 2%nat)
       | Some 3%nat => (((at_ 0%nat - 224) * 64 + (at_ 1%nat - 128)) * 64 + (at_ 2%nat - 128), 3%nat)
       | Some 4%nat => ((((at_ 0%nat - 240) * 64 + (at_ 1%nat - 128)) * 64 + (at_ 2%nat - 128)) * 64
                        + (at_ 3%nat - 128), 4%nat)
       | _ => (65533, 1%nat)
       end.

Definition lower_rune `{UnicodeLower} (r : Z) : Z :=
  if (65 <=? r) && (r <=? 90) then r + 32 else if r <? 128 then r else unicode_ToLower r.

Fixpoint lower_list `{UnicodeLower} (fuel : nat) (l : list ascii) : list ascii :=
  match fuel, l with
  | O, _ | _, [] => []
  | S n, _ => let '(r, size) := decode_rune l in encode_rune (lower_rune r) ++ lower_list n (drop size l)
  end.

(** [strings.ToLower] *)
Definition ToLower `{UnicodeLower} (s : string) : string :=
  let l := list_ascii_of_string s in string_of_list_ascii (lower_list (length l) l).

Definition NormalizeZoneID `{UnicodeLower} (zoneID : string) : string := ToLower (TrimSpace zoneID).

Definition moscowZoneSet : list string := map Zone_ID moscowZones.

Definition IsKnownMoscowZoneID `{UnicodeLower} (zoneID : string) : bool :=
  existsb (String.eqb (NormalizeZoneID zoneID)) moscowZoneSet.

Definition MoscowZonesCatalog : list MoscowZone :=
  insertion_sort (fun a b => str_lt (Zone_ID a) (Zone_ID b)) moscowZones.

Record CourierZone := MkCourierZone {
  CZone_CourierID : string;
  CZone_ZoneID : string;
  CZone_IsPrimary : bool;
  CZone_AssignedAt : Time;
}.

Definition CourierZone_ValidateInvariants `{UnicodeLower} (z : CourierZone) : list err :=
  let errs := if TrimSpace (CZone_CourierID z) =s? "" then [ErrCourierIDRequired] else [] in
  let zoneID := NormalizeZoneID (CZone_ZoneID z) in
  if zoneID =s? "" then errs ++ [ErrCourierZoneRequired]
  else if negb (IsKnownMoscowZoneID zoneID) then errs ++ [ErrCourierZoneUnknown]
  else errs.

(** ** Slots *)

Definition CourierSlotStatus := string.
Definition CourierSlotStatusPlanned : CourierSlotStatus := "planned".
Definition CourierSlotStatusActive : CourierSlotStatus := "active".
Definition CourierSlotStatusCompleted : CourierSlotStatus := "completed".
Definition CourierSlotStatusCanceled : CourierSlotStatus := "canceled".

Definition CourierSlotStatus_Valid (s : CourierSlotStatus) : bool :=
  (s =s? CourierSlotStatusPlanned) || (s =s? CourierSlotStatusActive)
  || (s =s? CourierSlotStatusCompleted) || (s =s? CourierSlotStatusCanceled).

Record CourierSlot := MkCourierSlot {
  Slot_ID : string;
  Slot_CourierID : string;
  Slot_Start : Time;
  Slot_End : Time;
  Slot_DurationHours : Z;
  Slot_Status : CourierSlotStatus;
  Slot_CreatedAt : Time;
  Slot_UpdatedAt : Time;
}.

Definition CourierSlot_ValidateInvariants (s : CourierSlot) : list err :=
  let errs := if TrimSpace (Slot_ID s) =s? "" then [ErrCourierSlotIDRequired] else [] in
  let errs := if TrimSpace (Slot_CourierID s) =s? "" then errs ++ [ErrCourierIDRequired] else errs in
  let errs :=
    if IsZero (Slot_Start s) || IsZero (Slot_End s) || negb (After (Slot_End s) (Slot_Start s))
    then errs ++ [ErrCourierSlotRangeInvalid] else errs in
  let errs :=
    if (Slot_DurationHours s =? 4) || (Slot_DurationHours s =? 8) || (Slot_DurationHours s =? 12)
    then errs else errs ++ [ErrCourierSlotDurationInvalid] in
  let errs :=
    if negb (IsZero (Slot_Start s)) && negb (IsZero (Slot_End s)) && (Slot_DurationHours s >? 0) then
      let expected := wrap64 (Slot_DurationHours s * Hour) in
      if negb (time_Sub (Slot_End s) (Slot_Start s) =? expected)
      then errs ++ [ErrCourierSlotDurationMismatch] else errs
    else errs in
  if Slot_Status s =s? "" then errs
  else if negb (CourierSlotStatus_Valid (Slot_Status s)) then errs ++ [ErrCourierSlotStatusInvalid] else errs.

(** ** Ratings *)

Definition CourierRatingMinScore : Z := 1.
Definition CourierRatingMaxScore : Z := 5.

Definition CourierRatingTag := string.
Definition CourierRatingTagOnTime : CourierRatingTag := "on_time".
Definition CourierRatingTagPolite : CourierRatingTag := "polite".
Definition CourierRatingTagCarefulHandling : CourierRatingTag := "careful_handling".
Definition CourierRatingTagDelayedDelivery : CourierRatingTag := "delayed_delivery".
Definition CourierRatingTagRudeBehavior : CourierRatingTag := "rude_behavior".
Definition CourierRatingTagDamagedOrder : CourierRatingTag := "damaged_order".
Definition CourierRatingTagOtherIssue : CourierRatingTag := "other_issue".

Definition CourierRatingTag_Valid (t : CourierRatingTag) : bool :=
  (t =s? CourierRatingTagOnTime) || (t =s? CourierRatingTagPolite)
  || (t =s? CourierRatingTagCarefulHandling) || (t =s? CourierRatingTagDelayedDelivery)
  || (t =s? CourierRatingTagRudeBehavior) || (t =s? CourierRatingTagDamagedOrder)
  || (t =s? CourierRatingTagOtherIssue).

Definition CourierRatingTag_IsPositive (t : CourierRatingTag) : bool :=
  (t =s? CourierRatingTagOnTime) || (t =s? CourierRatingTagPolite) || (t =s? CourierRatingTagCarefulHandling).

Definition CourierRatingTag_IsNegative (t : CourierRatingTag) : bool :=
  (t =s? CourierRatingTagDelayedDelivery) || (t =s? CourierRatingTagRudeBehavior)
  || (t =s? CourierRatingTagDamagedOrder) || (t =s? CourierRatingTagOtherIssue).

Record CourierRating := MkCourierRating {
  Rating_ID : string;
  Rating_CourierID : string;
  Rating_Score : Z;
  Rating_Tags : list CourierRatingTag;
  Rating_Comment : string;
  Rating_CreatedAt : Time;
}.

(** The loop over the tags: the errors, and whether a negative tag was seen. *)
Fixpoint check_tags (score : Z) (tags seen : list CourierRatingTag) (hasNegativeTag : bool) (errs : list err)
  : list err * bool :=
  match tags with
  | [] => (errs, hasNegativeTag)
  | tag :: rest =>
      if negb (CourierRatingTag_Valid tag)
      then check_tags score rest seen hasNegativeTag (errs ++ [ErrCourierRatingTagInvalid])
      else if existsb (String.eqb tag) seen
      then check_tags score rest seen hasNegativeTag (errs ++ [ErrCourierRatingTagDuplicate])
      else if CourierRatingTag_IsNegative tag
      then check_tags score rest (tag :: seen) true
             (if score =? CourierRatingMaxScore then errs ++ [ErrCourierRatingPositiveTagsOnly] else errs)
      else check_tags score rest (tag :: seen) hasNegativeTag errs
  end.

Definition CourierRating_ValidateInvariants (r : CourierRating) : list err :=
  let errs := if TrimSpace (Rating_ID r) =s? "" then [ErrCourierRatingIDRequired] else [] in
  let errs := if TrimSpace (Rating_CourierID r) =s? "" then errs ++ [ErrCourierIDRequired] else errs in
  let errs :=
    if (Rating_Score r <? CourierRatingMinScore) || (Rating_Score r >? CourierRatingMaxScore)
    then errs ++ [ErrCourierRatingScoreInvalid] else errs in
  let '(errs, hasNegativeTag) := check_tags (Rating_Score r) (Rating_Tags r) [] false errs in
  if (Rating_Score r <? 3) && negb hasNegativeTag then errs ++ [ErrCourierRatingReasonsRequired] else errs.

Record CourierRatingSummary := MkRatingSummary {
  Sum_CourierID : string;
  Sum_RatingsCount : Z;
  Sum_AverageScore : float64;
  Sum_LowRatingsCount : Z;
  Sum_Score1Count : Z;
  Sum_Score2Count : Z;
  Sum_Score3Count : Z;
  Sum_Score4Count : Z;
  Sum_Score5Count : Z;
  Sum_OnTimeCount : Z;
  Sum_PoliteCount : Z;
  Sum_CarefulCount : Z;
  Sum_DelayedCount : Z;
  Sum_RudeCount : Z;
  Sum_DamagedCount : Z;
  Sum_OtherIssueCount : Z;
  Sum_LastRatingAt : Time;
}.

(** ** Normal phones *)

(** What [NormalizePhone] returns: a plus sign and 11 to 15 digits. *)
Definition phone_normal (p : string) : Prop :=
  exists digits, p = "+" +:+ string_of_list_ascii digits /\
    Forall (fun a => in_range a 48 57 = true) digits /\ (11 <= length digits <= 15)%nat.

Lemma phone_digits_spec l : forall idx acc digits,
  Forall (fun a => in_range a 48 57 = true) acc -> phone_digits idx l acc = Some digits ->
  Forall (fun a => in_range a 48 57 = true) digits.
Proof.
  induction l as [|a l IH]; intros idx acc digits Hacc; simpl; [by intros [= <-]|].
  destruct (in_range a 48 57) eqn:Ha.
  - apply IH. apply Forall_app. by repeat constructor.
  - repeat case_match; intros Hrest; try done; by eapply IH.
Qed.

Lemma phone_digits_all l : forall idx acc,
  Forall (fun a => in_range a 48 57 = true) l -> phone_digits idx l acc = Some (acc ++ l).
Proof.
  induction l as [|a l IH]; intros idx acc Hl; simpl; [by rewrite app_nil_r|].
  apply Forall_cons in Hl as [Ha Hl]. rewrite Ha, IH by done. by rewrite <- app_assoc.
Qed.

Lemma NormalizePhone_normal phone p : NormalizePhone phone = Ok p -> phone_normal p.
Proof.
  unfold NormalizePhone. destruct (_ =s? ""); [done|].
  destruct (phone_digits _ _ _) as [digits|] eqn:E; [|done].
  destruct (_ || _) eqn:El; [done|]. intros [= <-]. exists digits.
  apply orb_false_iff in El as [?%Z.ltb_ge Hle]. unfold minPhoneDigits, maxPhoneDigits in *.
  rewrite Z.gtb_ltb in Hle. apply Z.ltb_ge in Hle.
  split_and!; [done| |lia..]. by eapply phone_digits_spec; [|exact E].
Qed.

Lemma digit_solid a : in_range a 48 57 = true -> solid a = true.
Proof.
  unfold in_range. rewrite andb_true_iff, !Nat.leb_le. intros [H1 H2].
  destruct a as [[] [] [] [] [] [] [] []]; vm_compute in H1, H2; try lia; reflexivity.
Qed.

Lemma normal_trim p : phone_normal p -> TrimSpace p = p /\ p <> "".
Proof.
  intros (digits & -> & Hd & _). split; [|done]. apply TrimSpace_solid.
  rewrite list_ascii_app, list_ascii_of_string_of_list_ascii. simpl. constructor; [done|].
  eapply Forall_impl; [exact Hd|]. apply digit_solid.
Qed.

(** A normal phone is its own normal form. *)
Lemma NormalizePhone_fixed p : phone_normal p -> NormalizePhone p = Ok p.
Proof.
  intros Hp. pose proof (normal_trim p Hp) as [Ht Hne]. destruct Hp as (digits & -> & Hd & Hlen).
  unfold NormalizePhone. rewrite Ht. simpl (_ =s? _). cbv iota.
  assert (phone_digits 0 (list_ascii_of_string ("+" +:+ string_of_list_ascii digits)) [] = Some digits) as ->.
  { rewrite list_ascii_app, list_ascii_of_string_of_list_ascii. simpl. by rewrite phone_digits_all. }
  unfold minPhoneDigits, maxPhoneDigits.
  destruct (Z.ltb_spec (Z.of_nat (length digits)) 11), (Z.gtb_spec (Z.of_nat (length digits)) 15); simpl; try lia; done.
Qed.

(** [NormalizePhone] returns a plus sign and 11 to 15 digits, and leaves such
    a phone as it is. *)
Theorem NormalizePhone_canonical phone p :
  NormalizePhone phone = Ok p -> phone_normal p /\ NormalizePhone p = Ok p.
Proof. intros H%NormalizePhone_normal. split; [done|]. by apply NormalizePhone_fixed. Qed.

(** ** Known zones *)

Lemma NormalizeZoneID_catalog `{UnicodeLower} z : z ∈ moscowZoneSet -> NormalizeZoneID z = z.
Proof.
  assert (forallb (fun z => NormalizeZoneID z =s? z) moscowZoneSet = true) as Hall by (by vm_compute).
  rewrite forallb_forall in Hall. intros Hz. apply String.eqb_eq, Hall. by apply list_elem_of_In.
Qed.

Lemma known_zone `{UnicodeLower} z : IsKnownMoscowZoneID z = true ->
  NormalizeZoneID z ∈ moscowZoneSet /\ NormalizeZoneID (NormalizeZoneID z) = NormalizeZoneID z.
Proof.
  unfold IsKnownMoscowZoneID. rewrite existsb_exists. intros (x & Hx & ->%String.eqb_eq).
  apply list_elem_of_In in Hx. split; [done|]. by apply NormalizeZoneID_catalog.
Qed.

(** ** Valid ratings *)

(** What validation accepts: a score from 1 to 5, known tags without
    repetition, a negative tag for a low score, none for the highest. *)
Definition rating_ok (r : CourierRating) : Prop :=
  TrimSpace (Rating_ID r) <> "" /\ TrimSpace (Rating_CourierID r) <> "" /\
  1 <= Rating_Score r <= 5 /\ NoDup (Rating_Tags r) /\
  Forall (fun t => CourierRatingTag_Valid t = true) (Rating_Tags r) /\
  (Rating_Score r = 5 -> Forall (fun t => CourierRatingTag_IsNegative t = false) (Rating_Tags r)) /\
  (Rating_Score r < 3 -> Exists (fun t => CourierRatingTag_IsNegative t = true) (Rating_Tags r)).

Lemma check_tags_spec score tags : forall seen neg errs,
  let r := check_tags score tags seen neg errs in
  (r.1 = [] <-> errs = [] /\ NoDup tags /\ Forall (fun t => t ∉ seen) tags /\
     Forall (fun t => CourierRatingTag_Valid t = true) tags /\
     (score = 5 -> Forall (fun t => CourierRatingTag_IsNegative t = false) tags)) /\
  (r.1 = [] -> r.2 = neg || existsb CourierRatingTag_IsNegative tags).
Proof.
  induction tags as [|t tags IH]; intros seen neg errs; simpl.
  { split; [|by rewrite orb_false_r]. naive_solver constructor. }
  destruct (CourierRatingTag_Valid t) eqn:Ev; simpl.
  2: { destruct (IH seen neg (errs ++ [ErrCourierRatingTagInvalid])) as [IH1 _].
       rewrite IH1, app_nil. setoid_rewrite Forall_cons. naive_solver congruence. }
  destruct (existsb (String.eqb t) seen) eqn:Es.
  { apply existsb_exists in Es as (x & Hx & <-%String.eqb_eq). apply list_elem_of_In in Hx.
    destruct (IH seen neg (errs ++ [ErrCourierRatingTagDuplicate])) as [IH1 _].
    rewrite IH1, app_nil. setoid_rewrite Forall_cons. naive_solver. }
  assert (t ∉ seen) as Hs.
  { intros Hin. assert (existsb (String.eqb t) seen = true) as H; [|congruence].
    apply existsb_exists. exists t. by rewrite String.eqb_refl, <- list_elem_of_In. }
  assert (forall l, Forall (fun x => x ∉ t :: seen) l <-> t ∉ l /\ Forall (fun x => x ∉ seen) l) as Hcons.
  { intros l. rewrite !Forall_forall. setoid_rewrite not_elem_of_cons. split.
    - intros H. split; [intros Hin; by destruct (H t Hin)|]. intros x Hx. by apply H.
    - intros [Ht H] x Hx. split; [by intros ->|by apply H]. }
  rewrite !Forall_cons, NoDup_cons.
  destruct (CourierRatingTag_IsNegative t) eqn:En.
  - destruct (IH (t :: seen) true (if score =? CourierRatingMaxScore
        then errs ++ [ErrCourierRatingPositiveTagsOnly] else errs)) as [IH1 IH2].
    rewrite IH1, Hcons in *. unfold CourierRatingMaxScore in *.
    split; [|intros Hr; rewrite (IH2 Hr); by rewrite orb_true_r].
    destruct (Z.eqb_spec score 5); rewrite ?app_nil; try setoid_rewrite Forall_cons; naive_solver congruence.
  - destruct (IH (t :: seen) neg errs) as [IH1 IH2]. rewrite IH1, Hcons in *.
    split; [try setoid_rewrite Forall_cons; naive_solver|exact IH2].
Qed.

Lemma existsb_Exists {A} (f : A -> bool) l : existsb f l = true <-> Exists (fun x => f x = true) l.
Proof. rewrite existsb_exists, Exists_exists. by setoid_rewrite list_elem_of_In. Qed.

Lemma CourierRating_valid r : CourierRating_ValidateInvariants r = [] <-> rating_ok r.
Proof.
  unfold CourierRating_ValidateInvariants, rating_ok.
  match goal with |- context [check_tags ?sc ?tags [] false ?es] =>
    pose proof (check_tags_spec sc tags [] false es) as [H1 H2];
    destruct (check_tags sc tags [] false es) as [errs neg]; simpl in H1, H2
  end.
  rewrite !app_if_nil, orb_false_iff, Z.ltb_ge, Z.gtb_ltb, Z.ltb_ge in H1.
  assert (((if TrimSpace (Rating_ID r) =s? "" then [ErrCourierRatingIDRequired] else []) = [] <->
           TrimSpace (Rating_ID r) <> "")) as Hid
    by (destruct (String.eqb_spec (TrimSpace (Rating_ID r)) ""); naive_solver).
  rewrite Hid, String.eqb_neq in H1. unfold CourierRatingMinScore, CourierRatingMaxScore in H1.
  assert (Forall (fun t => t ∉ ([] : list string)) (Rating_Tags r)) as Hnil.
  { apply Forall_forall. intros t _. apply not_elem_of_nil. }
  rewrite app_if_nil, andb_false_iff, Z.ltb_ge, negb_false_iff, <- existsb_Exists. split.
  - intros [He Hneg]. pose proof (H2 He) as Hn. apply H1 in He as (((Hi & Hc) & Hs) & Hnd & _ & Hv & H5).
    split_and!; try done; try lia. intros Hlow. destruct Hneg as [?|Hneg]; [lia|]. by rewrite <- Hn.
  - intros (Hi & Hc & Hs & Hnd & Hv & H5 & Hlow).
    assert (errs = []) as He by (apply H1; split_and!; done || lia).
    split; [done|]. destruct (decide (Rating_Score r < 3)) as [Hl|]; [|left; lia]. right.
    rewrite (H2 He). by apply Hlow.
Qed.

(** A rating is accepted exactly when its score is from 1 to 5, its tags are
    known and not repeated, a score below 3 has a negative tag, and a score of 5
    has none. *)
Theorem rating_validation_exact r : CourierRating_ValidateInvariants r = [] <-> rating_ok r.
Proof. apply CourierRating_valid. Qed.

(** ** Valid slots *)

Definition slot_ok (s : CourierSlot) : Prop :=
  TrimSpace (Slot_ID s) <> "" /\ TrimSpace (Slot_CourierID s) <> "" /\
  Slot_Start s <> 0 /\ Slot_End s <> 0 /\
  (Slot_DurationHours s = 4 \/ Slot_DurationHours s = 8 \/ Slot_DurationHours s = 12) /\
  Slot_End s = Slot_Start s + Slot_DurationHours s * Hour /\
  (Slot_Status s = "" \/ CourierSlotStatus_Valid (Slot_Status s) = true).

Lemma time_Sub_exact a b d : is_int64 d -> d <> minInt64 -> d <> maxInt64 ->
  (time_Sub a b = d <-> a = b + d).
Proof. unfold time_Sub. unfold_widths. lia. Qed.

Lemma IsZero_false t : IsZero t = false <-> t <> 0.
Proof. unfold IsZero. by rewrite Z.eqb_neq. Qed.

Lemma duration_exact s (errs : list err) :
  (if (Slot_DurationHours s =? 4) || (Slot_DurationHours s =? 8) || (Slot_DurationHours s =? 12)
   then errs else errs ++ [ErrCourierSlotDurationInvalid]) = [] <->
  errs = [] /\ (Slot_DurationHours s = 4 \/ Slot_DurationHours s = 8 \/ Slot_DurationHours s = 12).
Proof.
  rewrite <- !Z.eqb_eq, <- !orb_true_iff, orb_assoc. destruct (_ || _); [naive_solver|].
  rewrite app_nil. naive_solver.
Qed.

Lemma CourierSlot_valid s : CourierSlot_ValidateInvariants s = [] <-> slot_ok s.
Proof.
  unfold CourierSlot_ValidateInvariants, slot_ok.
  assert (((if TrimSpace (Slot_ID s) =s? "" then [ErrCourierSlotIDRequired] else []) = [] <->
           TrimSpace (Slot_ID s) <> "")) as Hid
    by (destruct (String.eqb_spec (TrimSpace (Slot_ID s)) ""); naive_solver).
  assert (forall errs : list err,
    (if Slot_Status s =s? "" then errs
     else if negb (CourierSlotStatus_Valid (Slot_Status s)) then errs ++ [ErrCourierSlotStatusInvalid] else errs)
    = [] <-> errs = [] /\ (Slot_Status s = "" \/ CourierSlotStatus_Valid (Slot_Status s) = true)) as ->.
  { intros errs. destruct (String.eqb_spec (Slot_Status s) ""); [naive_solver|].
    rewrite app_if_nil, negb_false_iff. naive_solver. }
  destruct (IsZero (Slot_Start s)) eqn:E1; [|destruct (IsZero (Slot_End s)) eqn:E2]; cbn [orb andb negb].
  1,2: rewrite duration_exact, app_nil; unfold IsZero in *; rewrite Z.eqb_eq in *; naive_solver.
  assert (forall (b : bool) (l l' : list err), (if b then if negb (time_Sub (Slot_End s) (Slot_Start s) =?
     wrap64 (Slot_DurationHours s * Hour)) then l ++ [ErrCourierSlotDurationMismatch] else l else l) = [] <->
     l = [] /\ (b = true -> time_Sub (Slot_End s) (Slot_Start s) = wrap64 (Slot_DurationHours s * Hour))) as H.
  { intros [] l _; [|naive_solver]. rewrite app_if_nil, negb_false_iff, Z.eqb_eq. naive_solver. }
  rewrite H, duration_exact, !app_if_nil, Hid, String.eqb_neq by exact []. clear H.
  unfold After. rewrite negb_false_iff, Z.ltb_lt, Z.gtb_lt.
  unfold IsZero in *. rewrite Z.eqb_neq in *.
  assert (forall h, h = 4 \/ h = 8 \/ h = 12 ->
    (time_Sub (Slot_End s) (Slot_Start s) = wrap64 (h * Hour) <-> Slot_End s = Slot_Start s + h * Hour)) as Hd.
  { intros h Hh. rewrite wrap64_id; [|unfold Hour, Minute, Second, Millisecond; unfold_widths; lia].
    apply time_Sub_exact; unfold Hour, Minute, Second, Millisecond; unfold_widths; lia. }
  split.
  - intros (((((Hi & Hc) & Hr) & Hdur) & Hsub) & Hst). split_and!; try done.
    apply Hd; [done|]. apply Hsub. lia.
  - intros (Hi & Hc & H1 & H2 & Hdur & Hend & Hst). split_and!; try done.
    + rewrite Hend. unfold Hour, Minute, Second, Millisecond. lia.
    + intros _. by apply Hd.
Qed.

(** ** Night shifts *)

(** A time after year 1 that fits 64-bit seconds, and its clock. *)
Definition in_era (t : Time) : Prop := 0 < t < 2 ^ 62 * Second.

Lemma at_hour_exact t h : 0 < t < 2 ^ 63 * Second -> 0 <= h < 24 ->
  at_hour t h = true <-> t mod (24 * Hour) = h * Hour.
Proof.
  intros Ht Hh. unfold at_hour, clock_Hour, clock_Minute, clock_Second, clock_Nanosecond, abs_seconds.
  unfold Hour, Minute, Second, Millisecond, internalToAbsolute in *.
  rewrite (Z.mod_small (t / (1000 * 1000000) + _) (2 ^ 64))
    by (pose proof (Z.div_lt_upper_bound t (1000 * 1000000) (2 ^ 63));
        pose proof (Z.div_pos t (1000 * 1000000)); lia).
  rewrite !andb_true_iff, !Z.eqb_eq.
  pose proof (Z.div_mod t (1000 * 1000000) ltac:(lia)) as Hq.
  set (q := t / (1000 * 1000000)) in *. set (n := t mod (1000 * 1000000)) in *.
  assert (0 <= n < 1000 * 1000000) by (apply Z.mod_pos_bound; lia).
  assert (forall k, (86400 mod k = 0 -> 0 < k -> (q + (730692556 * 146097 + 306) * 86400) mod k = q mod k)) as Hk.
  { intros k Hd Hpos. apply Z.mod_divide in Hd; [|lia]. destruct Hd as [c Hc]. rewrite Hc.
    replace (q + (730692556 * 146097 + 306) * (c * k)) with (q + (730692556 * 146097 + 306) * c * k) by lia.
    apply Z.mod_add. lia. }
  rewrite !Hk by (reflexivity || lia). clear Hk. clearbody q n. subst t.
  split; [intros (((H1 & H2) & H3) & H4)|intros H1; split_and!];
    Z.div_mod_to_equations; lia.
Qed.

(** The night shift of the rules: a slot of exactly twelve hours that starts
    at 20:00 in Moscow, to the nanosecond. *)
Theorem night_shift_exact slotStart slotEnd :
  in_era slotStart -> in_era slotEnd ->
  IsNightShiftSlot slotStart slotEnd = true <->
  slotEnd = slotStart + 12 * Hour /\ (slotStart + 3 * Hour) mod (24 * Hour) = 20 * Hour.
Proof.
  unfold in_era. intros Hs He. unfold IsNightShiftSlot, in_msk.
  rewrite (proj2 (IsZero_false _)), (proj2 (IsZero_false _)) by lia. cbn [orb].
  replace (moscowUTCOffsetSeconds * Second) with (3 * Hour) by reflexivity.
  destruct (Z.eqb_spec (time_Sub (slotEnd + 3 * Hour) (slotStart + 3 * Hour)) (12 * Hour)) as [E|E]; cbn [negb].
  - apply time_Sub_exact in E; [|unfold_widths; unfold Hour, Minute, Second, Millisecond; lia..].
    rewrite andb_true_iff, !at_hour_exact by (unfold Hour, Minute, Second, Millisecond in *; lia).
    assert (slotEnd = slotStart + 12 * Hour) as -> by lia. split; [naive_solver|]. intros [_ H]. split; [done|].
    revert H. unfold Hour, Minute, Second, Millisecond. intros H. Z.div_mod_to_equations. lia.
  - split; [done|]. intros [-> _]. exfalso. apply E. apply time_Sub_exact;
      unfold_widths; unfold Hour, Minute, Second, Millisecond; lia.
Qed.
