(* ===== verification/CourierStore.v ===== *)
(** * Courier repository: src/internal/domain/courier_repository.go and
      src/internal/storage/memory/courier_repository.go

    The in-memory repository of couriers, with its index by phone, the zones,
    slots and ratings of each courier, and the invariant every sequence of
    operations keeps.  Each method runs under the repository's mutex. *)

From S2P Require Import Prelude GoLib Float64 Domain Courier.

Module MemoryCouriers.

Section Operations.
Context {rt : GoRuntime} {ul : UnicodeLower}.

Record repository := MkRepository {
  couriers : gmap string Courier;
  courierByPhone : gmap string string;
  vehicleCaps : gmap string CourierVehicleCapability;
  zonesByCourier : gmap string (gmap string CourierZone);
  slotsByCourier : gmap string (gmap string CourierSlot);
  ratingsByCourier : gmap string (gmap string CourierRating);
}.

Definition set_couriers (cs : gmap string Courier) (ps : gmap string string) (r : repository) : repository :=
  MkRepository cs ps (vehicleCaps r) (zonesByCourier r) (slotsByCourier r) (ratingsByCourier r).
Definition set_zones (zs : gmap string (gmap string CourierZone)) (r : repository) : repository :=
  MkRepository (couriers r) (courierByPhone r) (vehicleCaps r) zs (slotsByCourier r) (ratingsByCourier r).
Definition set_slots (ss : gmap string (gmap string CourierSlot)) (r : repository) : repository :=
  MkRepository (couriers r) (courierByPhone r) (vehicleCaps r) (zonesByCourier r) ss (ratingsByCourier r).
Definition set_ratings (rs : gmap string (gmap string CourierRating)) (r : repository) : repository :=
  MkRepository (couriers r) (courierByPhone r) (vehicleCaps r) (zonesByCourier r) (slotsByCourier r) rs.

Definition NewCourierRepository (now : Time) : repository :=
  let stamp c := MkCapability (Cap_VehicleType c) (Cap_MaxWeightGrams c) (Cap_MaxVolumeCM3 c)
                   (Cap_MaxOrdersPerTrip c) now in
  let caps := foldl (fun m c => <[Cap_VehicleType c := stamp c]> m) ∅ DefaultCourierVehicleCapabilities in
  MkRepository ∅ ∅ caps ∅ ∅ ∅.

Definition firstValidationErr (errs : list err) : option err := head errs.

Definition intervalsOverlap (startA endA startB endB : Time) : bool :=
  Before startA endB && Before startB endA.

Definition set_phone_times (c : Courier) (phone : string) (created updated : Time) : Courier :=
  MkCourier (Courier_ID c) phone (Courier_FirstName c) (Courier_LastName c) (Courier_VehicleType c)
    (Courier_IsActive c) created updated.

(** Another courier has the phone. *)
Definition phone_taken (r : repository) (phone id : string) : bool :=
  match courierByPhone r !! phone with Some existingID => existingID <>s? id | None => false end.

Definition Create (now : Time) (courier : Courier) (r : repository) : result unit * repository :=
  match firstValidationErr (Courier_ValidateInvariants courier) with
  | Some e => (Err e, r)
  | None =>
      match NormalizePhone (Courier_Phone courier) with
      | Err e => (Err e, r)
      | Ok phone =>
          match couriers r !! Courier_ID courier with
          | Some _ => (Err ErrCourierAlreadyExists, r)
          | None =>
              if phone_taken r phone (Courier_ID courier) then (Err ErrCourierPhoneAlreadyExists, r)
              else
                let created := if IsZero (Courier_CreatedAt courier) then now else Courier_CreatedAt courier in
                let updated := if IsZero (Courier_UpdatedAt courier) then created else Courier_UpdatedAt courier in
                let courier := set_phone_times courier phone created updated in
                (Ok tt, set_couriers (<[Courier_ID courier := courier]> (couriers r))
                          (<[phone := Courier_ID courier]> (courierByPhone r)) r)
          end
      end
  end.

Definition Get (id : string) (r : repository) : result Courier :=
  let id := TrimSpace id in
  if id =s? "" then Err ErrCourierIDRequired
  else match couriers r !! id with Some c => Ok c | None => Err ErrCourierNotFound end.

Definition GetByPhone (phone : string) (r : repository) : result Courier :=
  match NormalizePhone phone with
  | Err e => Err e
  | Ok phone =>
      match courierByPhone r !! phone with
      | None => Err ErrCourierNotFound
      | Some id => match couriers r !! id with Some c => Ok c | None => Err ErrCourierNotFound end
      end
  end.

Definition Save (now : Time) (courier : Courier) (r : repository) : result unit * repository :=
  match firstValidationErr (Courier_ValidateInvariants courier) with
  | Some e => (Err e, r)
  | None =>
      match NormalizePhone (Courier_Phone courier) with
      | Err e => (Err e, r)
      | Ok phone =>
          match couriers r !! Courier_ID courier with
          | None => (Err ErrCourierNotFound, r)
          | Some current =>
              if phone_taken r phone (Courier_ID courier) then (Err ErrCourierPhoneAlreadyExists, r)
              else
                let currentPhone := TrimSpace (Courier_Phone current) in
                let byPhone :=
                  if currentPhone <>s? phone
                  then <[phone := Courier_ID courier]> (delete currentPhone (courierByPhone r))
                  else courierByPhone r in
                let created := if IsZero (Courier_CreatedAt courier) then Courier_CreatedAt current
                               else Courier_CreatedAt courier in
                let updated := if IsZero (Courier_UpdatedAt courier) then now else Courier_UpdatedAt courier in
                let courier := set_phone_times courier phone created updated in
                (Ok tt, set_couriers (<[Courier_ID courier := courier]> (couriers r)) byPhone r)
          end
      end
  end.

Definition ListByZone (loop : nat) (zoneID : string) (limit : Z) (r : repository) : result (list Courier) :=
  let zoneID := NormalizeZoneID zoneID in
  if zoneID =s? "" then Err ErrCourierZoneRequired
  else if negb (IsKnownMoscowZoneID zoneID) then Err ErrCourierZoneUnknown
  else
    let found := flat_map (fun '(courierID, zones) =>
      match zones !! zoneID, couriers r !! courierID with
      | Some _, Some c => [c]
      | _, _ => []
      end) (map_range loop (zonesByCourier r)) in
    let sorted := sort_Slice (less_time_id_desc Courier_CreatedAt Courier_ID) found in
    Ok (if (limit >? 0) && (Z.of_nat (length sorted) >? limit) then take (Z.to_nat limit) sorted else sorted).

(** ** Zones *)

(** The zones a courier has now; a missing entry is the nil map. *)
Definition zones_of (r : repository) (courierID : string) : gmap string CourierZone :=
  default ∅ (zonesByCourier r !! courierID).

(** The count does not depend on the order of the loop over the map. *)
Definition countCouriersInZoneLocked (r : repository) (zoneID excludeCourierID : string) : Z :=
  Z.of_nat (length (List.filter (fun '(courierID, zones) =>
    (courierID <>s? excludeCourierID) && bool_decide (is_Some ((zones : gmap string CourierZone) !! zoneID)))
    (map_to_list (zonesByCourier r)))).

Fixpoint ensureZoneCapacityLocked (r : repository) (courierID : string) (zones : list CourierZone)
    (currentZones : gmap string CourierZone) : option err :=
  match zones with
  | [] => None
  | zone :: rest =>
      if bool_decide (is_Some (currentZones !! CZone_ZoneID zone))
      then ensureZoneCapacityLocked r courierID rest currentZones
      else if countCouriersInZoneLocked r (CZone_ZoneID zone) courierID >=? MaxCouriersPerZoneDefault
      then Some ErrCourierZoneCapacityExceeded
      else ensureZoneCapacityLocked r courierID rest currentZones
  end.

(** The loop over the given zones: the normalized zones and the number of
    primary ones.  The clock is read for each zone without a time. *)
Fixpoint normalize_zones (clock : nat -> Time) (courierID : string) (zones : list CourierZone)
    (seen : list string) (normalized : list CourierZone) (primaryCount : Z)
  : result (list CourierZone * Z) :=
  match zones with
  | [] => Ok (normalized, primaryCount)
  | zone :: rest =>
      let zone := MkCourierZone courierID (CZone_ZoneID zone) (CZone_IsPrimary zone) (CZone_AssignedAt zone) in
      match firstValidationErr (CourierZone_ValidateInvariants zone) with
      | Some e => Err e
      | None =>
          let zoneID := NormalizeZoneID (CZone_ZoneID zone) in
          if existsb (String.eqb zoneID) seen then Err ErrCourierZoneDuplicate
          else
            let assigned := if IsZero (CZone_AssignedAt zone) then clock (length normalized)
                            else CZone_AssignedAt zone in
            normalize_zones clock courierID rest (zoneID :: seen)
              (normalized ++ [MkCourierZone courierID zoneID (CZone_IsPrimary zone) assigned])
              (if CZone_IsPrimary zone then primaryCount + 1 else primaryCount)
      end
  end.

Definition make_primary (z : CourierZone) : CourierZone :=
  MkCourierZone (CZone_CourierID z) (CZone_ZoneID z) true (CZone_AssignedAt z).

Definition zone_map (zones : list CourierZone) : gmap string CourierZone :=
  foldl (fun m z => <[CZone_ZoneID z := z]> m) ∅ zones.

Definition ReplaceZones (clock : nat -> Time) (courierID : string) (zones : list CourierZone) (r : repository)
  : result unit * repository :=
  let courierID := TrimSpace courierID in
  if courierID =s? "" then (Err ErrCourierIDRequired, r)
  else if (length zones =? 0)%nat then (Err ErrCourierZonesRequired, r)
  else
    match couriers r !! courierID with
    | None => (Err ErrCourierNotFound, r)
    | Some courier =>
        if negb (AllowsMultipleZones (Courier_VehicleType courier)) && (1 <? length zones)%nat
        then (Err ErrCourierZoneLimitExceeded, r)
        else
          match normalize_zones clock courierID zones [] [] 0 with
          | Err e => (Err e, r)
          | Ok (normalized, primaryCount) =>
              if primaryCount >? 1 then (Err ErrCourierPrimaryZoneConflict, r)
              else
                let normalized :=
                  match normalized with
                  | z :: rest => if primaryCount =? 0 then make_primary z :: rest else normalized
                  | [] => []
                  end in
                match ensureZoneCapacityLocked r courierID normalized (zones_of r courierID) with
                | Some e => (Err e, r)
                | None => (Ok tt, set_zones (<[courierID := zone_map normalized]> (zonesByCourier r)) r)
                end
          end
    end.

(** Primary first, then by identifier. *)
Definition zone_before (a b : CourierZone) : bool :=
  if negb (Bool.eqb (CZone_IsPrimary a) (CZone_IsPrimary b)) then CZone_IsPrimary a
  else str_lt (CZone_ZoneID a) (CZone_ZoneID b).

Definition ListZones (loop : nat) (courierID : string) (r : repository) : result (list CourierZone) :=
  let courierID := TrimSpace courierID in
  if courierID =s? "" then Err ErrCourierIDRequired
  else match couriers r !! courierID with
       | None => Err ErrCourierNotFound
       | Some _ => Ok (sort_Slice zone_before (map snd (map_range loop (zones_of r courierID))))
       end.

(** ** Slots *)

Definition slots_of (r : repository) (courierID : string) : gmap string CourierSlot :=
  default ∅ (slotsByCourier r !! courierID).

(** Some slot that is not canceled overlaps the interval; the order of the loop
    does not matter. *)
Definition slot_conflict (slots : gmap string CourierSlot) (start end_ : Time) : bool :=
  existsb (fun existing => (Slot_Status existing <>s? CourierSlotStatusCanceled) &&
             intervalsOverlap (Slot_Start existing) (Slot_End existing) start end_)
    (map snd (map_to_list slots)).

Definition set_slot (s : CourierSlot) (status : CourierSlotStatus) (created updated : Time) : CourierSlot :=
  MkCourierSlot (Slot_ID s) (Slot_CourierID s) (Slot_Start s) (Slot_End s) (Slot_DurationHours s)
    status created updated.

Definition CreateSlot (now : Time) (slot : CourierSlot) (r : repository) : result unit * repository :=
  let status := if Slot_Status slot =s? "" then CourierSlotStatusPlanned else Slot_Status slot in
  let slot := set_slot slot status (Slot_CreatedAt slot) (Slot_UpdatedAt slot) in
  match firstValidationErr (CourierSlot_ValidateInvariants slot) with
  | Some e => (Err e, r)
  | None =>
      match couriers r !! Slot_CourierID slot with
      | None => (Err ErrCourierNotFound, r)
      | Some courier =>
          if IsNightShiftSlot (Slot_Start slot) (Slot_End slot)
             && (Courier_VehicleType courier <>s? VehicleTypeCar)
          then (Err ErrCourierNightSlotCarOnly, r)
          else
            (* a missing inner map is created and stored at once *)
            let courierSlots := slots_of r (Slot_CourierID slot) in
            let r := set_slots (<[Slot_CourierID slot := courierSlots]> (slotsByCourier r)) r in
            match courierSlots !! Slot_ID slot with
            | Some _ => (Err ErrCourierSlotConflict, r)
            | None =>
                if slot_conflict courierSlots (Slot_Start slot) (Slot_End slot)
                then (Err ErrCourierSlotConflict, r)
                else
                  let created := if IsZero (Slot_CreatedAt slot) then now else Slot_CreatedAt slot in
                  let updated := if IsZero (Slot_UpdatedAt slot) then created else Slot_UpdatedAt slot in
                  let slot := set_slot slot (Slot_Status slot) created updated in
                  (Ok tt, set_slots (<[Slot_CourierID slot := <[Slot_ID slot := slot]> courierSlots]>
                                       (slotsByCourier r)) r)
            end
      end
  end.

Definition ListSlots (loop : nat) (courierID : string) (from to : Time) (r : repository)
  : result (list CourierSlot) :=
  let courierID := TrimSpace courierID in
  if courierID =s? "" then Err ErrCourierIDRequired
  else match couriers r !! courierID with
       | None => Err ErrCourierNotFound
       | Some _ =>
           let found := List.filter (fun slot =>
             negb (negb (IsZero from) && negb (After (Slot_End slot) from)) &&
             negb (negb (IsZero to) && negb (Before (Slot_Start slot) to)))
             (map snd (map_range loop (slots_of r courierID))) in
           Ok (sort_Slice (less_time_id Slot_Start Slot_ID) found)
       end.

(** ** Vehicle capabilities *)

Definition GetVehicleCapability (vehicleType : VehicleType) (r : repository) : result CourierVehicleCapability :=
  if negb (VehicleType_Valid vehicleType) then Err ErrCourierVehicleTypeInvalid
  else match vehicleCaps r !! vehicleType with
       | None => Err ErrCourierVehicleCapabilityNotFound
       | Some c => Ok c
       end.

Definition ListVehicleCapabilities (loop : nat) (r : repository) : result (list CourierVehicleCapability) :=
  Ok (sort_Slice (fun a b => str_lt (Cap_VehicleType a) (Cap_VehicleType b))
        (map snd (map_range loop (vehicleCaps r)))).

(** ** Ratings *)

Definition ratings_of (r : repository) (courierID : string) : gmap string CourierRating :=
  default ∅ (ratingsByCourier r !! courierID).

Definition SubmitRating (now : Time) (rating : CourierRating) (r : repository) : result unit * repository :=
  match firstValidationErr (CourierRating_ValidateInvariants rating) with
  | Some e => (Err e, r)
  | None =>
      match couriers r !! Rating_CourierID rating with
      | None => (Err ErrCourierNotFound, r)
      | Some _ =>
          let courierRatings := ratings_of r (Rating_CourierID rating) in
          let r := set_ratings (<[Rating_CourierID rating := courierRatings]> (ratingsByCourier r)) r in
          match courierRatings !! Rating_ID rating with
          | Some _ => (Err ErrCourierRatingAlreadyExists, r)
          | None =>
              let created := if IsZero (Rating_CreatedAt rating) then now else Rating_CreatedAt rating in
              let rating := MkCourierRating (Rating_ID rating) (Rating_CourierID rating) (Rating_Score rating)
                              (Rating_Tags rating) (Rating_Comment rating) created in
              (Ok tt, set_ratings (<[Rating_CourierID rating := <[Rating_ID rating := rating]> courierRatings]>
                                     (ratingsByCourier r)) r)
          end
      end
  end.

(** [counter++] in a [case]. *)
Definition bump (hit : bool) (n : Z) : Z := if hit then wrap64 (n + 1) else n.

(** The [switch] on a tag. *)
Definition tag_step (s : CourierRatingSummary) (tag : CourierRatingTag) : CourierRatingSummary :=
  match s with
  | MkRatingSummary id n avg low s1 s2 s3 s4 s5 ontime polite careful delayed rude damaged other last_ =>
      MkRatingSummary id n avg low s1 s2 s3 s4 s5
        (bump (tag =s? CourierRatingTagOnTime) ontime)
        (bump (tag =s? CourierRatingTagPolite) polite)
        (bump (tag =s? CourierRatingTagCarefulHandling) careful)
        (bump (tag =s? CourierRatingTagDelayedDelivery) delayed)
        (bump (tag =s? CourierRatingTagRudeBehavior) rude)
        (bump (tag =s? CourierRatingTagDamagedOrder) damaged)
        (bump (tag =s? CourierRatingTagOtherIssue) other) last_
  end.

(** The body of the loop over the ratings, but for [totalScore]. *)
Definition rating_step (s : CourierRatingSummary) (rating : CourierRating) : CourierRatingSummary :=
  match s with
  | MkRatingSummary id n avg low s1 s2 s3 s4 s5 ontime polite careful delayed rude damaged other last_ =>
      let score := Rating_Score rating in
      foldl tag_step
        (MkRatingSummary id (wrap64 (n + 1)) avg (bump (score <? 3) low)
           (bump (score =? 1) s1) (bump (score =? 2) s2) (bump (score =? 3) s3)
           (bump (score =? 4) s4) (bump (score =? 5) s5)
           ontime polite careful delayed rude damaged other
           (if IsZero last_ || After (Rating_CreatedAt rating) last_
            then Rating_CreatedAt rating else last_))
        (Rating_Tags rating)
  end.

Definition empty_summary (courierID : string) : CourierRatingSummary :=
  MkRatingSummary courierID 0 (S754_zero false) 0 0 0 0 0 0 0 0 0 0 0 0 0 0.

Definition set_average (avg : float64) (s : CourierRatingSummary) : CourierRatingSummary :=
  match s with
  | MkRatingSummary id n _ low s1 s2 s3 s4 s5 ontime polite careful delayed rude damaged other last_ =>
      MkRatingSummary id n avg low s1 s2 s3 s4 s5 ontime polite careful delayed rude damaged other last_
  end.

Definition GetRatingSummary (loop : nat) (courierID : string) (r : repository) : result CourierRatingSummary :=
  let courierID := TrimSpace courierID in
  if courierID =s? "" then Err ErrCourierIDRequired
  else match couriers r !! courierID with
       | None => Err ErrCourierNotFound
       | Some _ =>
           let courierRatings := ratings_of r courierID in
           if bool_decide (courierRatings = ∅) then Ok (empty_summary courierID)
           else
             let l := map snd (map_range loop courierRatings) in
             let summary := foldl rating_step (empty_summary courierID) l in
             let totalScore := foldl (fun acc rating => wrap64 (acc + Rating_Score rating)) 0 l in
             Ok (set_average (float64_div (float64_of_int totalScore)
                                (float64_of_int (Sum_RatingsCount summary))) summary)
       end.
End Operations.

(** ** The invariant *)

Section Invariant.
Context {ul : UnicodeLower}.

Definition has_zone (z : string) (zones : gmap string CourierZone) : bool := bool_decide (is_Some (zones !! z)).

Lemma filter_length_perm {A} (f : A -> bool) l1 l2 : l1 ≡ₚ l2 ->
  length (List.filter f l1) = length (List.filter f l2).
Proof. induction 1; simpl; repeat (destruct (f _)); simpl; lia. Qed.

Lemma filter_map_length {A B} (f : B -> bool) (g : A -> B) l :
  length (List.filter f (map g l)) = length (List.filter (fun x => f (g x)) l).
Proof. induction l as [|x l IH]; simpl; [done|]. destruct (f (g x)); simpl; lia. Qed.

(** The number of couriers working in a zone. *)
Definition zone_load (m : gmap string (gmap string CourierZone)) (z : string) : nat :=
  length (List.filter (has_zone z) (map snd (map_to_list m))).

Record zones_good (courierID : string) (zones : gmap string CourierZone) : Prop := {
  zg_entries : forall z x, zones !! z = Some x ->
    CZone_ZoneID x = z /\ CZone_CourierID x = courierID /\ IsKnownMoscowZoneID z = true;
  zg_primary : exists z x, zones !! z = Some x /\ CZone_IsPrimary x = true;
  zg_unique : forall z1 x1 z2 x2, zones !! z1 = Some x1 -> zones !! z2 = Some x2 ->
    CZone_IsPrimary x1 = true -> CZone_IsPrimary x2 = true -> z1 = z2;
}.

Record slots_good (courierID : string) (slots : gmap string CourierSlot) : Prop := {
  sg_entries : forall k s, slots !! k = Some s ->
    Slot_ID s = k /\ Slot_CourierID s = courierID /\ slot_ok s /\ CourierSlotStatus_Valid (Slot_Status s) = true;
  sg_disjoint : forall k1 s1 k2 s2, slots !! k1 = Some s1 -> slots !! k2 = Some s2 -> k1 <> k2 ->
    Slot_Status s1 <> CourierSlotStatusCanceled -> Slot_Status s2 <> CourierSlotStatusCanceled ->
    intervalsOverlap (Slot_Start s1) (Slot_End s1) (Slot_Start s2) (Slot_End s2) = false;
}.

Definition ratings_good (courierID : string) (ratings : gmap string CourierRating) : Prop :=
  forall k x, ratings !! k = Some x -> Rating_ID x = k /\ Rating_CourierID x = courierID /\ rating_ok x.

Record repo_inv (r : repository) : Prop := MkRepoInv {
  inv_courier : forall id c, couriers r !! id = Some c ->
    Courier_ID c = id /\ phone_normal (Courier_Phone c) /\ courierByPhone r !! Courier_Phone c = Some id;
  inv_phone : forall p id, courierByPhone r !! p = Some id ->
    exists c, couriers r !! id = Some c /\ Courier_Phone c = p;
  inv_zones : forall id zs, zonesByCourier r !! id = Some zs ->
    is_Some (couriers r !! id) /\ zones_good id zs;
  inv_capacity : forall z, Z.of_nat (zone_load (zonesByCourier r) z) <= MaxCouriersPerZoneDefault;
  inv_slots : forall id ss, slotsByCourier r !! id = Some ss ->
    is_Some (couriers r !! id) /\ slots_good id ss;
  inv_ratings : forall id rs, ratingsByCourier r !! id = Some rs ->
    is_Some (couriers r !! id) /\ ratings_good id rs;
}.

Lemma NewCourierRepository_inv now : repo_inv (NewCourierRepository now).
Proof.
  split; simpl; try (by intros ? ? ?%lookup_empty_Some). intros z.
  unfold zone_load. rewrite map_to_list_empty. unfold MaxCouriersPerZoneDefault. simpl. lia.
Qed.

(** ** Couriers *)

(** Writing a courier: the other components only need couriers to stay. *)
Lemma couriers_write r cs ps :
  repo_inv r -> (forall id, is_Some (couriers r !! id) -> is_Some (cs !! id)) ->
  (forall id c, cs !! id = Some c ->
     Courier_ID c = id /\ phone_normal (Courier_Phone c) /\ ps !! Courier_Phone c = Some id) ->
  (forall p id, ps !! p = Some id -> exists c, cs !! id = Some c /\ Courier_Phone c = p) ->
  repo_inv (set_couriers cs ps r).
Proof. intros [H1 H2 H3 H4 H5 H6] Hs Hc Hp. split; simpl; naive_solver. Qed.

Lemma phone_free r phone id : phone_taken r phone id = false ->
  forall id', courierByPhone r !! phone = Some id' -> id' = id.
Proof. unfold phone_taken. intros H id' E. rewrite E in H. by reflect_tests. Qed.

Lemma Create_inv now c r : repo_inv r -> repo_inv (Create now c r).2.
Proof.
  intros HI. unfold Create. destruct (firstValidationErr _); [done|].
  destruct (NormalizePhone _) as [phone|] eqn:Ep; [|done].
  destruct (couriers r !! Courier_ID c) eqn:Ec; [done|]. destruct (phone_taken _ _ _) eqn:Et; [done|].
  apply NormalizePhone_normal in Ep. pose proof (phone_free _ _ _ Et) as Hfree.
  assert (courierByPhone r !! phone = None) as Hnone.
  { destruct (courierByPhone r !! phone) as [id'|] eqn:E; [|done]. rewrite (Hfree id' eq_refl) in E.
    destruct (inv_phone _ HI _ _ E) as (c' & Hc' & _). congruence. }
  simpl. apply couriers_write; [done|..].
  - intros id Hid. destruct (decide (Courier_ID c = id)) as [->|]; [by rewrite lookup_insert_eq|].
    by rewrite lookup_insert_ne.
  - intros id c' [[<- <-]|[Hne Hc']]%lookup_insert_Some; [by rewrite lookup_insert_eq|].
    destruct (inv_courier _ HI id c' Hc') as (? & ? & Hp). split_and!; [done..|].
    rewrite lookup_insert_ne; [done|]. congruence.
  - intros p id [[<- <-]|[Hne Hp]]%lookup_insert_Some; [eexists; by rewrite lookup_insert_eq|].
    destruct (inv_phone _ HI p id Hp) as (c' & Hc' & ?). exists c'.
    rewrite lookup_insert_ne; [done|]. congruence.
Qed.

Lemma Save_inv now c r : repo_inv r -> repo_inv (Save now c r).2.
Proof.
  intros HI. unfold Save. destruct (firstValidationErr _); [done|].
  destruct (NormalizePhone _) as [phone|] eqn:Ep; [|done].
  destruct (couriers r !! Courier_ID c) as [cur|] eqn:Ec; [|done]. destruct (phone_taken _ _ _) eqn:Et; [done|].
  apply NormalizePhone_normal in Ep. pose proof (phone_free _ _ _ Et) as Hfree.
  destruct (inv_courier _ HI _ _ Ec) as (Hid & Hn & Hcp). destruct (normal_trim _ Hn) as [-> _].
  simpl. apply couriers_write; [done|..].
  - intros id Hs. destruct (decide (Courier_ID c = id)) as [->|]; [by rewrite lookup_insert_eq|].
    by rewrite lookup_insert_ne.
  - intros id c' [[<- <-]|[Hne Hc']]%lookup_insert_Some; simpl.
    + split_and!; [done..|]. destruct (String.eqb_spec (Courier_Phone cur) phone) as [<-|Hd]; simpl; [done|].
      by rewrite lookup_insert_eq.
    + destruct (inv_courier _ HI id c' Hc') as (? & ? & Hp). split_and!; [done..|].
      destruct (String.eqb_spec (Courier_Phone cur) phone) as [_|Hd]; simpl; [done|].
      rewrite lookup_insert_ne, lookup_delete_ne; [done| |]; [congruence|].
      intros ->. by rewrite (Hfree id Hp) in Hne.
  - intros p id. destruct (String.eqb_spec (Courier_Phone cur) phone) as [<-|Hd]; simpl.
    + intros Hp. destruct (inv_phone _ HI p id Hp) as (c' & Hc' & Hp').
      destruct (decide (Courier_ID c = id)) as [<-|]; [|exists c'; by rewrite lookup_insert_ne].
      eexists. rewrite lookup_insert_eq. split; [done|]. simpl. congruence.
    + intros [[<- <-]|[Hne [Hne' Hp]%lookup_delete_Some]]%lookup_insert_Some;
        [eexists; by rewrite lookup_insert_eq|].
      destruct (inv_phone _ HI p id Hp) as (c' & Hc' & Hp'). exists c'.
      rewrite lookup_insert_ne; [done|]. intros <-. congruence.
Qed.

(** ** Zones *)

Definition one_if (b : bool) : nat := if b then 1 else 0.

Lemma zone_load_insert m c zs z :
  zone_load (<[c := zs]> m) z = (one_if (has_zone z zs) + zone_load (delete c m) z)%nat.
Proof.
  unfold zone_load. rewrite <- insert_delete_eq.
  assert (map_to_list (<[c := zs]> (delete c m)) ≡ₚ (c, zs) :: map_to_list (delete c m)) as HP
    by (apply map_to_list_insert, lookup_delete_eq).
  rewrite (filter_length_perm _ _ _ (Permutation_map snd HP)). simpl. by destruct (has_zone z zs).
Qed.

Lemma zone_load_split m c z :
  zone_load m z = (match m !! c with Some zs => one_if (has_zone z zs) | None => 0 end
                   + zone_load (delete c m) z)%nat.
Proof.
  destruct (m !! c) as [zs|] eqn:E; [|by rewrite delete_id].
  rewrite <- zone_load_insert. by rewrite insert_id.
Qed.

(** Counting without a courier is the load of the map without it. *)
Lemma count_is_load r z c :
  countCouriersInZoneLocked r z c = Z.of_nat (zone_load (delete c (zonesByCourier r)) z).
Proof.
  unfold countCouriersInZoneLocked. f_equal. set (m := zonesByCourier r).
  assert (forall m', m' !! c = None ->
    length (List.filter (fun '(courierID, zones) => (courierID <>s? c) && has_zone z zones) (map_to_list m'))
    = zone_load m' z) as Hnone.
  { intros m' Hc. unfold zone_load. rewrite filter_map_length. f_equal. apply filter_ext_in.
    intros [k zs] Hin. apply list_elem_of_In, elem_of_map_to_list in Hin.
    destruct (String.eqb_spec k c) as [->|]; [congruence|done]. }
  destruct (m !! c) as [zs|] eqn:E; [|rewrite delete_id by done; by apply Hnone].
  rewrite <- (Hnone (delete c m)) by apply lookup_delete_eq.
  rewrite <- (insert_delete_id _ _ _ E) at 1.
  erewrite filter_length_perm by (apply map_to_list_insert, lookup_delete_eq).
  simpl. by rewrite String.eqb_refl.
Qed.

Definition primaries (l : list CourierZone) : nat := length (List.filter CZone_IsPrimary l).

(** What the loop over the given zones collects. *)
Record collected (courierID : string) (l : list CourierZone) (p : Z) : Prop := {
  co_entries : Forall (fun x => CZone_CourierID x = courierID /\ IsKnownMoscowZoneID (CZone_ZoneID x) = true) l;
  co_nodup : NoDup (map CZone_ZoneID l);
  co_primaries : p = Z.of_nat (primaries l);
}.

Lemma CourierZone_valid z : firstValidationErr (CourierZone_ValidateInvariants z) = None ->
  IsKnownMoscowZoneID (NormalizeZoneID (CZone_ZoneID z)) = true.
Proof.
  unfold firstValidationErr, CourierZone_ValidateInvariants.
  destruct (IsKnownMoscowZoneID _); [done|]. by destruct (TrimSpace _ =s? ""), (NormalizeZoneID _ =s? "").
Qed.

Lemma normalize_zones_spec clock cid zones : forall seen norm p norm' p',
  collected cid norm p -> (forall k, k ∈ map CZone_ZoneID norm -> k ∈ seen) ->
  normalize_zones clock cid zones seen norm p = Ok (norm', p') ->
  collected cid norm' p' /\ length norm' = (length norm + length zones)%nat.
Proof.
  induction zones as [|z zones IH]; intros seen norm p norm' p' [Hf Hn Hp] Hseen; simpl.
  - intros [= <- <-]. split; [done|lia].
  - destruct (firstValidationErr _) eqn:Ev; [done|]. apply CourierZone_valid in Ev. simpl in Ev.
    destruct (existsb _ _) eqn:Es; [done|]. intros E. apply IH in E as [Hc Hl].
    + split; [done|]. rewrite Hl, length_app. simpl. lia.
    + split.
      * apply Forall_app. split; [done|]. by repeat constructor.
      * rewrite map_app. apply NoDup_app. split_and!; [done| |apply NoDup_singleton].
        intros k Hk%Hseen [= ->]%list_elem_of_singleton.
        apply not_true_iff_false in Es. apply Es. apply existsb_exists.
        exists (NormalizeZoneID (CZone_ZoneID z)). split; [by apply list_elem_of_In|apply String.eqb_refl].
      * unfold primaries in *. rewrite List.filter_app, length_app. simpl. subst p.
        destruct (CZone_IsPrimary z); simpl; lia.
    + intros k. rewrite map_app, elem_of_app. intros [Hk|Hk].
      * apply elem_of_cons. right. by apply Hseen.
      * apply list_elem_of_singleton in Hk. subst k. apply elem_of_cons. by left.
Qed.

Lemma zone_map_lookup l : forall (m : gmap string CourierZone) z x, NoDup (map CZone_ZoneID l) ->
  foldl (fun m z => <[CZone_ZoneID z := z]> m) m l !! z = Some x <->
  (x ∈ l /\ CZone_ZoneID x = z) \/ (z ∉ map CZone_ZoneID l /\ m !! z = Some x).
Proof.
  induction l as [|y l IH]; intros m z x Hnd; simpl.
  - set_solver.
  - apply NoDup_cons in Hnd as [Hy Hnd]. rewrite IH by done. rewrite lookup_insert_Some.
    rewrite elem_of_cons, not_elem_of_cons. split.
    + intros [[Hx Hz]|[Hz [[<- <-]|[Hne Hm]]]]; [auto| |]; [left; auto|right; auto].
    + intros [[[->|Hx] Hz]|[[Hne Hz] Hm]]; [right; subst z; auto|left; auto|right; auto].
Qed.

(** One primary zone among the collected ones makes the stored map good. *)
Lemma zone_map_good cid l : l <> [] -> collected cid l 1 -> zones_good cid (zone_map l).
Proof.
  intros Hne [Hf Hn Hp]. rewrite Forall_forall in Hf.
  assert (forall z x, zone_map l !! z = Some x <-> x ∈ l /\ CZone_ZoneID x = z) as Hl.
  { intros z x. unfold zone_map. rewrite zone_map_lookup by done. rewrite lookup_empty. naive_solver. }
  assert (exists a, List.filter CZone_IsPrimary l = [a]) as [a Ha].
  { unfold primaries in Hp. destruct (List.filter CZone_IsPrimary l) as [|a [|b r]]; simpl in Hp; [lia|by exists a|lia]. }
  assert (forall x, x ∈ l -> CZone_IsPrimary x = true -> x = a) as Hu.
  { intros x Hx Hxp. apply list_elem_of_singleton. rewrite <- Ha. apply list_elem_of_In, filter_In.
    split; [by apply list_elem_of_In|done]. }
  assert (In a l /\ CZone_IsPrimary a = true) as [Hin Hap] by (apply filter_In; rewrite Ha; by left).
  split.
  - intros z x [Hx <-]%Hl. destruct (Hf x Hx). naive_solver.
  - exists (CZone_ZoneID a), a. split; [|done]. apply Hl. split; [by apply list_elem_of_In|done].
  - intros z1 x1 z2 x2 [Hx1 <-]%Hl [Hx2 <-]%Hl Hp1 Hp2. by rewrite (Hu x1), (Hu x2).
Qed.

(** The zones with a primary one: the first if none was given. *)
Lemma collected_primary cid z l p : collected cid (z :: l) p -> (p >? 1) = false ->
  collected cid (if p =? 0 then make_primary z :: l else z :: l) 1.
Proof.
  intros [Hf Hn Hp] Hle. rewrite Z.gtb_ltb in Hle. reflect_tests.
  destruct (Z.eqb_spec p 0) as [->|]; split; [|done| |done..|lia].
  - apply Forall_cons in Hf as [Hz Hf]. by constructor.
  - unfold primaries in *. simpl in *. destruct (CZone_IsPrimary z); simpl in *; lia.
Qed.

Lemma ensure_capacity r cid l cur : ensureZoneCapacityLocked r cid l cur = None ->
  forall x, x ∈ l -> is_Some (cur !! CZone_ZoneID x) \/
    countCouriersInZoneLocked r (CZone_ZoneID x) cid < MaxCouriersPerZoneDefault.
Proof.
  induction l as [|y l IH]; simpl; [by intros _ x ?%elem_of_nil|].
  destruct (bool_decide _) eqn:Eb.
  - intros E x [->|Hx]%elem_of_cons; [|auto]. left. by apply bool_decide_eq_true in Eb.
  - rewrite Z.geb_leb. destruct (_ <=? _) eqn:El; [done|]. reflect_tests.
    intros E x [->|Hx]%elem_of_cons; auto.
Qed.

Lemma zones_write r cid l : repo_inv r -> is_Some (couriers r !! cid) -> l <> [] -> collected cid l 1 ->
  ensureZoneCapacityLocked r cid l (zones_of r cid) = None ->
  repo_inv (set_zones (<[cid := zone_map l]> (zonesByCourier r)) r).
Proof.
  intros HI Hc Hne Hcol Hcap. pose proof (zone_map_good _ _ Hne Hcol) as Hgood.
  destruct HI as [H1 H2 H3 H4 H5 H6]. split; simpl; try done.
  - intros id zs [[<- <-]|[_ Hz]]%lookup_insert_Some; [done|by apply H3].
  - intros z. rewrite zone_load_insert. specialize (H4 z). rewrite (zone_load_split _ cid) in H4.
    destruct (has_zone z (zone_map l)) eqn:Ez; simpl; [|lia].
    apply bool_decide_eq_true in Ez as [x Hx]. destruct Hcol as [_ Hn _].
    unfold zone_map in Hx. apply zone_map_lookup in Hx; [|done]. rewrite lookup_empty in Hx.
    destruct Hx as [[Hx <-]|[_ [=]]]. destruct (ensure_capacity _ _ _ _ Hcap x Hx) as [Hcur|Hcnt].
    + unfold zones_of in Hcur. destruct (zonesByCourier r !! cid) as [zs|]; simpl in Hcur;
        [|rewrite lookup_empty in Hcur; by destruct Hcur].
      unfold has_zone in H4. rewrite bool_decide_true in H4 by done. simpl in H4. lia.
    + rewrite count_is_load in Hcnt. lia.
Qed.

Lemma ReplaceZones_inv clock cid zones r : repo_inv r -> repo_inv (ReplaceZones clock cid zones r).2.
Proof.
  intros HI. unfold ReplaceZones. set (id := TrimSpace cid).
  destruct (_ =s? _); [done|]. destruct (_ =? _)%nat eqn:El; [done|].
  destruct (couriers r !! id) as [c|] eqn:Ec; [|done]. destruct (_ && _); [done|].
  destruct (normalize_zones _ _ _ _ _ _) as [[l p]|] eqn:En; [|done].
  apply normalize_zones_spec in En as [Hcol Hlen];
    [|by split; [constructor|apply NoDup_nil|]|by intros k ?%elem_of_nil].
  destruct (p >? 1) eqn:Egt; [done|]. apply Nat.eqb_neq in El.
  destruct l as [|z l]; [simpl in Hlen; lia|].
  pose proof (collected_primary _ _ _ _ Hcol Egt) as Hone.
  destruct (ensureZoneCapacityLocked _ _ _ _) eqn:Ecap; [done|].
  apply zones_write; [done|by rewrite Ec| |done|done]. by destruct (p =? 0).
Qed.

(** ** Slots and ratings *)

Lemma firstValidationErr_None errs : firstValidationErr errs = None <-> errs = [].
Proof. by destruct errs. Qed.

Lemma slots_of_good r cid : repo_inv r -> slots_good cid (slots_of r cid).
Proof.
  intros HI. unfold slots_of. destruct (slotsByCourier r !! cid) as [ss|] eqn:E; simpl.
  - by apply (inv_slots _ HI) in E as [_ ?].
  - split; intros *; by rewrite lookup_empty.
Qed.

Lemma slots_write r cid ss : repo_inv r -> is_Some (couriers r !! cid) -> slots_good cid ss ->
  repo_inv (set_slots (<[cid := ss]> (slotsByCourier r)) r).
Proof.
  intros [H1 H2 H3 H4 H5 H6] Hc Hs. split; simpl; try done.
  intros id s [[<- <-]|[_ Hz]]%lookup_insert_Some; [done|by apply H5].
Qed.

(** A slot that conflicts with none can be added. *)
Lemma slots_good_insert cid ss k s : slots_good cid ss -> Slot_ID s = k -> Slot_CourierID s = cid ->
  slot_ok s -> CourierSlotStatus_Valid (Slot_Status s) = true ->
  slot_conflict ss (Slot_Start s) (Slot_End s) = false -> slots_good cid (<[k := s]> ss).
Proof.
  intros [He Hd] Hk Hcid Hok Hv Hconf.
  assert (forall k' s', ss !! k' = Some s' -> Slot_Status s' <> CourierSlotStatusCanceled ->
    intervalsOverlap (Slot_Start s') (Slot_End s') (Slot_Start s) (Slot_End s) = false) as Hfree.
  { intros k' s' Hs' Hst. apply not_true_iff_false. intros Ho. apply not_true_iff_false in Hconf.
    apply Hconf, existsb_exists. exists s'. split.
    - apply list_elem_of_In, list_elem_of_fmap. exists (k', s'). split; [done|]. by apply elem_of_map_to_list.
    - rewrite Ho, andb_true_r. by apply negb_true_iff, String.eqb_neq. }
  assert (forall a b c d, intervalsOverlap a b c d = intervalsOverlap c d a b) as Hsym
    by (intros; apply andb_comm).
  split.
  - intros k' s' [[<- <-]|[_ Hs']]%lookup_insert_Some; [done|by apply He].
  - intros k1 s1 k2 s2 [[<- <-]|[Hn1 Hs1]]%lookup_insert_Some
      [[<- <-]|[Hn2 Hs2]]%lookup_insert_Some Hne Ht1 Ht2; [done| |eauto|eauto].
    rewrite Hsym. eauto.
Qed.

Lemma CreateSlot_inv now s r : repo_inv r -> repo_inv (CreateSlot now s r).2.
Proof.
  intros HI. unfold CreateSlot.
  set (s' := set_slot s (if Slot_Status s =s? "" then CourierSlotStatusPlanned else Slot_Status s) _ _).
  destruct (firstValidationErr _) eqn:Ev; [done|].
  apply firstValidationErr_None, CourierSlot_valid in Ev as Hok.
  destruct (couriers r !! Slot_CourierID s') as [c|] eqn:Ec; [|done].
  assert (is_Some (couriers r !! Slot_CourierID s')) as Hc by by rewrite Ec.
  destruct (_ && _); [done|]. pose proof (slots_of_good r (Slot_CourierID s') HI) as Hg.
  pose proof (slots_write _ _ _ HI Hc Hg) as HI'.
  destruct (slots_of r (Slot_CourierID s') !! Slot_ID s') eqn:Ei; [done|].
  destruct (slot_conflict _ _ _) eqn:Econf; [done|].
  apply slots_write; [done|done|]. apply slots_good_insert; try done; simpl.
  destruct Hok as (_ & _ & _ & _ & _ & _ & Hst). subst s'. simpl in *.
  destruct (String.eqb_spec (Slot_Status s) ""); [done|]. by destruct Hst.
Qed.

Lemma SubmitRating_inv now x r : repo_inv r -> repo_inv (SubmitRating now x r).2.
Proof.
  intros HI. unfold SubmitRating. destruct (firstValidationErr _) eqn:Ev; [done|].
  apply firstValidationErr_None, CourierRating_valid in Ev.
  destruct (couriers r !! Rating_CourierID x) as [c|] eqn:Ec; [|done].
  assert (ratings_good (Rating_CourierID x) (ratings_of r (Rating_CourierID x))) as Hg.
  { unfold ratings_of. destruct (ratingsByCourier r !! _) as [rs|] eqn:E; simpl.
    - by apply (inv_ratings _ HI) in E as [_ ?].
    - intros k y. by rewrite lookup_empty. }
  assert (forall m rs, ratings_good (Rating_CourierID x) rs -> repo_inv (set_ratings m r) ->
    repo_inv (set_ratings (<[Rating_CourierID x := rs]> m) r)) as Hw.
  { intros m rs Hrs [H1 H2 H3 H4 H5 H6]. split; simpl in *; try done.
    intros id y [[<- <-]|[_ Hy]]%lookup_insert_Some; [by rewrite Ec|by apply H6]. }
  assert (repo_inv (set_ratings (ratingsByCourier r) r)) as HI' by by destruct r.
  destruct (ratings_of _ _ !! Rating_ID x) eqn:Ei; [by apply Hw|].
  simpl. apply Hw; [|by apply Hw].
  intros k y [[<- <-]|[_ Hy]]%lookup_insert_Some; [done|by apply Hg].
Qed.

(** ** Every sequence of operations *)

(** A call that can change the repository, with the readings of the clock. *)
Inductive op :=
  | OCreate (now : Time) (c : Courier)
  | OSave (now : Time) (c : Courier)
  | OReplaceZones (clock : nat -> Time) (courierID : string) (zones : list CourierZone)
  | OCreateSlot (now : Time) (s : CourierSlot)
  | OSubmitRating (now : Time) (x : CourierRating).

Definition run_op (r : repository) (o : op) : repository :=
  match o with
  | OCreate now c => (Create now c r).2
  | OSave now c => (Save now c r).2
  | OReplaceZones clock cid zones => (ReplaceZones clock cid zones r).2
  | OCreateSlot now s => (CreateSlot now s r).2
  | OSubmitRating now x => (SubmitRating now x r).2
  end.

(** C16. The courier repository after any sequence of calls, successful or not:
    every courier is stored under its identifier with a normalized phone that
    no other courier has, and the index by phone names exactly the couriers;
    a courier with zones has exactly one primary zone, all of them zones of the
    Moscow catalog; no zone has more than 100 couriers; the slots of a courier
    that are not canceled never overlap, last exactly 4, 8 or 12 hours; every
    stored rating is valid. *)
Theorem courier_repository_invariant now ops : repo_inv (foldl run_op (NewCourierRepository now) ops).
Proof.
  pose proof (NewCourierRepository_inv now) as HI. revert HI. generalize (NewCourierRepository now).
  induction ops as [|o ops IH]; intros r HI; simpl; [done|]. apply IH.
  destruct o; simpl; [by apply Create_inv|by apply Save_inv|by apply ReplaceZones_inv|by apply CreateSlot_inv|
    by apply SubmitRating_inv].
Qed.
End Invariant.

(** ** The rating summary *)

Section Summary.
Context {rt : GoRuntime} {rtl : GoRuntimeLaws rt} {ul : UnicodeLower}.

Definition tally {A} (hit : A -> bool) (l : list A) : Z := Z.of_nat (length (List.filter hit l)).

Definition has_tag (t : CourierRatingTag) (x : CourierRating) : bool := existsb (String.eqb t) (Rating_Tags x).

Definition total_score (l : list CourierRating) : Z := foldr (fun x acc => Rating_Score x + acc) 0 l.

(** The summary a set of ratings should have; the last rating is the latest. *)
Definition summary_spec (courierID : string) (l : list CourierRating) (last_ : Time) : CourierRatingSummary :=
  let score n := tally (fun x => Rating_Score x =? n) l in
  let tag t := tally (has_tag t) l in
  MkRatingSummary courierID (Z.of_nat (length l))
    (float64_div (float64_of_int (total_score l)) (float64_of_int (Z.of_nat (length l))))
    (tally (fun x => Rating_Score x <? 3) l) (score 1) (score 2) (score 3) (score 4) (score 5)
    (tag CourierRatingTagOnTime) (tag CourierRatingTagPolite) (tag CourierRatingTagCarefulHandling)
    (tag CourierRatingTagDelayedDelivery) (tag CourierRatingTagRudeBehavior)
    (tag CourierRatingTagDamagedOrder) (tag CourierRatingTagOtherIssue) last_.

Lemma foldl_project {A B C} (f : A -> C -> A) (g : B -> C -> B) (p : A -> B) l :
  (forall a c, p (f a c) = g (p a) c) -> forall a, p (foldl f a l) = foldl g (p a) l.
Proof. intros H. induction l as [|c l IH]; intros a; simpl; [done|]. by rewrite IH, H. Qed.

Lemma tally_le {A} (hit : A -> bool) l : 0 <= tally hit l <= Z.of_nat (length l).
Proof. unfold tally. pose proof (List.filter_length_le hit l). lia. Qed.

Lemma bump_tally {A} (hit : A -> bool) l : forall n, 0 <= n -> n + Z.of_nat (length l) <= maxInt64 ->
  foldl (fun n x => bump (hit x) n) n l = n + tally hit l.
Proof.
  unfold tally. induction l as [|x l IH]; intros n Hn Hb; simpl in *; [lia|].
  unfold bump at 2. destruct (hit x); simpl.
  - rewrite wrap64_id by (unfold_widths; lia). rewrite IH; lia.
  - rewrite IH; lia.
Qed.

(** A tag is counted once per rating: a valid rating does not repeat it. *)
Lemma bump_tags t tags : NoDup tags -> forall n, 0 <= n < maxInt64 ->
  foldl (fun n x => bump (x =s? t) n) n tags = bump (existsb (String.eqb t) tags) n.
Proof.
  induction tags as [|x tags IH]; intros Hnd n Hn; [done|]. apply NoDup_cons in Hnd as [Hx Hnd].
  simpl. rewrite (String.eqb_sym t x). destruct (String.eqb_spec x t) as [->|Hne]; simpl; [|by apply IH].
  assert (forall m, foldl (fun n x => bump (x =s? t) n) m tags = m) as ->; [|done].
  clear -Hx. induction tags as [|y tags IH]; intros m; simpl; [done|].
  apply not_elem_of_cons in Hx as [Hy Hx]. rewrite IH by done.
  by destruct (String.eqb_spec y t) as [->|].
Qed.

(** The counters of a fold over valid ratings. *)
Lemma rating_fold_score id l (p : CourierRatingSummary -> Z) hit :
  (forall s x, p (rating_step s x) = bump (hit x) (p s)) -> p (empty_summary id) = 0 ->
  Z.of_nat (length l) <= maxInt64 ->
  p (foldl rating_step (empty_summary id) l) = tally hit l.
Proof.
  intros Hs H0 Hb. rewrite (foldl_project _ (fun n x => bump (hit x) n) p _ Hs), H0, bump_tally; lia.
Qed.

Lemma tags_keep {A} (p : CourierRatingSummary -> A) :
  (forall s t, p (tag_step s t) = p s) -> forall tags s, p (foldl tag_step s tags) = p s.
Proof. intros H tags. induction tags as [|t tags IH]; intros s; simpl; [done|]. by rewrite IH. Qed.

Lemma rating_fold_tag id l (p : CourierRatingSummary -> Z) t :
  (forall s x, p (rating_step s x) = foldl (fun n y => bump (y =s? t) n) (p s) (Rating_Tags x)) ->
  p (empty_summary id) = 0 -> Forall (fun x => NoDup (Rating_Tags x)) l -> Z.of_nat (length l) <= maxInt64 ->
  p (foldl rating_step (empty_summary id) l) = tally (has_tag t) l.
Proof.
  intros Hs H0 Hnd Hb.
  rewrite (foldl_project _ (fun n x => foldl (fun n y => bump (y =s? t) n) n (Rating_Tags x)) p _ Hs), H0.
  enough (forall n, 0 <= n -> n + Z.of_nat (length l) <= maxInt64 ->
    foldl (fun n x => foldl (fun n y => bump (y =s? t) n) n (Rating_Tags x)) n l = n + tally (has_tag t) l)
    as -> by lia.
  clear H0 Hb Hs. unfold tally. induction Hnd as [|x l Hx Hl IH]; intros n Hn Hb; simpl in *; [lia|].
  rewrite bump_tags by (done || lia). fold (has_tag t x). unfold bump at 1. destruct (has_tag t x); simpl.
  - rewrite wrap64_id by (unfold_widths; lia). rewrite IH; lia.
  - rewrite IH; lia.
Qed.

(** The latest time: none of the times is zero. *)
Lemma rating_fold_last id l : Forall (fun x => Rating_CreatedAt x <> 0) l -> l <> [] ->
  let last_ := Sum_LastRatingAt (foldl rating_step (empty_summary id) l) in
  (exists x, x ∈ l /\ Rating_CreatedAt x = last_) /\ Forall (fun x => Rating_CreatedAt x <= last_) l.
Proof.
  intros Hnz Hne. set (g := fun last_ x => if IsZero last_ || After (Rating_CreatedAt x) last_
                                          then Rating_CreatedAt x else last_).
  rewrite (foldl_project _ g Sum_LastRatingAt)
    by (intros [] x; unfold rating_step; by rewrite tags_keep by (by intros [])).
  destruct Hnz as [|y l Hy Hnz]; [done|]. clear Hne. simpl. unfold g at 2. simpl.
  assert (forall a, a <> 0 -> let r := foldl g a l in
    (r = a \/ exists x, x ∈ l /\ Rating_CreatedAt x = r) /\ a <= r /\
    Forall (fun x => Rating_CreatedAt x <= r) l) as H.
  { clear y Hy. induction Hnz as [|x l Hx Hl IH]; intros a Ha; simpl; [split; [by left|by split; [lia|]]|].
    assert (g a x = Z.max a (Rating_CreatedAt x)) as ->.
    { unfold g, IsZero, After. destruct (Z.eqb_spec a 0); [done|]. simpl.
      destruct (Z.ltb_spec a (Rating_CreatedAt x)); lia. }
    destruct (IH (Z.max a (Rating_CreatedAt x)) ltac:(lia)) as (H1 & H2 & H3). split_and!; [|lia|].
    - destruct H1 as [H1|(z & Hz & H1)].
      + destruct (Z.max_spec a (Rating_CreatedAt x)) as [[_ Hm]|[_ Hm]]; rewrite Hm in *; [|by left].
        right. exists x. split; [apply list_elem_of_here|]. by rewrite H1.
      + right. exists z. split; [by apply list_elem_of_further|done].
    - constructor; [lia|done]. }
  destruct (H _ Hy) as (H1 & H2 & H3). split; [|by constructor].
  destruct H1 as [H1|(z & Hz & H1)]; [exists y|exists z]; (split; [set_solver|congruence]).
Qed.

Lemma total_fold l : forall acc, 0 <= acc -> Forall (fun x => 1 <= Rating_Score x <= 5) l ->
  acc + 5 * Z.of_nat (length l) <= maxInt64 ->
  foldl (fun acc x => wrap64 (acc + Rating_Score x)) acc l = acc + total_score l.
Proof.
  intros acc Ha Hl. revert acc Ha. induction Hl as [|x l Hx Hl IH]; intros acc Ha Hb; simpl in *; [lia|].
  rewrite wrap64_id by (unfold_widths; lia). rewrite IH; lia.
Qed.

Lemma filter_true {A} (l : list A) : List.filter (fun _ => true) l = l.
Proof. induction l as [|x l IH]; simpl; [done|]. by rewrite IH. Qed.

Lemma set_average_eta avg s : set_average avg s =
  MkRatingSummary (Sum_CourierID s) (Sum_RatingsCount s) avg (Sum_LowRatingsCount s)
    (Sum_Score1Count s) (Sum_Score2Count s) (Sum_Score3Count s) (Sum_Score4Count s) (Sum_Score5Count s)
    (Sum_OnTimeCount s) (Sum_PoliteCount s) (Sum_CarefulCount s) (Sum_DelayedCount s) (Sum_RudeCount s)
    (Sum_DamagedCount s) (Sum_OtherIssueCount s) (Sum_LastRatingAt s).
Proof. by destruct s. Qed.

Ltac count_score :=
  apply rating_fold_score;
    [intros [] x; unfold rating_step; by rewrite tags_keep by (by intros [])|done|done].

Ltac count_tag :=
  apply rating_fold_tag;
    [intros [] x; unfold rating_step; cbn beta iota zeta;
     match goal with |- ?p (foldl _ _ _) = foldl ?g _ _ =>
       etransitivity; [apply (foldl_project _ g p); by intros []|done] end
    |done|done|done].

Lemma summary_fold id l : l <> [] -> 5 * Z.of_nat (length l) <= maxInt64 -> Forall rating_ok l ->
  let s := foldl rating_step (empty_summary id) l in
  set_average (float64_div (float64_of_int (foldl (fun acc x => wrap64 (acc + Rating_Score x)) 0 l))
                 (float64_of_int (Sum_RatingsCount s))) s = summary_spec id l (Sum_LastRatingAt s).
Proof.
  intros Hne Hb Hok s.
  assert (Forall (fun x => NoDup (Rating_Tags x)) l) as Hnd
    by (eapply Forall_impl; [exact Hok|]; unfold rating_ok; tauto).
  assert (Forall (fun x => 1 <= Rating_Score x <= 5) l) as Hsc
    by (eapply Forall_impl; [exact Hok|]; unfold rating_ok; tauto).
  assert (Z.of_nat (length l) <= maxInt64) as Hb' by lia.
  rewrite total_fold by (done || lia).
  assert (Sum_RatingsCount s = Z.of_nat (length l)) as Hn.
  { transitivity (tally (fun _ => true) l); [count_score|]. unfold tally. by rewrite filter_true. }
  rewrite Hn. unfold summary_spec. rewrite Z.add_0_l.
  assert (Sum_CourierID s = id) as Hid.
  { subst s. clear. change id with (Sum_CourierID (empty_summary id)) at 2. generalize (empty_summary id).
    induction l as [|x l IH]; intros s; simpl; [done|]. rewrite IH. destruct s. unfold rating_step.
    by rewrite tags_keep by (by intros []). }
  rewrite <- Hn, <- Hid.
  rewrite set_average_eta. f_equal; first [count_score | count_tag].
Qed.

#[global] Instance tally_perm {A} (hit : A -> bool) : Proper ((≡ₚ) ==> eq) (tally hit).
Proof. intros l1 l2 H. unfold tally. f_equal. by apply filter_length_perm. Qed.

#[global] Instance total_score_perm : Proper ((≡ₚ) ==> eq) total_score.
Proof. intros l1 l2. induction 1; simpl in *; lia. Qed.

#[global] Instance summary_spec_perm id : Proper ((≡ₚ) ==> eq ==> eq) (summary_spec id).
Proof. intros l1 l2 H t1 t2 <-. unfold summary_spec. by rewrite !H. Qed.

(** The rating summary is exact: whatever the order the map is visited in,
    the summary of a courier with ratings counts every rating once, by score
    and by tag, its average is the quotient of the total score by the number of
    ratings, and its last time is the latest of the ratings; without ratings
    all is zero. *)
Theorem rating_summary_exact loop courierID r s :
  repo_inv r -> GetRatingSummary loop courierID r = Ok s ->
  let l := map snd (map_to_list (ratings_of r (TrimSpace courierID))) in
  5 * Z.of_nat (length l) <= maxInt64 -> Forall (fun x => Rating_CreatedAt x <> 0) l ->
  (l = [] /\ s = empty_summary (TrimSpace courierID)) \/
  (exists last_, s = summary_spec (TrimSpace courierID) l last_ /\
     (exists x, x ∈ l /\ Rating_CreatedAt x = last_) /\ Forall (fun x => Rating_CreatedAt x <= last_) l).
Proof.
  intros HI. unfold GetRatingSummary. set (id := TrimSpace courierID). set (rs := ratings_of r id).
  destruct (_ =s? _); [done|]. destruct (couriers r !! id); [|done].
  destruct (bool_decide_reflect (rs = ∅)) as [->|Hne].
  { intros [= <-]. left. by rewrite map_to_list_empty. }
  intros [= <-] Hb Hnz. right. set (l := map snd (map_to_list rs)) in *.
  assert (Permutation (map snd (map_range loop rs)) l) as HP by (apply Permutation_map, map_range_perm).
  assert (l <> []) as Hl.
  { intros E. apply Hne. apply map_to_list_empty_iff. by destruct (map_to_list rs). }
  assert (Forall rating_ok l) as Hok.
  { apply Forall_forall. intros x Hx. apply list_elem_of_fmap in Hx as ([k y] & -> & Hy).
    apply elem_of_map_to_list in Hy. unfold rs, ratings_of in Hy.
    destruct (ratingsByCourier r !! id) as [rm|] eqn:E; simpl in Hy; [|by apply lookup_empty_Some in Hy].
    apply (inv_ratings _ HI) in E as [_ Hg]. by apply (Hg k y Hy). }
  clearbody l. set (l' := map snd (map_range loop rs)) in *. clearbody l'.
  assert (l' <> []) as Hl' by (intros ->; by apply Hl, Permutation_nil).
  rewrite summary_fold; [|done|by rewrite (Permutation_length HP)|by rewrite HP].
  eexists. split; [by apply summary_spec_perm|]. rewrite <- HP in Hnz.
  destruct (rating_fold_last id l' Hnz Hl') as [(x & Hx & Hlast) Hall]. split.
  - exists x. by rewrite <- HP.
  - by rewrite <- HP.
Qed.
End Summary.
End MemoryCouriers.
