(* ===== verification/CourierService.v ===== *)
(** * gRPC courier service: src/internal/service/grpc/courier_service.go

    The handlers of [CourierService] as programs over the courier repository
    (src/internal/domain/courier_repository.go), the conversions between
    messages and the domain, and the error codes.  Identifiers from
    [uuid.NewString] are a command; log lines are not modelled. *)

From S2P Require Import Prelude GoLib Float64 Domain Prog OrderService Courier CourierStore.

(** ** Messages: src/proto/oms/v1/order_service.proto *)

Definition COURIER_VEHICLE_TYPE_UNSPECIFIED : Z := 0.
Definition COURIER_VEHICLE_TYPE_SCOOTER : Z := 1.
Definition COURIER_VEHICLE_TYPE_BIKE : Z := 2.
Definition COURIER_VEHICLE_TYPE_CAR : Z := 3.

Definition COURIER_SLOT_STATUS_UNSPECIFIED : Z := 0.
Definition COURIER_SLOT_STATUS_PLANNED : Z := 1.
Definition COURIER_SLOT_STATUS_ACTIVE : Z := 2.
Definition COURIER_SLOT_STATUS_COMPLETED : Z := 3.
Definition COURIER_SLOT_STATUS_CANCELED : Z := 4.

Record CourierZoneInput := MkZoneInput { ZoneInput_ZoneId : string; ZoneInput_IsPrimary : bool }.

Record ProtoCourierZone := MkProtoCourierZone {
  PZone_ZoneId : string;
  PZone_IsPrimary : bool;
  PZone_AssignedAtUnix : Z;
}.

Record ProtoCourier := MkProtoCourier {
  PCourier_Id : string;
  PCourier_Phone : string;
  PCourier_FirstName : string;
  PCourier_LastName : string;
  PCourier_VehicleType : Z;
  PCourier_IsActive : bool;
  PCourier_Zones : list ProtoCourierZone;
}.

Record ProtoCourierSlot := MkProtoCourierSlot {
  PSlot_Id : string;
  PSlot_CourierId : string;
  PSlot_SlotStartUnix : Z;
  PSlot_SlotEndUnix : Z;
  PSlot_DurationHours : Z;
  PSlot_Status : Z;
}.

Record ProtoCapability := MkProtoCapability {
  PCap_VehicleType : Z;
  PCap_MaxWeightGrams : Z;
  PCap_MaxVolumeCm3 : Z;
  PCap_MaxOrdersPerTrip : Z;
  PCap_UpdatedAtUnix : Z;
}.

Record ProtoRatingSummary := MkProtoRatingSummary {
  PSum_CourierId : string;
  PSum_RatingsCount : Z;
  PSum_AverageScore : float64;
  PSum_LowRatingsCount : Z;
  PSum_Score1Count : Z;
  PSum_Score2Count : Z;
  PSum_Score3Count : Z;
  PSum_Score4Count : Z;
  PSum_Score5Count : Z;
  PSum_LastRatingUnix : Z;
  PSum_OnTimeCount : Z;
  PSum_PoliteCount : Z;
  PSum_CarefulCount : Z;
  PSum_DelayedCount : Z;
  PSum_RudeCount : Z;
  PSum_DamagedCount : Z;
  PSum_OtherIssueCount : Z;
}.

Record RegisterCourierRequest := MkRegisterCourierRequest {
  Register_CourierId : string;
  Register_Phone : string;
  Register_FirstName : string;
  Register_LastName : string;
  Register_VehicleType : Z;
  Register_Zones : list (option CourierZoneInput);
}.

Record ListCouriersByZoneRequest := MkListCouriersByZoneRequest {
  ListByZone_ZoneId : string;
  ListByZone_Limit : Z;
}.

Record ReplaceCourierZonesRequest := MkReplaceCourierZonesRequest {
  Replace_CourierId : string;
  Replace_Zones : list (option CourierZoneInput);
}.

Record ReplaceCourierZonesResponse := MkReplaceCourierZonesResponse {
  Replaced_CourierId : string;
  Replaced_Zones : list ProtoCourierZone;
}.

Record CreateCourierSlotRequest := MkCreateCourierSlotRequest {
  CreateSlot_SlotId : string;
  CreateSlot_CourierId : string;
  CreateSlot_SlotStartUnix : Z;
  CreateSlot_SlotEndUnix : Z;
  CreateSlot_DurationHours : Z;
}.

Record ListCourierSlotsRequest := MkListCourierSlotsRequest {
  ListSlots_CourierId : string;
  ListSlots_FromUnix : Z;
  ListSlots_ToUnix : Z;
}.

Record SubmitCourierRatingRequest := MkSubmitCourierRatingRequest {
  Submit_RatingId : string;
  Submit_CourierId : string;
  Submit_Score : Z;
  Submit_Tags : list Z;
  Submit_Comment : string;
}.

Record SubmitCourierRatingResponse := MkSubmitCourierRatingResponse {
  Submitted_RatingId : string;
  Submitted_CourierId : string;
}.

(** ** The repository as commands *)

Inductive courier_port : Type -> Type :=
| CourierUUID : courier_port string
| RepoCreate (courier : Courier) : courier_port (result unit)
| RepoGet (id : string) : courier_port (result Courier)
| RepoGetByPhone (phone : string) : courier_port (result Courier)
| RepoSave (courier : Courier) : courier_port (result unit)
| RepoListByZone (zoneID : string) (limit : Z) : courier_port (result (list Courier))
| RepoReplaceZones (courierID : string) (zones : list CourierZone) : courier_port (result unit)
| RepoListZones (courierID : string) : courier_port (result (list CourierZone))
| RepoCreateSlot (slot : CourierSlot) : courier_port (result unit)
| RepoListSlots (courierID : string) (from to : Time) : courier_port (result (list CourierSlot))
| RepoGetVehicleCapability (vehicleType : VehicleType) : courier_port (result CourierVehicleCapability)
| RepoListVehicleCapabilities : courier_port (result (list CourierVehicleCapability))
| RepoSubmitRating (rating : CourierRating) : courier_port (result unit)
| RepoGetRatingSummary (courierID : string) : courier_port (result CourierRatingSummary).

Abbreviation CM := (prog courier_port).

(** [repo] may be nil. *)
Record CourierService := MkCourierService { svc_has_courier_repo : bool }.

Definition defaultListCouriersByZoneLimit : Z := 100.

(** ** Errors *)

Definition is_any (e : err) (targets : list err) : bool := existsb (errors_Is e) targets.

Definition mapCourierErr (e : err) (internalMessage : string) : status :=
  if errors_Is e ErrCourierNotFound then Status codes_NotFound (Error e)
  else if errors_Is e ErrCourierVehicleCapabilityNotFound then Status codes_NotFound (Error e)
  else if is_any e [ErrCourierAlreadyExists; ErrCourierPhoneAlreadyExists]
  then Status codes_AlreadyExists (Error e)
  else if errors_Is e ErrCourierRatingAlreadyExists then Status codes_AlreadyExists (Error e)
  else if errors_Is e ErrCourierZoneCapacityExceeded then Status codes_ResourceExhausted (Error e)
  else if is_any e [ErrCourierZoneLimitExceeded; ErrCourierPrimaryZoneConflict;
                    ErrCourierNightSlotCarOnly; ErrCourierSlotConflict]
  then Status codes_FailedPrecondition (Error e)
  else if is_any e [ErrCourierIDRequired; ErrCourierPhoneRequired; ErrCourierPhoneFormatInvalid;
                    ErrCourierFirstNameRequired; ErrCourierLastNameRequired; ErrCourierVehicleTypeInvalid;
                    ErrCourierVehicleCapabilityInvalid; ErrCourierZoneRequired; ErrCourierZoneUnknown;
                    ErrCourierZonesRequired; ErrCourierZoneDuplicate; ErrCourierSlotIDRequired;
                    ErrCourierSlotDurationInvalid; ErrCourierSlotDurationMismatch;
                    ErrCourierSlotRangeInvalid; ErrCourierSlotStatusInvalid; ErrCourierRatingIDRequired;
                    ErrCourierRatingScoreInvalid; ErrCourierRatingTagInvalid; ErrCourierRatingTagDuplicate;
                    ErrCourierRatingReasonsRequired; ErrCourierRatingPositiveTagsOnly]
  then Status codes_InvalidArgument (Error e)
  else Status codes_Internal internalMessage.

Definition invalid_argument {T} (msg : string) : reply T := Fail (Status codes_InvalidArgument msg).
Definition not_configured {T} : reply T := Fail (Status codes_Internal "courier repository is not configured").

(** A call of the repository whose error is mapped and returned. *)
Definition attempt {A B} (p : CM (result A)) (internalMessage : string) (k : A -> CM (reply B)) : CM (reply B) :=
  r ← p;
  match r with
  | Ok a => k a
  | Err e => mret (Fail (mapCourierErr e internalMessage))
  end.

(** ** Conversions *)

Definition toDomainCourierVehicleType (value : Z) : result VehicleType :=
  if value =? COURIER_VEHICLE_TYPE_SCOOTER then Ok VehicleTypeScooter
  else if value =? COURIER_VEHICLE_TYPE_BIKE then Ok VehicleTypeBike
  else if value =? COURIER_VEHICLE_TYPE_CAR then Ok VehicleTypeCar
  else Err ErrCourierVehicleTypeInvalid.

Definition toProtoCourierVehicleType (value : VehicleType) : Z :=
  if value =s? VehicleTypeScooter then COURIER_VEHICLE_TYPE_SCOOTER
  else if value =s? VehicleTypeBike then COURIER_VEHICLE_TYPE_BIKE
  else if value =s? VehicleTypeCar then COURIER_VEHICLE_TYPE_CAR
  else COURIER_VEHICLE_TYPE_UNSPECIFIED.

Definition toDomainTag (value : Z) : option CourierRatingTag :=
  if value =? 1 then Some CourierRatingTagOnTime
  else if value =? 2 then Some CourierRatingTagPolite
  else if value =? 3 then Some CourierRatingTagCarefulHandling
  else if value =? 4 then Some CourierRatingTagDelayedDelivery
  else if value =? 5 then Some CourierRatingTagRudeBehavior
  else if value =? 6 then Some CourierRatingTagDamagedOrder
  else if value =? 7 then Some CourierRatingTagOtherIssue
  else None.

Fixpoint toDomainCourierRatingTags (values : list Z) : result (list CourierRatingTag) :=
  match values with
  | [] => Ok []
  | value :: rest =>
      match toDomainTag value with
      | None => Err ErrCourierRatingTagInvalid
      | Some tag =>
          match toDomainCourierRatingTags rest with
          | Ok tags => Ok (tag :: tags)
          | Err e => Err e
          end
      end
  end.

Definition toProtoInt32 (value : Z) : Z :=
  if value >? maxInt32 then maxInt32 else if value <? minInt32 then minInt32 else value.

Definition toProtoCourierSlotStatus (value : CourierSlotStatus) : Z :=
  if value =s? CourierSlotStatusPlanned then COURIER_SLOT_STATUS_PLANNED
  else if value =s? CourierSlotStatusActive then COURIER_SLOT_STATUS_ACTIVE
  else if value =s? CourierSlotStatusCompleted then COURIER_SLOT_STATUS_COMPLETED
  else if value =s? CourierSlotStatusCanceled then COURIER_SLOT_STATUS_CANCELED
  else COURIER_SLOT_STATUS_UNSPECIFIED.

Definition toProtoCourierZones (zones : list CourierZone) : list ProtoCourierZone :=
  map (fun z => MkProtoCourierZone (CZone_ZoneID z) (CZone_IsPrimary z) (Unix (CZone_AssignedAt z))) zones.

Definition toProtoCourier (courier : Courier) (zones : list CourierZone) : ProtoCourier :=
  MkProtoCourier (Courier_ID courier) (Courier_Phone courier) (Courier_FirstName courier)
    (Courier_LastName courier) (toProtoCourierVehicleType (Courier_VehicleType courier))
    (Courier_IsActive courier) (toProtoCourierZones zones).

Definition toProtoCourierSlot (slot : CourierSlot) : ProtoCourierSlot :=
  MkProtoCourierSlot (Slot_ID slot) (Slot_CourierID slot) (Unix (Slot_Start slot)) (Unix (Slot_End slot))
    (toProtoInt32 (Slot_DurationHours slot)) (toProtoCourierSlotStatus (Slot_Status slot)).

Definition toProtoCourierVehicleCapability (c : CourierVehicleCapability) : ProtoCapability :=
  MkProtoCapability (toProtoCourierVehicleType (Cap_VehicleType c)) (toProtoInt32 (Cap_MaxWeightGrams c))
    (toProtoInt32 (Cap_MaxVolumeCM3 c)) (toProtoInt32 (Cap_MaxOrdersPerTrip c)) (Unix (Cap_UpdatedAt c)).

Definition toProtoCourierRatingSummary (s : CourierRatingSummary) : ProtoRatingSummary :=
  MkProtoRatingSummary (Sum_CourierID s) (Sum_RatingsCount s) (Sum_AverageScore s) (Sum_LowRatingsCount s)
    (Sum_Score1Count s) (Sum_Score2Count s) (Sum_Score3Count s) (Sum_Score4Count s) (Sum_Score5Count s)
    (if IsZero (Sum_LastRatingAt s) then 0 else Unix (Sum_LastRatingAt s))
    (Sum_OnTimeCount s) (Sum_PoliteCount s) (Sum_CarefulCount s) (Sum_DelayedCount s) (Sum_RudeCount s)
    (Sum_DamagedCount s) (Sum_OtherIssueCount s).

Section Handlers.
Context {ul : UnicodeLower}.

(** The loop of [toDomainCourierZones]: the zones and the number of primary
    ones. *)
Fixpoint domain_zones (courierID : string) (inputs : list (option CourierZoneInput)) (seen : list string)
    (zones : list CourierZone) (primaryCount : Z) : result (list CourierZone * Z) :=
  match inputs with
  | [] => Ok (zones, primaryCount)
  | None :: _ => Err ErrCourierZoneRequired
  | Some input :: rest =>
      let zoneID := TrimSpace (ZoneInput_ZoneId input) in
      if zoneID =s? "" then Err ErrCourierZoneRequired
      else
        let zoneID := NormalizeZoneID zoneID in
        if negb (IsKnownMoscowZoneID zoneID) then Err ErrCourierZoneUnknown
        else if existsb (String.eqb zoneID) seen then Err ErrCourierZoneDuplicate
        else
          domain_zones courierID rest (zoneID :: seen)
            (zones ++ [MkCourierZone courierID zoneID (ZoneInput_IsPrimary input) 0])
            (if ZoneInput_IsPrimary input then primaryCount + 1 else primaryCount)
  end.

Definition toDomainCourierZones (inputs : list (option CourierZoneInput)) (courierID : string)
    (vehicleType : VehicleType) : result (list CourierZone) :=
  if (length inputs =? 0)%nat then Err ErrCourierZonesRequired
  else if negb (AllowsMultipleZones vehicleType) && (1 <? length inputs)%nat
  then Err ErrCourierZoneLimitExceeded
  else
    match domain_zones courierID inputs [] [] 0 with
    | Err e => Err e
    | Ok (zones, primaryCount) =>
        if primaryCount >? 1 then Err ErrCourierPrimaryZoneConflict
        else Ok (match zones with
                 | z :: rest => if primaryCount =? 0 then MemoryCouriers.make_primary z :: rest else zones
                 | [] => []
                 end)
    end.

(** ** Handlers *)

Context (s : CourierService).

(** [strings.TrimSpace(id)], or a new identifier. *)
Definition id_or_new (id : string) : CM string :=
  if TrimSpace id =s? "" then call CourierUUID else mret (TrimSpace id).

Definition RegisterCourier (req : option RegisterCourierRequest) : CM (reply ProtoCourier) :=
  match req with
  | None => mret (invalid_argument "request is required")
  | Some req =>
      if negb (svc_has_courier_repo s) then mret not_configured
      else
        match toDomainCourierVehicleType (Register_VehicleType req) with
        | Err e => mret (invalid_argument (Error e))
        | Ok vehicleType =>
            courierID ← id_or_new (Register_CourierId req);
            match toDomainCourierZones (Register_Zones req) courierID vehicleType with
            | Err e => mret (invalid_argument (Error e))
            | Ok zones =>
                let courier := MkCourier courierID (Register_Phone req) (TrimSpace (Register_FirstName req))
                                 (TrimSpace (Register_LastName req)) vehicleType true 0 0 in
                attempt (call (RepoCreate courier)) "failed to create courier" (fun _ =>
                attempt (call (RepoReplaceZones courierID zones)) "failed to assign courier zones" (fun _ =>
                attempt (call (RepoGet courierID)) "failed to load courier after registration" (fun storedCourier =>
                attempt (call (RepoListZones courierID)) "failed to load courier zones after registration"
                  (fun storedZones => mret (Resp (toProtoCourier storedCourier storedZones))))))
            end
        end
  end.

Definition courier_id_required {T} : reply T := invalid_argument "courier_id is required".

Definition GetCourier (courierId : option string) : CM (reply ProtoCourier) :=
  match courierId with
  | None => mret courier_id_required
  | Some courierId =>
      if TrimSpace courierId =s? "" then mret courier_id_required
      else if negb (svc_has_courier_repo s) then mret not_configured
      else
        attempt (call (RepoGet courierId)) "failed to get courier" (fun courier =>
        attempt (call (RepoListZones (Courier_ID courier))) "failed to list courier zones" (fun zones =>
        mret (Resp (toProtoCourier courier zones))))
  end.

(** The loop over the couriers of a zone. *)
Fixpoint with_zones (couriers : list Courier) (result : list ProtoCourier) : CM (reply (list ProtoCourier)) :=
  match couriers with
  | [] => mret (Resp result)
  | courier :: rest =>
      attempt (call (RepoListZones (Courier_ID courier))) "failed to list courier zones" (fun zones =>
      with_zones rest (result ++ [toProtoCourier courier zones]))
  end.

Definition ListCouriersByZone (req : option ListCouriersByZoneRequest) : CM (reply (list ProtoCourier)) :=
  match req with
  | None => mret (invalid_argument "zone_id is required")
  | Some req =>
      if TrimSpace (ListByZone_ZoneId req) =s? "" then mret (invalid_argument "zone_id is required")
      else if negb (svc_has_courier_repo s) then mret not_configured
      else if negb (IsKnownMoscowZoneID (ListByZone_ZoneId req))
      then mret (invalid_argument (Error ErrCourierZoneUnknown))
      else if ListByZone_Limit req <? 0 then mret (invalid_argument "limit must be >= 0")
      else
        let limit := if ListByZone_Limit req =? 0 then defaultListCouriersByZoneLimit
                     else ListByZone_Limit req in
        attempt (call (RepoListByZone (ListByZone_ZoneId req) limit)) "failed to list couriers by zone"
          (fun couriers => with_zones couriers [])
  end.

Definition ReplaceCourierZones (req : option ReplaceCourierZonesRequest)
  : CM (reply ReplaceCourierZonesResponse) :=
  match req with
  | None => mret courier_id_required
  | Some req =>
      if TrimSpace (Replace_CourierId req) =s? "" then mret courier_id_required
      else if negb (svc_has_courier_repo s) then mret not_configured
      else
        attempt (call (RepoGet (Replace_CourierId req))) "failed to get courier for zone replacement"
          (fun courier =>
        match toDomainCourierZones (Replace_Zones req) (Courier_ID courier) (Courier_VehicleType courier) with
        | Err e => mret (invalid_argument (Error e))
        | Ok zones =>
            attempt (call (RepoReplaceZones (Courier_ID courier) zones)) "failed to replace courier zones"
              (fun _ =>
            attempt (call (RepoListZones (Courier_ID courier)))
              "failed to list courier zones after replacement" (fun storedZones =>
            mret (Resp (MkReplaceCourierZonesResponse (Courier_ID courier) (toProtoCourierZones storedZones)))))
        end)
  end.

Definition CreateCourierSlot (req : option CreateCourierSlotRequest) : CM (reply ProtoCourierSlot) :=
  match req with
  | None => mret (invalid_argument "request is required")
  | Some req =>
      if negb (svc_has_courier_repo s) then mret not_configured
      else
        let courierID := TrimSpace (CreateSlot_CourierId req) in
        if courierID =s? "" then mret courier_id_required
        else if CreateSlot_SlotStartUnix req <=? 0 then mret (invalid_argument "slot_start_unix is required")
        else if CreateSlot_SlotEndUnix req <=? 0 then mret (invalid_argument "slot_end_unix is required")
        else if CreateSlot_DurationHours req <=? 0 then mret (invalid_argument "duration_hours is required")
        else
          slotID ← id_or_new (CreateSlot_SlotId req);
          let slot := MkCourierSlot slotID courierID (time_Unix (CreateSlot_SlotStartUnix req))
                        (time_Unix (CreateSlot_SlotEndUnix req)) (CreateSlot_DurationHours req)
                        CourierSlotStatusPlanned 0 0 in
          attempt (call (RepoCreateSlot slot)) "failed to create courier slot" (fun _ =>
          mret (Resp (toProtoCourierSlot slot)))
  end.

Definition ListCourierSlots (req : option ListCourierSlotsRequest) : CM (reply (list ProtoCourierSlot)) :=
  match req with
  | None => mret courier_id_required
  | Some req =>
      if TrimSpace (ListSlots_CourierId req) =s? "" then mret courier_id_required
      else if negb (svc_has_courier_repo s) then mret not_configured
      else if (ListSlots_FromUnix req <? 0) || (ListSlots_ToUnix req <? 0)
      then mret (invalid_argument "from_unix/to_unix must be >= 0")
      else
        let from := if ListSlots_FromUnix req >? 0 then time_Unix (ListSlots_FromUnix req) else 0 in
        let to := if ListSlots_ToUnix req >? 0 then time_Unix (ListSlots_ToUnix req) else 0 in
        if negb (IsZero from) && negb (IsZero to) && negb (After to from)
        then mret (invalid_argument "to_unix must be greater than from_unix")
        else
          attempt (call (RepoListSlots (ListSlots_CourierId req) from to)) "failed to list courier slots"
            (fun slots => mret (Resp (map toProtoCourierSlot slots)))
  end.

Definition GetCourierVehicleCapability (vehicleType : option Z) : CM (reply ProtoCapability) :=
  match vehicleType with
  | None => mret (invalid_argument "request is required")
  | Some vehicleType =>
      if negb (svc_has_courier_repo s) then mret not_configured
      else
        match toDomainCourierVehicleType vehicleType with
        | Err e => mret (invalid_argument (Error e))
        | Ok vehicleType =>
            attempt (call (RepoGetVehicleCapability vehicleType)) "failed to get courier vehicle capability"
              (fun capability => mret (Resp (toProtoCourierVehicleCapability capability)))
        end
  end.

Definition ListCourierVehicleCapabilities : CM (reply (list ProtoCapability)) :=
  if negb (svc_has_courier_repo s) then mret not_configured
  else
    attempt (call RepoListVehicleCapabilities) "failed to list courier vehicle capabilities"
      (fun capabilities => mret (Resp (map toProtoCourierVehicleCapability capabilities))).

Definition SubmitCourierRating (req : option SubmitCourierRatingRequest) : CM (reply SubmitCourierRatingResponse) :=
  match req with
  | None => mret (invalid_argument "request is required")
  | Some req =>
      if negb (svc_has_courier_repo s) then mret not_configured
      else
        let courierID := TrimSpace (Submit_CourierId req) in
        if courierID =s? "" then mret courier_id_required
        else
          ratingID ← id_or_new (Submit_RatingId req);
          match toDomainCourierRatingTags (Submit_Tags req) with
          | Err e => mret (invalid_argument (Error e))
          | Ok tags =>
              attempt (call (RepoSubmitRating (MkCourierRating ratingID courierID (Submit_Score req) tags
                                                 (TrimSpace (Submit_Comment req)) 0)))
                "failed to submit courier rating"
                (fun _ => mret (Resp (MkSubmitCourierRatingResponse ratingID courierID)))
          end
  end.

Definition GetCourierRatingSummary (courierId : option string) : CM (reply ProtoRatingSummary) :=
  match courierId with
  | None => mret courier_id_required
  | Some courierId =>
      if TrimSpace courierId =s? "" then mret courier_id_required
      else if negb (svc_has_courier_repo s) then mret not_configured
      else
        attempt (call (RepoGetRatingSummary courierId)) "failed to get courier rating summary"
          (fun summary => mret (Resp (toProtoCourierRatingSummary summary)))
  end.
End Handlers.
