(* ===== verification/CourierFleet.v ===== *)
(** * The courier service over its in-memory repository

    Requests of any number of clients interleaved command by command; what holds
    of the repository in every state, which errors clients see, and reading back
    what was registered. *)

From S2P Require Import Prelude GoLib Float64 Domain Prog OrderService Courier CourierStore CourierService Concurrency.
Import MemoryCouriers.

(** ** The state *)

(** Readings of the clock (a command may read it several times) and
    identifiers; both may depend on the commands run so far. *)
Record fleet_ext := MkFleetExt {
  fx_clock : nat -> nat -> Time;
  fx_uuid : nat -> string;
}.

Record fleet := MkFleet { fl_tick : nat; fl_repo : repository }.

Section Fleet.
Context {rt : GoRuntime} {ul : UnicodeLower} (ext : fleet_ext).

Definition fleet_answer X (c : courier_port X) (n : nat) (r : repository) : X * repository :=
  match c in courier_port X return X * repository with
  | CourierUUID => (fx_uuid ext n, r)
  | RepoCreate courier => Create (fx_clock ext n 0) courier r
  | RepoGet id => (Get id r, r)
  | RepoGetByPhone phone => (GetByPhone phone r, r)
  | RepoSave courier => Save (fx_clock ext n 0) courier r
  | RepoListByZone zoneID limit => (ListByZone n zoneID limit r, r)
  | RepoReplaceZones courierID zones => ReplaceZones (fx_clock ext n) courierID zones r
  | RepoListZones courierID => (ListZones n courierID r, r)
  | RepoCreateSlot slot => CreateSlot (fx_clock ext n 0) slot r
  | RepoListSlots courierID from to => (ListSlots n courierID from to r, r)
  | RepoGetVehicleCapability v => (GetVehicleCapability v r, r)
  | RepoListVehicleCapabilities => (ListVehicleCapabilities n r, r)
  | RepoSubmitRating rating => SubmitRating (fx_clock ext n 0) rating r
  | RepoGetRatingSummary courierID => (GetRatingSummary n courierID r, r)
  end.

Definition fleet_handle : handler courier_port fleet := fun X c w =>
  let '(x, r) := fleet_answer X c (fl_tick w) (fl_repo w) in (x, MkFleet (S (fl_tick w)) r).

(** ** Clients *)

Inductive courier_client : Type :=
| CallRegisterCourier (req : option RegisterCourierRequest)
| CallGetCourier (courierId : option string)
| CallListCouriersByZone (req : option ListCouriersByZoneRequest)
| CallReplaceCourierZones (req : option ReplaceCourierZonesRequest)
| CallCreateCourierSlot (req : option CreateCourierSlotRequest)
| CallListCourierSlots (req : option ListCourierSlotsRequest)
| CallGetCourierVehicleCapability (vehicleType : option Z)
| CallListCourierVehicleCapabilities
| CallSubmitCourierRating (req : option SubmitCourierRatingRequest)
| CallGetCourierRatingSummary (courierId : option string).

Context (s : CourierService).

(** The status a request is answered with; [None] is OK. *)
Definition outcome_of {T} (r : reply T) : option status := match r with Resp _ => None | Fail st => Some st end.

Definition report {T} (p : CM (reply T)) : CM (option status) := r ← p; mret (outcome_of r).

Definition courier_request (c : courier_client) : CM (option status) :=
  match c with
  | CallRegisterCourier req => report (RegisterCourier s req)
  | CallGetCourier id => report (GetCourier s id)
  | CallListCouriersByZone req => report (ListCouriersByZone s req)
  | CallReplaceCourierZones req => report (ReplaceCourierZones s req)
  | CallCreateCourierSlot req => report (CreateCourierSlot s req)
  | CallListCourierSlots req => report (ListCourierSlots s req)
  | CallGetCourierVehicleCapability v => report (GetCourierVehicleCapability s v)
  | CallListCourierVehicleCapabilities => report (ListCourierVehicleCapabilities s)
  | CallSubmitCourierRating req => report (SubmitCourierRating s req)
  | CallGetCourierRatingSummary id => report (GetCourierRatingSummary s id)
  end.

Definition courier_thread (c : courier_client) : CM unit := courier_request c;; mret tt.

(** The service never saves a courier it has read. *)
Definition no_save X (c : courier_port X) : bool := match c with RepoSave _ => false | _ => true end.

Lemma with_zones_only l : forall acc, only no_save (with_zones l acc).
Proof.
  induction l as [|c l IH]; intros acc; simpl; [apply only_ret|]. unfold attempt. solve_only.
Qed.

Lemma courier_thread_only c : only no_save (courier_thread c).
Proof.
  pose proof with_zones_only. destruct c; unfold courier_thread, courier_request, report;
    unfold RegisterCourier, GetCourier, ListCouriersByZone, ReplaceCourierZones, CreateCourierSlot,
      ListCourierSlots, GetCourierVehicleCapability, ListCourierVehicleCapabilities, SubmitCourierRating,
      GetCourierRatingSummary, attempt, id_or_new; solve_only.
Qed.

Definition fleet_system (schedule : list nat) (clients : list courier_client) (w : fleet) : fleet :=
  (exec fleet_handle (fun _ _ _ => []) schedule (map courier_thread clients, w)).2.

(** ** What the vehicle allows *)

Record vehicles_inv (r : repository) : Prop := MkVehiclesInv {
  vi_valid : forall id c, couriers r !! id = Some c -> VehicleType_Valid (Courier_VehicleType c) = true;
  vi_zones : forall id c zs, couriers r !! id = Some c -> zonesByCourier r !! id = Some zs ->
    AllowsMultipleZones (Courier_VehicleType c) = false -> size zs = 1%nat;
  vi_slots : forall id c ss k sl, couriers r !! id = Some c -> slotsByCourier r !! id = Some ss ->
    ss !! k = Some sl -> IsNightShiftSlot (Slot_Start sl) (Slot_End sl) = true ->
    Courier_VehicleType c = VehicleTypeCar;
}.

Definition fleet_inv (r : repository) : Prop := repo_inv r /\ vehicles_inv r.

Lemma fleet_inv_new now : fleet_inv (NewCourierRepository now).
Proof. split; [apply NewCourierRepository_inv|]. split; intros *; simpl; by rewrite lookup_empty. Qed.

Lemma courier_vehicle_valid c : firstValidationErr (Courier_ValidateInvariants c) = None ->
  VehicleType_Valid (Courier_VehicleType c) = true.
Proof.
  rewrite firstValidationErr_None. unfold Courier_ValidateInvariants.
  destruct (VehicleType_Valid _); [done|]. simpl. rewrite app_nil. naive_solver.
Qed.

Lemma Create_fleet now c r : fleet_inv r -> fleet_inv (Create now c r).2.
Proof.
  intros [HI [V1 V2 V3]]. split; [by apply Create_inv|]. unfold Create.
  destruct (firstValidationErr _) eqn:Ev; [done|]. apply courier_vehicle_valid in Ev.
  destruct (NormalizePhone _); [|done]. destruct (couriers r !! Courier_ID c) eqn:Ec; [done|].
  destruct (phone_taken _ _ _); [done|]. split; simpl.
  - intros id c' [[<- <-]|[_ Hc]]%lookup_insert_Some; [done|eauto].
  - intros id c' zs [[<- <-]|[_ Hc]]%lookup_insert_Some Hz; [|eauto].
    destruct (inv_zones _ HI _ _ Hz) as [[? Hs] _]. congruence.
  - intros id c' ss k sl [[<- <-]|[_ Hc]]%lookup_insert_Some Hz; [|eauto].
    destruct (inv_slots _ HI _ _ Hz) as [[? Hs] _]. congruence.
Qed.

Lemma ReplaceZones_fleet clock cid zones r : fleet_inv r -> fleet_inv (ReplaceZones clock cid zones r).2.
Proof.
  intros [HI [V1 V2 V3]]. split; [by apply ReplaceZones_inv|]. unfold ReplaceZones.
  set (id := TrimSpace cid). destruct (_ =s? _); [done|]. destruct (_ =? _)%nat eqn:El; [done|].
  destruct (couriers r !! id) as [c|] eqn:Ec; [|done]. destruct (_ && _) eqn:Em; [done|].
  destruct (normalize_zones _ _ _ _ _ _) as [[l p]|] eqn:En; [|done].
  apply normalize_zones_spec in En as [_ Hlen];
    [|by split; [constructor|apply NoDup_nil|]|by intros k ?%elem_of_nil].
  destruct (p >? 1); [done|]. destruct (ensureZoneCapacityLocked _ _ _ _); [done|].
  split; simpl; [done| |done].
  intros id' c' zs Hc' [[<- <-]|[_ Hz]]%lookup_insert_Some Hone; [|eauto].
  rewrite Ec in Hc'. simplify_eq. rewrite Hone in Em. simpl in Em. apply Nat.ltb_ge in Em.
  apply Nat.eqb_neq in El. simpl in Hlen. destruct l as [|z [|z' l]]; simpl in Hlen; [lia| |lia].
  assert (forall x, size (zone_map [x]) = 1%nat) as Hone'
    by (intros x; unfold zone_map; simpl; by rewrite map_size_insert_None, map_size_empty).
  destruct (p =? 0); apply Hone'.
Qed.

Lemma slots_of_night r id c k sl : vehicles_inv r -> couriers r !! id = Some c ->
  slots_of r id !! k = Some sl -> IsNightShiftSlot (Slot_Start sl) (Slot_End sl) = true ->
  Courier_VehicleType c = VehicleTypeCar.
Proof.
  intros HV Hc. unfold slots_of. destruct (slotsByCourier r !! id) as [ss|] eqn:E; simpl.
  - intros Hk Hn. by eapply (vi_slots _ HV).
  - by rewrite lookup_empty.
Qed.

Lemma slots_vehicles r id c ss : vehicles_inv r -> couriers r !! id = Some c ->
  (forall k sl, ss !! k = Some sl -> IsNightShiftSlot (Slot_Start sl) (Slot_End sl) = true ->
     Courier_VehicleType c = VehicleTypeCar) ->
  vehicles_inv (set_slots (<[id := ss]> (slotsByCourier r)) r).
Proof.
  intros [V1 V2 V3] Hc Hss. split; simpl; [done|done|].
  intros id' c' ss' k sl Hc' [[<- <-]|[_ Hz]]%lookup_insert_Some Hk Hn; [|eauto].
  rewrite Hc in Hc'. simplify_eq. eauto.
Qed.

Lemma CreateSlot_fleet now sl r : fleet_inv r -> fleet_inv (CreateSlot now sl r).2.
Proof.
  intros [HI HV]. split; [by apply CreateSlot_inv|]. unfold CreateSlot.
  set (sl' := set_slot sl _ _ _). destruct (firstValidationErr _); [done|].
  destruct (couriers r !! Slot_CourierID sl') as [c|] eqn:Ec; [|done]. destruct (_ && _) eqn:En; [done|].
  pose proof (slots_vehicles r _ c _ HV Ec (fun k sl => slots_of_night r _ c k sl HV Ec)) as HV'.
  destruct (slots_of _ _ !! _); [done|]. destruct (slot_conflict _ _ _); [done|].
  apply (slots_vehicles _ _ c); [done|done|].
  intros k sl2 [[<- <-]|[_ Hk]]%lookup_insert_Some Hn; [|exact (slots_of_night r _ c k sl2 HV Ec Hk Hn)].
  simpl in Hn. unfold sl' in En. simpl in En. rewrite Hn in En. simpl in En.
  by apply negb_false_iff, String.eqb_eq in En.
Qed.

Lemma SubmitRating_fleet now x r : fleet_inv r -> fleet_inv (SubmitRating now x r).2.
Proof.
  intros [HI [V1 V2 V3]]. split; [by apply SubmitRating_inv|]. unfold SubmitRating.
  destruct (firstValidationErr _); [done|]. destruct (couriers r !! _); [|done].
  by destruct (ratings_of _ _ !! _).
Qed.

Lemma fleet_handle_kept X (c : courier_port X) w : no_save X c = true ->
  fleet_inv (fl_repo w) -> fleet_inv (fl_repo (fleet_handle X c w).2).
Proof.
  intros Hc HI. unfold fleet_handle. destruct c; simpl in *; try done;
    match goal with |- context [let '(_, _) := ?op in _] =>
      assert (fleet_inv op.2) as HI' by
        first [by apply Create_fleet|by apply ReplaceZones_fleet|by apply CreateSlot_fleet|by apply SubmitRating_fleet];
      by destruct op
    end.
Qed.

(** C30. Whatever the clients of the courier service ask, in every interleaving
    of their requests: besides the invariant of the repository, only a car has
    several zones or a night shift, and every courier has a known vehicle. *)
Theorem fleet_safe schedule clients now :
  fleet_inv (fl_repo (fleet_system schedule clients (MkFleet 0 (NewCourierRepository now)))).
Proof.
  unfold fleet_system. apply (exec_kept _ _ no_save (fun w => fleet_inv (fl_repo w))).
  - intros X c w. apply fleet_handle_kept.
  - intros. constructor.
  - apply Forall_forall. intros p Hp. apply list_elem_of_fmap in Hp as (c & -> & _). apply courier_thread_only.
  - apply fleet_inv_new.
Qed.

(** ** The errors clients see *)

Definition mapped (e : err) : bool := negb (status_code (mapCourierErr e "") =? codes_Internal).

Lemma mapped_code e msg : mapped e = true -> status_code (mapCourierErr e msg) <> codes_Internal.
Proof.
  unfold mapped, mapCourierErr. rewrite negb_true_iff, Z.eqb_neq.
  repeat (match goal with |- context [if ?b then _ else _] => destruct b; [done|] end). done.
Qed.

Definition mapped_result {A} (x : result A) : Prop := match x with Ok _ => True | Err e => mapped e = true end.

Lemma Forall_append_if {A} (P : A -> Prop) (b : bool) l x : Forall P l -> P x -> Forall P (if b then l ++ [x] else l).
Proof. intros Hl Hx. destruct b; [apply Forall_app; auto|done]. Qed.

Lemma first_mapped errs e : Forall (fun e => mapped e = true) errs -> firstValidationErr errs = Some e -> mapped e = true.
Proof. intros H. destruct H; simpl; [done|]. congruence. Qed.

(** The lists of errors the validations build. *)
Ltac mapped_errors :=
  repeat first
    [ assumption
    | apply Forall_append_if
    | apply Forall_app; split
    | apply Forall_nil; done
    | apply Forall_cons; split; [vm_compute; reflexivity|]
    | match goal with |- Forall _ (if ?b then _ else _) => destruct b end
    | match goal with |- Forall _ (match ?r with _ => _ end) => destruct r eqn:? end
    | reflexivity ].

Lemma NormalizePhone_mapped phone : mapped_result (NormalizePhone phone).
Proof. unfold NormalizePhone. repeat (case_match; try done). Qed.

Lemma phone_step_mapped phone errs : Forall (fun e => mapped e = true) errs ->
  Forall (fun e => mapped e = true)
    (if TrimSpace phone =s? "" then errs ++ [ErrCourierPhoneRequired]
     else match NormalizePhone phone with Err e => errs ++ [e] | Ok _ => errs end).
Proof.
  intros He. pose proof (NormalizePhone_mapped phone) as Hp. destruct (_ =s? _); [mapped_errors|].
  destruct (NormalizePhone phone); [done|]. apply Forall_app. split; [done|]. by constructor.
Qed.

Lemma courier_mapped c : Forall (fun e => mapped e = true) (Courier_ValidateInvariants c).
Proof.
  unfold Courier_ValidateInvariants.
  repeat first [apply Forall_append_if; [|vm_compute; reflexivity] | apply phone_step_mapped | progress mapped_errors].
Qed.

Lemma zone_mapped z : Forall (fun e => mapped e = true) (CourierZone_ValidateInvariants z).
Proof. unfold CourierZone_ValidateInvariants. mapped_errors. Qed.

Lemma slot_mapped sl : Forall (fun e => mapped e = true) (CourierSlot_ValidateInvariants sl).
Proof. unfold CourierSlot_ValidateInvariants. mapped_errors. Qed.

Lemma tags_mapped score tags : forall seen neg errs, Forall (fun e => mapped e = true) errs ->
  Forall (fun e => mapped e = true) (check_tags score tags seen neg errs).1.
Proof.
  induction tags as [|t tags IH]; intros seen neg errs He; simpl; [done|].
  repeat (case_match; try (apply IH; mapped_errors)); mapped_errors.
Qed.

Lemma rating_mapped x : Forall (fun e => mapped e = true) (CourierRating_ValidateInvariants x).
Proof.
  unfold CourierRating_ValidateInvariants.
  match goal with |- context [check_tags ?sc ?tags [] false ?es] =>
    pose proof (tags_mapped sc tags [] false es) as Ht; destruct (check_tags sc tags [] false es) as [errs neg] end.
  simpl in Ht. assert (Forall (fun e => mapped e = true) errs) by (apply Ht; mapped_errors). mapped_errors.
Qed.

(** Every answer of the repository is a value or a mapped error. *)
Definition answers_mapped : cmd_spec courier_port unit := fun X c g =>
  match c in courier_port X return (X -> unit -> Prop) -> Prop with
  | CourierUUID => fun Q => forall x, Q x g
  | RepoCreate _ => fun Q => forall x, mapped_result x -> Q x g
  | RepoGet _ => fun Q => forall x, mapped_result x -> Q x g
  | RepoGetByPhone _ => fun Q => forall x, mapped_result x -> Q x g
  | RepoSave _ => fun Q => forall x, mapped_result x -> Q x g
  | RepoListByZone _ _ => fun Q => forall x, mapped_result x -> Q x g
  | RepoReplaceZones _ _ => fun Q => forall x, mapped_result x -> Q x g
  | RepoListZones _ => fun Q => forall x, mapped_result x -> Q x g
  | RepoCreateSlot _ => fun Q => forall x, mapped_result x -> Q x g
  | RepoListSlots _ _ _ => fun Q => forall x, mapped_result x -> Q x g
  | RepoGetVehicleCapability _ => fun Q => forall x, mapped_result x -> Q x g
  | RepoListVehicleCapabilities => fun Q => forall x, mapped_result x -> Q x g
  | RepoSubmitRating _ => fun Q => forall x, mapped_result x -> Q x g
  | RepoGetRatingSummary _ => fun Q => forall x, mapped_result x -> Q x g
  end.

#[local] Instance answers_mapped_mono : MonotoneSpec answers_mapped.
Proof. intros X c g P Q HPQ. destruct c; simpl; naive_solver. Qed.

Lemma normalize_zones_mapped clock cid zones : forall seen norm p,
  mapped_result (normalize_zones clock cid zones seen norm p).
Proof.
  induction zones as [|z zones IH]; intros seen norm p; simpl; [done|].
  destruct (firstValidationErr _) as [e|] eqn:E; [by apply (first_mapped _ _ (zone_mapped _) E)|].
  destruct (existsb _ _); [done|apply IH].
Qed.

Lemma ensure_mapped r cid zones cur e : ensureZoneCapacityLocked r cid zones cur = Some e -> mapped e = true.
Proof.
  induction zones as [|z zones IH]; simpl; [done|]. destruct (bool_decide _); [done|].
  destruct (_ >=? _); [by intros [= <-]|done].
Qed.

(** A validation error is mapped. *)
Ltac validated H := match goal with |- context [firstValidationErr ?l] =>
  let E := fresh "E" in destruct (firstValidationErr l) as [?|] eqn:E; [exact (first_mapped _ _ (H _) E)|] end.

Lemma Create_mapped now c r : mapped_result (Create now c r).1.
Proof.
  unfold Create. validated courier_mapped. pose proof (NormalizePhone_mapped (Courier_Phone c)) as Hp.
  destruct (NormalizePhone _); [|done]. by repeat case_match.
Qed.

Lemma Save_mapped now c r : mapped_result (Save now c r).1.
Proof.
  unfold Save. validated courier_mapped. pose proof (NormalizePhone_mapped (Courier_Phone c)) as Hp.
  destruct (NormalizePhone _); [|done]. by repeat case_match.
Qed.

Lemma ReplaceZones_mapped clock cid zones r : mapped_result (ReplaceZones clock cid zones r).1.
Proof.
  unfold ReplaceZones. destruct (_ =s? _); [done|]. destruct (_ =? _)%nat; [done|].
  destruct (couriers r !! _); [|done]. destruct (_ && _); [done|].
  match goal with |- context [normalize_zones ?a ?b ?c ?d ?e ?f] =>
    pose proof (normalize_zones_mapped a b c d e f) as Hn; destruct (normalize_zones a b c d e f) as [[l p]|] end;
    [|done].
  destruct (p >? 1); [done|]. destruct (ensureZoneCapacityLocked _ _ _ _) eqn:E; [|done].
  by apply ensure_mapped in E.
Qed.

Lemma CreateSlot_mapped now sl r : mapped_result (CreateSlot now sl r).1.
Proof. unfold CreateSlot. validated slot_mapped. by repeat case_match. Qed.

Lemma SubmitRating_mapped now x r : mapped_result (SubmitRating now x r).1.
Proof. unfold SubmitRating. validated rating_mapped. by repeat case_match. Qed.

Lemma fleet_answers X (c : courier_port X) n r Q :
  answers_mapped X c tt Q -> Q (fleet_answer X c n r).1 tt.
Proof.
  pose proof NormalizePhone_mapped as HN.
  destruct c; simpl; intros HQ; apply HQ;
    first [apply Create_mapped|apply Save_mapped|apply ReplaceZones_mapped|apply CreateSlot_mapped
          |apply SubmitRating_mapped|idtac].
  2: { unfold GetByPhone. specialize (HN phone). destruct (NormalizePhone phone); [|done]. by repeat case_match. }
  all: unfold Get, ListByZone, ListZones, ListSlots, GetVehicleCapability, ListVehicleCapabilities, GetRatingSummary;
    by repeat case_match.
Qed.

Lemma fleet_sound : spec_sound answers_mapped fleet_handle (fun _ _ => True).
Proof.
  intros X c w [] Q _ HQ. exists tt. split; [done|]. unfold fleet_handle.
  pose proof (fleet_answers X c (fl_tick w) (fl_repo w) Q HQ). by destruct (fleet_answer _ _ _ _).
Qed.

Definition not_internal (st : option status) : Prop :=
  match st with Some st => status_code st <> codes_Internal | None => True end.

Lemma wp_attempt {A B} (c : courier_port (result A)) msg (k : A -> CM (reply B)) g :
  (forall Q, (forall x, mapped_result x -> Q x g) -> answers_mapped _ c g Q) ->
  (forall a, wp answers_mapped (k a) g (fun r _ => not_internal (outcome_of r))) ->
  wp answers_mapped (attempt (call c) msg k) g (fun r _ => not_internal (outcome_of r)).
Proof.
  intros Hc Hk. unfold attempt. apply wp_call. apply Hc. intros [a|e] Hx; [apply Hk|].
  by apply mapped_code.
Qed.

Lemma with_zones_specific l g : forall acc,
  wp answers_mapped (with_zones l acc) g (fun r _ => not_internal (outcome_of r)).
Proof.
  induction l as [|c l IH]; intros acc; cbn [with_zones]; [done|]. apply wp_attempt; [done|]. intros zones. apply IH.
Qed.

Lemma id_or_new_specific {B} id (k : string -> CM (reply B)) g :
  (forall x, wp answers_mapped (k x) g (fun r _ => not_internal (outcome_of r))) ->
  wp answers_mapped (id_or_new id ≫= k) g (fun r _ => not_internal (outcome_of r)).
Proof.
  intros Hk. unfold id_or_new. destruct (_ =s? _); [|apply Hk]. apply wp_call. intros x. apply Hk.
Qed.

Ltac specific :=
  repeat first
    [ apply with_zones_specific
    | apply wp_attempt; [done|intros ?]
    | apply id_or_new_specific; intros ?
    | match goal with |- wp _ (match ?x with _ => _ end) _ _ => destruct x eqn:? end
    | done ].

(** C31. Over the in-memory repository a configured courier service answers no
    request with Internal: every error of the repository and of the validations
    has its own status code. *)
Theorem courier_errors_specific c w :
  svc_has_courier_repo s = true ->
  not_internal (run fleet_handle (courier_request c) w).1.
Proof.
  intros Hs.
  enough (wp answers_mapped (courier_request c) tt (fun st _ => not_internal st)) as Hwp
    by (by destruct (wp_run _ _ _ _ _ fleet_sound w tt I Hwp) as (_ & _ & H)).
  destruct c; unfold courier_request, report; (eapply wp_seq; [apply _| |intros r ? Hr; exact Hr]);
    unfold RegisterCourier, GetCourier, ListCouriersByZone, ReplaceCourierZones, CreateCourierSlot,
      ListCourierSlots, GetCourierVehicleCapability, ListCourierVehicleCapabilities, SubmitCourierRating,
      GetCourierRatingSummary; rewrite ?Hs; cbn [negb]; specific.
Qed.

(** ** Reading back what was registered *)

Context {rtl : GoRuntimeLaws rt}.

Lemma zone_before_spec a b : zone_before a b = true <->
  (CZone_IsPrimary a = true /\ CZone_IsPrimary b = false) \/
  (CZone_IsPrimary a = CZone_IsPrimary b /\ str_lt (CZone_ZoneID a) (CZone_ZoneID b) = true).
Proof.
  unfold zone_before. destruct (CZone_IsPrimary a), (CZone_IsPrimary b); simpl; naive_solver.
Qed.

Lemma zone_before_weak : StrictWeak zone_before.
Proof.
  split.
  - intros x. apply not_true_iff_false. rewrite zone_before_spec, str_lt_irrefl. naive_solver congruence.
  - intros x y z. rewrite !zone_before_spec. intros [[H1 H2]|[H1 H2]] [[H3 H4]|[H3 H4]];
      [left; split; congruence..|]. right. split; [congruence|]. by eapply str_lt_trans.
  - intros x y z. rewrite <- !not_true_iff_false, !zone_before_spec. intros Hxy Hyz [[H1 H2]|[H1 H2]].
    + destruct (CZone_IsPrimary y) eqn:Ey; [apply Hyz; auto|apply Hxy; auto].
    + destruct (CZone_IsPrimary x) eqn:Ex, (CZone_IsPrimary y) eqn:Ey, (CZone_IsPrimary z) eqn:Ez;
        try congruence; try (by apply Hxy; auto); try (by apply Hyz; auto).
      all: destruct (str_lt (CZone_ZoneID y) (CZone_ZoneID z)) eqn:Eyz; [by apply Hyz; auto|];
        destruct (str_lt (CZone_ZoneID x) (CZone_ZoneID y)) eqn:Exy; [by apply Hxy; auto|];
        destruct (str_lt (CZone_ZoneID y) (CZone_ZoneID x)) eqn:Eyx;
        [by rewrite (str_lt_trans _ _ _ Eyx H2) in Eyz|];
        rewrite (str_lt_total _ _ Exy Eyx) in H2; congruence.
Qed.

(** The order the map is visited in does not show in the zones of a courier. *)
Lemma ListZones_unique n m cid r : repo_inv r -> ListZones n cid r = ListZones m cid r.
Proof.
  intros HI. unfold ListZones. destruct (_ =s? _); [done|]. destruct (couriers r !! _); [|done]. f_equal.
  set (zs := zones_of r (TrimSpace cid)).
  assert (forall k, sort_Slice zone_before (map snd (map_range k zs)) ≡ₚ map snd (map_to_list zs)) as HP.
  { intros k. rewrite sort_Slice_perm. by rewrite map_range_perm. }
  apply (sorted_unique zone_before); [|apply sort_Slice_sorted, zone_before_weak..|by rewrite !HP].
  intros x y Hx Hy Hxy Hyx. rewrite HP in Hx, Hy. apply elem_of_values in Hx as [kx Hx], Hy as [ky Hy].
  assert (forall k z, zs !! k = Some z -> CZone_ZoneID z = k) as Hkey.
  { intros k z Hz. unfold zs, zones_of in Hz. destruct (zonesByCourier r !! _) as [zm|] eqn:E; simpl in Hz.
    - apply (inv_zones _ HI) in E as [_ Hg]. by apply (zg_entries _ _ Hg) in Hz as [? _].
    - by apply lookup_empty_Some in Hz. }
  assert (CZone_ZoneID x = CZone_ZoneID y) as Heq; [|rewrite (Hkey _ _ Hx), (Hkey _ _ Hy) in Heq; congruence].
  revert Hxy Hyx. unfold zone_before. destruct (CZone_IsPrimary x), (CZone_IsPrimary y); simpl; try done; apply str_lt_total.
Qed.

(** What [RegisterCourier] answers is what is stored: a successful
    registration followed by [GetCourier] for the returned identifier gives the
    same courier with the same zones. *)
Theorem register_then_get req w resp w' :
  repo_inv (fl_repo w) ->
  run fleet_handle (RegisterCourier s (Some req)) w = (Resp resp, w') ->
  (run fleet_handle (GetCourier s (Some (PCourier_Id resp))) w').1 = Resp resp.
Proof.
  intros HI. unfold RegisterCourier, GetCourier. destruct (svc_has_courier_repo s) eqn:Hs; cbn [negb]; [|done].
  destruct (toDomainCourierVehicleType _) as [vt|]; [|done].
  rewrite run_bind. destruct (run fleet_handle (id_or_new _) w) as [cid w0] eqn:Eid.
  assert (repo_inv (fl_repo w0)) as HI0.
  { revert Eid. unfold id_or_new. destruct (_ =s? _); simpl; intros; by simplify_eq/=. }
  destruct (toDomainCourierZones _ _ _) as [zones|]; [|done]. unfold attempt at 1.
  rewrite run_call. unfold fleet_handle at 1. cbn [fleet_answer].
  match goal with |- context [Create ?t ?c ?r] => pose proof (Create_inv t c r HI0) as HI1;
    destruct (Create t c r) as [[[]|] r1] end; [|done]. simpl in HI1.
  unfold attempt at 1. rewrite run_call. unfold fleet_handle at 1. cbn [fleet_answer fl_repo fl_tick].
  match goal with |- context [ReplaceZones ?t ?c ?z r1] => pose proof (ReplaceZones_inv t c z r1 HI1) as HI2;
    destruct (ReplaceZones t c z r1) as [[[]|] r2] end; [|done]. simpl in HI2.
  unfold attempt at 1. rewrite run_call. unfold fleet_handle at 1. cbn [fleet_answer fl_repo fl_tick].
  unfold Get. destruct (TrimSpace cid =s? "") eqn:Et; [done|].
  destruct (couriers r2 !! TrimSpace cid) as [c|] eqn:Ec; [|done].
  unfold attempt at 1. rewrite run_call. unfold fleet_handle at 1. cbn [fleet_answer fl_repo fl_tick].
  destruct (ListZones _ cid r2) as [zs|] eqn:Ez; [|done]. intros [= <- <-].
  destruct (inv_courier _ HI2 _ _ Ec) as [Hid _]. cbn [toProtoCourier PCourier_Id]. rewrite Hid, TrimSpace_idemp, Et.
  unfold attempt at 1. rewrite run_call. unfold fleet_handle at 1. cbn [fleet_answer fl_repo fl_tick].
  unfold Get. rewrite TrimSpace_idemp, Et, Ec.
  unfold attempt. rewrite run_call. unfold fleet_handle at 1. cbn [fleet_answer fl_repo fl_tick].
  assert (forall n, ListZones n (Courier_ID c) r2 = Ok zs) as ->; [|done].
  intros n. rewrite <- Ez. transitivity (ListZones n cid r2); [|by apply ListZones_unique].
  unfold ListZones. by rewrite Hid, TrimSpace_idemp.
Qed.
End Fleet.
