(* ===== verification/CourierScenarios.v ===== *)
(** * Concrete executions of the courier service

    A registration that fails half-way, and a courier that is not active in the
    list of a zone. *)

From stdpp Require Import pretty.
From S2P Require Import Prelude GoLib Float64 Domain Prog OrderService Courier CourierStore CourierService CourierFleet.
Import MemoryCouriers.

(** Letters that are not ASCII are left as they are: the identifiers here are
    ASCII. *)
#[global] Instance ascii_lower : UnicodeLower := fun r => r.

Definition fleet_demo_ext : fleet_ext :=
  MkFleetExt (fun n k => (unixToInternal + 1700000000) * Second + Z.of_nat n * Millisecond + Z.of_nat k)
    (fun n => "uuid-" +:+ pretty n).

Definition configured : CourierService := MkCourierService true.

(** The [k]-th courier, on a bike, in the zone [zone]. *)
Definition nth_request (k : nat) (zone : string) : RegisterCourierRequest :=
  MkRegisterCourierRequest ("k" +:+ pretty k) ("+7916" +:+ pretty (1000000 + Z.of_nat k)) "Ivan" "Petrov"
    COURIER_VEHICLE_TYPE_BIKE [Some (MkZoneInput zone true)].

Definition register (w : fleet) (req : RegisterCourierRequest) : fleet :=
  (run (fleet_handle fleet_demo_ext) (RegisterCourier configured (Some req)) w).2.

Definition new_fleet : fleet := MkFleet 0 (NewCourierRepository 1).

Definition full_zone : string := "msk-tao-troitsk".

Definition full_fleet : fleet :=
  foldl (fun w k => register w (nth_request k full_zone)) new_fleet (seq 0 100).

Definition status_after {T} (p : CM (reply T)) (w : fleet) : option status :=
  outcome_of (run (fleet_handle fleet_demo_ext) p w).1.

(** Registration is not atomic: when the zone is full the client is told
    ResourceExhausted, but the courier stays in the repository without zones,
    and the same registration with another zone is then refused as a duplicate. *)
Theorem failed_registration_keeps_courier :
  let req := nth_request 100 full_zone in
  let w := register full_fleet req in
  status_after (RegisterCourier configured (Some req)) full_fleet =
    Some (Status codes_ResourceExhausted (Error ErrCourierZoneCapacityExceeded)) /\
  is_Some (couriers (fl_repo w) !! "k100") /\ zonesByCourier (fl_repo w) !! "k100" = None /\
  status_after (RegisterCourier configured (Some (nth_request 100 "msk-tao-voronovo"))) w =
    Some (Status codes_AlreadyExists (Error ErrCourierAlreadyExists)).
Proof. vm_compute. repeat split. by eexists. Qed.

(** A registered courier that was saved as not active. *)
Definition one_inactive : fleet :=
  let w := register new_fleet (nth_request 0 full_zone) in
  match couriers (fl_repo w) !! "k0" with
  | Some c => MkFleet (fl_tick w)
                (Save 1 (MkCourier (Courier_ID c) (Courier_Phone c) (Courier_FirstName c) (Courier_LastName c)
                           (Courier_VehicleType c) false (Courier_CreatedAt c) 0) (fl_repo w)).2
  | None => w
  end.

(** [ListCouriersByZone] lists couriers that are not active. *)
Theorem inactive_courier_listed :
  match (run (fleet_handle fleet_demo_ext)
           (ListCouriersByZone configured (Some (MkListCouriersByZoneRequest full_zone 0))) one_inactive).1 with
  | Resp [c] => PCourier_Id c = "k0" /\ PCourier_IsActive c = false
  | _ => False
  end.
Proof. vm_compute. done. Qed.
