(* ===== verification/Postgres.v ===== *)
(** * SQL sessions: what src/internal/storage/postgres uses of database/sql

    The methods of the PostgreSQL repositories are programs over the commands
    below.  A statement is a function of the tables, written from its SQL text;
    outside a transaction it commits by itself, inside one it works on the
    transaction's copy, which [Commit] publishes.  An error aborts the
    transaction, and a transaction that is left open is rolled back: by the
    deferred [Rollback] of the methods, or by database/sql when the method's
    context is canceled on return.

    Every command may meet an outage of the connection.  Whether a commit took
    effect before the connection was lost is not known to the program: both are
    possible.

    A statement names the rows and keys it locks until its transaction ends:
    the rows it updates, deletes or selects FOR UPDATE, and the unique keys it
    inserts.  They matter between connections (PgConcurrency.v).  The claim of
    outbox messages skips rows that are locked, and names none.

    A TEXT value is any string here; the server demands valid UTF-8 without NUL.

    Not determined by the SQL text, and parameters here: the precision of
    TIMESTAMPTZ as the driver writes it, the collation of TEXT, and the order
    in which rows are met, which shows where ORDER BY does not decide. *)

From S2P Require Import Prelude GoLib Domain Prog.

(** ** Errors *)

Inductive sql_error : Type :=
| PgError (code constraint : string)     (* *pgconn.PgError *)
| DriverError (msg : string).            (* anything else *)

Definition sql_err (e : sql_error) : err :=
  match e with
  | PgError code _ => ErrOther ("ERROR (SQLSTATE " +:+ code +:+ ")")
  | DriverError msg => ErrOther msg
  end.

Definition unique_violation (constraint : string) : sql_error := PgError "23505" constraint.
Definition foreign_key_violation (constraint : string) : sql_error := PgError "23503" constraint.
Definition check_violation (constraint : string) : sql_error := PgError "23514" constraint.
Definition numeric_out_of_range : sql_error := PgError "22003" "".
Definition in_failed_transaction : sql_error := PgError "25P02" "".

Definition isUniqueViolation (e : sql_error) : bool :=
  match e with PgError code _ => code =s? "23505" | DriverError _ => false end.

Definition isForeignKeyViolation (e : sql_error) : bool :=
  match e with PgError code _ => code =s? "23503" | DriverError _ => false end.

(** ** The database server *)

Class Postgres := {
  pg_time : Time -> Time;                 (* a time as it is read back *)
  collate_lt : string -> string -> bool;  (* the order of TEXT *)
  pg_scan : forall {A}, gmap string A -> list A;   (* the rows as a scan meets them *)
}.


Class PostgresLaws (pg : Postgres) : Prop := {
  pg_time_idem : forall t, pg_time (pg_time t) = pg_time t;
  pg_time_mono : forall t u, t <= u -> pg_time t <= pg_time u;
  pg_time_near : forall t, Z.abs (t - pg_time t) < Microsecond;
  pg_time_shift : forall t k, pg_time (t + k * Microsecond) = pg_time t + k * Microsecond;
  collate_strict :: StrictTotal collate_lt;
  pg_scan_perm : forall A (table : gmap string A), pg_scan table ≡ₚ map snd (map_to_list table);
}.

(** The driver truncates to microseconds; the collation "C" compares bytes. *)
#[global] Instance pg_C : Postgres := {
  pg_time := fun t => t - t mod Microsecond;
  collate_lt := str_lt;
  pg_scan := fun A table => map snd (map_to_list table);
}.

#[global] Instance pg_C_laws : PostgresLaws pg_C.
Proof.
  split; simpl; unfold Microsecond; [| | | |apply _|done]; intros; Z.div_mod_to_equations; lia.
Qed.

(** The ranges of the integer types; a value outside is refused. *)
Definition fits_bigint (z : Z) : bool := (minInt64 <=? z) && (z <=? maxInt64).
Definition fits_integer (z : Z) : bool := (minInt32 <=? z) && (z <=? maxInt32).

(** ORDER BY; the rows are separated by the comparison wherever it is used. *)
Definition order_by {A} (less : A -> A -> bool) (rows : list A) : list A := insertion_sort less rows.

Definition limit_rows {A} (limit : Z) (rows : list A) : list A := take (Z.to_nat limit) rows.

Lemma order_by_perm {A} (less : A -> A -> bool) rows : order_by less rows ≡ₚ rows.
Proof. apply (sort_Slice_perm (rt := reference_runtime)). Qed.

Lemma order_by_sorted {A} (less : A -> A -> bool) rows :
  StrictWeak less -> StronglySorted (not_after less) (order_by less rows).
Proof. apply (sort_Slice_sorted (rt := reference_runtime)). Qed.

(** Rows in any physical order are listed in the same order. *)
Lemma order_by_unique {A} (less : A -> A -> bool) l1 l2 :
  StrictWeak less -> (forall x y, x ∈ l1 -> y ∈ l1 -> less x y = false -> less y x = false -> x = y) ->
  l1 ≡ₚ l2 -> order_by less l1 = order_by less l2.
Proof.
  intros Hw Hsep Hp. apply (sorted_unique less); [|by apply order_by_sorted..|by rewrite !order_by_perm].
  intros x y. rewrite !order_by_perm. apply Hsep.
Qed.

(** The rows of a table that satisfy a condition. *)
Definition select_rows {A} (p : A -> bool) (table : gmap string A) : list A :=
  List.filter p (map snd (map_to_list table)).

Lemma elem_of_select_rows {A} (p : A -> bool) (table : gmap string A) x :
  x ∈ select_rows p table <-> p x = true /\ exists k, table !! k = Some x.
Proof.
  unfold select_rows. rewrite list_elem_of_In, filter_In, <- list_elem_of_In, elem_of_values. tauto.
Qed.

Lemma select_rows_insert {A} (p : A -> bool) (table : gmap string A) k x : table !! k = None ->
  select_rows p (<[k := x]> table) ≡ₚ (if p x then [x] else []) ++ select_rows p table.
Proof.
  intros Hk. unfold select_rows. rewrite (List_filter_perm p _ (x :: map snd (map_to_list table))).
  - simpl. by destruct (p x).
  - by rewrite (fmap_Permutation snd _ _ (map_to_list_insert _ _ _ Hk)).
Qed.

(** ** Sessions *)

Section Sessions.
Context {DB : Type}.

Definition statement (A : Type) : Type := DB -> (A + sql_error) * DB.

(** A row or key: its table and its key there. *)
Definition lock : Type := string * string.

Inductive sql : Type -> Type :=
| Begin : sql (option sql_error)
| Commit : sql (option sql_error)
| Rollback : sql unit
| Stmt {A : Type} (locks : DB -> list lock) (s : statement A) : sql (A + sql_error)
| RowsErr : sql (option sql_error)             (* rows.Err() after the loop *)
| SqlNow : sql Time
| SqlUUID : sql string.

Inductive tx_state : Type :=
| NoTx
| InTx (copy : DB)
| Aborted.

Record session := MkSession {
  ses_db : DB;
  ses_tx : tx_state;
  ses_nth : nat;              (* commands so far *)
}.

(** An outage: what the driver reports, and whether a commit it hit took
    effect all the same. *)
Record outage := MkOutage { out_msg : string; out_done : bool }.

Record surroundings := MkSurroundings {
  sur_outage : nat -> option outage;
  sur_clock : nat -> Time;
  sur_uuid : nat -> string;
}.

(** A statement that commits by itself. *)
Definition autocommit {A} (s : statement A) (o : option outage) (db : DB) : (A + sql_error) * DB :=
  match s db, o with
  | (inl a, db'), None => (inl a, db')
  | (inl _, db'), Some o => (inr (DriverError (out_msg o)), if out_done o then db' else db)
  | (inr e, _), None => (inr e, db)
  | (inr _, _), Some o => (inr (DriverError (out_msg o)), db)
  end.

Definition sql_handle (sur : surroundings) : handler sql session := fun X c w =>
  let n := ses_nth w in
  let db := ses_db w in
  let next := MkSession db (ses_tx w) (S n) in
  match c in sql X return X * session with
  | Begin =>
      match sur_outage sur n with
      | Some o => (Some (DriverError (out_msg o)), next)
      | None => (None, MkSession db (InTx db) (S n))
      end
  | Commit =>
      match ses_tx w, sur_outage sur n with
      | InTx copy, None => (None, MkSession copy NoTx (S n))
      | InTx copy, Some o => (Some (DriverError (out_msg o)), MkSession (if out_done o then copy else db) NoTx (S n))
      | _, _ => (Some (DriverError "commit unexpectedly resulted in rollback"), MkSession db NoTx (S n))
      end
  | Rollback => (tt, MkSession db NoTx (S n))
  | Stmt _ s =>
      match ses_tx w with
      | NoTx => let '(r, db') := autocommit s (sur_outage sur n) db in (r, MkSession db' NoTx (S n))
      | InTx copy =>
          match sur_outage sur n, s copy with
          | Some o, _ => (inr (DriverError (out_msg o)), MkSession db Aborted (S n))
          | None, (inl a, copy') => (inl a, MkSession db (InTx copy') (S n))
          | None, (inr e, _) => (inr e, MkSession db Aborted (S n))
          end
      | Aborted => (inr in_failed_transaction, next)
      end
  | RowsErr => (match sur_outage sur n with Some o => Some (DriverError (out_msg o)) | None => None end, next)
  | SqlNow => (sur_clock sur n, next)
  | SqlUUID => (sur_uuid sur n, next)
  end.

(** A method call: what is not committed when it returns is rolled back. *)
Definition sql_call {A} (sur : surroundings) (p : prog sql A) (db : DB) : A * DB :=
  let '(a, w) := run (sql_handle sur) p (MkSession db NoTx 0) in (a, ses_db w).

(** ** Any surroundings *)

(** What a command can answer and do, for a database and a transaction; with
    [outages], anything the surroundings may do, without it what happens on a
    connection that never fails. *)
Definition sql_spec (outages : bool) : cmd_spec sql (DB * tx_state) := fun X c w =>
  let '(db, tx) := w in
  match c in sql X return (X -> DB * tx_state -> Prop) -> Prop with
  | Begin => fun Q => (outages = true -> forall m, Q (Some (DriverError m)) (db, tx)) /\ Q None (db, InTx db)
  | Commit => fun Q =>
      match tx with
      | InTx copy => Q None (copy, NoTx) /\
          (outages = true -> forall m, Q (Some (DriverError m)) (copy, NoTx) /\ Q (Some (DriverError m)) (db, NoTx))
      | _ => forall m, Q (Some (DriverError m)) (db, NoTx)
      end
  | Rollback => fun Q => Q tt (db, NoTx)
  | Stmt _ s => fun Q =>
      match tx with
      | NoTx =>
          match s db with
          | (inl a, db') => Q (inl a) (db', NoTx) /\
              (outages = true -> forall m, Q (inr (DriverError m)) (db', NoTx) /\ Q (inr (DriverError m)) (db, NoTx))
          | (inr e, _) => Q (inr e) (db, NoTx) /\ (outages = true -> forall m, Q (inr (DriverError m)) (db, NoTx))
          end
      | InTx copy =>
          (outages = true -> forall m, Q (inr (DriverError m)) (db, Aborted)) /\
          match s copy with
          | (inl a, copy') => Q (inl a) (db, InTx copy')
          | (inr e, _) => Q (inr e) (db, Aborted)
          end
      | Aborted => Q (inr in_failed_transaction) (db, Aborted)
      end
  | RowsErr => fun Q => (outages = true -> forall m, Q (Some (DriverError m)) (db, tx)) /\ Q None (db, tx)
  | SqlNow => fun Q => forall t, Q t (db, tx)
  | SqlUUID => fun Q => forall id, Q id (db, tx)
  end.

#[global] Instance sql_spec_mono outages : MonotoneSpec (sql_spec outages).
Proof.
  intros X c [db tx] P Q HPQ. destruct c; simpl; try naive_solver.
  - destruct tx; naive_solver.
  - destruct tx as [|copy|]; [destruct (s db) as [[a|e] db']|destruct (s copy) as [[a|e] copy']|]; naive_solver.
Qed.

Definition no_outage (sur : surroundings) : Prop := forall n, sur_outage sur n = None.

Lemma sql_spec_sound outages sur : outages = true \/ no_outage sur ->
  spec_sound (sql_spec outages) (sql_handle sur) (fun w g => g = (ses_db w, ses_tx w)).
Proof.
  intros Hsur X c w g Q -> Hspec. eexists. split; [reflexivity|]. destruct w as [db tx n]. simpl in Hspec.
  assert (forall o, sur_outage sur n = Some o -> outages = true) as Hout
    by (intros o Ho; destruct Hsur as [?|Hno]; [done|]; by rewrite Hno in Ho).
  destruct c; simpl; try (by apply Hspec); try (destruct (sur_outage sur n); simpl; naive_solver).
  - destruct tx, (sur_outage sur n) as [o|]; simpl; try naive_solver. destruct (out_done o); naive_solver.
  - destruct tx as [|copy|].
    + unfold autocommit. destruct (s db) as [[a|e] db'], (sur_outage sur n) as [o|]; simpl; try naive_solver.
      destruct (out_done o); naive_solver.
    + destruct (s copy) as [[a|e] copy'], (sur_outage sur n) as [o|]; simpl; naive_solver.
    + done.
Qed.

(** A method call. *)
Lemma sql_call_spec {A} outages sur (p : prog sql A) db (Q : A -> DB -> Prop) :
  outages = true \/ no_outage sur ->
  wp (sql_spec outages) p (db, NoTx) (fun a w => Q a w.1) -> Q (sql_call sur p db).1 (sql_call sur p db).2.
Proof.
  intros Hsur Hwp. unfold sql_call.
  destruct (wp_run _ _ _ _ _ (sql_spec_sound outages sur Hsur) (MkSession db NoTx 0) _ eq_refl Hwp) as (g & -> & HQ).
  by destruct (run _ p _).
Qed.
End Sessions.

Arguments sql DB _ : clear implicits.
Arguments statement DB A : clear implicits.
Arguments session DB : clear implicits.
Arguments tx_state DB : clear implicits.

Abbreviation SQL DB := (prog (sql DB)).

Definition no_locks {DB : Type} (db : DB) : list lock := [].

(** A statement that changes nothing. *)
Definition query {DB A} (f : DB -> A) : statement DB A := fun db => (inl (f db), db).

(** The surroundings without outages. *)
Definition calm_surroundings (now : Time) (id : string) : surroundings :=
  MkSurroundings (fun _ => None) (fun _ => now) (fun _ => id).

Lemma surjective_pair_eq {A B} (p : A * B) a b : p.1 = a /\ p.2 = b -> p = (a, b).
Proof. destruct p. simpl. by intros [-> ->]. Qed.

(** ** Rules *)

Section Rules.
Context {DB : Type} {outages : bool}.
Implicit Types (db copy : DB).

Lemma wp_begin {B} (k : option sql_error -> SQL DB B) Q db :
  (outages = true -> forall m, wp (sql_spec outages) (k (Some (DriverError m))) (db, NoTx) Q) ->
  wp (sql_spec outages) (k None) (db, InTx db) Q -> wp (sql_spec outages) (call Begin ≫= k) (db, NoTx) Q.
Proof. by split. Qed.

Lemma wp_commit {B} (k : option sql_error -> SQL DB B) Q db copy :
  wp (sql_spec outages) (k None) (copy, NoTx) Q ->
  (outages = true -> forall m, wp (sql_spec outages) (k (Some (DriverError m))) (copy, NoTx) Q) ->
  (outages = true -> forall m, wp (sql_spec outages) (k (Some (DriverError m))) (db, NoTx) Q) ->
  wp (sql_spec outages) (call Commit ≫= k) (db, InTx copy) Q.
Proof. intros H1 H2 H3. split; [exact H1|]. intros Ho m. split; [by apply H2|by apply H3]. Qed.

(** A statement in a transaction: an error of either kind aborts it. *)
Lemma wp_stmt_tx {A B} locks (s : statement DB A) (k : A + sql_error -> SQL DB B) Q db copy :
  (forall e, (outages = true /\ exists m, e = DriverError m) \/ fst (s copy) = inr e -> wp (sql_spec outages) (k (inr e)) (db, Aborted) Q) ->
  (forall a copy', s copy = (inl a, copy') -> wp (sql_spec outages) (k (inl a)) (db, InTx copy') Q) ->
  wp (sql_spec outages) (call (Stmt locks s) ≫= k) (db, InTx copy) Q.
Proof.
  intros He Hok. apply wp_call. split; [intros Ho m; apply He; eauto|].
  destruct (s copy) as [[a|e] copy']; [by apply Hok|]. apply He. by right.
Qed.

Lemma wp_query_tx {A B} locks (f : DB -> A) (k : A + sql_error -> SQL DB B) Q db copy :
  (outages = true -> forall m, wp (sql_spec outages) (k (inr (DriverError m))) (db, Aborted) Q) ->
  wp (sql_spec outages) (k (inl (f copy))) (db, InTx copy) Q ->
  wp (sql_spec outages) (call (Stmt locks (query f)) ≫= k) (db, InTx copy) Q.
Proof. by split. Qed.

(** A statement outside transactions: it may take effect although the driver
    reports an error. *)
Lemma wp_stmt {A B} locks (s : statement DB A) (k : A + sql_error -> SQL DB B) Q db :
  (outages = true -> forall m, wp (sql_spec outages) (k (inr (DriverError m))) (db, NoTx) Q) ->
  (forall e, fst (s db) = inr e -> wp (sql_spec outages) (k (inr e)) (db, NoTx) Q) ->
  (forall a db', s db = (inl a, db') -> wp (sql_spec outages) (k (inl a)) (db', NoTx) Q /\
     (outages = true -> forall m, wp (sql_spec outages) (k (inr (DriverError m))) (db', NoTx) Q)) ->
  wp (sql_spec outages) (call (Stmt locks s) ≫= k) (db, NoTx) Q.
Proof.
  intros Hm He Hok. apply wp_call. unfold sql_spec. destruct (s db) as [[a|e] db'].
  - destruct (Hok a db' eq_refl) as [H1 H2]. split; [exact H1|]. intros Ho m. split; [by apply H2|by apply Hm].
  - split; [by apply He|done].
Qed.

Lemma wp_query {A B} locks (f : DB -> A) (k : A + sql_error -> SQL DB B) Q db :
  (outages = true -> forall m, wp (sql_spec outages) (k (inr (DriverError m))) (db, NoTx) Q) ->
  wp (sql_spec outages) (k (inl (f db))) (db, NoTx) Q ->
  wp (sql_spec outages) (call (Stmt locks (query f)) ≫= k) (db, NoTx) Q.
Proof. intros H1 H2. split; [exact H2|]. intros Ho m. split; by apply H1. Qed.

Lemma wp_rows_err {B} (k : option sql_error -> SQL DB B) Q w :
  (outages = true -> forall m, wp (sql_spec outages) (k (Some (DriverError m))) w Q) -> wp (sql_spec outages) (k None) w Q ->
  wp (sql_spec outages) (call RowsErr ≫= k) w Q.
Proof. destruct w. by split. Qed.

Lemma wp_sql_now {B} (k : Time -> SQL DB B) Q w :
  (forall t, wp (sql_spec outages) (k t) w Q) -> wp (sql_spec outages) (call SqlNow ≫= k) w Q.
Proof. by destruct w. Qed.
End Rules.
