(* ===== verification/PgSchema.v ===== *)
(** * The tables of src/internal/storage/postgres/sql/migrations

    Migrations 0001 and 0002 (orders, items, timeline, outbox, idempotency
    keys) and 0003 and 0004 (couriers).  A table with a primary key is a map
    from the key to the row; the timeline has a serial number. *)

From S2P Require Import Prelude GoLib Domain Courier.

(** ** 0001_init.up.sql, 0002_idempotency_keys.up.sql *)

Record order_row := MkOrderRow {
  or_id : string;
  or_customer_id : string;
  or_status : string;
  or_currency : string;
  or_amount_minor : Z;
  or_version : Z;
  or_created_at : Time;
  or_updated_at : Time;
}.

Record item_row := MkItemRow {
  ir_id : string;
  ir_order_id : string;         (* references orders *)
  ir_sku : string;
  ir_qty : Z;
  ir_price_minor : Z;
  ir_created_at : Time;
}.

Record timeline_row := MkTimelineRow {
  tr_id : Z;                    (* BIGSERIAL *)
  tr_order_id : string;         (* references orders *)
  tr_type : string;
  tr_reason : string;
  tr_occurred : Time;
}.

Record outbox_row := MkOutboxRow {
  ob_id : string;
  ob_aggregate_type : string;
  ob_aggregate_id : string;
  ob_event_type : string;
  ob_payload : bytes;
  ob_status : string;
  ob_attempt_count : Z;
  ob_created_at : Time;
  ob_updated_at : Time;
}.

Record idempotency_row := MkIdempotencyRow {
  ik_key : string;
  ik_request_hash : string;
  ik_response_body : option bytes;
  ik_http_status : option Z;
  ik_status : string;
  ik_ttl_at : Time;
  ik_created_at : Time;
  ik_updated_at : Time;
}.

Record database := MkDatabase {
  tb_orders : gmap string order_row;
  tb_order_items : gmap string item_row;
  tb_timeline : list timeline_row;     (* oldest first *)
  tb_timeline_seq : Z;                 (* the last serial number *)
  tb_outbox : gmap string outbox_row;
  tb_idempotency : gmap string idempotency_row;
}.

Definition set_orders (t : gmap string order_row) (db : database) : database :=
  MkDatabase t (tb_order_items db) (tb_timeline db) (tb_timeline_seq db) (tb_outbox db) (tb_idempotency db).
Definition set_order_items (t : gmap string item_row) (db : database) : database :=
  MkDatabase (tb_orders db) t (tb_timeline db) (tb_timeline_seq db) (tb_outbox db) (tb_idempotency db).
Definition set_timeline (t : list timeline_row) (seq : Z) (db : database) : database :=
  MkDatabase (tb_orders db) (tb_order_items db) t seq (tb_outbox db) (tb_idempotency db).
Definition set_outbox (t : gmap string outbox_row) (db : database) : database :=
  MkDatabase (tb_orders db) (tb_order_items db) (tb_timeline db) (tb_timeline_seq db) t (tb_idempotency db).
Definition set_idempotency (t : gmap string idempotency_row) (db : database) : database :=
  MkDatabase (tb_orders db) (tb_order_items db) (tb_timeline db) (tb_timeline_seq db) (tb_outbox db) t.

Definition empty_database : database := MkDatabase ∅ ∅ [] 0 ∅ ∅.

(** ** 0003_delivery_foundation.up.sql, 0004_courier_ratings.up.sql *)

Record courier_row := MkCourierRow {
  cr_id : string;
  cr_phone : string;              (* couriers_phone_key *)
  cr_first_name : string;
  cr_last_name : string;
  cr_vehicle_type : string;
  cr_is_active : bool;
  cr_created_at : Time;
  cr_updated_at : Time;
}.

Record zone_row := MkZoneRow {
  zr_courier_id : string;         (* references couriers *)
  zr_zone_id : string;
  zr_is_primary : bool;
  zr_created_at : Time;
}.

Record slot_row := MkSlotRow {
  sr_id : string;
  sr_courier_id : string;         (* references couriers *)
  sr_slot_start : Time;
  sr_slot_end : Time;
  sr_duration_hours : Z;
  sr_status : string;
  sr_created_at : Time;
  sr_updated_at : Time;
}.

Record capability_row := MkCapabilityRow {
  vr_vehicle_type : string;
  vr_max_weight_grams : Z;
  vr_max_volume_cm3 : Z;
  vr_max_orders_per_trip : Z;
  vr_updated_at : Time;
}.

Record rating_row := MkRatingRow {
  rr_id : string;
  rr_courier_id : string;         (* references couriers *)
  rr_score : Z;
  rr_tags : list string;          (* the elements of the JSONB array *)
  rr_comment : string;
  rr_created_at : Time;
}.

(** The zones have the primary key (courier_id, zone_id). *)
Record courier_database := MkCourierDatabase {
  tb_couriers : gmap string courier_row;
  tb_zones : gmap (string * string) zone_row;
  tb_slots : gmap string slot_row;
  tb_capabilities : gmap string capability_row;
  tb_ratings : gmap string rating_row;
}.

(** The rows migration 0003 inserts, at the time [now]. *)
Definition seeded_capabilities (now : Time) : gmap string capability_row :=
  list_to_map (map (fun r => (vr_vehicle_type r, r))
    [MkCapabilityRow "scooter" 5000 35000 2 now;
     MkCapabilityRow "bike" 10000 65000 3 now;
     MkCapabilityRow "car" 25000 250000 10 now]).

Definition empty_courier_database (now : Time) : courier_database :=
  MkCourierDatabase ∅ ∅ ∅ (seeded_capabilities now) ∅.

Definition put_couriers (t : gmap string courier_row) (db : courier_database) : courier_database :=
  MkCourierDatabase t (tb_zones db) (tb_slots db) (tb_capabilities db) (tb_ratings db).
Definition put_zones (t : gmap (string * string) zone_row) (db : courier_database) : courier_database :=
  MkCourierDatabase (tb_couriers db) t (tb_slots db) (tb_capabilities db) (tb_ratings db).
Definition put_slots (t : gmap string slot_row) (db : courier_database) : courier_database :=
  MkCourierDatabase (tb_couriers db) (tb_zones db) t (tb_capabilities db) (tb_ratings db).
Definition put_ratings (t : gmap string rating_row) (db : courier_database) : courier_database :=
  MkCourierDatabase (tb_couriers db) (tb_zones db) (tb_slots db) (tb_capabilities db) t.

(** The CHECK constraints of the courier tables. *)
Definition vehicle_type_check (v : string) : bool := (v =s? "scooter") || (v =s? "bike") || (v =s? "car").
Definition duration_hours_check (n : Z) : bool := (n =? 4) || (n =? 8) || (n =? 12).
Definition slot_status_check (s : string) : bool :=
  (s =s? "planned") || (s =s? "active") || (s =s? "completed") || (s =s? "canceled").
Definition slot_range_check (r : slot_row) : bool := sr_slot_start r <? sr_slot_end r.
Definition score_check (n : Z) : bool := (1 <=? n) && (n <=? 5).
