(* ===== verification/PgOrders.v ===== *)
(** * Orders in PostgreSQL: src/internal/storage/postgres/order_repository.go

    The methods of the repository as SQL programs, and that they keep the
    contract of [OrderRepository], whatever outages they meet. *)

From S2P Require Import Prelude GoLib Domain OrderStore Prog Postgres Courier PgSchema.

Module PgOrders.

Abbreviation DBM := (SQL database).

Section Repository.
Context {pg : Postgres}.

(** ** Statements *)

Definition insert_order (o : Order) : statement database unit := fun db =>
  if negb (fits_bigint (Order_AmountMinor o) && fits_bigint (Order_Version o)) then (inr numeric_out_of_range, db)
  else
  match tb_orders db !! Order_ID o with
  | Some _ => (inr (unique_violation "orders_pkey"), db)
  | None =>
      (inl tt, set_orders (<[Order_ID o :=
         MkOrderRow (Order_ID o) (Order_CustomerID o) (Order_Status o) (Order_Currency o) (Order_AmountMinor o)
           (Order_Version o) (pg_time (Order_CreatedAt o)) (pg_time (Order_UpdatedAt o))]> (tb_orders db)) db)
  end.

Definition insert_item (orderID : string) (i : OrderItem) : statement database unit := fun db =>
  if negb (fits_integer (OrderItem_Qty i) && fits_bigint (OrderItem_PriceMinor i)) then (inr numeric_out_of_range, db)
  else
  match tb_order_items db !! OrderItem_ID i, tb_orders db !! orderID with
  | Some _, _ => (inr (unique_violation "order_items_pkey"), db)
  | None, None => (inr (foreign_key_violation "order_items_order_id_fkey"), db)
  | None, Some _ =>
      (inl tt, set_order_items (<[OrderItem_ID i :=
         MkItemRow (OrderItem_ID i) orderID (OrderItem_SKU i) (OrderItem_Qty i) (OrderItem_PriceMinor i)
           (pg_time (OrderItem_CreatedAt i))]> (tb_order_items db)) db)
  end.

(** The number of rows that were updated. *)
Definition update_order (o : Order) : statement database Z := fun db =>
  if negb (fits_bigint (Order_AmountMinor o)) then (inr numeric_out_of_range, db)
  else
  match tb_orders db !! Order_ID o with
  | Some row =>
      if or_version row =? Order_Version o then
        if negb (fits_bigint (or_version row + 1)) then (inr numeric_out_of_range, db)
        else (inl 1, set_orders (<[Order_ID o :=
               MkOrderRow (or_id row) (Order_CustomerID o) (Order_Status o) (Order_Currency o) (Order_AmountMinor o)
                 (or_version row + 1) (or_created_at row) (pg_time (Order_UpdatedAt o))]> (tb_orders db)) db)
      else (inl 0, db)
  | None => (inl 0, db)
  end.

(** The row it locks. *)
Definition updated_order (o : Order) (db : database) : list lock :=
  match tb_orders db !! Order_ID o with
  | Some row => if or_version row =? Order_Version o then [("orders", Order_ID o)] else []
  | None => []
  end.

Definition item_less (a b : item_row) : bool := less_by collate_lt ir_created_at ir_id a b.

Definition of_order (id : string) (r : item_row) : bool := ir_order_id r =s? id.

Definition select_items (orderID : string) (db : database) : list item_row :=
  order_by item_less (select_rows (of_order orderID) (tb_order_items db)).

(** Newest first. *)
Definition order_less (a b : order_row) : bool := less_by collate_lt or_created_at or_id b a.

Definition select_orders (customerID : string) (db : database) : list order_row :=
  order_by order_less (select_rows (fun r => or_customer_id r =s? customerID) (tb_orders db)).

(** ** Methods *)

Definition item_of (r : item_row) : OrderItem :=
  MkOrderItem (ir_id r) (ir_sku r) (ir_qty r) (ir_price_minor r) (ir_created_at r).

Definition order_of (r : order_row) (items : list OrderItem) : Order :=
  MkOrder (or_id r) (or_customer_id r) (or_status r) (or_currency r) (or_amount_minor r) items
    (or_version r) (or_created_at r) (or_updated_at r).

Fixpoint insert_items (orderID : string) (items : list OrderItem) : DBM (option sql_error) :=
  match items with
  | [] => mret None
  | item :: items =>
      inserted ← call (Stmt (fun _ => [("order_items", OrderItem_ID item)]) (insert_item orderID item));
      match inserted with
      | inr e => mret (Some e)
      | inl _ => insert_items orderID items
      end
  end.

Definition Create (order : Order) : DBM (result unit) :=
  begun ← call Begin;
  match begun with
  | Some e => mret (Err (ErrWrap "begin tx" (sql_err e)))
  | None =>
      inserted ← call (Stmt (fun _ => [("orders", Order_ID order)]) (insert_order order));
      match inserted with
      | inr e =>
          call Rollback;;
          mret (Err (if isUniqueViolation e then ErrOrderVersionConflict else ErrWrap "insert order" (sql_err e)))
      | inl _ =>
          failed ← insert_items (Order_ID order) (Order_Items order);
          match failed with
          | Some e => call Rollback;; mret (Err (ErrWrap "insert order item" (sql_err e)))
          | None =>
              committed ← call Commit;
              match committed with
              | Some e => call Rollback;; mret (Err (ErrWrap "commit create order" (sql_err e)))
              | None => mret (Ok tt)
              end
          end
      end
  end.

Definition loadItems (orderID : string) : DBM (result (list OrderItem)) :=
  rows ← call (Stmt no_locks (query (select_items orderID)));
  match rows with
  | inr e => mret (Err (ErrWrap "load order items" (sql_err e)))
  | inl rows =>
      failed ← call RowsErr;
      mret (match failed with
            | Some e => Err (ErrWrap "iterate order items" (sql_err e))
            | None => Ok (map item_of rows)
            end)
  end.

Definition Get (id : string) : DBM (result Order) :=
  row ← call (Stmt no_locks (query (fun db => tb_orders db !! id)));
  match row with
  | inr e => mret (Err (ErrWrap "select order" (sql_err e)))
  | inl None => mret (Err ErrOrderNotFound)
  | inl (Some row) =>
      items ← loadItems (or_id row);
      mret (match items with
            | Err e => Err e
            | Ok items => Ok (order_of row items)
            end)
  end.

Fixpoint load_orders (rows : list order_row) (orders : list Order) : DBM (result (list Order)) :=
  match rows with
  | [] =>
      failed ← call RowsErr;
      mret (match failed with
            | Some e => Err (ErrWrap "iterate order rows" (sql_err e))
            | None => Ok orders
            end)
  | row :: rows =>
      items ← loadItems (or_id row);
      match items with
      | Err e => mret (Err e)
      | Ok items => load_orders rows (orders ++ [order_of row items])
      end
  end.

Definition ListByCustomer (customerID : string) (limit : Z) : DBM (result (list Order)) :=
  rows ← call (Stmt no_locks (query (fun db =>
    let rows := select_orders customerID db in if limit >? 0 then limit_rows limit rows else rows)));
  match rows with
  | inr e => mret (Err (ErrWrap "list orders" (sql_err e)))
  | inl rows => load_orders rows []
  end.

(** On the two error answers after an update of no row [err] of the method is
    nil, so the deferred function does not roll back; the transaction ends with
    the method's context. *)
Definition Save (order : Order) : DBM (result unit) :=
  begun ← call Begin;
  match begun with
  | Some e => mret (Err (ErrWrap "begin tx" (sql_err e)))
  | None =>
      affected ← call (Stmt (updated_order order) (update_order order));
      match affected with
      | inr e => call Rollback;; mret (Err (ErrWrap "update order" (sql_err e)))
      | inl affected =>
          if affected =? 0 then
            found ← call (Stmt no_locks (query (fun db => tb_orders db !! Order_ID order)));
            match found with
            | inr e => mret (Err (ErrWrap "check order exists" (sql_err e)))
            | inl None => mret (Err ErrOrderNotFound)
            | inl (Some _) => mret (Err ErrOrderVersionConflict)
            end
          else
            committed ← call Commit;
            match committed with
            | Some e => call Rollback;; mret (Err (ErrWrap "commit save order" (sql_err e)))
            | None => mret (Ok tt)
            end
      end
  end.

(** The repository; the [n]-th call has its own surroundings. *)
#[global] Instance repository (sur : nat -> surroundings) : OrderRepository database := {
  repo_Create := fun n o => sql_call (sur n) (Create o);
  repo_Get := fun n id db => (sql_call (sur n) (Get id) db).1;
  repo_ListByCustomer := fun n c limit db => (sql_call (sur n) (ListByCustomer c limit) db).1;
  repo_Save := fun n o => sql_call (sur n) (Save o);
}.
End Repository.

(** ** What the tables hold *)

Section Contract.
Context {pg : Postgres} {laws : PostgresLaws pg}.

Record tables_ok (db : database) : Prop := MkTablesOk {
  ok_order_key : forall k r, tb_orders db !! k = Some r -> or_id r = k;
  ok_item_key : forall k r, tb_order_items db !! k = Some r -> ir_id r = k;
  ok_item_order : forall k r, tb_order_items db !! k = Some r -> is_Some (tb_orders db !! ir_order_id r);
}.

Lemma tables_ok_empty : tables_ok empty_database.
Proof. split; simpl; intros k r H; by apply lookup_empty_Some in H. Qed.

Definition stored (db : database) (r : order_row) : Order := order_of r (map item_of (select_items (or_id r) db)).

Definition stored_orders (db : database) : gmap string Order := stored db <$> tb_orders db.

Lemma item_less_weak : StrictWeak item_less.
Proof. apply (less_by_weak collate_lt). Qed.

Lemma items_separate db : tables_ok db -> forall p x y,
  x ∈ select_rows p (tb_order_items db) -> y ∈ select_rows p (tb_order_items db) ->
  item_less x y = false -> item_less y x = false -> x = y.
Proof.
  intros Hok p x y. rewrite !elem_of_select_rows. intros (_ & k & Hk) (_ & k' & Hk') H1 H2.
  assert (ir_id x = ir_id y) as Hid by (by apply (less_by_separates collate_lt ir_created_at)).
  rewrite (ok_item_key _ Hok _ _ Hk), (ok_item_key _ Hok _ _ Hk') in Hid. congruence.
Qed.

(** The items of an order, from tables with the same rows for it. *)
Lemma select_items_eq db db' id : tables_ok db ->
  select_rows (of_order id) (tb_order_items db) ≡ₚ
    select_rows (of_order id) (tb_order_items db') ->
  select_items id db = select_items id db'.
Proof.
  intros Hok Hp. unfold select_items. apply order_by_unique; [apply item_less_weak| |done].
  intros x y. by apply items_separate.
Qed.

Definition item_rows (id : string) (items : list OrderItem) : list item_row :=
  map (fun i => MkItemRow (OrderItem_ID i) id (OrderItem_SKU i) (OrderItem_Qty i) (OrderItem_PriceMinor i)
                  (pg_time (OrderItem_CreatedAt i))) items.

(** [c'] is [c] with the items. *)
Record items_added (id : string) (items : list OrderItem) (c c' : database) : Prop := MkItemsAdded {
  added_ok : tables_ok c';
  added_orders : tb_orders c' = tb_orders c;
  added_rows : select_rows (of_order id) (tb_order_items c') ≡ₚ
    item_rows id items ++ select_rows (of_order id) (tb_order_items c);
  added_others : forall id', id' <> id ->
    select_rows (of_order id') (tb_order_items c') ≡ₚ select_rows (of_order id') (tb_order_items c);
}.

Lemma insert_item_ok id i c c' : tables_ok c -> insert_item id i c = (inl tt, c') -> items_added id [i] c c'.
Proof.
  intros [Hk Hik Hio]. unfold insert_item. destruct (negb _); [done|].
  destruct (tb_order_items c !! OrderItem_ID i) eqn:Hi, (tb_orders c !! id) eqn:Ho; try done. intros [= <-].
  split; simpl; [|done| |].
  - split; simpl; [done|..]; intros k r; rewrite lookup_insert_Some; intros [[<- <-]|[_ H]]; simpl; eauto.
  - rewrite (select_rows_insert _ _ _ _ Hi). unfold of_order at 1. simpl. by rewrite String.eqb_refl.
  - intros id' Hne. rewrite (select_rows_insert _ _ _ _ Hi). unfold of_order at 1. simpl.
    by rewrite (proj2 (String.eqb_neq _ _) (not_eq_sym Hne)).
Qed.

Lemma insert_items_spec id items db : forall c, tables_ok c ->
  wp (sql_spec true) (insert_items id items) (db, InTx c) (fun r w => w.1 = db /\
    (r = None -> exists c', w.2 = InTx c' /\ items_added id items c c')).
Proof.
  induction items as [|i items IH]; intros c Hc; cbn [insert_items].
  { split; [done|]. intros _. exists c. split; [done|]. by split. }
  apply wp_call. split; [done|]. destruct (insert_item id i c) as [[[]|e] c1] eqn:E; [|done].
  destruct (insert_item_ok _ _ _ _ Hc E) as [H1 H2 H3 H4].
  eapply wp_mono; [apply _| |apply (IH c1 H1)]. intros r w [Hw Hr]. split; [done|]. intros Hn.
  destruct (Hr Hn) as (c' & Hc' & [G1 G2 G3 G4]). exists c'. split; [done|]. split; [done|congruence|..].
  - rewrite G3, H3. simpl. by rewrite Permutation_middle.
  - intros id' Hne. by rewrite (G4 _ Hne), (H4 _ Hne).
Qed.

(** ** Create *)

Lemma item_rows_back id items : exists its, its ≡ₚ items /\
  Forall2 same_item its (map item_of (order_by item_less (item_rows id items))).
Proof.
  set (l := order_by item_less (item_rows id items)).
  assert (l ≡ₚ item_rows id items) as Hp by apply order_by_perm. clearbody l. unfold item_rows in Hp.
  apply Permutation_map_inv in Hp as (its & -> & Hp). exists its. split; [by symmetry|].
  rewrite map_map. clear Hp. induction its as [|i its IH]; simpl; [constructor|]. by constructor.
Qed.

(** An order enters the tables. *)
Lemma stored_orders_create o db c c' : tables_ok db ->
  insert_order o db = (inl tt, c) -> items_added (Order_ID o) (Order_Items o) c c' ->
  stored_orders db !! Order_ID o = None /\
  exists o', read_back o o' /\ stored_orders c' = <[Order_ID o := o']> (stored_orders db).
Proof.
  intros Hok Hi [H1 H2 H3 H4]. unfold insert_order in Hi. destruct (negb _); [done|].
  destruct (tb_orders db !! Order_ID o) eqn:Hnone; [done|]. injection Hi as <-. simpl in *.
  assert (select_rows (of_order (Order_ID o)) (tb_order_items db) = []) as Hno.
  { destruct (select_rows (of_order (Order_ID o)) (tb_order_items db)) as [|r l] eqn:E; [reflexivity|].
    assert (r ∈ select_rows (of_order (Order_ID o)) (tb_order_items db)) as Hr by (rewrite E; by constructor).
    apply elem_of_select_rows in Hr as [Hr (k & Hk)]. apply String.eqb_eq in Hr.
    destruct (ok_item_order _ Hok _ _ Hk) as [? Hx]. congruence. }
  unfold stored_orders at 1. rewrite lookup_fmap, Hnone. split; [done|].
  set (row := MkOrderRow _ _ _ _ _ _ _ _) in *.
  exists (stored c' row). split.
  - split; try done. simpl. unfold select_items. rewrite Hno, app_nil_r in H3.
    rewrite (order_by_unique item_less _ _ item_less_weak (fun x y => items_separate _ H1 _ x y) H3).
    apply item_rows_back.
  - unfold stored_orders. rewrite H2, fmap_insert. f_equal. apply map_fmap_ext. intros k r Hr. unfold stored.
    f_equal. f_equal. apply select_items_eq; [done|]. apply H4. rewrite (ok_order_key _ Hok _ _ Hr).
    intros ->. congruence.
Qed.

Lemma insert_order_tables o db c : tables_ok db -> insert_order o db = (inl tt, c) -> tables_ok c.
Proof.
  intros [Hk Hik Hio]. unfold insert_order. destruct (negb _); [done|]. destruct (tb_orders db !! Order_ID o) eqn:Hnone; [done|]. intros [= <-].
  split; simpl; [|done|].
  - intros k r. rewrite lookup_insert_Some. intros [[<- <-]|[_ H]]; eauto.
  - intros k r Hr. destruct (Hio _ _ Hr) as [x Hx]. rewrite lookup_insert. case_decide; eauto.
Qed.

Definition create_effect (o : Order) (db : database) (r : result unit) (db' : database) : Prop :=
  tables_ok db' /\
  ((r <> Ok tt /\ db' = db) \/
   (stored_orders db !! Order_ID o = None /\
    exists o', read_back o o' /\ stored_orders db' = <[Order_ID o := o']> (stored_orders db))).

Lemma Create_spec o db : tables_ok db ->
  wp (sql_spec true) (Create o) (db, NoTx) (fun r w => create_effect o db r w.1).
Proof.
  intros Hok. unfold Create. apply wp_call. split; [intros _ m; split; [done|by left]|].
  apply wp_call. split; [intros _ m; split; [done|by left]|].
  destruct (insert_order o db) as [[[]|e] c] eqn:E; [|split; [done|by left]].
  eapply wp_seq; [apply _|apply insert_items_spec; by eapply insert_order_tables|].
  intros r [d tx] [Hd Hr]. simpl in Hd. subst d. destruct r as [e|]; [split; [done|by left]|].
  destruct (Hr eq_refl) as (c' & Htx & Hadd). simpl in Htx. subst tx. apply wp_call.
  pose proof (stored_orders_create o db c c' Hok E Hadd) as Hcr. pose proof (added_ok _ _ _ _ Hadd).
  split; [split; [done|by right]|]. intros _ m. split; (split; [done|]); [by right|by left].
Qed.

(** ** Get *)

(** What a reading method answers: [exact], or an error when there are outages. *)
Definition answers {A} (outages : bool) (exact r : result A) : Prop :=
  r = exact \/ (outages = true /\ exists e, r = Err e).

Lemma answers_exact {A} outages (r : result A) : answers outages r r.
Proof. by left. Qed.

Lemma answers_err {A} (r : result A) e : answers true r (Err e).
Proof. right. eauto. Qed.

Lemma loadItems_spec outages id db : wp (sql_spec outages) (loadItems id) (db, NoTx)
  (fun r w => w = (db, NoTx) /\ answers outages (Ok (map item_of (select_items id db))) r).
Proof.
  unfold loadItems. apply wp_query; [intros -> m; split; [done|apply answers_err]|].
  apply wp_rows_err; [intros -> m; split; [done|apply answers_err]|]. split; [done|apply answers_exact].
Qed.

Lemma Get_spec outages id db : wp (sql_spec outages) (Get id) (db, NoTx)
  (fun r w => w.1 = db /\ answers outages (MemoryOrders.Get id (stored_orders db)) r).
Proof.
  unfold Get, MemoryOrders.Get, stored_orders. rewrite lookup_fmap.
  apply wp_query; [intros -> m; split; [done|apply answers_err]|].
  destruct (tb_orders db !! id) as [row|] eqn:E; [|split; [done|apply answers_exact]].
  eapply wp_seq; [apply _|apply loadItems_spec|]. intros r w [-> [->|[-> [e ->]]]]; (split; [done|]);
    [apply answers_exact|apply answers_err].
Qed.

(** ** ListByCustomer *)

Lemma load_orders_spec outages db rows : forall acc, wp (sql_spec outages) (load_orders rows acc) (db, NoTx)
  (fun r w => w.1 = db /\ answers outages (Ok (acc ++ map (stored db) rows)) r).
Proof.
  induction rows as [|row rows IH]; intros acc; cbn [load_orders].
  - apply wp_rows_err; [intros -> m; split; [done|apply answers_err]|].
    rewrite app_nil_r. split; [done|apply answers_exact].
  - eapply wp_seq; [apply _|apply loadItems_spec|]. intros r w [-> [->|[-> [e ->]]]];
      [|split; [done|apply answers_err]].
    eapply wp_mono; [apply _| |apply IH]. intros r w. rewrite <- app_assoc. done.
Qed.

(** The listing of the rows, as orders. *)
Definition pg_listing (c : string) (limit : Z) (db : database) : list Order :=
  let rows := select_orders c db in map (stored db) (if limit >? 0 then limit_rows limit rows else rows).

Lemma ListByCustomer_spec outages c limit db : wp (sql_spec outages) (ListByCustomer c limit) (db, NoTx)
  (fun r w => w.1 = db /\ answers outages (Ok (pg_listing c limit db)) r).
Proof.
  unfold ListByCustomer. apply wp_query; [intros -> m; split; [done|apply answers_err]|]. apply load_orders_spec.
Qed.

(** ** Save *)

Lemma update_order_tables o db n db' : tables_ok db -> update_order o db = (inl n, db') -> tables_ok db'.
Proof.
  intros Hok. unfold update_order. destruct (negb _); [done|]. destruct (tb_orders db !! Order_ID o) as [row|] eqn:E; [|naive_solver].
  destruct (_ =? _); [|naive_solver]. destruct (negb _); [done|]. intros [= <- <-].
  destruct Hok as [Hk Hik Hio]. split; simpl; [|done|].
  - intros k r. rewrite lookup_insert_Some. intros [[<- <-]|[_ H]]; [|eauto]. simpl. by apply Hk.
  - intros k r Hr. destruct (Hio _ _ Hr) as [x Hx]. rewrite lookup_insert. case_decide; eauto.
Qed.

Lemma update_order_zero o db db' : update_order o db = (inl 0, db') -> db' = db.
Proof. unfold update_order. repeat case_match; naive_solver. Qed.

Lemma stored_orders_save o db n db' : tables_ok db -> update_order o db = (inl n, db') -> n <> 0 ->
  exists cur, stored_orders db !! Order_ID o = Some cur /\ Order_Version cur = Order_Version o /\
    stored_orders db' = <[Order_ID o := saved_as (keeping cur o) (pg_time (Order_UpdatedAt o))]> (stored_orders db).
Proof.
  intros Hok. unfold update_order. destruct (negb _); [done|]. destruct (tb_orders db !! Order_ID o) as [row|] eqn:E; [|naive_solver].
  destruct (Z.eqb_spec (or_version row) (Order_Version o)) as [Hv|]; [|naive_solver].
  destruct (fits_bigint (or_version row + 1)) eqn:Hfit; simpl; [|done]. intros [= <- <-] _.
  exists (stored db row). unfold stored_orders at 1. rewrite lookup_fmap, E. do 2 (split; [done|]).
  unfold stored_orders. simpl. rewrite fmap_insert. f_equal.
  unfold fits_bigint in Hfit. apply andb_true_iff in Hfit as [H1%Z.leb_le H2%Z.leb_le].
  unfold stored, saved_as, keeping, order_of, set_status, set_version. simpl.
  rewrite (ok_order_key _ Hok _ _ E) in *. rewrite <- Hv. by rewrite wrap64_id.
Qed.

(** A save writes the customer, the status, the currency, the amount, the update
    time and the next version; the items and the creation time stay. *)
Definition save_effect (o : Order) (db : database) (r : result unit) (db' : database) : Prop :=
  tables_ok db' /\
  ((r <> Ok tt /\ db' = db) \/
   (exists cur, stored_orders db !! Order_ID o = Some cur /\ Order_Version cur = Order_Version o /\
     stored_orders db' = <[Order_ID o := saved_as (keeping cur o) (pg_time (Order_UpdatedAt o))]> (stored_orders db))).

Lemma Save_spec o db : tables_ok db ->
  wp (sql_spec true) (Save o) (db, NoTx) (fun r w => save_effect o db r w.1).
Proof.
  intros Hok. unfold Save. apply wp_call. split; [intros _ m; split; [done|by left]|].
  apply wp_call. split; [intros _ m; split; [done|by left]|].
  destruct (update_order o db) as [[n|e] c] eqn:E; [|split; [done|by left]].
  destruct (Z.eqb_spec n 0) as [->|Hn].
  - apply wp_query_tx; [intros _ m; split; [done|by left]|].
    destruct (tb_orders c !! Order_ID o); split; try done; by left.
  - apply wp_call. pose proof (update_order_tables _ _ _ _ Hok E).
    pose proof (stored_orders_save _ _ _ _ Hok E Hn) as Hs.
    split; [split; [done|by right]|]. intros _ m. split; (split; [done|]); [by right|by left].
Qed.

(** The contract, whatever the surroundings of each call. *)
#[global] Program Instance repository_laws (sur : nat -> surroundings) :
  OrderRepositoryLaws database (R := repository sur) := {
  repo_wf := tables_ok;
  repo_orders := stored_orders;
}.
Next Obligation.
  intros sur n o s r s' Hok E. pose proof (sql_call_spec true (sur n) _ s (create_effect o s) (or_introl eq_refl) (Create_spec o s Hok)) as H.
  simpl in E. rewrite E in H. simpl in H. destruct H as [H1 [[H2 H3]|H2]]; (split; [done|]); [left|by right].
  split; [done|]. by rewrite H3.
Qed.
Next Obligation.
  intros sur n id s o Hok E.
  pose proof (sql_call_spec true (sur n) _ s (fun r db => db = s /\ answers true (MemoryOrders.Get id (stored_orders s)) r)
    (or_introl eq_refl) (Get_spec true id s)) as [_ [H|[_ [e H]]]]; simpl in E; rewrite E in H; [|done].
  unfold MemoryOrders.Get in H. destruct (stored_orders s !! id); naive_solver.
Qed.
Next Obligation.
  intros sur n o s r s' Hok E. pose proof (sql_call_spec true (sur n) _ s (save_effect o s) (or_introl eq_refl) (Save_spec o s Hok)) as H.
  simpl in E. rewrite E in H. simpl in H. destruct H as [H1 [[H2 H3]|(cur & H2 & H3 & H4)]]; (split; [done|]).
  - left. split; [done|]. by rewrite H3.
  - right. exists cur. do 2 (split; [done|]). eauto.
Qed.

(** ** Without outages *)

(** The rows of the order can be inserted, but for the order's own key. *)
Record insertable (o : Order) (db : database) : Prop := MkInsertable {
  ins_amount : fits_bigint (Order_AmountMinor o) = true;
  ins_version : fits_bigint (Order_Version o) = true;
  ins_items : Forall (fun i => fits_integer (OrderItem_Qty i) && fits_bigint (OrderItem_PriceMinor i) = true)
                (Order_Items o);
  ins_fresh : Forall (fun i => tb_order_items db !! OrderItem_ID i = None) (Order_Items o);
  ins_distinct : NoDup (map OrderItem_ID (Order_Items o));
}.

Lemma insert_items_calm id items db : forall c, is_Some (tb_orders c !! id) ->
  Forall (fun i => fits_integer (OrderItem_Qty i) && fits_bigint (OrderItem_PriceMinor i) = true) items ->
  Forall (fun i => tb_order_items c !! OrderItem_ID i = None) items -> NoDup (map OrderItem_ID items) ->
  wp (sql_spec false) (insert_items id items) (db, InTx c) (fun r w => r = None /\ exists c', w = (db, InTx c')).
Proof.
  induction items as [|i items IH]; intros c [row Hrow] Hfit Hfresh Hnd; cbn [insert_items];
    [split; [done|by exists c]|].
  apply Forall_cons in Hfit as [Hf Hfit], Hfresh as [Hi Hfresh]. simpl in Hnd. apply NoDup_cons in Hnd as [Hni Hnd].
  apply wp_stmt_tx.
  - intros e [[? _]|He]; [done|]. unfold insert_item in He. by rewrite Hf, Hi, Hrow in He.
  - intros [] c'. unfold insert_item. rewrite Hf, Hi, Hrow. simpl. intros [= <-].
    apply IH; [by eexists|done| |done]. simpl. apply Forall_forall. intros j Hj.
    rewrite lookup_insert_ne; [by apply (proj1 (Forall_forall _ _) Hfresh)|].
    intros Heq. apply Hni. rewrite Heq. by apply list_elem_of_fmap_2.
Qed.

Lemma Create_calm o db : insertable o db -> wp (sql_spec false) (Create o) (db, NoTx)
  (fun r w => r = (MemoryOrders.Create o (stored_orders db)).1).
Proof.
  intros [Ha Hv Hi Hf Hn]. unfold Create, MemoryOrders.Create, stored_orders. rewrite lookup_fmap.
  apply wp_begin; [done|]. apply wp_stmt_tx.
  - intros e [[? _]|He]; [done|]. unfold insert_order in He. rewrite Ha, Hv in He. simpl in He.
    destruct (tb_orders db !! Order_ID o); [|done]. by injection He as <-.
  - intros [] c. unfold insert_order. rewrite Ha, Hv. simpl. destruct (tb_orders db !! Order_ID o) eqn:E; [done|].
    intros [= <-]. eapply wp_seq; [apply _|apply insert_items_calm; simpl; [|done..]|].
    { rewrite lookup_insert_eq. by eexists. }
    intros r w [-> [c' ->]]. by apply wp_commit.
Qed.

(** What could be inserted was insertable. *)
Lemma insert_items_refused outages id items db : forall c,
  wp (sql_spec outages) (insert_items id items) (db, InTx c) (fun r w => w.1 = db /\ (r = None ->
    (exists c', w.2 = InTx c') /\
    Forall (fun i => fits_integer (OrderItem_Qty i) && fits_bigint (OrderItem_PriceMinor i) = true) items /\
    Forall (fun i => tb_order_items c !! OrderItem_ID i = None) items /\ NoDup (map OrderItem_ID items))).
Proof.
  induction items as [|i items IH]; intros c; cbn [insert_items].
  { split; [done|]. intros _. split_and!; [by eexists|constructor..]. }
  apply wp_stmt_tx; [done|]. intros [] c1. unfold insert_item.
  destruct (fits_integer _ && fits_bigint _) eqn:Hfit; simpl; [|done].
  destruct (tb_order_items c !! OrderItem_ID i) eqn:Hi, (tb_orders c !! id); try done. intros [= <-].
  eapply wp_mono; [apply _| |apply IH]. intros r w [Hw Hr]. split; [done|]. intros Hn.
  destruct (Hr Hn) as (Hc & Hf & Hfresh & Hnd). simpl in Hfresh. split_and!; [done|by constructor|constructor; [done|]|].
  - eapply Forall_impl; [exact Hfresh|]. simpl. by intros j [? _]%lookup_insert_None.
  - simpl. constructor; [|done]. intros (j & Hij & Hj)%list_elem_of_fmap.
    apply (proj1 (Forall_forall _ _) Hfresh) in Hj. by rewrite <- Hij, lookup_insert_eq in Hj.
Qed.

Lemma Create_refused o db : wp (sql_spec false) (Create o) (db, NoTx)
  (fun r w => insertable o db \/ ((exists e, r = Err e) /\ w.1 = db)).
Proof.
  unfold Create. apply wp_begin; [done|]. apply wp_stmt_tx; [intros e _; right; by eauto|].
  intros [] c. unfold insert_order. destruct (fits_bigint (Order_AmountMinor o)) eqn:Ha; simpl; [|done].
  destruct (fits_bigint (Order_Version o)) eqn:Hv; simpl; [|done]. destruct (tb_orders db !! Order_ID o); [done|].
  intros [= <-]. eapply wp_seq; [apply _|apply insert_items_refused|].
  intros r [d tx] [Hd Hr]. simpl in Hd. subst d. destruct r as [e|]; [right; by eauto|].
  destruct (Hr eq_refl) as ([c' Htx] & Hf & Hfresh & Hnd). simpl in Htx. subst tx. apply wp_commit; by left.
Qed.

Lemma Save_refused o db : fits_bigint (Order_AmountMinor o) && fits_bigint (Order_Version o + 1) = false ->
  wp (sql_spec false) (Save o) (db, NoTx) (fun r w => (exists e, r = Err e) /\ w.1 = db).
Proof.
  intros Hfit. unfold Save. apply wp_begin; [done|]. apply wp_stmt_tx; [intros e _; simpl; eauto|].
  intros n c. unfold update_order. destruct (fits_bigint (Order_AmountMinor o)) eqn:Ha; simpl in *; [|done].
  intros Hu. assert (n = 0 /\ c = db) as [-> ->].
  { destruct (tb_orders db !! Order_ID o) as [row|]; [|by injection Hu].
    destruct (Z.eqb_spec (or_version row) (Order_Version o)) as [Hr|]; [|by injection Hu].
    by rewrite Hr, Hfit in Hu. }
  apply wp_query_tx; [done|]. destruct (tb_orders db !! Order_ID o); simpl; eauto.
Qed.

Lemma Save_calm o db : fits_bigint (Order_AmountMinor o) = true -> fits_bigint (Order_Version o + 1) = true ->
  wp (sql_spec false) (Save o) (db, NoTx) (fun r w => r = (MemoryOrders.Save o (stored_orders db)).1).
Proof.
  intros Ha Hv. unfold Save, MemoryOrders.Save, stored_orders. rewrite lookup_fmap.
  apply wp_begin; [done|]. apply wp_stmt_tx.
  - intros e [[? _]|He]; [done|]. unfold update_order in He. rewrite Ha in He. simpl in He.
    destruct (tb_orders db !! Order_ID o) as [row|]; [|done]. destruct (Z.eqb_spec (or_version row) (Order_Version o)) as [Hr|]; [|done].
    by rewrite Hr, Hv in He.
  - intros n c. unfold update_order. rewrite Ha. simpl. destruct (tb_orders db !! Order_ID o) as [row|] eqn:E; simpl.
    + destruct (Z.eqb_spec (or_version row) (Order_Version o)) as [Hr|]; simpl.
      * rewrite Hr, Hv. simpl. intros [= <- <-]. by apply wp_commit.
      * intros [= <- <-]. apply wp_query_tx; [done|]. by rewrite E.
    + intros [= <- <-]. apply wp_query_tx; [done|]. by rewrite E.
Qed.

Lemma refused_call {A} (r : result A * database) db : (exists e, r.1 = Err e) /\ r.2 = db -> exists e, r = (Err e, db).
Proof. destruct r as [x d]. simpl. intros [[e ->] ->]. by exists e. Qed.

Lemma stored_keyed db : tables_ok db -> MemoryOrders.keyed (stored_orders db).
Proof.
  intros Hok id o. unfold stored_orders. rewrite lookup_fmap_Some. intros (row & <- & H).
  by apply (ok_order_key _ Hok).
Qed.

Lemma customer_orders_rows c db :
  MemoryOrders.customer_orders c (stored_orders db) ≡ₚ
  map (stored db) (select_rows (fun r => or_customer_id r =s? c) (tb_orders db)).
Proof.
  unfold MemoryOrders.customer_orders, select_rows, stored_orders. rewrite map_to_list_fmap.
  rewrite (map_map (prod_map id (stored db)) snd).
  change (map (fun x => (prod_map id (stored db) x).2) (map_to_list (tb_orders db)))
    with (map (fun x => stored db (snd x)) (map_to_list (tb_orders db))).
  by rewrite <- (map_map snd (stored db)), filter_map.
Qed.

Lemma pg_listing_memory `{GoRuntimeLaws} n c limit db : tables_ok db -> collate_lt = str_lt ->
  Ok (pg_listing c limit db) = MemoryOrders.ListByCustomer n c limit (stored_orders db).
Proof.
  intros Hok Hc. rewrite MemoryOrders.ListByCustomer_take. f_equal. unfold pg_listing, limit_rows.
  assert (map (stored db) (select_orders c db) = MemoryOrders.listing n c (stored_orders db)) as E.
  { apply (sorted_unique MemoryOrders.newer).
    - intros x y Hx Hy H1 H2.
      assert (forall z, z ∈ map (stored db) (select_orders c db) -> exists id, stored_orders db !! id = Some z) as Hin.
      { intros z (r & -> & Hr)%list_elem_of_fmap. unfold select_orders in Hr. rewrite order_by_perm in Hr.
        apply elem_of_select_rows in Hr as (_ & k & Hk). exists k. unfold stored_orders. by rewrite lookup_fmap, Hk. }
      destruct (Hin _ Hx) as [i Hi], (Hin _ Hy) as [j Hj].
      unfold MemoryOrders.newer in *. rewrite less_time_id_desc_flip in *.
      assert (Order_ID x = Order_ID y) as Hid by (by eapply less_time_id_separates).
      rewrite (stored_keyed _ Hok _ _ Hi), (stored_keyed _ Hok _ _ Hj) in Hid. congruence.
    - assert (StronglySorted (not_after order_less) (select_orders c db)) as Hs.
      { apply order_by_sorted. apply flip_weak, (less_by_weak collate_lt). }
      clear - Hs Hc. induction Hs as [|r l Hs IH Hr]; simpl; constructor; [done|].
      apply Forall_map. eapply Forall_impl; [exact Hr|]. intros r'. unfold not_after, MemoryOrders.newer.
      rewrite less_time_id_desc_flip. unfold order_less, less_time_id, less_by. simpl. by rewrite Hc.
    - apply MemoryOrders.listing_sorted.
    - rewrite MemoryOrders.listing_perm, customer_orders_rows. unfold select_orders. by rewrite order_by_perm. }
  destruct (limit >? 0); [|done]. by rewrite <- E, firstn_map.
Qed.

(** C11. The PostgreSQL repository keeps the contract of [OrderRepository] in any
    surroundings: a creation or a save that reports success has stored the
    order, one that reports an error has stored it or changed nothing, and a
    read answers what is stored; the tables stay consistent.  A save only ever
    replaces the version it was made from, by the next one, and writes all of
    the order but its items and its creation time, which stay as they are
    stored. *)
Theorem postgres_orders_contract sur o id db :
  tables_ok db ->
  create_effect o db (sql_call sur (Create o) db).1 (sql_call sur (Create o) db).2 /\
  save_effect o db (sql_call sur (Save o) db).1 (sql_call sur (Save o) db).2 /\
  (sql_call sur (Get id) db).2 = db /\
  (forall found, (sql_call sur (Get id) db).1 = Ok found -> stored_orders db !! id = Some found).
Proof.
  intros Hok. split_and!.
  - apply (sql_call_spec true); [by left|by apply Create_spec].
  - apply (sql_call_spec true); [by left|by apply Save_spec].
  - apply (sql_call_spec true sur (Get id) db (fun _ db' => db' = db)); [by left|].
    eapply wp_mono; [apply _| |apply Get_spec]. by intros r w [? _].
  - intros found Hf.
    assert (answers true (MemoryOrders.Get id (stored_orders db)) (sql_call sur (Get id) db).1) as [H|[_ [e H]]].
    + apply (sql_call_spec true sur (Get id) db (fun r _ => answers true (MemoryOrders.Get id (stored_orders db)) r));
        [by left|]. eapply wp_mono; [apply _| |apply Get_spec]. by intros r w [_ ?].
    + rewrite Hf in H. unfold MemoryOrders.Get in H. destruct (stored_orders db !! id); naive_solver.
    + congruence.
Qed.

(** C18. On a connection that does not fail, and with the collation that compares
    bytes, the PostgreSQL repository answers every call as the in-memory
    repository does on the orders the tables hold, but for the orders that do
    not fit its columns and keys.  A creation needs an amount, a version,
    quantities and prices that fit their columns and item IDs that are distinct
    and used by no other order; a save needs an amount and a next version that
    fit.  Otherwise the call answers an error and changes nothing. *)
Theorem postgres_orders_as_memory `{GoRuntimeLaws} sur db :
  no_outage sur -> tables_ok db -> collate_lt = str_lt ->
  (forall id, sql_call sur (Get id) db = (MemoryOrders.Get id (stored_orders db), db)) /\
  (forall n c limit, sql_call sur (ListByCustomer c limit) db =
     (MemoryOrders.ListByCustomer n c limit (stored_orders db), db)) /\
  (forall o, insertable o db ->
     (sql_call sur (Create o) db).1 = (MemoryOrders.Create o (stored_orders db)).1) /\
  (forall o, ~ insertable o db -> exists e, sql_call sur (Create o) db = (Err e, db)) /\
  (forall o, if fits_bigint (Order_AmountMinor o) && fits_bigint (Order_Version o + 1)
     then (sql_call sur (Save o) db).1 = (MemoryOrders.Save o (stored_orders db)).1
     else exists e, sql_call sur (Save o) db = (Err e, db)).
Proof.
  intros Hsur Hok Hc. split_and!.
  - intros id. apply surjective_pair_eq.
    apply (sql_call_spec false sur (Get id) db (fun r db' => r = _ /\ db' = db)); [by right|].
    eapply wp_mono; [apply _| |apply Get_spec]. by intros r w [-> [->|[? _]]].
  - intros n c limit. rewrite <- (pg_listing_memory n c limit db Hok Hc). apply surjective_pair_eq.
    apply (sql_call_spec false sur (ListByCustomer c limit) db (fun r db' => r = _ /\ db' = db)); [by right|].
    eapply wp_mono; [apply _| |apply ListByCustomer_spec]. by intros r w [-> [->|[? _]]].
  - intros o Hi. apply (sql_call_spec false sur (Create o) db (fun r _ => r = _)); [by right|]. by apply Create_calm.
  - intros o Hi. apply refused_call. apply (sql_call_spec false sur (Create o) db (fun r db' => (exists e, r = Err e) /\ db' = db));
      [by right|]. eapply wp_mono; [apply _| |apply Create_refused]. by intros r w [?|?].
  - intros o. destruct (fits_bigint _ && fits_bigint _) eqn:Hfit.
    + apply andb_true_iff in Hfit as [Ha Hv]. apply (sql_call_spec false sur (Save o) db (fun r _ => r = _)); [by right|].
      by apply Save_calm.
    + apply refused_call. apply (sql_call_spec false sur (Save o) db (fun r db' => (exists e, r = Err e) /\ db' = db));
        [by right|by apply Save_refused].
Qed.
End Contract.
End PgOrders.
