(* ===== verification/PgOutbox.v ===== *)
(** * Outbox and timeline in PostgreSQL:
      src/internal/storage/postgres/outbox_repository.go, timeline_repository.go

    The methods as SQL programs.  A payload is never NULL here: an absent one is
    empty, as the model of byte slices has it. *)

From stdpp Require Import pretty.
From S2P Require Import Prelude GoLib Domain TimelineStore OutboxStore Prog Postgres Courier PgSchema.

Module PgOutbox.

Abbreviation DBM := (SQL database).

Section Repository.
Context {pg : Postgres}.

Definition outboxProcessingLease : Duration := 2 * Minute.

(** ** Statements *)

Definition insert_message (msg : OutboxMessage) (now : Time) : statement database unit := fun db =>
  match tb_outbox db !! OutboxMessage_ID msg with
  | Some _ => (inr (unique_violation "outbox_messages_pkey"), db)
  | None =>
      (inl tt, set_outbox (<[OutboxMessage_ID msg :=
         MkOutboxRow (OutboxMessage_ID msg) (OutboxMessage_AggregateType msg) (OutboxMessage_AggregateID msg)
           (OutboxMessage_EventType msg) (OutboxMessage_Payload msg) "pending" 0 (pg_time now) (pg_time now)]>
         (tb_outbox db)) db)
  end.

Definition row_less (a b : outbox_row) : bool := less_by collate_lt ob_created_at ob_id a b.

Definition candidate (staleBefore : Time) (r : outbox_row) : bool :=
  (ob_status r =s? "pending") || ((ob_status r =s? "processing") && (ob_updated_at r <=? pg_time staleBefore)).

(** The rows of the CTE [candidates]. *)
Definition candidates (limit : Z) (staleBefore : Time) (db : database) : list outbox_row :=
  limit_rows limit (order_by row_less (select_rows (candidate staleBefore) (tb_outbox db))).

Definition claim_row (now : Time) (ids : list string) (r : outbox_row) : outbox_row :=
  if bool_decide (ob_id r ∈ ids)
  then MkOutboxRow (ob_id r) (ob_aggregate_type r) (ob_aggregate_id r) (ob_event_type r) (ob_payload r)
         "processing" (ob_attempt_count r) (ob_created_at r) (pg_time now)
  else r.

(** The whole statement: the candidates become [processing] and are returned,
    oldest first. *)
Definition claim_messages (limit : Z) (staleBefore now : Time) : statement database (list outbox_row) := fun db =>
  let rows := candidates limit staleBefore db in
  (inl (order_by row_less rows), set_outbox (claim_row now (map ob_id rows) <$> tb_outbox db) db).

(** COUNT and MIN over the backlog; MIN is NULL when there is none. *)
Definition backlog_row (r : outbox_row) : bool := (ob_status r =s? "pending") || (ob_status r =s? "processing").

Definition min_time (acc : option Time) (r : outbox_row) : option Time :=
  match acc with
  | None => Some (ob_created_at r)
  | Some t => Some (Z.min t (ob_created_at r))
  end.

Definition backlog_stats (db : database) : Z * option Time :=
  let rows := select_rows backlog_row (tb_outbox db) in
  (Z.of_nat (length rows), foldl min_time None rows).

Definition update_status (id status : string) (now : Time) : statement database Z := fun db =>
  match tb_outbox db !! id with
  | None => (inl 0, db)
  | Some r =>
      if negb (fits_integer (ob_attempt_count r + 1)) then (inr numeric_out_of_range, db)
      else (inl 1, set_outbox (<[id :=
             MkOutboxRow (ob_id r) (ob_aggregate_type r) (ob_aggregate_id r) (ob_event_type r) (ob_payload r)
               status (ob_attempt_count r + 1) (ob_created_at r) (pg_time now)]> (tb_outbox db)) db)
  end.

Definition updated_message (id : string) (db : database) : list lock :=
  match tb_outbox db !! id with Some _ => [("outbox_messages", id)] | None => [] end.

(** ** Methods *)

Definition Enqueue (msg : OutboxMessage) : DBM (result OutboxMessage) :=
  id ← (if OutboxMessage_ID msg =s? "" then call SqlUUID else mret (OutboxMessage_ID msg));
  let msg := MemoryOutbox.set_id msg id in
  now ← call SqlNow;
  inserted ← call (Stmt (fun _ => [("outbox_messages", OutboxMessage_ID msg)]) (insert_message msg now));
  mret (match inserted with
        | inr e => Err (ErrWrap "enqueue outbox message" (sql_err e))
        | inl _ => Ok msg
        end).

Definition message_of (r : outbox_row) : OutboxMessage :=
  MkOutboxMessage (ob_id r) (ob_aggregate_type r) (ob_aggregate_id r) (ob_event_type r) (ob_payload r).

Definition PullPending (limit : Z) : DBM (result (list OutboxMessage)) :=
  let limit := if limit <=? 0 then 100 else limit in
  now ← call SqlNow;
  let staleBefore := now - outboxProcessingLease in
  rows ← call (Stmt no_locks (claim_messages limit staleBefore now));
  match rows with
  | inr e => mret (Err (ErrWrap "pull pending outbox messages" (sql_err e)))
  | inl rows =>
      failed ← call RowsErr;
      mret (match failed with
            | Some e => Err (ErrWrap "iterate outbox rows" (sql_err e))
            | None => Ok (map message_of rows)
            end)
  end.

Definition Stats : DBM (result OutboxStats) :=
  row ← call (Stmt no_locks (query backlog_stats));
  mret (match row with
        | inr e => Err (ErrWrap "outbox stats query failed" (sql_err e))
        | inl (count, oldest) => Ok (MkOutboxStats count (default 0 oldest))
        end).

Definition markStatus (id status : string) : DBM (result unit) :=
  now ← call SqlNow;
  affected ← call (Stmt (updated_message id) (update_status id status now));
  mret (match affected with
        | inr e => Err (ErrWrap ("mark outbox message as " +:+ status) (sql_err e))
        | inl affected => if affected =? 0 then Err ErrOutboxPublish else Ok tt
        end).

Definition MarkSent (id : string) : DBM (result unit) := markStatus id "sent".
Definition MarkFailed (id : string) : DBM (result unit) := markStatus id "failed".

(** ** Timeline *)

Definition insert_event (e : TimelineEvent) : statement database unit := fun db =>
  match tb_orders db !! TimelineEvent_OrderID e with
  | None => (inr (foreign_key_violation "timeline_events_order_id_fkey"), db)
  | Some _ =>
      let id := tb_timeline_seq db + 1 in
      (inl tt, set_timeline (tb_timeline db ++
         [MkTimelineRow id (TimelineEvent_OrderID e) (TimelineEvent_Type e) (TimelineEvent_Reason e)
            (pg_time (TimelineEvent_Occurred e))]) id db)
  end.

Definition event_less (a b : timeline_row) : bool :=
  if negb (tr_occurred a =? tr_occurred b) then tr_occurred a <? tr_occurred b else tr_id a <? tr_id b.

Definition select_events (orderID : string) (db : database) : list timeline_row :=
  order_by event_less (List.filter (fun r => tr_order_id r =s? orderID) (tb_timeline db)).

Definition Append (event : TimelineEvent) : DBM (result unit) :=
  occurred ← (if IsZero (TimelineEvent_Occurred event) then call SqlNow else mret (TimelineEvent_Occurred event));
  let event := MkTimelineEvent (TimelineEvent_OrderID event) (TimelineEvent_Type event)
                 (TimelineEvent_Reason event) occurred in
  inserted ← call (Stmt no_locks (insert_event event));
  mret (match inserted with
        | inr e => Err (ErrWrap "append timeline event" (sql_err e))
        | inl _ => Ok tt
        end).

Definition event_of (r : timeline_row) : TimelineEvent :=
  MkTimelineEvent (tr_order_id r) (tr_type r) (tr_reason r) (tr_occurred r).

Definition List (orderID : string) : DBM (result (list TimelineEvent)) :=
  rows ← call (Stmt no_locks (query (select_events orderID)));
  match rows with
  | inr e => mret (Err (ErrWrap "list timeline events" (sql_err e)))
  | inl rows =>
      failed ← call RowsErr;
      mret (match failed with
            | Some e => Err (ErrWrap "iterate timeline events" (sql_err e))
            | None => Ok (map event_of rows)
            end)
  end.
End Repository.

(** ** The outbox as the in-memory one *)

Section AsMemory.
Context {pg : Postgres} {laws : PostgresLaws pg}.
Import MemoryOutbox.

Definition outbox_ok (db : database) : Prop := forall k r, tb_outbox db !! k = Some r -> ob_id r = k.

Definition record_of (r : outbox_row) : outboxRecord :=
  MkOutboxRecord (message_of r) (ob_status r) (ob_attempt_count r) (ob_created_at r) (ob_updated_at r).

Definition records_of (db : database) : records := record_of <$> tb_outbox db.

Definition entry (r : outbox_row) : string * outboxRecord := (ob_id r, record_of r).

Lemma candidate_claimable staleBefore r :
  candidate staleBefore r = claimable (pg_time staleBefore) (record_of r).
Proof.
  unfold candidate, claimable, After. simpl.
  rewrite negb_andb, negb_orb, !negb_involutive. by rewrite <- Z.leb_antisym.
Qed.

Lemma entries_eq db : outbox_ok db ->
  map_to_list (records_of db) = map entry (map snd (map_to_list (tb_outbox db))).
Proof.
  intros Hok. unfold records_of. rewrite map_to_list_fmap, map_map.
  apply map_ext_in. intros [k r] Hin%list_elem_of_In%elem_of_map_to_list. unfold entry. simpl.
  by rewrite (Hok _ _ Hin).
Qed.

Lemma row_less_weak : StrictWeak row_less.
Proof. apply (less_by_weak collate_lt). Qed.

Lemma rows_separate db p x y : outbox_ok db ->
  x ∈ select_rows p (tb_outbox db) -> y ∈ select_rows p (tb_outbox db) ->
  row_less x y = false -> row_less y x = false -> x = y.
Proof.
  intros Hok. rewrite !elem_of_select_rows. intros (_ & k & Hk) (_ & k' & Hk') H1 H2.
  assert (ob_id x = ob_id y) as Hid by (by apply (less_by_separates collate_lt ob_created_at)).
  rewrite (Hok _ _ Hk), (Hok _ _ Hk') in Hid. congruence.
Qed.

(** Rows in the order of the statement are entries in the order of the loop. *)
Lemma rows_visited `{GoRuntimeLaws} n staleBefore db :
  outbox_ok db -> collate_lt = str_lt ->
  map entry (order_by row_less (select_rows (candidate staleBefore) (tb_outbox db))) =
  List.filter (fun p => eligible (pg_time staleBefore) (records_of db) (fst p)) (sort_Slice older (map_range n (records_of db))).
Proof.
  intros Hok Hc. set (rows := select_rows _ _).
  assert (List.filter (fun p => eligible (pg_time staleBefore) (records_of db) (fst p)) (map_to_list (records_of db)) = map entry rows)
    as Hrows.
  { rewrite (entries_eq _ Hok), filter_map. unfold rows, select_rows. f_equal. apply filter_ext_in.
    intros r ([k r'] & Hr & Hin%list_elem_of_In)%in_map_iff. simpl in Hr. subst r'. apply elem_of_map_to_list in Hin.
    rewrite candidate_claimable. unfold eligible, entry. simpl. rewrite (Hok _ _ Hin).
    unfold records_of. by rewrite lookup_fmap, Hin. }
  apply (sorted_unique older).
  - intros x y. rewrite !list_elem_of_fmap. intros (r & -> & Hr) (r' & -> & Hr') H1 H2.
    rewrite order_by_perm in Hr, Hr'. f_equal. apply (rows_separate db (candidate staleBefore)); try done.
    + revert H1. unfold older, less_time_id, row_less, less_by. simpl. by rewrite Hc.
    + revert H2. unfold older, less_time_id, row_less, less_by. simpl. by rewrite Hc.
  - assert (StronglySorted (not_after row_less) (order_by row_less rows)) as Hs by (apply order_by_sorted, row_less_weak).
    clear - Hs Hc. induction Hs as [|r l Hs IH Hr]; simpl; constructor; [done|].
    apply Forall_map. eapply Forall_impl; [exact Hr|]. intros r'. unfold not_after, older, less_time_id, row_less, less_by.
    simpl. by rewrite Hc.
  - apply StronglySorted_filter, sort_Slice_sorted. unfold older. auto with oms.
  - rewrite order_by_perm, <- Hrows. apply List_filter_perm. by rewrite sort_Slice_perm, map_range_perm.
Qed.

(** The lease is a whole number of microseconds. *)
Lemma pg_time_lease now : pg_time (now - outboxProcessingLease) = pg_time now - outboxProcessingLease.
Proof. exact (pg_time_shift now (-120000000)). Qed.

Lemma candidates_pulled `{GoRuntimeLaws} n now limit db : outbox_ok db -> collate_lt = str_lt ->
  map ob_id (candidates (effective_limit limit) (now - outboxProcessingLease) db) =
  pulled n (pg_time now) limit (records_of db).
Proof.
  intros Hok Hc. rewrite pulled_pairs, <- pg_time_lease, <- (rows_visited n _ _ Hok Hc).
  unfold candidates, limit_rows. rewrite firstn_map, map_map. done.
Qed.

Lemma elem_of_candidates limit staleBefore db r : r ∈ candidates limit staleBefore db ->
  exists k, tb_outbox db !! k = Some r.
Proof.
  unfold candidates, limit_rows. intros Hr%subseteq_take. rewrite order_by_perm in Hr.
  apply elem_of_select_rows in Hr. naive_solver.
Qed.

(** The rows returned are already in order. *)
Lemma candidates_ordered limit staleBefore db : outbox_ok db ->
  order_by row_less (candidates limit staleBefore db) = candidates limit staleBefore db.
Proof.
  intros Hok. apply (sorted_unique row_less); [|apply order_by_sorted, row_less_weak| |apply order_by_perm].
  - intros x y. rewrite !order_by_perm. unfold candidates, limit_rows. intros Hx%subseteq_take Hy%subseteq_take.
    rewrite order_by_perm in Hx, Hy. by apply (rows_separate db (candidate staleBefore)).
  - unfold candidates, limit_rows.
    pose proof (order_by_sorted row_less (select_rows (candidate staleBefore) (tb_outbox db)) row_less_weak) as Hs.
    rewrite <- (take_drop (Z.to_nat limit)) in Hs. by apply StronglySorted_app_1_l in Hs.
Qed.

Lemma candidates_messages limit staleBefore db : outbox_ok db ->
  flat_map (message_at (records_of db)) (map ob_id (candidates limit staleBefore db)) =
  map message_of (candidates limit staleBefore db).
Proof.
  intros Hok. assert (Forall (fun r => tb_outbox db !! ob_id r = Some r) (candidates limit staleBefore db)) as Hf.
  { apply Forall_forall. intros r (k & Hk)%elem_of_candidates. by rewrite (Hok _ _ Hk). }
  induction Hf as [|r l Hr Hf IH]; simpl; [done|]. rewrite IH. unfold message_at, records_of.
  by rewrite lookup_fmap, Hr.
Qed.

Lemma claim_row_records now ids db : outbox_ok db ->
  forall id, (record_of <$> (claim_row now ids <$> tb_outbox db)) !! id = claimed (pg_time now) ids (records_of db) id.
Proof.
  intros Hok id. unfold claimed, records_of. rewrite !lookup_fmap.
  destruct (tb_outbox db !! id) as [r|] eqn:E; simpl; [|by case_decide].
  unfold claim_row. rewrite (Hok _ _ E). case_bool_decide; case_decide; try done.
  unfold record_of, claim, message_of. simpl. by rewrite (Hok _ _ E).
Qed.

(** What a method answers and leaves is what the in-memory one does. *)
Definition as_memory {A} (answer : result A * database) (expected : result A * records) : Prop :=
  exists db', answer = (expected.1, db') /\ outbox_ok db' /\ records_of db' = expected.2.

Lemma mark_as_memory sur id status db : no_outage sur -> outbox_ok db ->
  (forall r, tb_outbox db !! id = Some r -> fits_integer (ob_attempt_count r + 1) = true) ->
  as_memory (sql_call sur (markStatus id status) db) (mark status (pg_time (sur_clock sur 0)) id (records_of db)).
Proof.
  intros Hsur Hok Hfit. unfold as_memory, sql_call, markStatus. simpl. rewrite !Hsur. unfold autocommit, update_status, mark.
  unfold records_of. rewrite lookup_fmap. destruct (tb_outbox db !! id) as [r|] eqn:E; simpl; [|by exists db].
  rewrite (Hfit r eq_refl). simpl. eexists. split_and!; [done| |].
  - intros k r'. simpl. rewrite lookup_insert_Some. intros [[<- <-]|[_ H]]; [by apply (Hok _ _ E)|by apply Hok].
  - simpl. rewrite fmap_insert. f_equal. unfold record_of, message_of. simpl. f_equal.
    specialize (Hfit r eq_refl). unfold fits_integer in Hfit. apply andb_true_iff in Hfit as [H1%Z.leb_le H2%Z.leb_le].
    symmetry. apply wrap64_id. unfold_widths. unfold minInt32, maxInt32 in *. lia.
Qed.

Lemma mark_refused sur id status db r : no_outage sur -> tb_outbox db !! id = Some r ->
  fits_integer (ob_attempt_count r + 1) = false -> exists e, sql_call sur (markStatus id status) db = (Err e, db).
Proof.
  intros Hsur Hr Hfit. unfold sql_call, markStatus. simpl. rewrite !Hsur. unfold autocommit, update_status.
  rewrite Hr, Hfit. simpl. by eexists.
Qed.

(** The ID a message is stored under, and the time. *)
Definition enqueued_id (sur : surroundings) (msg : OutboxMessage) : string :=
  if OutboxMessage_ID msg =s? "" then sur_uuid sur 0 else OutboxMessage_ID msg.

Definition enqueued_at (sur : surroundings) (msg : OutboxMessage) : Time :=
  sur_clock sur (if OutboxMessage_ID msg =s? "" then 1 else 0)%nat.

Lemma enqueue_as_memory sur msg db : no_outage sur -> outbox_ok db ->
  match tb_outbox db !! enqueued_id sur msg with
  | None => as_memory (sql_call sur (PgOutbox.Enqueue msg) db)
      (MemoryOutbox.Enqueue (sur_uuid sur 0) (pg_time (enqueued_at sur msg)) msg (records_of db))
  | Some _ => exists e, sql_call sur (PgOutbox.Enqueue msg) db = (Err e, db)
  end.
Proof.
  intros Hsur Hok. unfold as_memory, sql_call, PgOutbox.Enqueue, MemoryOutbox.Enqueue, enqueued_at.
  assert ((if OutboxMessage_ID msg =s? "" then set_id msg (sur_uuid sur 0) else msg) = set_id msg (enqueued_id sur msg)) as ->
    by (unfold enqueued_id; destruct (_ =s? _), msg; done).
  unfold enqueued_id. destruct (OutboxMessage_ID msg =s? "") eqn:Eid;
    (destruct (tb_outbox db !! _) as [r|] eqn:Hnew; simpl; rewrite !Hsur; unfold autocommit, insert_message; simpl;
    rewrite Hnew; simpl; [by eexists|]; eexists; split_and!; [done| |]);
    try (intros k r'; simpl; rewrite lookup_insert_Some; intros [[<- <-]|[_ H]]; [done|by apply Hok]);
    unfold records_of; simpl; rewrite fmap_insert; f_equal; unfold record_of, message_of; simpl; by destruct msg.
Qed.

Lemma pull_as_memory `{GoRuntimeLaws} sur n limit db : no_outage sur -> outbox_ok db -> collate_lt = str_lt ->
  as_memory (sql_call sur (PgOutbox.PullPending limit) db)
    (MemoryOutbox.PullPending n (pg_time (sur_clock sur 0)) limit (records_of db)).
Proof.
  intros Hsur Hok Hc. set (now := sur_clock sur 0). unfold as_memory, sql_call, PgOutbox.PullPending.
  simpl. rewrite !Hsur. simpl. rewrite Hsur. simpl. fold (effective_limit limit) now. eexists. split_and!.
  - rewrite PullPending_messages, <- (candidates_pulled n now limit db Hok Hc).
    rewrite (candidates_messages _ _ _ Hok), (candidates_ordered _ _ _ Hok). done.
  - intros k r. simpl. rewrite lookup_fmap_Some. intros (r' & <- & Hr'). unfold claim_row.
    case_bool_decide; by apply (Hok _ _ Hr').
  - apply map_eq. intros id. rewrite PullPending_store, <- (candidates_pulled n now limit db Hok Hc).
    apply (claim_row_records now _ db Hok id).
Qed.

(** C19. On a connection that does not fail, and with the collation that compares
    bytes, the PostgreSQL outbox is the in-memory one at the time its columns
    hold, that of the clock in microseconds: pulling (the same messages, in the
    same order, the same ones leased), enqueuing a message of a new ID and
    marking a message as sent or failed answer the same and leave the same
    records.  It refuses, without a change, the message of a used ID, which the
    in-memory one overwrites, and the attempt that does not fit the column. *)
Theorem postgres_outbox_as_memory `{GoRuntimeLaws} sur db :
  no_outage sur -> outbox_ok db -> collate_lt = str_lt ->
  (forall n limit, as_memory (sql_call sur (PgOutbox.PullPending limit) db)
     (MemoryOutbox.PullPending n (pg_time (sur_clock sur 0)) limit (records_of db))) /\
  (forall msg,
     match tb_outbox db !! enqueued_id sur msg with
     | None => as_memory (sql_call sur (PgOutbox.Enqueue msg) db)
         (MemoryOutbox.Enqueue (sur_uuid sur 0) (pg_time (enqueued_at sur msg)) msg (records_of db))
     | Some _ => exists e, sql_call sur (PgOutbox.Enqueue msg) db = (Err e, db)
     end) /\
  (forall id status,
     ((forall r, tb_outbox db !! id = Some r -> fits_integer (ob_attempt_count r + 1) = true) ->
      as_memory (sql_call sur (markStatus id status) db) (mark status (pg_time (sur_clock sur 0)) id (records_of db))) /\
     (forall r, tb_outbox db !! id = Some r -> fits_integer (ob_attempt_count r + 1) = false ->
      exists e, sql_call sur (markStatus id status) db = (Err e, db))).
Proof.
  intros Hsur Hok Hc. split_and!.
  - intros n limit. by apply pull_as_memory.
  - intros msg. by apply enqueue_as_memory.
  - intros id status. split; [by apply mark_as_memory|intros r; by apply mark_refused].
Qed.
End AsMemory.
End PgOutbox.
