(* ===== verification/PgIdempotency.v ===== *)
(** * Idempotency keys in PostgreSQL:
      src/internal/storage/postgres/idempotency_repository.go *)

From S2P Require Import Prelude GoLib Domain IdempotencyStore Prog Postgres Courier PgSchema.

Module PgIdempotency.

Abbreviation DBM := (SQL database).

Section Repository.
Context {pg : Postgres}.

(** ** Statements *)

Definition insert_key (key requestHash status : string) (ttlAt now : Time) : statement database unit := fun db =>
  match tb_idempotency db !! key with
  | Some _ => (inr (unique_violation "idempotency_keys_pkey"), db)
  | None =>
      (inl tt, set_idempotency (<[key :=
         MkIdempotencyRow key requestHash None None status (pg_time ttlAt) (pg_time now) (pg_time now)]>
         (tb_idempotency db)) db)
  end.

(** The CHECK on the status holds for every status the code writes. *)
Definition update_key (body : bytes) (httpStatus : Z) (status : string) (now : Time) (key : string)
  : statement database Z := fun db =>
  if negb (fits_integer httpStatus) then (inr numeric_out_of_range, db)
  else
  match tb_idempotency db !! key with
  | None => (inl 0, db)
  | Some r =>
      (inl 1, set_idempotency (<[key :=
         MkIdempotencyRow (ik_key r) (ik_request_hash r) (Some body) (Some httpStatus) status (ik_ttl_at r)
           (ik_created_at r) (pg_time now)]> (tb_idempotency db)) db)
  end.

Definition updated_key (key : string) (db : database) : list lock :=
  match tb_idempotency db !! key with Some _ => [("idempotency_keys", key)] | None => [] end.

Definition ttl_less (a b : idempotency_row) : bool := ik_ttl_at a <? ik_ttl_at b.

(** The expired rows, in the order a scan meets them; with a limit, those that
    expired first. *)
Definition expired_rows (before : Time) (limit : Z) (db : database) : list idempotency_row :=
  let rows := List.filter (fun r => ik_ttl_at r <=? pg_time before) (pg_scan (tb_idempotency db)) in
  if limit >? 0 then limit_rows limit (order_by ttl_less rows) else rows.

Definition delete_expired (before : Time) (limit : Z) : statement database Z := fun db =>
  let rows := expired_rows before limit db in
  (inl (Z.of_nat (length rows)),
   set_idempotency (foldl (fun t r => delete (ik_key r) t) (tb_idempotency db) rows) db).

Definition deleted_keys (before : Time) (limit : Z) (db : database) : list lock :=
  map (fun r => ("idempotency_keys", ik_key r)) (expired_rows before limit db).

(** ** Methods *)

(** The [%q] of the message is not modelled further. *)
Definition record_of (r : idempotency_row) : IdempotencyRecord :=
  MkIdempotencyRecord (ik_key r) (ik_request_hash r) (default "" (ik_response_body r))
    (default 0 (ik_http_status r)) (ik_status r) (ik_ttl_at r) (ik_created_at r) (ik_updated_at r).

Definition Get (key : string) : DBM (result IdempotencyRecord) :=
  let key := TrimSpace key in
  if key =s? "" then mret (Err ErrIdempotencyKeyRequired)
  else
    row ← call (Stmt no_locks (query (fun db => tb_idempotency db !! key)));
    mret (match row with
          | inr e => Err (ErrWrap "get idempotency record" (sql_err e))
          | inl None => Err ErrIdempotencyKeyNotFound
          | inl (Some r) =>
              if negb (IdempotencyStatus_Valid (ik_status r))
              then Err (ErrOther ("invalid idempotency status for key " +:+ key))
              else Ok (record_of r)
          end).

Definition CreateProcessing (key requestHash : string) (ttlAt : Time) : DBM (IdempotencyRecord * option err) :=
  let key := TrimSpace key in
  let requestHash := TrimSpace requestHash in
  if key =s? "" then mret (IdempotencyRecord_zero, Some ErrIdempotencyKeyRequired)
  else if requestHash =s? "" then mret (IdempotencyRecord_zero, Some ErrIdempotencyRequestHashRequired)
  else
    now ← call SqlNow;
    let ttlAt := if IsZero ttlAt then now + 24 * Hour else ttlAt in
    inserted ← call (Stmt (fun _ => [("idempotency_keys", key)]) (insert_key key requestHash IdempotencyStatusProcessing ttlAt now));
    match inserted with
    | inr e =>
        if isUniqueViolation e then
          got ← Get key;
          mret (match got with
                | Err _ => (IdempotencyRecord_zero, Some ErrIdempotencyKeyAlreadyExists)
                | Ok existing =>
                    if Idem_RequestHash existing <>s? requestHash
                    then (existing, Some ErrIdempotencyHashMismatch)
                    else (existing, Some ErrIdempotencyKeyAlreadyExists)
                end)
        else mret (IdempotencyRecord_zero, Some (ErrWrap "create idempotency record" (sql_err e)))
    | inl _ =>
        mret (MkIdempotencyRecord key requestHash "" 0 IdempotencyStatusProcessing ttlAt now now, None)
    end.

Definition markStatus (key : string) (status : IdempotencyStatus) (responseBody : bytes) (httpStatus : Z)
  : DBM (option err) :=
  let key := TrimSpace key in
  if key =s? "" then mret (Some ErrIdempotencyKeyRequired)
  else
    now ← call SqlNow;
    affected ← call (Stmt (updated_key key) (update_key responseBody httpStatus status now key));
    mret (match affected with
          | inr e => Some (ErrWrap "mark idempotency key status" (sql_err e))
          | inl affected => if affected =? 0 then Some ErrIdempotencyKeyNotFound else None
          end).

Definition MarkDone (key : string) (responseBody : bytes) (httpStatus : Z) : DBM (option err) :=
  markStatus key IdempotencyStatusDone responseBody httpStatus.
Definition MarkFailed (key : string) (responseBody : bytes) (httpStatus : Z) : DBM (option err) :=
  markStatus key IdempotencyStatusFailed responseBody httpStatus.

Definition DeleteExpired (before : Time) (limit : Z) : DBM (result Z) :=
  before ← (if IsZero before then call SqlNow else mret before);
  affected ← call (Stmt (deleted_keys before limit) (delete_expired before limit));
  mret (match affected with
        | inr e => Err (ErrWrap "delete expired idempotency records" (sql_err e))
        | inl affected => Ok affected
        end).
End Repository.

(** ** The keys as the in-memory ones *)

Section AsMemory.
Context {pg : Postgres} {laws : PostgresLaws pg}.

Record keys_ok (db : database) : Prop := MkKeysOk {
  ok_key : forall k r, tb_idempotency db !! k = Some r -> ik_key r = k;
  ok_status : forall k r, tb_idempotency db !! k = Some r -> IdempotencyStatus_Valid (ik_status r) = true;
}.

Definition items_of (db : database) : MemoryIdempotency.items := record_of <$> tb_idempotency db.

(** A record as the columns hold it: their times are in microseconds. *)
Definition in_columns (r : IdempotencyRecord) : IdempotencyRecord :=
  MkIdempotencyRecord (Idem_Key r) (Idem_RequestHash r) (Idem_ResponseBody r) (Idem_HTTPStatus r) (Idem_Status r)
    (pg_time (Idem_TTLAt r)) (pg_time (Idem_CreatedAt r)) (pg_time (Idem_UpdatedAt r)).

Definition columns_ok (db : database) : Prop :=
  keys_ok db /\ forall k r, tb_idempotency db !! k = Some r -> in_columns (record_of r) = record_of r.

(** What a method answers is what the in-memory one does, and it leaves the same
    records, as the columns hold them. *)
Definition as_memory {A} (answer : A * database) (expected : A * MemoryIdempotency.items) : Prop :=
  exists db', answer = (expected.1, db') /\ columns_ok db' /\ items_of db' = in_columns <$> expected.2.

Lemma items_in_columns db : columns_ok db -> in_columns <$> items_of db = items_of db.
Proof.
  intros [_ H]. unfold items_of. rewrite <- map_fmap_compose. apply map_fmap_ext. intros k r Hr. by apply (H k).
Qed.

Lemma as_memory_same {A} (a : A) db : columns_ok db -> as_memory (a, db) (a, items_of db).
Proof. intros H. exists db. simpl. by rewrite items_in_columns. Qed.

Lemma lookup_items_of db k : items_of db !! k = record_of <$> tb_idempotency db !! k.
Proof. apply lookup_fmap. Qed.

Lemma keys_ok_insert db k r : keys_ok db -> ik_key r = k -> IdempotencyStatus_Valid (ik_status r) = true ->
  keys_ok (set_idempotency (<[k := r]> (tb_idempotency db)) db).
Proof.
  intros [H1 H2] Hk Hs. split; intros k' r'; simpl; rewrite lookup_insert_Some; intros [[<- <-]|[_ H]]; eauto.
Qed.

Lemma get_as_memory sur key db : no_outage sur -> keys_ok db ->
  sql_call sur (Get key) db = (MemoryIdempotency.Get key (items_of db), db).
Proof.
  intros Hsur Hok. unfold sql_call, Get, MemoryIdempotency.Get. destruct (TrimSpace key =s? ""); [done|]. simpl.
  rewrite Hsur, lookup_items_of. unfold autocommit. simpl.
  destruct (tb_idempotency db !! TrimSpace key) as [r|] eqn:E; simpl; [|done]. by rewrite (ok_status _ Hok _ _ E).
Qed.

Lemma in_columns_idem r : in_columns (in_columns r) = in_columns r.
Proof. unfold in_columns. simpl. by rewrite !pg_time_idem. Qed.

(** Writing a row whose record is that of the memory. *)
Lemma as_memory_insert {A} (a : A) db k r record : columns_ok db -> ik_key r = k ->
  IdempotencyStatus_Valid (ik_status r) = true -> record_of r = in_columns record ->
  as_memory (a, set_idempotency (<[k := r]> (tb_idempotency db)) db) (a, <[k := record]> (items_of db)).
Proof.
  intros [H1 H2] Hk Hs Hr. eexists. split; [done|]. split.
  - split; [by apply keys_ok_insert|]. intros k' r'. simpl. rewrite lookup_insert_Some.
    intros [[<- <-]|[_ H]]; [|by apply (H2 k')]. by rewrite Hr, in_columns_idem.
  - simpl. rewrite fmap_insert, items_in_columns by done. unfold items_of. simpl. by rewrite fmap_insert, Hr.
Qed.

Lemma keys_mark_as_memory sur key status body code db : no_outage sur -> columns_ok db ->
  fits_integer code = true -> IdempotencyStatus_Valid status = true ->
  as_memory (sql_call sur (markStatus key status body code) db)
    (MemoryIdempotency.markStatus (sur_clock sur 0) key status body code (items_of db)).
Proof.
  intros Hsur Hok Hfit Hst. unfold sql_call, markStatus, MemoryIdempotency.markStatus.
  destruct (TrimSpace key =s? ""); [by apply as_memory_same|]. simpl. rewrite Hsur, lookup_items_of. unfold autocommit, update_key.
  rewrite Hfit. simpl. destruct (tb_idempotency db !! TrimSpace key) as [r|] eqn:E; simpl; [|by apply as_memory_same].
  destruct Hok as [Hk Ht]. apply as_memory_insert; [done|by apply (ok_key _ Hk _ _ E)|done|].
  specialize (Ht _ _ E). unfold in_columns, record_of in *. simpl in *. injection Ht as -> ->. done.
Qed.

Lemma keys_mark_refused sur key status body code db : no_outage sur -> TrimSpace key <> "" -> fits_integer code = false ->
  exists e, sql_call sur (markStatus key status body code) db = (Some e, db).
Proof.
  intros Hsur Hkey Hfit. unfold sql_call, markStatus. rewrite (proj2 (String.eqb_neq _ _) Hkey). simpl.
  rewrite Hsur. unfold autocommit, update_key. rewrite Hfit. simpl. by eexists.
Qed.

Lemma create_as_memory sur key hash ttlAt db : no_outage sur -> columns_ok db ->
  as_memory (sql_call sur (CreateProcessing key hash ttlAt) db)
    (MemoryIdempotency.CreateProcessing (sur_clock sur 0) key hash ttlAt (items_of db)).
Proof.
  intros Hsur Hok. unfold sql_call, CreateProcessing, MemoryIdempotency.CreateProcessing.
  destruct (TrimSpace key =s? "") eqn:Ek; [by apply as_memory_same|].
  destruct (TrimSpace hash =s? ""); [by apply as_memory_same|]. simpl.
  rewrite Hsur, lookup_items_of. unfold autocommit, insert_key.
  destruct (tb_idempotency db !! TrimSpace key) as [r|] eqn:E; simpl.
  - unfold Get. rewrite TrimSpace_idemp, Ek. simpl. rewrite Hsur. unfold autocommit. simpl. rewrite E.
    rewrite (ok_status _ (proj1 Hok) _ _ E). simpl. destruct (negb _); by apply as_memory_same.
  - by apply as_memory_insert.
Qed.

(** ** Deleting expired keys *)

(** What deleting expired records does, for any implementation. *)
Definition deleted (before : Time) (limit : Z) (m : MemoryIdempotency.items) (n : Z) (m' : MemoryIdempotency.items) : Prop :=
  let count m := Z.of_nat (MemoryIdempotency.expired_count before m) in
  MemoryIdempotency.pruned before m m' /\ n = count m - count m' /\
  n = (if limit >? 0 then Z.min limit (count m) else count m).

Lemma delete_rows before rows : forall (t : gmap string idempotency_row), NoDup (map ik_key rows) ->
  Forall (fun r => t !! ik_key r = Some r /\ MemoryIdempotency.expired before (record_of r) = true) rows ->
  let m := record_of <$> t in
  let m' := record_of <$> foldl (fun t r => delete (ik_key r) t) t rows in
  MemoryIdempotency.pruned before m m' /\
  Z.of_nat (length rows) = Z.of_nat (MemoryIdempotency.expired_count before m)
                           - Z.of_nat (MemoryIdempotency.expired_count before m').
Proof.
  induction rows as [|r rows IH]; intros t Hnd Hall m m'.
  { assert (m' = m) as -> by done. split; [split; [done|]|simpl; lia]. intros k x Hx Hn. congruence. }
  simpl in Hnd. apply NoDup_cons in Hnd as [Hni Hnd]. apply Forall_cons in Hall as [[Hr He] Hall].
  destruct (IH (delete (ik_key r) t) Hnd) as [[Hsub Hexp] Hlen].
  { apply Forall_forall. intros x Hx. destruct (proj1 (Forall_forall _ _) Hall x Hx) as [Hx1 Hx2].
    split; [|done]. rewrite lookup_delete_ne; [done|]. intros Heq. apply Hni. rewrite Heq. by apply list_elem_of_fmap_2. }
  assert (m !! ik_key r = Some (record_of r)) as Hm by (unfold m; by rewrite lookup_fmap, Hr).
  assert (record_of <$> delete (ik_key r) t = delete (ik_key r) m) as Hd by (apply fmap_delete).
  simpl in m'. fold m' in Hsub, Hexp, Hlen. rewrite Hd in Hsub, Hexp, Hlen. split.
  - split; [etrans; [exact Hsub|apply delete_subseteq]|]. intros k x Hx Hn.
    destruct (decide (k = ik_key r)) as [->|Hne]; [congruence|].
    apply (Hexp k); [by rewrite lookup_delete_ne|done].
  - rewrite (MemoryIdempotency.expired_count_delete before m _ _ Hm), He. simpl length. lia.
Qed.

Lemma NoDup_map_filter {A B} (f : A -> B) (p : A -> bool) l : NoDup (map f l) -> NoDup (map f (List.filter p l)).
Proof.
  induction l as [|x l IH]; simpl; [done|]. rewrite NoDup_cons. intros [Hx Hl].
  destruct (p x); simpl; [|by apply IH]. apply NoDup_cons. split; [|by apply IH].
  intros (y & Hy & Hin)%list_elem_of_fmap. apply Hx. rewrite Hy. apply list_elem_of_fmap_2.
  apply list_elem_of_In, filter_In in Hin as [Hin _]. by apply list_elem_of_In.
Qed.

Lemma scanned_expired before db : keys_ok db ->
  let all := List.filter (fun r => ik_ttl_at r <=? pg_time before) (pg_scan (tb_idempotency db)) in
  NoDup (map ik_key all) /\
  Forall (fun r => tb_idempotency db !! ik_key r = Some r /\ MemoryIdempotency.expired (pg_time before) (record_of r) = true) all /\
  length all = MemoryIdempotency.expired_count (pg_time before) (items_of db).
Proof.
  intros Hok all. set (vals := map snd (map_to_list (tb_idempotency db))).
  assert (all ≡ₚ List.filter (fun r => MemoryIdempotency.expired (pg_time before) (record_of r)) vals) as Hp.
  { unfold all. rewrite (List_filter_perm _ _ _ (pg_scan_perm _ _)).
    apply eq_subrelation; [apply _|]. apply filter_ext. intros r. unfold MemoryIdempotency.expired, After.
    simpl. by rewrite <- Z.leb_antisym. }
  assert (map ik_key vals = map fst (map_to_list (tb_idempotency db))) as Hkeys.
  { unfold vals. rewrite map_map. apply map_ext_in. intros [k r] Hin%list_elem_of_In%elem_of_map_to_list.
    by apply (ok_key _ Hok). }
  split_and!.
  - rewrite (Permutation_map ik_key Hp). apply NoDup_map_filter. rewrite Hkeys. apply NoDup_fst_map_to_list.
  - rewrite Hp. apply Forall_forall. intros r Hr. apply list_elem_of_In, filter_In in Hr as [Hr He].
    split; [|done]. apply list_elem_of_In in Hr. unfold vals in Hr. apply elem_of_values in Hr as [k Hk].
    by rewrite (ok_key _ Hok _ _ Hk).
  - rewrite (Permutation_length Hp). unfold MemoryIdempotency.expired_count, items_of.
    rewrite map_to_list_fmap, map_map. change (fun x => (prod_map id record_of x).2) with (fun x : string * idempotency_row => record_of (snd x)).
    by rewrite <- (map_map snd record_of), filter_map, length_map.
Qed.

Lemma foldl_delete_subseteq (rows : list idempotency_row) : forall t : gmap string idempotency_row,
  foldl (fun t r => delete (ik_key r) t) t rows ⊆ t.
Proof.
  induction rows as [|r rows IH]; intros t; simpl; [done|]. etrans; [apply IH|apply delete_subseteq].
Qed.

Lemma delete_expired_spec before limit db : columns_ok db ->
  exists n db', delete_expired before limit db = (inl n, db') /\ columns_ok db' /\
    deleted (pg_time before) limit (items_of db) n (items_of db').
Proof.
  intros [Hok Ht]. unfold delete_expired. eexists _, _. split; [done|].
  destruct (scanned_expired before db Hok) as (Hnd & Hall & Hlen).
  set (all := List.filter _ _) in *. set (rows := expired_rows before limit db).
  assert (NoDup (map ik_key rows) /\
    Forall (fun r => tb_idempotency db !! ik_key r = Some r /\ MemoryIdempotency.expired (pg_time before) (record_of r) = true) rows /\
    Z.of_nat (length rows) = (if limit >? 0 then Z.min limit (Z.of_nat (length all)) else Z.of_nat (length all)))
    as (Hnd' & Hall' & Hlen').
  { unfold rows, expired_rows. fold all. destruct (Z.gtb_spec limit 0); [|done]. unfold limit_rows.
    assert (order_by ttl_less all ≡ₚ all) as Hp by apply order_by_perm. split_and!.
    - rewrite <- (Permutation_map ik_key Hp), <- (take_drop (Z.to_nat limit) (order_by ttl_less all)), map_app in Hnd.
      by apply NoDup_app in Hnd as [? _].
    - apply Forall_take. by rewrite Hp.
    - rewrite length_take, (Permutation_length Hp). lia. }
  destruct (delete_rows (pg_time before) rows (tb_idempotency db) Hnd' Hall') as [Hpr Hcount].
  split.
  - pose proof (foldl_delete_subseteq rows (tb_idempotency db)) as Hsub.
    destruct Hok as [H1 H2]. split; [split|]; simpl; intros k r Hr; pose proof (lookup_weaken _ _ _ _ Hr Hsub); eauto.
  - split; [exact Hpr|]. split; [exact Hcount|]. by rewrite Hlen', Hlen.
Qed.

Lemma delete_as_memory sur before limit db :
  let b := if IsZero before then sur_clock sur 0 else before in
  no_outage sur -> columns_ok db ->
  exists n db', sql_call sur (DeleteExpired before limit) db = (Ok n, db') /\ columns_ok db' /\
    deleted (pg_time b) limit (items_of db) n (items_of db').
Proof.
  intros b Hsur Hok. destruct (delete_expired_spec b limit db Hok) as (n & db' & E & Hok' & Hd).
  exists n, db'. split; [|done]. unfold sql_call, DeleteExpired. unfold b in E.
  destruct (IsZero before); simpl; rewrite Hsur; unfold autocommit; rewrite E; done.
Qed.

(** C20. On a connection that does not fail, the PostgreSQL idempotency keys are
    the in-memory ones: claiming a key, reading it and marking it done or failed
    answer the same and leave the same records, with their times as the columns
    hold them, in microseconds; deleting expired keys deletes only keys expired
    at that precision, as many as the limit allows.  A mark with a status code
    that does not fit the column answers an error and changes nothing. *)
Theorem postgres_idempotency_as_memory sur db :
  no_outage sur -> columns_ok db ->
  let now := sur_clock sur 0 in
  (forall key hash ttlAt, as_memory (sql_call sur (CreateProcessing key hash ttlAt) db)
     (MemoryIdempotency.CreateProcessing now key hash ttlAt (items_of db))) /\
  (forall key, sql_call sur (Get key) db = (MemoryIdempotency.Get key (items_of db), db)) /\
  (forall key body code, fits_integer code = true ->
     as_memory (sql_call sur (MarkDone key body code) db) (MemoryIdempotency.MarkDone now key body code (items_of db)) /\
     as_memory (sql_call sur (MarkFailed key body code) db) (MemoryIdempotency.MarkFailed now key body code (items_of db))) /\
  (forall key body code, TrimSpace key <> "" -> fits_integer code = false ->
     (exists e, sql_call sur (MarkDone key body code) db = (Some e, db)) /\
     (exists e, sql_call sur (MarkFailed key body code) db = (Some e, db))) /\
  (forall before limit, let b := if IsZero before then now else before in
     exists n db', sql_call sur (DeleteExpired before limit) db = (Ok n, db') /\ columns_ok db' /\
       deleted (pg_time b) limit (items_of db) n (items_of db')).
Proof.
  intros Hsur Hok now. split_and!.
  - intros. by apply create_as_memory.
  - intros. apply get_as_memory; [done|apply Hok].
  - intros. split; by apply keys_mark_as_memory.
  - intros. split; by apply keys_mark_refused.
  - intros. by apply delete_as_memory.
Qed.
End AsMemory.
End PgIdempotency.
