(* ===== verification/PgCouriers.v ===== *)
(** * Couriers in PostgreSQL: src/internal/storage/postgres/courier_repository.go

    The methods of the repository as SQL programs over the tables of
    migrations 0003 and 0004.  Constraints are tested in the order the server
    tests them: types, CHECKs, unique keys (the primary key first), references.

    The tags of a rating are stored as a JSONB array of strings; the row holds
    its elements, and [tags ? 'x'] asks for one of them. *)

From stdpp Require Import pretty.
From S2P Require Import Prelude GoLib Float64 Domain Prog Postgres Courier PgSchema.

Module PgCouriers.

Abbreviation DBM := (SQL courier_database).

Section Repository.
Context {pg : Postgres} {ul : UnicodeLower}.

Definition firstDomainValidationErr (errs : list err) : option err :=
  match errs with [] => None | e :: _ => Some e end.

Definition mapCourierUniqueErr (e : sql_error) : err :=
  if negb (isUniqueViolation e) then ErrWrap "courier query failed" (sql_err e)
  else
    match e with
    | PgError _ constraint =>
        if constraint =s? "couriers_phone_key" then ErrCourierPhoneAlreadyExists else ErrCourierAlreadyExists
    | DriverError _ => ErrCourierAlreadyExists
    end.

(** ** Couriers *)

Definition courier_of (r : courier_row) : Courier :=
  MkCourier (cr_id r) (cr_phone r) (cr_first_name r) (cr_last_name r) (cr_vehicle_type r) (cr_is_active r)
    (cr_created_at r) (cr_updated_at r).

(** A row of another courier with the phone. *)
Definition phone_used (id phone : string) (db : courier_database) : bool :=
  existsb (fun r => (cr_phone r =s? phone) && (cr_id r <>s? id)) (map snd (map_to_list (tb_couriers db))).

Definition insert_courier (r : courier_row) : statement courier_database unit := fun db =>
  if negb (vehicle_type_check (cr_vehicle_type r)) then (inr (check_violation "couriers_vehicle_type_check"), db)
  else
  match tb_couriers db !! cr_id r with
  | Some _ => (inr (unique_violation "couriers_pkey"), db)
  | None =>
      if phone_used (cr_id r) (cr_phone r) db then (inr (unique_violation "couriers_phone_key"), db)
      else (inl tt, put_couriers (<[cr_id r := r]> (tb_couriers db)) db)
  end.

Definition update_courier (r : courier_row) : statement courier_database Z := fun db =>
  match tb_couriers db !! cr_id r with
  | None => (inl 0, db)
  | Some old =>
      if negb (vehicle_type_check (cr_vehicle_type r)) then (inr (check_violation "couriers_vehicle_type_check"), db)
      else if phone_used (cr_id r) (cr_phone r) db then (inr (unique_violation "couriers_phone_key"), db)
      else
        (inl 1, put_couriers (<[cr_id r :=
           MkCourierRow (cr_id old) (cr_phone r) (cr_first_name r) (cr_last_name r) (cr_vehicle_type r)
             (cr_is_active r) (cr_created_at old) (cr_updated_at r)]> (tb_couriers db)) db)
  end.

Definition courier_keys (r : courier_row) : list lock :=
  [("couriers", cr_id r); ("couriers_phone_key", cr_phone r)].

Definition locked_courier (id : string) (db : courier_database) : list lock :=
  match tb_couriers db !! id with Some _ => [("couriers", id)] | None => [] end.

(** The parameters of the two statements. *)
Definition courier_params (courier : Courier) (phone : string) : courier_row :=
  MkCourierRow (TrimSpace (Courier_ID courier)) phone (TrimSpace (Courier_FirstName courier))
    (TrimSpace (Courier_LastName courier)) (Courier_VehicleType courier) (Courier_IsActive courier)
    (pg_time (Courier_CreatedAt courier)) (pg_time (Courier_UpdatedAt courier)).

Definition set_times (c : Courier) (created updated : Time) : Courier :=
  MkCourier (Courier_ID c) (Courier_Phone c) (Courier_FirstName c) (Courier_LastName c) (Courier_VehicleType c)
    (Courier_IsActive c) created updated.

Definition Create (courier : Courier) : DBM (result unit) :=
  match firstDomainValidationErr (Courier_ValidateInvariants courier) with
  | Some e => mret (Err e)
  | None =>
      match NormalizePhone (Courier_Phone courier) with
      | Err e => mret (Err e)
      | Ok phone =>
          now ← call SqlNow;
          let created := if IsZero (Courier_CreatedAt courier) then now else Courier_CreatedAt courier in
          let updated := if IsZero (Courier_UpdatedAt courier) then created else Courier_UpdatedAt courier in
          let row := courier_params (set_times courier created updated) phone in
          inserted ← call (Stmt (fun _ => courier_keys row) (insert_courier row));
          mret (match inserted with
                | inr e => Err (mapCourierUniqueErr e)
                | inl _ => Ok tt
                end)
      end
  end.

(** Scanning a row of couriers. *)
Definition scan_courier (r : courier_row) : result Courier :=
  if negb (VehicleType_Valid (cr_vehicle_type r)) then Err ErrCourierVehicleTypeInvalid else Ok (courier_of r).

Definition Get (id : string) : DBM (result Courier) :=
  let id := TrimSpace id in
  if id =s? "" then mret (Err ErrCourierIDRequired)
  else
    row ← call (Stmt no_locks (query (fun db => tb_couriers db !! id)));
    mret (match row with
          | inr e => Err (ErrWrap "get courier" (sql_err e))
          | inl None => Err ErrCourierNotFound
          | inl (Some r) => scan_courier r
          end).

Definition select_by_phone (phone : string) (db : courier_database) : option courier_row :=
  head (select_rows (fun r => cr_phone r =s? phone) (tb_couriers db)).

Definition GetByPhone (phone : string) : DBM (result Courier) :=
  match NormalizePhone phone with
  | Err e => mret (Err e)
  | Ok phone =>
      row ← call (Stmt no_locks (query (select_by_phone phone)));
      mret (match row with
            | inr e => Err (ErrWrap "get courier by phone" (sql_err e))
            | inl None => Err ErrCourierNotFound
            | inl (Some r) => scan_courier r
            end)
  end.

Definition Save (courier : Courier) : DBM (result unit) :=
  match firstDomainValidationErr (Courier_ValidateInvariants courier) with
  | Some e => mret (Err e)
  | None =>
      match NormalizePhone (Courier_Phone courier) with
      | Err e => mret (Err e)
      | Ok phone =>
          updated ← (if IsZero (Courier_UpdatedAt courier) then call SqlNow else mret (Courier_UpdatedAt courier));
          let row := courier_params (set_times courier (Courier_CreatedAt courier) updated) phone in
          affected ← call (Stmt (fun db => match tb_couriers db !! cr_id row with
                                           | Some _ => courier_keys row
                                           | None => []
                                           end) (update_courier row));
          mret (match affected with
                | inr e => Err (mapCourierUniqueErr e)
                | inl affected => if affected =? 0 then Err ErrCourierNotFound else Ok tt
                end)
      end
  end.

(** Newest first. *)
Definition courier_less (a b : courier_row) : bool := less_by collate_lt cr_created_at cr_id b a.

Definition in_zone (zoneID : string) (db : courier_database) (r : courier_row) : bool :=
  bool_decide (is_Some (tb_zones db !! (cr_id r, zoneID))).

(** The join: a courier has at most one row for the zone. *)
Definition select_by_zone (zoneID : string) (db : courier_database) : list courier_row :=
  order_by courier_less (select_rows (in_zone zoneID db) (tb_couriers db)).

(** The loop over rows, each scanned and tested. *)
Fixpoint scan_all {R A} (scan : R -> result A) (rows : list R) (found : list A) : result (list A) :=
  match rows with
  | [] => Ok found
  | r :: rows =>
      match scan r with
      | Err e => Err e
      | Ok a => scan_all scan rows (found ++ [a])
      end
  end.

(** A query of rows: the error of the query, of a row, or of the iteration. *)
Definition scan_query {R A} (what iterate : string) (scan : R -> result A) (f : courier_database -> list R)
  : DBM (result (list A)) :=
  selected ← call (Stmt no_locks (query f));
  match selected with
  | inr e => mret (Err (ErrWrap what (sql_err e)))
  | inl selected =>
      match scan_all scan selected [] with
      | Err e => mret (Err e)
      | Ok found =>
          failed ← call RowsErr;
          mret (match failed with
                | Some e => Err (ErrWrap iterate (sql_err e))
                | None => Ok found
                end)
      end
  end.

Definition ListByZone (zoneID : string) (limit : Z) : DBM (result (list Courier)) :=
  let zoneID := NormalizeZoneID zoneID in
  if zoneID =s? "" then mret (Err ErrCourierZoneRequired)
  else if negb (IsKnownMoscowZoneID zoneID) then mret (Err ErrCourierZoneUnknown)
  else
    scan_query "list couriers by zone" "iterate courier rows" scan_courier (fun db =>
      let rows := select_by_zone zoneID db in if limit >? 0 then limit_rows limit rows else rows).

(** ** Zones *)

Definition zone_key (courierID zoneID : string) : string := courierID +:+ "/" +:+ zoneID.

Definition insert_zone (r : zone_row) : statement courier_database unit := fun db =>
  let key := (zr_courier_id r, zr_zone_id r) in
  let primary := fun other => (zr_courier_id other =s? zr_courier_id r) && zr_is_primary other in
  match tb_zones db !! key with
  | Some _ => (inr (unique_violation "courier_zones_pkey"), db)
  | None =>
      if zr_is_primary r && existsb primary (map snd (map_to_list (tb_zones db)))
      then (inr (unique_violation "idx_courier_zones_one_primary"), db)
      else
      match tb_couriers db !! zr_courier_id r with
      | None => (inr (foreign_key_violation "courier_zones_courier_id_fkey"), db)
      | Some _ => (inl tt, put_zones (<[key := r]> (tb_zones db)) db)
      end
  end.

Definition zone_locks (r : zone_row) : list lock :=
  ("courier_zones", zone_key (zr_courier_id r) (zr_zone_id r)) ::
  (if zr_is_primary r then [("idx_courier_zones_one_primary", zr_courier_id r)] else []).

Definition delete_zones (courierID : string) : statement courier_database unit := fun db =>
  (inl tt, put_zones (filter (fun p => p.1.1 <> courierID) (tb_zones db)) db).

Definition zones_rows (courierID : string) (db : courier_database) : list zone_row :=
  List.filter (fun r => zr_courier_id r =s? courierID) (map snd (map_to_list (tb_zones db))).

Definition deleted_zones (courierID : string) (db : courier_database) : list lock :=
  map (fun r => ("courier_zones", zone_key courierID (zr_zone_id r))) (zones_rows courierID db).

(** COUNT(DISTINCT courier_id): a courier has at most one row for a zone. *)
Definition count_assigned (zoneID courierID : string) (db : courier_database) : Z :=
  Z.of_nat (length (List.filter (fun r => (zr_zone_id r =s? zoneID) && (zr_courier_id r <>s? courierID))
    (map snd (map_to_list (tb_zones db))))).

(** The courier, locked for the rest of the transaction. *)
Definition getCourierTx (courierID : string) : DBM (result Courier) :=
  row ← call (Stmt (locked_courier courierID) (query (fun db => tb_couriers db !! courierID)));
  mret (match row with
        | inr e => Err (ErrWrap "get courier for update" (sql_err e))
        | inl None => Err ErrCourierNotFound
        | inl (Some r) => scan_courier r
        end).

Fixpoint prepare_loop (courierID : string) (zones : list CourierZone) (seen : list string)
    (result_ : list CourierZone) (primaryCount : Z) : DBM (result (list CourierZone * Z)) :=
  match zones with
  | [] => mret (Ok (result_, primaryCount))
  | zone :: rest =>
      let zone := MkCourierZone courierID (NormalizeZoneID (CZone_ZoneID zone)) (CZone_IsPrimary zone)
                    (CZone_AssignedAt zone) in
      match firstDomainValidationErr (CourierZone_ValidateInvariants zone) with
      | Some e => mret (Err e)
      | None =>
          if existsb (String.eqb (CZone_ZoneID zone)) seen then mret (Err ErrCourierZoneDuplicate)
          else
            assigned ← (if IsZero (CZone_AssignedAt zone) then call SqlNow else mret (CZone_AssignedAt zone));
            prepare_loop courierID rest (CZone_ZoneID zone :: seen)
              (result_ ++ [MkCourierZone courierID (CZone_ZoneID zone) (CZone_IsPrimary zone) assigned])
              (if CZone_IsPrimary zone then primaryCount + 1 else primaryCount)
      end
  end.

Definition make_primary (z : CourierZone) : CourierZone :=
  MkCourierZone (CZone_CourierID z) (CZone_ZoneID z) true (CZone_AssignedAt z).

Definition prepareZones (courierID : string) (zones : list CourierZone) : DBM (result (list CourierZone)) :=
  prepared ← prepare_loop courierID zones [] [] 0;
  mret (match prepared with
        | Err e => Err e
        | Ok (result_, primaryCount) =>
            if primaryCount >? 1 then Err ErrCourierPrimaryZoneConflict
            else
              Ok (match result_ with
                  | z :: rest => if primaryCount =? 0 then make_primary z :: rest else result_
                  | [] => []
                  end)
        end).

Fixpoint ensureZoneCapacityTx (courierID : string) (zones : list CourierZone) : DBM (option err) :=
  match zones with
  | [] => mret None
  | zone :: rest =>
      assigned ← call (Stmt no_locks (query (count_assigned (CZone_ZoneID zone) courierID)));
      match assigned with
      | inr e => mret (Some (ErrWrap ("check zone capacity for zone " +:+ CZone_ZoneID zone) (sql_err e)))
      | inl assigned =>
          if assigned >=? MaxCouriersPerZoneDefault then mret (Some ErrCourierZoneCapacityExceeded)
          else ensureZoneCapacityTx courierID rest
      end
  end.

Definition zone_params (z : CourierZone) : zone_row :=
  MkZoneRow (CZone_CourierID z) (CZone_ZoneID z) (CZone_IsPrimary z) (pg_time (CZone_AssignedAt z)).

Fixpoint insert_zones (zones : list CourierZone) : DBM (option sql_error) :=
  match zones with
  | [] => mret None
  | zone :: rest =>
      inserted ← call (Stmt (fun _ => zone_locks (zone_params zone)) (insert_zone (zone_params zone)));
      match inserted with
      | inr e => mret (Some e)
      | inl _ => insert_zones rest
      end
  end.

(** [return err] with the deferred rollback. *)
Definition roll_back {A} (e : err) : DBM (result A) := call Rollback;; mret (Err e).

(** From the prepared zones to the commit. *)
Definition store_zones (courierID : string) (prepared : list CourierZone) : DBM (result unit) :=
  deleted ← call (Stmt (deleted_zones courierID) (delete_zones courierID));
  match deleted with
  | inr e => roll_back (ErrWrap "delete courier zones" (sql_err e))
  | inl _ =>
      failed ← insert_zones prepared;
      match failed with
      | Some e => roll_back (ErrWrap "insert courier zone" (sql_err e))
      | None =>
          committed ← call Commit;
          match committed with
          | Some e => roll_back (ErrWrap "commit courier zones tx" (sql_err e))
          | None => mret (Ok tt)
          end
      end
  end.

Definition ReplaceZones (courierID : string) (zones : list CourierZone) : DBM (result unit) :=
  let courierID := TrimSpace courierID in
  if courierID =s? "" then mret (Err ErrCourierIDRequired)
  else if (length zones =? 0)%nat then mret (Err ErrCourierZonesRequired)
  else
    begun ← call Begin;
    match begun with
    | Some e => mret (Err (ErrWrap "begin courier zones tx" (sql_err e)))
    | None =>
        courier ← getCourierTx courierID;
        match courier with
        | Err e => roll_back e
        | Ok courier =>
            if negb (AllowsMultipleZones (Courier_VehicleType courier)) && (1 <? length zones)%nat
            then roll_back ErrCourierZoneLimitExceeded
            else
              prepared ← prepareZones courierID zones;
              match prepared with
              | Err e => roll_back e
              | Ok prepared =>
                  full ← ensureZoneCapacityTx courierID prepared;
                  match full with
                  | Some e => roll_back e
                  | None => store_zones courierID prepared
                  end
              end
        end
    end.

Definition ensureCourierExists (courierID : string) : DBM (option err) :=
  exists_ ← call (Stmt no_locks (query (fun db => bool_decide (is_Some (tb_couriers db !! courierID)))));
  mret (match exists_ with
        | inr e => Some (ErrWrap "check courier exists" (sql_err e))
        | inl false => Some ErrCourierNotFound
        | inl true => None
        end).

(** Primary first, then by zone. *)
Definition zone_less (a b : zone_row) : bool :=
  if negb (Bool.eqb (zr_is_primary a) (zr_is_primary b)) then zr_is_primary a
  else collate_lt (zr_zone_id a) (zr_zone_id b).

Definition zone_of (r : zone_row) : CourierZone :=
  MkCourierZone (zr_courier_id r) (zr_zone_id r) (zr_is_primary r) (zr_created_at r).

Definition ListZones (courierID : string) : DBM (result (list CourierZone)) :=
  let courierID := TrimSpace courierID in
  if courierID =s? "" then mret (Err ErrCourierIDRequired)
  else
    missing ← ensureCourierExists courierID;
    match missing with
    | Some e => mret (Err e)
    | None =>
        scan_query "list courier zones" "iterate courier zones" (fun r => Ok (zone_of r))
          (fun db => order_by zone_less (zones_rows courierID db))
    end.

(** ** Slots *)

Definition insert_slot (r : slot_row) : statement courier_database unit := fun db =>
  if negb (fits_integer (sr_duration_hours r)) then (inr numeric_out_of_range, db)
  else if negb (duration_hours_check (sr_duration_hours r))
  then (inr (check_violation "courier_slots_duration_hours_check"), db)
  else if negb (slot_range_check r) then (inr (check_violation "courier_slots_slot_range_chk"), db)
  else if negb (slot_status_check (sr_status r)) then (inr (check_violation "courier_slots_status_check"), db)
  else
  match tb_slots db !! sr_id r with
  | Some _ => (inr (unique_violation "courier_slots_pkey"), db)
  | None =>
      if existsb (fun other => (sr_courier_id other =s? sr_courier_id r) && (sr_slot_start other =? sr_slot_start r))
           (map snd (map_to_list (tb_slots db)))
      then (inr (unique_violation "idx_courier_slots_unique_start"), db)
      else
      match tb_couriers db !! sr_courier_id r with
      | None => (inr (foreign_key_violation "courier_slots_courier_id_fkey"), db)
      | Some _ => (inl tt, put_slots (<[sr_id r := r]> (tb_slots db)) db)
      end
  end.

Definition slot_locks (r : slot_row) : list lock :=
  [("courier_slots", sr_id r); ("idx_courier_slots_unique_start", zone_key (sr_courier_id r) (pretty (sr_slot_start r)))].

Definition overlapping (courierID : string) (start end_ : Time) (r : slot_row) : bool :=
  (sr_courier_id r =s? courierID) && (sr_status r <>s? "canceled") &&
  (sr_slot_start r <? pg_time end_) && (sr_slot_end r >? pg_time start).

Definition overlap_exists (courierID : string) (start end_ : Time) (db : courier_database) : bool :=
  existsb (overlapping courierID start end_) (map snd (map_to_list (tb_slots db))).

Definition slot_params (s : CourierSlot) (created updated : Time) : slot_row :=
  MkSlotRow (Slot_ID s) (Slot_CourierID s) (pg_time (Slot_Start s)) (pg_time (Slot_End s)) (Slot_DurationHours s)
    (Slot_Status s) (pg_time created) (pg_time updated).

Definition set_status (s : CourierSlot) (status : CourierSlotStatus) : CourierSlot :=
  MkCourierSlot (Slot_ID s) (Slot_CourierID s) (Slot_Start s) (Slot_End s) (Slot_DurationHours s) status
    (Slot_CreatedAt s) (Slot_UpdatedAt s).

(** From the test for overlaps to the commit. *)
Definition store_slot (slot : CourierSlot) : DBM (result unit) :=
  overlap ← call (Stmt no_locks (query (overlap_exists (Slot_CourierID slot) (Slot_Start slot) (Slot_End slot))));
  match overlap with
  | inr e => roll_back (ErrWrap "check courier slot overlap" (sql_err e))
  | inl true => roll_back ErrCourierSlotConflict
  | inl false =>
      now ← call SqlNow;
      let created := if IsZero (Slot_CreatedAt slot) then now else Slot_CreatedAt slot in
      let updated := if IsZero (Slot_UpdatedAt slot) then created else Slot_UpdatedAt slot in
      let row := slot_params slot created updated in
      inserted ← call (Stmt (fun _ => slot_locks row) (insert_slot row));
      match inserted with
      | inr e =>
          roll_back (if isUniqueViolation e then ErrCourierSlotConflict else ErrWrap "insert courier slot" (sql_err e))
      | inl _ =>
          committed ← call Commit;
          match committed with
          | Some e => roll_back (ErrWrap "commit courier slot tx" (sql_err e))
          | None => mret (Ok tt)
          end
      end
  end.

Definition CreateSlot (slot : CourierSlot) : DBM (result unit) :=
  let slot := set_status slot (if Slot_Status slot =s? "" then CourierSlotStatusPlanned else Slot_Status slot) in
  match firstDomainValidationErr (CourierSlot_ValidateInvariants slot) with
  | Some e => mret (Err e)
  | None =>
      begun ← call Begin;
      match begun with
      | Some e => mret (Err (ErrWrap "begin courier slot tx" (sql_err e)))
      | None =>
          courier ← getCourierTx (Slot_CourierID slot);
          match courier with
          | Err e => roll_back e
          | Ok courier =>
              if IsNightShiftSlot (Slot_Start slot) (Slot_End slot) && (Courier_VehicleType courier <>s? VehicleTypeCar)
              then roll_back ErrCourierNightSlotCarOnly
              else store_slot slot
          end
      end
  end.

Definition slot_less (a b : slot_row) : bool := less_by collate_lt sr_slot_start sr_id a b.

Definition slot_of (r : slot_row) : CourierSlot :=
  MkCourierSlot (sr_id r) (sr_courier_id r) (sr_slot_start r) (sr_slot_end r) (sr_duration_hours r) (sr_status r)
    (sr_created_at r) (sr_updated_at r).

Definition scan_slot (r : slot_row) : result CourierSlot :=
  if negb (CourierSlotStatus_Valid (sr_status r)) then Err ErrCourierSlotStatusInvalid else Ok (slot_of r).

(** The condition the [switch] adds. *)
Definition slot_in_range (from to : Time) (r : slot_row) : bool :=
  if negb (IsZero from) && negb (IsZero to) then (sr_slot_end r >? pg_time from) && (sr_slot_start r <? pg_time to)
  else if negb (IsZero from) then sr_slot_end r >? pg_time from
  else if negb (IsZero to) then sr_slot_start r <? pg_time to
  else true.

Definition ListSlots (courierID : string) (from to : Time) : DBM (result (list CourierSlot)) :=
  let courierID := TrimSpace courierID in
  if courierID =s? "" then mret (Err ErrCourierIDRequired)
  else
    missing ← ensureCourierExists courierID;
    match missing with
    | Some e => mret (Err e)
    | None =>
        scan_query "list courier slots" "iterate courier slots" scan_slot (fun db =>
          order_by slot_less (select_rows (fun r => (sr_courier_id r =s? courierID) && slot_in_range from to r)
            (tb_slots db)))
    end.

(** ** Vehicle capabilities *)

Definition capability_of (r : capability_row) : CourierVehicleCapability :=
  MkCapability (vr_vehicle_type r) (vr_max_weight_grams r) (vr_max_volume_cm3 r) (vr_max_orders_per_trip r)
    (vr_updated_at r).

Definition scan_capability (r : capability_row) : result CourierVehicleCapability :=
  match firstDomainValidationErr (Capability_ValidateInvariants (capability_of r)) with
  | Some e => Err e
  | None => Ok (capability_of r)
  end.

Definition GetVehicleCapability (vehicleType : VehicleType) : DBM (result CourierVehicleCapability) :=
  if negb (VehicleType_Valid vehicleType) then mret (Err ErrCourierVehicleTypeInvalid)
  else
    row ← call (Stmt no_locks (query (fun db => tb_capabilities db !! vehicleType)));
    mret (match row with
          | inr e => Err (ErrWrap "get courier vehicle capability" (sql_err e))
          | inl None => Err ErrCourierVehicleCapabilityNotFound
          | inl (Some r) => scan_capability r
          end).

Definition ListVehicleCapabilities : DBM (result (list CourierVehicleCapability)) :=
  scan_query "list courier vehicle capabilities" "iterate courier vehicle capabilities" scan_capability (fun db =>
    order_by (fun a b => collate_lt (vr_vehicle_type a) (vr_vehicle_type b))
      (select_rows (fun _ => true) (tb_capabilities db))).

(** ** Ratings *)

Definition fits_smallint (z : Z) : bool := (-32768 <=? z) && (z <=? 32767).

Definition insert_rating (r : rating_row) : statement courier_database unit := fun db =>
  if negb (fits_smallint (rr_score r)) then (inr numeric_out_of_range, db)
  else if negb (score_check (rr_score r)) then (inr (check_violation "courier_ratings_score_check"), db)
  else
  match tb_ratings db !! rr_id r, tb_couriers db !! rr_courier_id r with
  | Some _, _ => (inr (unique_violation "courier_ratings_pkey"), db)
  | None, None => (inr (foreign_key_violation "courier_ratings_courier_id_fkey"), db)
  | None, Some _ => (inl tt, put_ratings (<[rr_id r := r]> (tb_ratings db)) db)
  end.

Definition SubmitRating (rating : CourierRating) : DBM (result unit) :=
  match firstDomainValidationErr (CourierRating_ValidateInvariants rating) with
  | Some e => mret (Err e)
  | None =>
      created ← (if IsZero (Rating_CreatedAt rating) then call SqlNow else mret (Rating_CreatedAt rating));
      let row := MkRatingRow (TrimSpace (Rating_ID rating)) (TrimSpace (Rating_CourierID rating))
                   (Rating_Score rating) (Rating_Tags rating) (TrimSpace (Rating_Comment rating)) (pg_time created) in
      inserted ← call (Stmt (fun db => ("courier_ratings", rr_id row) :: locked_courier (rr_courier_id row) db)
                            (insert_rating row));
      mret (match inserted with
            | inr e =>
                Err (if isUniqueViolation e then ErrCourierRatingAlreadyExists
                     else if isForeignKeyViolation e then ErrCourierNotFound
                     else ErrWrap "insert courier rating" (sql_err e))
            | inl _ => Ok tt
            end)
  end.

Definition count_where (p : rating_row -> bool) (rows : list rating_row) : Z :=
  Z.of_nat (length (List.filter p rows)).

Definition has_tag (tag : string) (r : rating_row) : bool := existsb (String.eqb tag) (rr_tags r).

(** AVG of double precision: the sum of the scores, exact as long as it is below
    2^53, divided by their number; 0 when there is none. *)
Definition average_score (rows : list rating_row) : float64 :=
  match rows with
  | [] => float64_of_int 0
  | _ => float64_div (float64_of_int (foldl (fun acc r => acc + rr_score r) 0 rows))
           (float64_of_int (Z.of_nat (length rows)))
  end.

(** MAX is NULL when there is no row. *)
Definition max_created (acc : option Time) (r : rating_row) : option Time :=
  match acc with
  | None => Some (rr_created_at r)
  | Some t => Some (Z.max t (rr_created_at r))
  end.

Definition rating_summary (courierID : string) (db : courier_database) : CourierRatingSummary :=
  let rows := select_rows (fun r => rr_courier_id r =s? courierID) (tb_ratings db) in
  MkRatingSummary courierID (Z.of_nat (length rows)) (average_score rows)
    (count_where (fun r => rr_score r <? 3) rows)
    (count_where (fun r => rr_score r =? 1) rows) (count_where (fun r => rr_score r =? 2) rows)
    (count_where (fun r => rr_score r =? 3) rows) (count_where (fun r => rr_score r =? 4) rows)
    (count_where (fun r => rr_score r =? 5) rows)
    (count_where (has_tag "on_time") rows) (count_where (has_tag "polite") rows)
    (count_where (has_tag "careful_handling") rows) (count_where (has_tag "delayed_delivery") rows)
    (count_where (has_tag "rude_behavior") rows) (count_where (has_tag "damaged_order") rows)
    (count_where (has_tag "other_issue") rows) (default 0 (foldl max_created None rows)).

Definition GetRatingSummary (courierID : string) : DBM (result CourierRatingSummary) :=
  let courierID := TrimSpace courierID in
  if courierID =s? "" then mret (Err ErrCourierIDRequired)
  else
    missing ← ensureCourierExists courierID;
    match missing with
    | Some e => mret (Err e)
    | None =>
        summary ← call (Stmt no_locks (query (rating_summary courierID)));
        mret (match summary with
              | inr e => Err (ErrWrap "get courier rating summary" (sql_err e))
              | inl summary => Ok summary
              end)
    end.
End Repository.
End PgCouriers.
