(* ===== verification/PgConcurrency.v ===== *)
(** * Connections that share a database

    Several connections run SQL programs against one database, at the isolation
    level READ COMMITTED the repositories use: a statement sees what is
    committed when it runs, with the writes of its own transaction; a commit
    writes the rows the transaction has changed.  A statement waits while
    another transaction holds a row or key that it locks; locks are released at
    the end of the transaction, and at once when it fails.

    [pool_invariant] is the proof rule: when every program is correct whatever
    the others commit without taking its locks, the invariant of the tables
    holds after every schedule. *)

From S2P Require Import Prelude GoLib Domain Prog Postgres.

(** ** Writing the rows that changed *)

Definition patch_map {K A} `{Countable K, EqDecision A} (before after base : gmap K A) : gmap K A :=
  let changed := merge (fun x y => if decide (x = y) then None else Some y) before after in
  merge (fun w b => match w with Some y => y | None => b end) changed base.

Section PatchMap.
Context {K A : Type} `{Countable K, EqDecision A}.
Implicit Types (m b : gmap K A) (k : K).

Lemma lookup_patch_map m (m' : gmap K A) b k :
  patch_map m m' b !! k = if decide (m !! k = m' !! k) then b !! k else m' !! k.
Proof.
  unfold patch_map. rewrite lookup_merge, lookup_merge.
  destruct (m !! k), (m' !! k), (b !! k); simpl; repeat case_decide; naive_solver.
Qed.

Lemma patch_map_same m b : patch_map m m b = b.
Proof. apply map_eq. intros k. rewrite lookup_patch_map. by rewrite decide_True. Qed.

Lemma patch_map_insert m b k x : m !! k <> Some x -> patch_map m (<[k := x]> m) b = <[k := x]> b.
Proof.
  intros Hk. apply map_eq. intros k'. rewrite lookup_patch_map, !lookup_insert.
  destruct (decide (k = k')) as [<-|]; [by rewrite decide_False|by rewrite decide_True].
Qed.
End PatchMap.

(** The tables of a database, as far as their rows can be written. *)
Class Tables (DB : Type) := patch : DB -> DB -> DB -> DB.

Class TablesLaws (DB : Type) {T : Tables DB} : Prop :=
  patch_same : forall v base : DB, patch v v base = base.

(** ** Connections *)

Section Connections.
Context {DB R : Type} {T : Tables DB}.

(** An open transaction: its writes, as a function of what is committed, and
    its locks. *)
Inductive conn_tx : Type :=
| Idle
| Open (writes : DB -> DB) (locks : list lock)
| Failed.

Definition held (tx : conn_tx) : list lock := match tx with Open _ locks => locks | _ => [] end.

Record conn := MkConn {
  cn_prog : SQL DB R;
  cn_tx : conn_tx;
  cn_nth : nat;                (* commands so far *)
}.

Record pool := MkPool {
  pl_db : DB;                  (* what is committed *)
  pl_conns : list conn;
}.

Definition blocked (locks others : list lock) : bool := existsb (fun l => bool_decide (l ∈ others)) locks.

(** A command: its answer, what is committed then, and the transaction; [None]
    when it has to wait. *)
Definition answer (o : option outage) (now : Time) (uuid : string) (others : list lock) (db : DB) (tx : conn_tx)
  {X} (c : sql DB X) : option (X * DB * conn_tx) :=
  match c in sql _ X return option (X * DB * conn_tx) with
  | Begin =>
      match o with
      | Some o => Some (Some (DriverError (out_msg o)), db, tx)
      | None => Some (None, db, Open (fun base => base) [])
      end
  | Commit =>
      match tx, o with
      | Open writes _, None => Some (None, writes db, Idle)
      | Open writes _, Some o =>
          Some (Some (DriverError (out_msg o)), if out_done o then writes db else db, Idle)
      | _, _ => Some (Some (DriverError "commit unexpectedly resulted in rollback"), db, Idle)
      end
  | Rollback => Some (tt, db, Idle)
  | Stmt locks s =>
      match tx, o with
      | Idle, _ =>
          if blocked (locks db) others then None
          else let '(r, db') := autocommit s o db in Some (r, db', Idle)
      | Open _ _, Some o => Some (inr (DriverError (out_msg o)), db, Failed)
      | Open writes mine, None =>
          let view := writes db in
          if blocked (locks view) others then None
          else
            match s view with
            | (inl a, view') => Some (inl a, db, Open (fun base => patch view view' (writes base)) (locks view ++ mine))
            | (inr e, _) => Some (inr e, db, Failed)
            end
      | Failed, _ => Some (inr in_failed_transaction, db, Failed)
      end
  | RowsErr => Some (match o with Some o => Some (DriverError (out_msg o)) | None => None end, db, tx)
  | SqlNow => Some (now, db, tx)
  | SqlUUID => Some (uuid, db, tx)
  end.

(** The next command of a connection. *)
Definition conn_step (sur : surroundings) (others : list lock) (db : DB) (c : conn) : option (DB * conn) :=
  match cn_prog c with
  | Ret _ => None
  | Vis cmd k =>
      let n := cn_nth c in
      match answer (sur_outage sur n) (sur_clock sur n) (sur_uuid sur n) others db (cn_tx c) cmd with
      | None => None
      | Some (x, db', tx) => Some (db', MkConn (k x) tx (S n))
      end
  end.

Definition locks_of (conns : list conn) : list lock := flat_map (fun c => held (cn_tx c)) conns.

(** The locks of the connections but one. *)
Definition locks_but (i : nat) (conns : list conn) : list lock := locks_of (delete i conns).

Definition pool_step (sur : nat -> surroundings) (i : nat) (p : pool) : pool :=
  match pl_conns p !! i with
  | None => p
  | Some c =>
      match conn_step (sur i) (locks_but i (pl_conns p)) (pl_db p) c with
      | None => p
      | Some (db, c') => MkPool db (<[i := c']> (pl_conns p))
      end
  end.

Definition pool_exec (sur : nat -> surroundings) (schedule : list nat) (p : pool) : pool :=
  foldl (fun p i => pool_step sur i p) p schedule.

(** ** The proof rule *)

Section Rule.
Context (I : DB -> Prop) (stable : list lock -> DB -> DB -> Prop).
Context `{stable_pre : forall L, PreOrder (stable L)}.

(** A change of what is committed, by a connection with these locks. *)
Definition commit_ok (L : list lock) (db db' : DB) : Prop :=
  I db' /\ forall L', L' ## L -> stable L' db db'.

Lemma commit_ok_refl L db : I db -> commit_ok L db db.
Proof. split; [done|]. intros. reflexivity. Qed.

(** What a command may do when [db] is committed: its answer, what is committed
    then, and the transaction. *)
Definition at_spec {X} (c : sql DB X) (db : DB) (tx : conn_tx) : (X -> DB -> conn_tx -> Prop) -> Prop :=
  match c in sql _ X return (X -> DB -> conn_tx -> Prop) -> Prop with
  | Begin => fun Q => (forall m, Q (Some (DriverError m)) db tx) /\ Q None db (Open (fun base => base) [])
  | Commit => fun Q =>
      (forall m, Q (Some (DriverError m)) db Idle) /\
      match tx with
      | Open writes locks => commit_ok locks db (writes db) /\ Q None (writes db) Idle /\
          (forall m, Q (Some (DriverError m)) (writes db) Idle)
      | _ => True
      end
  | Rollback => fun Q => Q tt db Idle
  | Stmt locks s => fun Q =>
      match tx with
      | Idle =>
          (forall m, Q (inr (DriverError m)) db Idle) /\
          match s db with
          | (inl a, db') => commit_ok (locks db) db db' /\ Q (inl a) db' Idle /\
              (forall m, Q (inr (DriverError m)) db' Idle)
          | (inr e, _) => Q (inr e) db Idle
          end
      | Open writes mine =>
          (forall m, Q (inr (DriverError m)) db Failed) /\
          match s (writes db) with
          | (inl a, view') =>
              Q (inl a) db (Open (fun base => patch (writes db) view' (writes base)) (locks (writes db) ++ mine))
          | (inr e, _) => Q (inr e) db Failed
          end
      | Failed => Q (inr in_failed_transaction) db Failed
      end
  | RowsErr => fun Q => (forall m, Q (Some (DriverError m)) db tx) /\ Q None db tx
  | SqlNow => fun Q => forall t, Q t db tx
  | SqlUUID => fun Q => forall id, Q id db tx
  end.

Lemma at_spec_mono {X} (c : sql DB X) db tx (P Q : X -> DB -> conn_tx -> Prop) :
  (forall x db' tx', P x db' tx' -> Q x db' tx') -> at_spec c db tx P -> at_spec c db tx Q.
Proof.
  intros HPQ. destruct c; simpl; try naive_solver.
  - destruct tx; naive_solver.
  - destruct tx as [|writes mine|]; [destruct (s db) as [[a|e] db']|destruct (s (writes db)) as [[a|e] db']|]; naive_solver.
Qed.

(** The ghost state is what was committed at the last command, and the
    transaction; before the next command others may have committed. *)
Definition rg_spec : cmd_spec (sql DB) (DB * conn_tx) := fun X c g Q =>
  forall db, I db -> stable (held g.2) g.1 db -> at_spec c db g.2 (fun x db' tx' => Q x (db', tx')).

#[global] Instance rg_spec_mono : MonotoneSpec rg_spec.
Proof. intros X c g P Q HPQ H db Hi Hs. eapply at_spec_mono; [|by apply H]. intros x db' tx'. apply HPQ. Qed.

(** The same with a record of what the connection's own commands did to the
    committed tables: the tables before and after each of them. *)
Definition own_spec : cmd_spec (sql DB) (list (DB * DB) * (DB * conn_tx)) := fun X c g Q =>
  forall db, I db -> stable (held g.2.2) g.2.1 db ->
    at_spec c db g.2.2 (fun x db' tx' => Q x (g.1 ++ [(db, db')], (db', tx'))).

#[global] Instance own_spec_mono : MonotoneSpec own_spec.
Proof. intros X c g P Q HPQ H db Hi Hs. eapply at_spec_mono; [|by apply H]. intros x db' tx'. apply HPQ. Qed.

Lemma rg_own {A} (p : SQL DB A) Q : forall own g,
  wp rg_spec p g Q -> wp own_spec p (own, g) (fun a g' => Q a g'.2).
Proof.
  induction p as [a|X c k IH]; intros own g H; simpl in *; [done|].
  intros db Hi Hs. eapply at_spec_mono; [|by apply H]. intros x db' tx' Hx. by apply IH.
Qed.

(** The connections have the tables [before] and [after] of each of their
    commands on record, as a history of all of them says. *)
Definition history : Type := list (nat * (DB * DB)).

Definition own (i : nat) (h : history) : list (DB * DB) :=
  omap (fun e => if decide (fst e = i) then Some (snd e) else None) h.

Lemma own_app i h1 h2 : own i (h1 ++ h2) = own i h1 ++ own i h2.
Proof. apply omap_app. Qed.

Lemma own_single i j e : own i [(j, e)] = if decide (j = i) then [e] else [].
Proof. unfold own. simpl. by destruct (decide (j = i)). Qed.

Lemma elem_of_own i h e : e ∈ own i h <-> (i, e) ∈ h.
Proof.
  unfold own. rewrite list_elem_of_omap. split.
  - intros ([j e'] & Hin & E). simpl in E. destruct (decide (j = i)); [|done]. by injection E as <-; subst.
  - intros H. exists (i, e). split; [done|]. simpl. by rewrite decide_True.
Qed.

(** What each connection promises of its result and its own commands. *)
Context (Post : nat -> R -> list (DB * DB) -> Prop).

Definition conn_ok (db : DB) (h : history) (i : nat) (c : conn) : Prop :=
  exists seen, stable (held (cn_tx c)) seen db /\
    wp own_spec (cn_prog c) (own i h, (seen, cn_tx c)) (fun r g => Post i r g.1).

Record pool_ok (h : history) (p : pool) : Prop := MkPoolOk {
  po_db : I (pl_db p);
  po_conns : forall i c, pl_conns p !! i = Some c -> conn_ok (pl_db p) h i c;
  po_locks : forall i j c d, pl_conns p !! i = Some c -> pl_conns p !! j = Some d -> i <> j ->
    held (cn_tx c) ## held (cn_tx d);
}.

Lemma blocked_false locks others : blocked locks others = false -> locks ## others.
Proof.
  unfold blocked. intros H l Hl Ho. apply not_true_iff_false in H. apply H.
  apply existsb_exists. exists l. split; [by apply list_elem_of_In|by apply bool_decide_eq_true_2].
Qed.

(** One command: what it commits is acceptable, and its new locks are free. *)
Lemma answer_ok o now uuid others db tx {X} (c : sql DB X) Q x db' tx' :
  I db -> held tx ## others ->
  at_spec c db tx Q -> answer o now uuid others db tx c = Some (x, db', tx') ->
  (exists L, L ## others /\ commit_ok L db db') /\ held tx' ## others /\ Q x db' tx'.
Proof.
  intros Hi Hd Hspec Ha.
  assert (exists L, L ## others /\ commit_ok L db db) as Hnone
    by (exists []; split; [set_solver|by apply commit_ok_refl]).
  destruct c; simpl in Hspec, Ha.
  - destruct Hspec. destruct o; injection Ha as <- <- <-; (split_and!; [done| |done]); [done|set_solver].
  - destruct Hspec as [H1 H2].
    destruct tx as [|writes locks|], o as [o|]; try destruct H2 as (? & ? & ?);
      injection Ha as <- <- <-; try (split_and!; [done|set_solver|done]).
    + destruct (out_done o); (split_and!; [|set_solver|done]); [by exists locks|done].
    + split_and!; [by exists locks|set_solver|done].
  - injection Ha as <- <- <-. split_and!; [done|set_solver|done].
  - destruct tx as [|writes mine|].
    + destruct (blocked (locks db) others) eqn:Hb; [done|]. apply blocked_false in Hb.
      destruct Hspec as [H1 H2]. unfold autocommit in Ha.
      destruct (s db) as [[a|e] db1], o as [o|]; try destruct H2 as (? & ? & ?);
        injection Ha as <- <- <-; try (split_and!; [done|set_solver|done]).
      * destruct (out_done o); (split_and!; [|set_solver|done]); [by exists (locks db)|done].
      * split_and!; [by exists (locks db)|set_solver|done].
    + destruct Hspec as [H1 H2]. destruct o as [o|]; [injection Ha as <- <- <-; split_and!; [done|set_solver|done]|].
      destruct (blocked (locks (writes db)) others) eqn:Hb; [done|]. apply blocked_false in Hb.
      destruct (s (writes db)) as [[a|e] v]; injection Ha as <- <- <-; (split_and!; [done| |done]); set_solver.
    + injection Ha as <- <- <-. split_and!; [done|set_solver|done].
  - destruct Hspec. destruct o; injection Ha as <- <- <-; by split_and!.
  - injection Ha as <- <- <-. by split_and!.
  - injection Ha as <- <- <-. by split_and!.
Qed.

Lemma elem_of_locks_but i conns l : l ∈ locks_but i conns ->
  exists j c, j <> i /\ conns !! j = Some c /\ l ∈ held (cn_tx c).
Proof.
  unfold locks_but, locks_of. rewrite list_elem_of_In, in_flat_map. intros (c & Hc & Hl).
  apply list_elem_of_In in Hc, Hl. apply list_elem_of_lookup in Hc as [j Hj].
  destruct (decide (j < i)%nat).
  - rewrite list_lookup_delete_lt in Hj by lia. exists j, c. split_and!; [lia|done..].
  - rewrite list_lookup_delete_ge in Hj by lia. exists (S j), c. split_and!; [lia|done..].
Qed.

Lemma locks_but_elem i j conns c : conns !! j = Some c -> j <> i ->
  forall l, l ∈ held (cn_tx c) -> l ∈ locks_but i conns.
Proof.
  intros Hj Hne l Hl. unfold locks_but, locks_of. apply list_elem_of_In, in_flat_map. exists c.
  split; apply list_elem_of_In; [|done]. apply list_elem_of_lookup. destruct (decide (j < i)%nat).
  - exists j. by rewrite list_lookup_delete_lt.
  - exists (pred j). rewrite list_lookup_delete_ge by lia. by replace (S (pred j)) with j by lia.
Qed.

(** What a step adds to the history: nothing when the connection is done or
    has to wait. *)
Definition pool_event (sur : nat -> surroundings) (i : nat) (p : pool) : history :=
  match pl_conns p !! i with
  | None => []
  | Some c =>
      match conn_step (sur i) (locks_but i (pl_conns p)) (pl_db p) c with
      | None => []
      | Some (db, _) => [(i, (pl_db p, db))]
      end
  end.

Fixpoint pool_history (sur : nat -> surroundings) (schedule : list nat) (p : pool) : history :=
  match schedule with
  | [] => []
  | i :: schedule => pool_event sur i p ++ pool_history sur schedule (pool_step sur i p)
  end.

Lemma pool_step_ok sur i h p : pool_ok h p ->
  pool_ok (h ++ pool_event sur i p) (pool_step sur i p) /\ stable [] (pl_db p) (pl_db (pool_step sur i p)).
Proof.
  intros Hp. pose proof Hp as [Hi Hc Hl]. unfold pool_step, pool_event.
  assert (pool_ok (h ++ []) p /\ stable [] (pl_db p) (pl_db p)) as Hsame by (rewrite app_nil_r; by split).
  destruct (pl_conns p !! i) as [c|] eqn:Ei; [|done].
  set (others := locks_but i (pl_conns p)). unfold conn_step.
  destruct (cn_prog c) as [r|X cmd k] eqn:Ep; [done|].
  destruct (answer _ _ _ _ _ _ cmd) as [[[x db'] tx']|] eqn:Ea; [|done].
  destruct (Hc i c Ei) as (seen & Hs & Hw). rewrite Ep in Hw. simpl in Hw.
  assert (held (cn_tx c) ## others) as Hd.
  { intros l Hl1 Hl2. apply elem_of_locks_but in Hl2 as (j & d & Hj & Ej & Hd).
    by apply (Hl i j c d Ei Ej (not_eq_sym Hj) l). }
  destruct (answer_ok _ _ _ _ _ _ _ _ _ _ _ Hi Hd (Hw _ Hi Hs) Ea) as ((L & HL & Hdb & Hst) & Hheld & HQ).
  split; [|apply Hst; set_solver]. split; simpl; [done| |].
  - intros j d Hj. unfold conn_ok. rewrite own_app, own_single.
    apply list_lookup_insert_Some in Hj as [(<- & <- & _)|(Hne & Hj)].
    + rewrite decide_True by done. exists db'. split; [reflexivity|done].
    + rewrite decide_False by done. rewrite app_nil_r.
      destruct (Hc j d Hj) as (seen' & Hs' & Hw'). exists seen'. split; [|done].
      trans (pl_db p); [done|]. apply Hst. intros l Hl1 Hl2.
      apply (HL l Hl2). by apply (locks_but_elem i j _ d Hj (not_eq_sym Hne)).
  - intros j1 j2 c1 c2 H1 H2 Hne.
    apply list_lookup_insert_Some in H1 as [(<- & <- & _)|(Hn1 & H1)],
      H2 as [(<- & <- & _)|(Hn2 & H2)]; simpl; [done| | |by eapply Hl].
    + intros l Hl1 Hl2. apply (Hheld l Hl1). by apply (locks_but_elem i j2 _ c2 H2 (not_eq_sym Hn2)).
    + intros l Hl1 Hl2. apply (Hheld l Hl2). by apply (locks_but_elem i j1 _ c1 H1 (not_eq_sym Hn1)).
Qed.

Lemma pool_exec_ok sur schedule : forall h p, pool_ok h p ->
  pool_ok (h ++ pool_history sur schedule p) (pool_exec sur schedule p).
Proof.
  induction schedule as [|i l IH]; intros h p Hp; simpl; [by rewrite app_nil_r|].
  rewrite app_assoc. by apply IH, pool_step_ok.
Qed.

Lemma pool_exec_stable sur schedule : forall h p, pool_ok h p ->
  stable [] (pl_db p) (pl_db (pool_exec sur schedule p)).
Proof.
  induction schedule as [|i l IH]; intros h p Hp; simpl; [done|].
  destruct (pool_step_ok sur i h p Hp) as [Hp' Hs]. trans (pl_db (pool_step sur i p)); [done|by eapply IH].
Qed.

(** What is in the history happened after the beginning and before the end. *)
Lemma pool_history_within sur schedule : forall h p i a b, pool_ok h p -> (i, (a, b)) ∈ pool_history sur schedule p ->
  stable [] (pl_db p) a /\ stable [] a b /\ stable [] b (pl_db (pool_exec sur schedule p)).
Proof.
  induction schedule as [|j l IH]; intros h p i a b Hp Hin; simpl in *; [set_solver|].
  destruct (pool_step_ok sur j h p Hp) as [Hp' Hs]. apply elem_of_app in Hin as [Hin|Hin].
  - pose proof (pool_exec_stable sur l _ _ Hp'). unfold pool_event, pool_step in *.
    destruct (pl_conns p !! j) as [c|]; [|set_solver]. destruct (conn_step _ _ _ c) as [[db c']|]; [|set_solver].
    apply list_elem_of_singleton in Hin. injection Hin as -> -> ->. split_and!; [done|done|done].
  - destruct (IH _ _ _ _ _ Hp' Hin) as (H1 & H2 & H3). split_and!; [by trans (pl_db (pool_step sur j p))|done|done].
Qed.

(** Of two commands of different connections one is the first. *)
Lemma pool_history_order sur schedule : forall h p i j a b c d, pool_ok h p -> i <> j ->
  (i, (a, b)) ∈ pool_history sur schedule p -> (j, (c, d)) ∈ pool_history sur schedule p ->
  stable [] b c \/ stable [] d a.
Proof.
  induction schedule as [|n l IH]; intros h p i j a b c d Hp Hne H1 H2; simpl in *; [set_solver|].
  destruct (pool_step_ok sur n h p Hp) as [Hp' Hs].
  assert (forall i a b, (i, (a, b)) ∈ pool_event sur n p -> i = n /\ b = pl_db (pool_step sur n p)) as Hev.
  { unfold pool_event, pool_step. intros i' a' b'. destruct (pl_conns p !! n) as [e|]; [|set_solver].
    destruct (conn_step _ _ _ e) as [[db c']|]; [|set_solver]. intros [= -> _ ->]%list_elem_of_singleton. done. }
  apply elem_of_app in H1 as [H1|H1], H2 as [H2|H2].
  - apply Hev in H1 as [-> _], H2 as [-> _]. done.
  - apply Hev in H1 as [-> ->]. left. by apply (pool_history_within sur l _ _ j c d Hp').
  - apply Hev in H2 as [-> ->]. right. by apply (pool_history_within sur l _ _ i a b Hp').
  - by eapply IH.
Qed.

(** The connection [i] has returned [r]. *)
Definition returned (p : pool) (i : nat) (r : R) : Prop :=
  exists c, pl_conns p !! i = Some c /\ cn_prog c = Ret r.

(** The commands of a history follow one another, from [db] to [db']. *)
Fixpoint chain (db : DB) (h : history) (db' : DB) : Prop :=
  match h with
  | [] => db = db'
  | (_, (a, b)) :: h => a = db /\ chain b h db'
  end.

Lemma pool_history_chain sur schedule : forall p,
  chain (pl_db p) (pool_history sur schedule p) (pl_db (pool_exec sur schedule p)).
Proof.
  induction schedule as [|i l IH]; intros p; simpl; [done|]. specialize (IH (pool_step sur i p)).
  unfold pool_event, pool_step in *. destruct (pl_conns p !! i) as [c|]; [|done].
  by destruct (conn_step _ _ _ c) as [[db c']|].
Qed.

Lemma pool_step_conns sur j p i : is_Some (pl_conns (pool_step sur j p) !! i) <-> is_Some (pl_conns p !! i).
Proof.
  unfold pool_step. destruct (pl_conns p !! j) as [c|]; [|done]. destruct (conn_step _ _ _ c) as [[db c']|]; [|done].
  simpl. by rewrite !lookup_lt_is_Some, length_insert.
Qed.

Lemma pool_exec_conns sur schedule : forall p i,
  is_Some (pl_conns (pool_exec sur schedule p) !! i) <-> is_Some (pl_conns p !! i).
Proof.
  induction schedule as [|j l IH]; intros p i; simpl; [done|]. by rewrite IH, pool_step_conns.
Qed.

(** Only connections of the pool run. *)
Lemma pool_history_conns sur schedule : forall p i e, (i, e) ∈ pool_history sur schedule p ->
  is_Some (pl_conns (pool_exec sur schedule p) !! i).
Proof.
  induction schedule as [|j l IH]; intros p i e; simpl; intros Hin; [by apply not_elem_of_nil in Hin|].
  apply elem_of_app in Hin as [Hin|Hin]; [|by eapply IH]. apply pool_exec_conns, pool_step_conns. unfold pool_event in Hin.
  destruct (pl_conns p !! j) as [c|] eqn:E; [|by apply not_elem_of_nil in Hin].
  destruct (conn_step _ _ _ c) as [[db c']|]; [|by apply not_elem_of_nil in Hin].
  apply list_elem_of_singleton in Hin. injection Hin as -> _. by eexists.
Qed.

(** A program that is cut off may return: with errors of the driver, it changes
    nothing more. *)
Lemma at_spec_idle {X} (c : sql DB X) db tx (Q : X -> DB -> conn_tx -> Prop) : at_spec c db tx Q -> exists x tx', Q x db tx'.
Proof.
  destruct c; simpl; intros H.
  - destruct H. eauto.
  - destruct H as [H _]. exists (Some (DriverError "")). eauto.
  - eauto.
  - destruct tx; [destruct H as [H _]; exists (inr (DriverError "")); eauto..|eauto].
  - destruct H. eauto.
  - exists 0. eauto.
  - exists "". eauto.
Qed.

Lemma own_extend {A} (p : SQL DB A) Q : forall mine seen tx db, I db -> stable (held tx) seen db ->
  wp own_spec p (mine, (seen, tx)) Q ->
  exists r n g, Q r (mine ++ replicate n (db, db), g) /\ forall r', p = Ret r' -> r = r'.
Proof.
  induction p as [a|X c k IH]; intros mine seen tx db Hi Hs Hw; simpl in Hw.
  - exists a, 0%nat, (seen, tx). simpl. rewrite app_nil_r. split; [done|]. by intros r' [= ->].
  - destruct (at_spec_idle _ _ _ _ (Hw db Hi Hs)) as (x & tx' & Hx).
    destruct (IH x _ db tx' db Hi (reflexivity db) Hx) as (r & n & g & HQ & _). exists r, (S n), g. split; [|done].
    by rewrite <- app_assoc in HQ.
Qed.

Lemma pool_may_return h p i : pool_ok h p -> is_Some (pl_conns p !! i) ->
  exists r n, Post i r (own i h ++ replicate n (pl_db p, pl_db p)) /\ forall r', returned p i r' -> r = r'.
Proof.
  intros [Hi Hc _] [c Ec]. destruct (Hc i c Ec) as (seen & Hs & Hw).
  destruct (own_extend _ _ _ _ _ (pl_db p) Hi Hs Hw) as (r & n & g & HP & Hr). exists r, n. split; [done|].
  intros r' (c' & Ec' & Ep). apply Hr. congruence.
Qed.

(** New connections. *)
Definition connect (db : DB) (progs : list (SQL DB R)) : pool :=
  MkPool db (map (fun p => MkConn p Idle 0) progs).

Lemma connect_ok db progs : I db ->
  (forall i p, progs !! i = Some p -> wp own_spec p ([], (db, Idle)) (fun r g => Post i r g.1)) ->
  pool_ok [] (connect db progs).
Proof.
  intros Hi Hp. split; simpl; [done| |].
  - intros i c Hc. rewrite list_lookup_fmap in Hc. destruct (progs !! i) as [p|] eqn:E; [|done].
    injection Hc as <-. exists db. split; [reflexivity|]. by apply Hp.
  - intros i j c d Hc Hd _. rewrite list_lookup_fmap in Hc, Hd.
    destruct (progs !! i), (progs !! j); try done. injection Hc as <-. injection Hd as <-. set_solver.
Qed.

Lemma pool_returned h p i r : pool_ok h p -> returned p i r -> Post i r (own i h).
Proof.
  intros [_ Hc _] (c & Ei & Ep). destruct (Hc i c Ei) as (seen & _ & Hw). by rewrite Ep in Hw.
Qed.
End Rule.

(** The rule for an invariant of the tables alone. *)
Lemma pool_invariant (I : DB -> Prop) (stable : list lock -> DB -> DB -> Prop) `{stable_pre : forall L, PreOrder (stable L)}
    sur schedule db progs :
  I db -> Forall (fun p => wp (rg_spec I stable) p (db, Idle) (fun _ _ => True)) progs ->
  I (pl_db (pool_exec sur schedule (connect db progs))).
Proof.
  intros Hi Hp. eapply po_db. apply (pool_exec_ok I stable (fun _ _ _ => True) sur schedule []).
  apply connect_ok; [apply stable_pre|done|]. intros i p E. eapply wp_mono; [apply _| |apply rg_own].
  - done.
  - by apply (proj1 (Forall_lookup _ _) Hp i p E).
Qed.
End Connections.

Arguments conn_tx DB : clear implicits.
Arguments conn DB R : clear implicits.
Arguments pool DB R : clear implicits.

(** ** Programs outside transactions *)

Section Safe.
Context {DB : Type} {T : Tables DB} (I : DB -> Prop) (stable : list lock -> DB -> DB -> Prop).
Context `{stable_pre : forall L, PreOrder (stable L)}.

(** A program that neither leaves a transaction open nor commits anything that
    is not acceptable. *)
Definition safe {A} (p : SQL DB A) : Prop := forall db, wp (rg_spec I stable) p (db, Idle) (fun _ g => g.2 = Idle).

Lemma conn_safe_ret {A} (a : A) : safe (mret a).
Proof. by intros db. Qed.

Lemma conn_safe_bind {A B} (p : SQL DB A) (f : A -> SQL DB B) : safe p -> (forall a, safe (f a)) -> safe (p ≫= f).
Proof. intros Hp Hf db. eapply wp_seq; [apply _|apply Hp|]. intros a [db' tx] E. simpl in E. subst. apply Hf. Qed.

Lemma safe_now : safe (call SqlNow).
Proof. by intros db t. Qed.

Lemma safe_uuid : safe (call SqlUUID).
Proof. by intros db t. Qed.

Lemma safe_rows_err : safe (call RowsErr).
Proof. intros db db' _ _. by split. Qed.

Lemma safe_rollback : safe (call Rollback).
Proof. by intros db db' _ _. Qed.

Lemma safe_stmt {A} locks (s : statement DB A) :
  (forall db a db', I db -> s db = (inl a, db') -> commit_ok I stable (locks db) db db') ->
  safe (call (Stmt locks s)).
Proof.
  intros H db db' Hok _. split; [done|]. destruct (s db') as [[a|e] db''] eqn:E; [|done].
  split_and!; [by eapply H|done|done].
Qed.

Lemma safe_query {A} locks (f : DB -> A) : safe (call (Stmt locks (query f))).
Proof. apply safe_stmt. intros db a db' Hok [= _ <-]. by apply commit_ok_refl. Qed.

(** Outside transactions, what every statement does the whole program does. *)
Definition each_spec (K : DB -> DB -> Prop) : cmd_spec (sql DB) unit := fun X c g Q =>
  match c with
  | Begin | Commit => False
  | Stmt _ s => forall db a db', s db = (inl a, db') -> K db db'
  | _ => True
  end /\ forall x, Q x g.

#[global] Instance each_spec_mono K : MonotoneSpec (each_spec K).
Proof. intros X c g P Q HPQ [H1 H2]. split; [done|]. auto. Qed.

Lemma own_each (K : DB -> DB -> Prop) `{Reflexive DB K} {A} (p : SQL DB A) Q : forall mine seen,
  wp (own_spec I stable) p (mine, (seen, Idle)) Q -> wp (each_spec K) p tt (fun _ _ => True) ->
  Forall (fun e => K (fst e) (snd e)) mine ->
  wp (own_spec I stable) p (mine, (seen, Idle)) (fun a g => Q a g /\ Forall (fun e => K (fst e) (snd e)) (fst g)).
Proof.
  induction p as [a|X c k IH]; intros mine seen Hw Hk Hm; simpl in *; [done|].
  destruct Hk as [Hc Hk]. intros db Hi Hs. specialize (Hw db Hi Hs).
  assert (forall x db', wp (own_spec I stable) (k x) (mine ++ [(db, db')], (db', Idle)) Q -> K db db' ->
    wp (own_spec I stable) (k x) (mine ++ [(db, db')], (db', Idle)) (fun a g => Q a g /\ Forall (fun e => K (fst e) (snd e)) (fst g)))
    as Hnext by (intros x db' Hx HK; apply IH; [done|apply Hk|apply Forall_app; split; [done|by repeat constructor]]).
  clear IH Hk. destruct c as [| | |B locks s| | |]; simpl in *; try contradiction; [by auto| |by destruct Hw; split; auto|by auto..].
  destruct Hw as [H1 H2]. split; [auto|]. destruct (s db) as [[a|e] db'] eqn:E; [|auto].
  destruct H2 as (? & ? & ?). apply Hc in E. auto.
Qed.
End Safe.

(** Solves [safe p] for a [p] built of queries. *)
Ltac solve_safe :=
  repeat first
    [ match goal with |- forall _, _ => intro end
    | apply conn_safe_ret
    | apply safe_now
    | apply safe_uuid
    | apply safe_rows_err
    | apply safe_rollback
    | apply safe_query; [apply _]
    | solve [eauto with oms nocore]
    | apply conn_safe_bind
    | match goal with |- safe _ _ (match ?x with _ => _ end) => destruct x end
    | match goal with |- safe _ _ (let _ := _ in _) => cbv zeta end ].
