(* ===== verification/PgVersions.v ===== *)
(** * The order tables under concurrent calls

    Any number of connections call the methods of PgOrders.v, PgOutbox.v and
    PgIdempotency.v at once, each a call of its own: [store_call].  The version
    in the WHERE clause of Save and the unique keys protect what each of them
    reports: a version of an order is replaced by one save at most, and an
    idempotency key is won by one request. *)

From S2P Require Import Prelude GoLib Domain OrderStore Prog Postgres PgSchema PgOrders PgOutbox PgIdempotency PgConcurrency.
Import PgOrders.

#[global] Instance order_row_eq : EqDecision order_row.
Proof. solve_decision. Defined.
#[global] Instance item_row_eq : EqDecision item_row.
Proof. solve_decision. Defined.
#[global] Instance outbox_row_eq : EqDecision outbox_row.
Proof. solve_decision. Defined.
#[global] Instance idempotency_row_eq : EqDecision idempotency_row.
Proof. solve_decision. Defined.

(** New timeline rows are appended; serial numbers count on. *)
#[global] Instance order_tables : Tables database := fun v v' b =>
  MkDatabase (patch_map (tb_orders v) (tb_orders v') (tb_orders b))
    (patch_map (tb_order_items v) (tb_order_items v') (tb_order_items b))
    (tb_timeline b ++ drop (length (tb_timeline v)) (tb_timeline v'))
    (tb_timeline_seq b + (tb_timeline_seq v' - tb_timeline_seq v))
    (patch_map (tb_outbox v) (tb_outbox v') (tb_outbox b))
    (patch_map (tb_idempotency v) (tb_idempotency v') (tb_idempotency b)).

Lemma patch_timeline_same (v b : database) :
  tb_timeline b ++ drop (length (tb_timeline v)) (tb_timeline v) = tb_timeline b /\
  tb_timeline_seq b + (tb_timeline_seq v - tb_timeline_seq v) = tb_timeline_seq b.
Proof. by rewrite drop_all, app_nil_r, Z.sub_diag, Z.add_0_r. Qed.

#[global] Instance order_tables_laws : TablesLaws database.
Proof.
  intros v b. unfold patch, order_tables. destruct (patch_timeline_same v b) as [-> ->].
  rewrite !patch_map_same. by destruct b.
Qed.

(** ** Calls *)

Inductive store_call : Type :=
| StoreCreate (o : Order)
| StoreSave (o : Order)
| StoreGet (id : string)
| StoreList (customerID : string) (limit : Z)
| StoreAppend (e : TimelineEvent)
| StoreEvents (orderID : string)
| StoreEnqueue (msg : OutboxMessage)
| StorePull (limit : Z)
| StoreStats
| StoreMarkSent (id : string)
| StoreMarkFailed (id : string)
| StoreClaim (key requestHash : string) (ttlAt : Time)
| StoreKey (key : string)
| StoreMarkDone (key : string) (body : bytes) (httpStatus : Z)
| StoreMarkKeyFailed (key : string) (body : bytes) (httpStatus : Z)
| StoreExpire (before : Time) (limit : Z).

Section Calls.
Context {pg : Postgres}.

Definition outcome {A} (p : SQL database (result A)) : SQL database (option err) :=
  r ← p; mret (match r with Ok _ => None | Err e => Some e end).

(** The error a call returns. *)
Definition store_method (c : store_call) : SQL database (option err) :=
  match c with
  | StoreCreate o => outcome (Create o)
  | StoreSave o => outcome (Save o)
  | StoreGet id => outcome (Get id)
  | StoreList c n => outcome (ListByCustomer c n)
  | StoreAppend e => outcome (PgOutbox.Append e)
  | StoreEvents id => outcome (PgOutbox.List id)
  | StoreEnqueue m => outcome (PgOutbox.Enqueue m)
  | StorePull n => outcome (PgOutbox.PullPending n)
  | StoreStats => outcome (PgOutbox.Stats)
  | StoreMarkSent id => outcome (PgOutbox.MarkSent id)
  | StoreMarkFailed id => outcome (PgOutbox.MarkFailed id)
  | StoreClaim k h t => r ← PgIdempotency.CreateProcessing k h t; mret (snd r)
  | StoreKey k => outcome (PgIdempotency.Get k)
  | StoreMarkDone k b s => PgIdempotency.MarkDone k b s
  | StoreMarkKeyFailed k b s => PgIdempotency.MarkFailed k b s
  | StoreExpire t n => outcome (PgIdempotency.DeleteExpired t n)
  end.

(** What is still open when a method returns is rolled back with its context. *)
Definition store_perform (c : store_call) : SQL database (option err) :=
  e ← store_method c;
  call Rollback;;
  mret e.
End Calls.

(** ** The invariant *)

Record store_ok (db : database) : Prop := MkStoreOk {
  so_orders : tables_ok db;
  so_events : forall r, r ∈ tb_timeline db -> is_Some (tb_orders db !! tr_order_id r);
  so_outbox : PgOutbox.outbox_ok db;
  so_keys : PgIdempotency.keys_ok db;
}.

Lemma store_ok_empty : store_ok empty_database.
Proof.
  split; [apply tables_ok_empty|..].
  - intros r H. simpl in H. set_solver.
  - intros k r H. simpl in H. rewrite lookup_empty in H. done.
  - split; intros k r H; simpl in H; by rewrite lookup_empty in H.
Qed.

(** A later row of the same order: the version identifies the contents. *)
Definition row_follows (r r' : order_row) : Prop :=
  or_created_at r' = or_created_at r /\ or_version r <= or_version r' /\ (or_version r = or_version r' -> r' = r).

#[global] Instance row_follows_pre : PreOrder row_follows.
Proof.
  split; [by intros r|]. intros r1 r2 r3 (H1 & H2 & H3) (G1 & G2 & G3). split_and!; [congruence|lia|].
  intros Hv. rewrite G3 by lia. apply H3. lia.
Qed.

Section Stable.
Context (keep : bool).   (* whether no key is ever deleted *)

(** What connections without the locks [L] do to the tables. *)
Record stable (L : list lock) (db db' : database) : Prop := MkStable {
  st_follows : forall k r, tb_orders db !! k = Some r -> exists r', tb_orders db' !! k = Some r' /\ row_follows r r';
  st_items : forall k id it, is_Some (tb_orders db !! k) -> ir_order_id it = k ->
    tb_order_items db' !! id = Some it <-> tb_order_items db !! id = Some it;
  st_order_lock : forall k, ("orders", k) ∈ L -> tb_orders db' !! k = tb_orders db !! k;
  st_item_lock : forall k, ("order_items", k) ∈ L -> tb_order_items db' !! k = tb_order_items db !! k;
  st_keys : keep = true -> forall k, is_Some (tb_idempotency db !! k) -> is_Some (tb_idempotency db' !! k);
}.

#[global] Instance stable_pre L : PreOrder (stable L).
Proof.
  split.
  - intros db. split; try done. intros k r Hr. by exists r.
  - intros d1 d2 d3 [A1 A2 A3 A4 A5] [B1 B2 B3 B4 B5]. split.
    + intros k r Hr. destruct (A1 _ _ Hr) as (r' & Hr' & H). destruct (B1 _ _ Hr') as (r3 & Hr3 & H').
      exists r3. split; [done|by trans r'].
    + intros k id it [r Hr] Hk. destruct (A1 _ _ Hr) as (r' & Hr' & _). rewrite (B2 k id it) by eauto. apply (A2 k); eauto.
    + intros k Hk. by rewrite B3, A3.
    + intros k Hk. by rewrite B4, A4.
    + auto.
Qed.

Abbreviation commits := (commit_ok store_ok stable).
Abbreviation safe := (safe store_ok stable).

(** Statements that leave the orders alone. *)
Lemma other_tables L db db' : store_ok db -> tb_orders db' = tb_orders db -> tb_order_items db' = tb_order_items db ->
  (forall r, r ∈ tb_timeline db' -> is_Some (tb_orders db !! tr_order_id r)) ->
  PgOutbox.outbox_ok db' -> PgIdempotency.keys_ok db' ->
  (keep = true -> forall k, is_Some (tb_idempotency db !! k) -> is_Some (tb_idempotency db' !! k)) ->
  commits L db db'.
Proof.
  intros Hok Ho Hi He Hb Hk Hkeep. split.
  - split; [|by rewrite Ho|done|done]. destruct (so_orders _ Hok). by split; rewrite ?Ho, ?Hi.
  - intros L' _. split; rewrite ?Ho, ?Hi; try done. intros k r Hr. by exists r.
Qed.

Lemma keys_same db db' : PgIdempotency.keys_ok db -> tb_idempotency db' = tb_idempotency db -> PgIdempotency.keys_ok db'.
Proof. intros [H1 H2] E. by split; rewrite E. Qed.

#[local] Hint Resolve keys_same : core.

Section Statements.
Context {pg : Postgres} {laws : PostgresLaws pg}.
Import PgOutbox PgIdempotency.

Lemma insert_event_ok L e db a db' : store_ok db -> insert_event e db = (inl a, db') -> commits L db db'.
Proof.
  intros Hok. pose proof Hok as [H1 H2 H3 H4]. unfold insert_event. destruct (tb_orders db !! _) eqn:E; [|done]. intros [= _ <-].
  apply other_tables; eauto. intros r. simpl. rewrite elem_of_app, list_elem_of_singleton.
  intros [Hr| ->]; [by apply H2|by eexists].
Qed.

(** Writing the outbox. *)
Lemma outbox_written L t db : store_ok db -> (forall k r, t !! k = Some r -> ob_id r = k) ->
  commits L db (set_outbox t db).
Proof. intros Hok Ht. pose proof Hok as [H1 H2 H3 H4]. apply other_tables; eauto. Qed.

Lemma insert_message_ok L m now db a db' : store_ok db -> insert_message m now db = (inl a, db') -> commits L db db'.
Proof.
  intros Hok. unfold insert_message. destruct (tb_outbox db !! _) eqn:E; [done|]. intros [= _ <-].
  apply outbox_written; [done|]. intros k r. rewrite lookup_insert_Some. intros [[<- <-]|[_ H]]; [done|].
  by apply (so_outbox _ Hok).
Qed.

Lemma claim_messages_ok L n t now db a db' : store_ok db -> claim_messages n t now db = (inl a, db') -> commits L db db'.
Proof.
  intros Hok [= _ <-]. apply outbox_written; [done|]. intros k r. rewrite lookup_fmap_Some. intros (r' & <- & H).
  apply (so_outbox _ Hok) in H. unfold claim_row. by case_bool_decide.
Qed.

Lemma update_status_ok L id s now db a db' : store_ok db -> update_status id s now db = (inl a, db') -> commits L db db'.
Proof.
  intros Hok. unfold update_status. destruct (tb_outbox db !! id) as [r|] eqn:E.
  - destruct (negb _); [done|]. intros [= _ <-]. apply outbox_written; [done|].
    intros k r'. rewrite lookup_insert_Some. intros [[<- <-]|[_ H]]; [simpl|]; by apply (so_outbox _ Hok).
  - intros [= _ <-]. by apply commit_ok_refl; [apply _|].
Qed.

(** Writing a key. *)
Lemma key_written L k r db : store_ok db -> ik_key r = k -> IdempotencyStatus_Valid (ik_status r) = true ->
  commits L db (set_idempotency (<[k := r]> (tb_idempotency db)) db).
Proof.
  intros Hok Hk Hs. pose proof Hok as [H1 H2 H3 H4]. apply other_tables; try done.
  - by apply keys_ok_insert.
  - intros _ k' Hk'. simpl. rewrite lookup_insert. case_decide; [by eexists|done].
Qed.

Lemma insert_key_ok L k h ttl now db a db' : store_ok db ->
  insert_key k h IdempotencyStatusProcessing ttl now db = (inl a, db') -> commits L db db'.
Proof.
  intros Hok. unfold insert_key. destruct (tb_idempotency db !! k); [done|]. intros [= _ <-]. by apply key_written.
Qed.

Lemma update_key_ok L body code s now k db a db' : store_ok db -> IdempotencyStatus_Valid s = true ->
  update_key body code s now k db = (inl a, db') -> commits L db db'.
Proof.
  intros Hok Hs. unfold update_key. destruct (negb _); [done|]. destruct (tb_idempotency db !! k) as [r|] eqn:E.
  - intros [= _ <-]. apply key_written; [done| |done]. simpl. by apply (ok_key _ (so_keys _ Hok)).
  - intros [= _ <-]. by apply commit_ok_refl; [apply _|].
Qed.

Lemma foldl_delete_lookup (rows : list idempotency_row) : forall (t : gmap string idempotency_row) k r,
  foldl (fun t r => delete (ik_key r) t) t rows !! k = Some r -> t !! k = Some r.
Proof.
  induction rows as [|x rows IH]; intros t k r; simpl; [done|]. intros H%IH. by apply lookup_delete_Some in H as [_ H].
Qed.

Lemma delete_expired_ok L t n db a db' : keep = false -> store_ok db ->
  delete_expired t n db = (inl a, db') -> commits L db db'.
Proof.
  intros Hkeep Hok [= _ <-]. pose proof Hok as [H1 H2 H3 [K1 K2]]. apply other_tables; try done; [|congruence].
  split; intros k r Hr%foldl_delete_lookup; eauto.
Qed.

(** ** Calls that are a statement *)

Lemma outcome_safe {A} (p : SQL database (result A)) : safe p -> safe (outcome p).
Proof. intros Hp. apply conn_safe_bind; [done|]. intros r. apply conn_safe_ret. Qed.

Lemma markStatus_safe id s : safe (PgOutbox.markStatus id s).
Proof.
  unfold PgOutbox.markStatus. apply conn_safe_bind; [apply safe_now|]. intros now.
  apply conn_safe_bind; [|solve_safe]. apply safe_stmt. intros db a db'. apply update_status_ok.
Qed.

Lemma mark_key_safe k s b code : IdempotencyStatus_Valid s = true -> safe (PgIdempotency.markStatus k s b code).
Proof.
  intros Hs. unfold PgIdempotency.markStatus. cbv zeta. destruct (_ =s? ""); [apply conn_safe_ret|].
  apply conn_safe_bind; [apply safe_now|]. intros now. apply conn_safe_bind; [|solve_safe].
  apply safe_stmt. intros db a db' Hok. by apply update_key_ok.
Qed.

Lemma get_key_safe k : safe (PgIdempotency.Get k).
Proof. unfold PgIdempotency.Get. solve_safe. Qed.

Lemma loadItems_safe id : safe (loadItems id).
Proof. unfold loadItems. solve_safe. Qed.

Lemma load_orders_safe rows : forall acc, safe (load_orders rows acc).
Proof.
  induction rows as [|row rows IH]; intros acc; cbn [load_orders]; [solve_safe|].
  apply conn_safe_bind; [apply loadItems_safe|]. intros [items|e]; [apply IH|apply conn_safe_ret].
Qed.

#[local] Hint Resolve loadItems_safe load_orders_safe get_key_safe markStatus_safe : oms.

(** The calls whose answer needs no more than the rules for safe programs. *)
Definition single (c : store_call) : Prop :=
  match c with
  | StoreCreate _ | StoreSave _ | StoreClaim _ _ _ => False
  | StoreExpire _ _ => keep = false
  | _ => True
  end.

Lemma single_safe c : single c -> safe (store_method c).
Proof.
  destruct c; intros Hc; try contradiction; cbn [store_method]; try apply outcome_safe.
  - unfold PgOrders.Get. solve_safe.
  - unfold ListByCustomer. solve_safe.
  - unfold Append. apply conn_safe_bind; [solve_safe|]. intros t. cbv zeta. apply conn_safe_bind; [|solve_safe].
    apply safe_stmt. intros db a db'. apply insert_event_ok.
  - unfold PgOutbox.List. solve_safe.
  - unfold Enqueue. apply conn_safe_bind; [solve_safe|]. intros id. cbv zeta. apply conn_safe_bind; [solve_safe|]. intros now.
    apply conn_safe_bind; [|solve_safe]. apply safe_stmt. intros db a db'. apply insert_message_ok.
  - unfold PullPending. cbv zeta. apply conn_safe_bind; [solve_safe|]. intros now. apply conn_safe_bind; [|solve_safe].
    apply safe_stmt. intros db a db'. apply claim_messages_ok.
  - unfold Stats. solve_safe.
  - apply markStatus_safe.
  - apply markStatus_safe.
  - apply get_key_safe.
  - by apply mark_key_safe.
  - by apply mark_key_safe.
  - unfold DeleteExpired. apply conn_safe_bind; [solve_safe|]. intros t. apply conn_safe_bind; [|solve_safe].
    apply safe_stmt. intros db a db'. by apply delete_expired_ok.
Qed.
End Statements.

(** ** What a call promises of its own commands *)

Definition unchanged (step : database * database) : Prop := fst step = snd step.

Section Promises.
Context {pg : Postgres}.

(** The tables before and after a save, and a creation, that took effect. *)
Definition saved (o : Order) (a b : database) : Prop := update_order o a = (inl 1, b).

Definition created (o : Order) (a b : database) : Prop :=
  stored_orders a !! Order_ID o = None /\
  exists o', read_back o o' /\ stored_orders b = <[Order_ID o := o']> (stored_orders a).

Definition claimed (key : string) (a b : database) : Prop :=
  tb_idempotency a !! key = None /\ is_Some (tb_idempotency b !! key).

(** The orders that are there keep their rows. *)
Definition kept (a b : database) : Prop := forall k r, tb_orders a !! k = Some r -> tb_orders b !! k = Some r.

#[global] Instance kept_pre : PreOrder kept.
Proof. split; [by intros db k r|]. intros d1 d2 d3 H1 H2 k r Hr. by apply H2, H1. Qed.

Definition all_kept (steps : list (database * database)) : Prop := Forall (fun e => kept (fst e) (snd e)) steps.

Lemma unchanged_kept steps : Forall unchanged steps -> all_kept steps.
Proof. intros H. eapply Forall_impl; [exact H|]. unfold unchanged. intros [a b] E. simpl in *. by subst. Qed.

(** A save took effect in one of its commands, or changed nothing and reports
    an error; one that reports a conflict has changed nothing.  A creation and a
    claim that return no error took effect in one of their commands, and a
    creation that reports a conflict has changed nothing.  No call but a save
    changes an order that is there. *)
Definition promise (c : store_call) (e : option err) (steps : list (database * database)) : Prop :=
  match c with
  | StoreSave o =>
      (e <> Some ErrOrderVersionConflict /\ e <> Some ErrOrderNotFound /\
       exists l1 a b l2, steps = l1 ++ (a, b) :: l2 /\ Forall unchanged (l1 ++ l2) /\ saved o a b) \/
      (e <> None /\ Forall unchanged steps)
  | StoreCreate o =>
      (e = None -> exists a b, (a, b) ∈ steps /\ created o a b) /\
      (e = Some ErrOrderVersionConflict -> Forall unchanged steps) /\ all_kept steps
  | StoreClaim key _ _ => (e = None -> exists a b, (a, b) ∈ steps /\ claimed (TrimSpace key) a b) /\ all_kept steps
  | _ => all_kept steps
  end.

Lemma promise_snoc c e steps db : promise c e steps -> promise c e (steps ++ [(db, db)]).
Proof.
  assert (forall (P : database -> database -> Prop), (exists a b, (a, b) ∈ steps /\ P a b) ->
    exists a b, (a, b) ∈ steps ++ [(db, db)] /\ P a b) as Hex.
  { intros P (a & b & Hin & HP). exists a, b. split; [set_solver|done]. }
  assert (forall l, Forall unchanged l -> Forall unchanged (l ++ [(db, db)])) as Hall.
  { intros l H. apply Forall_app. split; [done|]. by repeat constructor. }
  assert (all_kept steps -> all_kept (steps ++ [(db, db)])) as Hkept.
  { intros H. apply Forall_app. split; [done|]. constructor; [done|constructor]. }
  destruct c; simpl; try done; [naive_solver| |naive_solver].
  intros [(H1 & H2 & l1 & a & b & l2 & -> & Hu & Hs)|[H1 H2]]; [left|right; auto].
  do 2 (split; [done|]). exists l1, a, b, (l2 ++ [(db, db)]). split; [by rewrite <- app_assoc|].
  split; [|done]. rewrite app_assoc. auto.
Qed.

Lemma save_promised o steps : promise (StoreSave o) None steps -> exists a b, (a, b) ∈ steps /\ saved o a b.
Proof.
  intros [(_ & _ & l1 & a & b & l2 & -> & _ & Hs)|[H _]]; [|done]. exists a, b. split; [set_solver|done].
Qed.
End Promises.

Abbreviation ospec := (own_spec store_ok stable).

Section Methods.
Context {pg : Postgres} {laws : PostgresLaws pg}.

(** ** Save *)

Lemma insert_stays {A} (t : gmap string A) k x k' : is_Some (t !! k') -> is_Some (<[k := x]> t !! k').
Proof. intros H. rewrite lookup_insert. by case_decide. Qed.

(** The update of tables that agree with [db] about the order. *)
Lemma update_order_patch o db n v base : update_order o db = (inl n, v) -> n <> 0 ->
  tb_orders base !! Order_ID o = tb_orders db !! Order_ID o ->
  ("orders", Order_ID o) ∈ updated_order o db /\ update_order o base = (inl 1, patch db v base).
Proof.
  unfold update_order, updated_order. intros H Hn Hb. rewrite Hb. destruct (negb _); [done|].
  destruct (tb_orders db !! Order_ID o) as [row|] eqn:E; [|naive_solver].
  destruct (_ =? _) eqn:Hv; [|naive_solver]. destruct (negb _); [done|]. injection H as <- <-.
  split; [by constructor|]. f_equal. unfold patch, order_tables. simpl.
  rewrite !patch_map_same, (proj1 (patch_timeline_same db base)), Z.sub_diag, Z.add_0_r.
  rewrite patch_map_insert; [by destruct base|]. rewrite E. intros [= Hr].
  apply (f_equal or_version) in Hr. simpl in Hr. lia.
Qed.

Lemma update_order_ok L o db b : store_ok db -> saved o db b -> ("orders", Order_ID o) ∈ L -> commits L db b.
Proof.
  intros Hok Hs HL. pose proof (update_order_tables _ _ _ _ (so_orders _ Hok) Hs) as Ht. revert Hs.
  unfold saved, update_order. destruct (negb _); [done|]. destruct (tb_orders db !! Order_ID o) as [row|] eqn:E; [|done].
  destruct (_ =? _) eqn:Hv; [|done]. destruct (negb _); [done|]. intros [= <-]. destruct Hok as [H1 H2 H3 H4].
  split; [split; [done| |done|by eapply keys_same]; intros r Hr; by apply insert_stays, H2|]. intros L' Hd. assert (("orders", Order_ID o) ∉ L') as HL' by set_solver.
  split; simpl; try done.
  - intros k r Hr. rewrite lookup_insert. case_decide as Hk; [|by exists r]. subst k. rewrite E in Hr.
    injection Hr as <-. eexists. split; [done|]. split_and!; simpl; [done|lia|lia].
  - intros k Hk. rewrite lookup_insert_ne; [done|]. by intros <-.
Qed.

Lemma save_failed o e what steps : Forall unchanged steps -> promise (StoreSave o) (Some (ErrWrap what (sql_err e))) steps.
Proof. intros H. by right. Qed.

Lemma save_done o e steps a b l : (forall err, e = Some err -> exists what m, err = ErrWrap what m) ->
  Forall unchanged (steps ++ l) -> saved o a b -> promise (StoreSave o) e (steps ++ (a, b) :: l).
Proof.
  intros He Hu Hs. left. split_and!; [intros ->; by destruct (He _ eq_refl) as (? & ? & ?)..|]. by exists steps, a, b, l.
Qed.

Lemma Save_promise o db : wp ospec (outcome (Save o)) ([], (db, Idle)) (fun e g => promise (StoreSave o) e g.1).
Proof.
  unfold outcome, Save.
  apply wp_call. intros db1 Hok1 _. split; [intros m; apply (save_failed o (DriverError m)); by repeat constructor|].
  apply wp_call. intros db2 Hok2 _.
  split; [intros m db3 _ _; apply (save_failed o (DriverError m)); by repeat constructor|].
  destruct (update_order o db2) as [[n|e] v] eqn:E; [|intros db3 _ _; apply save_failed; by repeat constructor].
  cbn [snd fst held]. destruct (Z.eqb_spec n 0) as [->|Hn].
  - apply wp_call. intros db3 _ _. split; [intros m; apply (save_failed o (DriverError m)); by repeat constructor|].
    simpl. case_match; right; (split; [done|]); by repeat constructor.
  - destruct (update_order_patch o db2 n v db2 E Hn eq_refl) as [HL _].
    apply wp_call. intros db3 Hok3 Hs3. cbn [snd fst held] in *.
    destruct (update_order_patch o db2 n v db3 E Hn) as [_ Hup].
    { apply (st_order_lock _ _ _ Hs3). set_solver. }
    split; [intros m db4 _ _; apply (save_failed o (DriverError m)); by repeat constructor|]. split.
    + apply (update_order_ok _ o); [done|done|set_solver].
    + split.
      * apply (save_done o _ [(db1, db1); (db2, db2)] _ _ []); [done|by repeat constructor|done].
      * intros m db4 _ _. apply (save_done o _ [(db1, db1); (db2, db2)] _ _ [(db4, db4)]); [|by repeat constructor|done].
        intros ? [= <-]. by eexists _, _.
Qed.

(** ** Create *)

Definition new_row (o : Order) : order_row :=
  MkOrderRow (Order_ID o) (Order_CustomerID o) (Order_Status o) (Order_Currency o) (Order_AmountMinor o)
    (Order_Version o) (pg_time (Order_CreatedAt o)) (pg_time (Order_UpdatedAt o)).

Definition add_items (rows : list item_row) (t : gmap string item_row) : gmap string item_row :=
  foldl (fun t r => <[ir_id r := r]> t) t rows.

(** The tables with an order and some of its items. *)
Definition with_order (o : Order) (rows : list item_row) (base : database) : database :=
  set_order_items (add_items rows (tb_order_items base)) (set_orders (<[Order_ID o := new_row o]> (tb_orders base)) base).

Lemma add_items_snoc rows r t : add_items (rows ++ [r]) t = <[ir_id r := r]> (add_items rows t).
Proof. unfold add_items. by rewrite foldl_app. Qed.

Lemma lookup_add_items_None rows : forall t k,
  add_items rows t !! k = None <-> t !! k = None /\ forall r, r ∈ rows -> ir_id r <> k.
Proof.
  induction rows as [|r rows IH] using rev_ind; intros t k; [set_solver|].
  rewrite add_items_snoc, lookup_insert_None, IH. set_solver.
Qed.

Lemma lookup_add_items_Some rows : forall t k x,
  add_items rows t !! k = Some x -> x ∈ rows \/ t !! k = Some x.
Proof.
  induction rows as [|r rows IH] using rev_ind; intros t k x; [by right|].
  rewrite add_items_snoc, lookup_insert_Some. intros [[_ <-]|[_ H%IH]]; set_solver.
Qed.

Lemma lookup_add_items_fresh rows : forall t k, (forall r, r ∈ rows -> ir_id r <> k) -> add_items rows t !! k = t !! k.
Proof.
  induction rows as [|r rows IH] using rev_ind; intros t k H; [done|].
  rewrite add_items_snoc, lookup_insert_ne by (apply H; set_solver). apply IH. set_solver.
Qed.

(** Tables in which the order and its items can be inserted. *)
Definition fresh (o : Order) (rows : list item_row) (base : database) : Prop :=
  tb_orders base !! Order_ID o = None /\ forall r, r ∈ rows -> tb_order_items base !! ir_id r = None.

(** The transaction has inserted the order and [items] of it, as [rows]. *)
Definition creating (o : Order) (items : list OrderItem) (rows : list item_row)
    (g : database * conn_tx database) : Prop :=
  exists f L, g.2 = Open f L /\ (forall base, f base = with_order o rows base) /\
    ("orders", Order_ID o) ∈ L /\ (forall r, r ∈ rows -> ("order_items", ir_id r) ∈ L /\ ir_order_id r = Order_ID o) /\
    fresh o rows g.1 /\
    (forall base, tables_ok base -> fresh o rows base ->
       items_added (Order_ID o) items (with_order o [] base) (with_order o rows base)).

Lemma fresh_stable o rows L db db' : stable L db db' -> ("orders", Order_ID o) ∈ L ->
  (forall r, r ∈ rows -> ("order_items", ir_id r) ∈ L) -> fresh o rows db -> fresh o rows db'.
Proof.
  intros Hs HL Hr [H1 H2]. split; [by rewrite (st_order_lock _ _ _ Hs)|].
  intros r Hin. rewrite (st_item_lock _ _ _ Hs) by auto. auto.
Qed.

Lemma items_added_trans id l1 l2 c1 c2 c3 : items_added id l1 c1 c2 -> items_added id l2 c2 c3 ->
  items_added id (l1 ++ l2) c1 c3.
Proof.
  intros [A1 A2 A3 A4] [B1 B2 B3 B4]. split; [done|congruence|..].
  - rewrite B3, A3, app_assoc. f_equiv. unfold item_rows. rewrite map_app. apply Permutation_app_comm.
  - intros id' Hne. by rewrite B4, A4.
Qed.

Definition item_row_of (o : Order) (i : OrderItem) : item_row :=
  MkItemRow (OrderItem_ID i) (Order_ID o) (OrderItem_SKU i) (OrderItem_Qty i) (OrderItem_PriceMinor i)
    (pg_time (OrderItem_CreatedAt i)).

Lemma with_order_snoc o rows r base :
  with_order o (rows ++ [r]) base =
    set_order_items (<[ir_id r := r]> (tb_order_items (with_order o rows base))) (with_order o rows base).
Proof. unfold with_order. by rewrite add_items_snoc. Qed.

(** One more item: in the view of the transaction, and in any tables where it
    is new. *)
Lemma insert_item_view o i rows db a v : insert_item (Order_ID o) i (with_order o rows db) = (inl a, v) ->
  let r := item_row_of o i in
  v = with_order o (rows ++ [r]) db /\ tb_order_items db !! ir_id r = None /\ (forall r', r' ∈ rows -> ir_id r' <> ir_id r) /\
  (forall base, patch (with_order o rows db) v (with_order o rows base) = with_order o (rows ++ [r]) base) /\
  (forall base, fresh o (rows ++ [r]) base ->
     insert_item (Order_ID o) i (with_order o rows base) = (inl tt, with_order o (rows ++ [r]) base)).
Proof.
  intros H r. unfold insert_item in *. destruct (negb _); [done|].
  destruct (tb_order_items _ !! OrderItem_ID i) as [x|] eqn:Ei; [done|]. pose proof Ei as Ei'.
  simpl in Ei'. apply lookup_add_items_None in Ei' as [Hnone Hrows].
  simpl in H. rewrite lookup_insert_eq in H. injection H as _ <-.
  split; [by rewrite with_order_snoc|]. split_and!; [done|done|..].
  - intros base. rewrite with_order_snoc. unfold patch, order_tables. simpl.
    rewrite !patch_map_same, (proj1 (patch_timeline_same db base)), Z.sub_diag, Z.add_0_r.
    rewrite patch_map_insert; [done|]. simpl in Ei. by rewrite Ei.
  - intros base [_ Hf]. destruct (tb_order_items (with_order o rows base) !! OrderItem_ID i) eqn:Eb.
    + exfalso. simpl in Eb. rewrite lookup_add_items_fresh in Eb by done.
      assert (tb_order_items base !! ir_id r = None) as Hb by (apply Hf; set_solver). change (ir_id r) with (OrderItem_ID i) in Hb.
      congruence.
    + simpl. rewrite lookup_insert_eq. by rewrite with_order_snoc.
Qed.

Lemma insert_items_own o items : forall inserted rows own g, creating o inserted rows g -> Forall unchanged own ->
  wp ospec (insert_items (Order_ID o) items) (own, g) (fun e og => Forall unchanged og.1 /\
    (e = None -> exists rows', creating o (inserted ++ items) rows' og.2)).
Proof.
  induction items as [|i items IH]; intros inserted rows own g Hc Hu; cbn [insert_items].
  { split; [done|]. intros _. exists rows. by rewrite app_nil_r. }
  destruct g as [seen tx], Hc as (f & L & E & HF & HL & Hrows & Hfr & Hadd). simpl in E, Hfr. subst tx.
  apply wp_call. intros db Hok Hs. cbn [snd fst held at_spec] in *. rewrite HF.
  assert (Forall unchanged (own ++ [(db, db)])) as Hu' by (apply Forall_app; split; [done|by repeat constructor]).
  split; [intros m; by split|]. destruct (insert_item _ _ _) as [[a|e] v] eqn:E; [|by split].
  destruct (insert_item_view _ _ _ _ _ _ E) as (-> & Hn & Hne & Hp & Hins). set (r := item_row_of o i) in *.
  replace (inserted ++ i :: items) with ((inserted ++ [i]) ++ items) by (by rewrite <- app_assoc).
  apply (IH _ (rows ++ [r])); [|done]. assert (fresh o rows db) as Hdb by (eapply fresh_stable; [exact Hs|done| |done]; naive_solver).
  eexists _, _. split_and!; [reflexivity|intros base; cbn beta; rewrite HF; apply Hp|set_solver| | |].
  - intros r' [Hin| ->%list_elem_of_singleton]%elem_of_app; [|split; [set_solver|done]].
    destruct (Hrows _ Hin). split; [set_solver|done].
  - destruct Hdb as [Hd1 Hd2]. split; [done|]. intros r' [Hin| ->%list_elem_of_singleton]%elem_of_app; [by apply Hd2|done].
  - intros base Hb Hfb. assert (fresh o rows base) as Hf by (destruct Hfb as [F1 F2]; split; [done|]; set_solver).
    eapply items_added_trans; [by apply Hadd|]. apply insert_item_ok; [by apply (added_ok _ _ _ _ (Hadd base Hb Hf))|].
    by apply Hins.
Qed.

Lemma with_order_ok o rows L db : store_ok db -> fresh o rows db -> tables_ok (with_order o rows db) ->
  ("orders", Order_ID o) ∈ L -> (forall r, r ∈ rows -> ("order_items", ir_id r) ∈ L /\ ir_order_id r = Order_ID o) ->
  commits L db (with_order o rows db).
Proof.
  intros [H1 H2 H3 H4] [F1 F2] Ht HL Hrows.
  split; [split; [done| |done|by eapply keys_same]; intros r Hr; by apply insert_stays, H2|].
  intros L' Hd. assert (forall l, l ∈ L -> l ∉ L') as Hout by set_solver. split; simpl; try done.
  - intros k r Hr. exists r. split; [|done]. rewrite lookup_insert_ne; [done|]. intros <-. congruence.
  - intros k id it [x Hx] Hk. split.
    + intros [Hin|Hit]%lookup_add_items_Some; [|done]. exfalso. destruct (Hrows _ Hin) as [_ Hr]. congruence.
    + intros Hit. rewrite lookup_add_items_fresh; [done|]. intros r Hin <-. rewrite (F2 _ Hin) in Hit. done.
  - intros k Hk. rewrite lookup_insert_ne; [done|]. intros <-. by apply (Hout _ HL).
  - intros k Hk. apply lookup_add_items_fresh. intros r Hin <-. by apply (Hout _ (proj1 (Hrows _ Hin))).
Qed.

Lemma insert_order_view o db a v : insert_order o db = (inl a, v) ->
  v = with_order o [] db /\ tb_orders db !! Order_ID o = None /\ (forall base, patch db v base = with_order o [] base) /\
  (forall base, tb_orders base !! Order_ID o = None -> insert_order o base = (inl tt, with_order o [] base)).
Proof.
  unfold insert_order. destruct (negb _); [done|]. destruct (tb_orders db !! _) eqn:E; [done|]. intros [= _ <-].
  split_and!; [done|done| |].
  - intros base. unfold patch, order_tables. simpl.
    rewrite !patch_map_same, (proj1 (patch_timeline_same db base)), Z.sub_diag, Z.add_0_r.
    by rewrite patch_map_insert by (by rewrite E).
  - by intros base ->.
Qed.

Lemma create_failed o e what steps : Forall unchanged steps -> promise (StoreCreate o) (Some (ErrWrap what (sql_err e))) steps.
Proof. intros H. split; [done|]. split; [done|by apply unchanged_kept]. Qed.

(** The order is new; the others keep their rows. *)
Lemma create_done o e steps a b l : (e = None \/ exists what m, e = Some (ErrWrap what m)) ->
  Forall unchanged (steps ++ l) -> kept a b -> created o a b -> promise (StoreCreate o) e (steps ++ (a, b) :: l).
Proof.
  intros He [H1 H2]%Forall_app Hk Hc. split; [intros _; exists a, b; split; [set_solver|done]|].
  split; [by intros ->; destruct He as [|(? & ? & ?)]|]. apply Forall_app. split; [by apply unchanged_kept|].
  constructor; [done|by apply unchanged_kept].
Qed.

Lemma with_order_kept o rows db : tb_orders db !! Order_ID o = None -> kept db (with_order o rows db).
Proof. intros Hn k r Hr. simpl. rewrite lookup_insert_ne; [done|]. intros <-. congruence. Qed.

Lemma Create_promise o db : wp ospec (outcome (Create o)) ([], (db, Idle)) (fun e g => promise (StoreCreate o) e g.1).
Proof.
  unfold outcome, Create.
  apply wp_call. intros db1 Hok1 _. split; [intros m; apply (create_failed o (DriverError m)); by repeat constructor|].
  apply wp_call. intros db2 Hok2 _. cbn [snd fst held at_spec].
  split; [intros m db3 _ _; apply (create_failed o (DriverError m)); by repeat constructor|].
  destruct (insert_order o db2) as [[a|e] v] eqn:E.
  2: { intros db3 _ _. simpl. destruct (isUniqueViolation e); [|apply create_failed; by repeat constructor].
       split; [done|]. split; [intros _; by repeat constructor|]. apply unchanged_kept. by repeat constructor. }
  destruct (insert_order_view _ _ _ _ E) as (-> & Hn & Hp & Hins).
  eapply wp_bind; [apply _|]. eapply wp_seq; [apply _|apply (insert_items_own o (Order_Items o) [] [])|].
  - eexists _, _. split_and!; [reflexivity|exact Hp|set_solver|set_solver|by split; [|set_solver]|].
    intros base Hb [Hf _]. split; try done. by eapply insert_order_tables; [|by apply Hins].
  - by repeat constructor.
  - intros e [own [seen tx]] [Hu He]. cbn [fst snd] in Hu.
    assert (forall db, Forall unchanged (own ++ [(db, db)])) as Hu1
      by (intros d; apply Forall_app; split; [done|by repeat constructor]).
    destruct e as [e|]; [intros db3 _ _; apply create_failed; apply Hu1|].
    destruct (He eq_refl) as (rows & f & L & Etx & HF & HL & Hrows & Hfr & Hadd). simpl in Etx, Hfr. subst tx.
    apply wp_call. intros db3 Hok3 Hs3. cbn [snd fst held at_spec] in *. rewrite HF.
    assert (fresh o rows db3) as Hf3 by (eapply fresh_stable; [exact Hs3|done| |done]; naive_solver).
    pose proof (Hadd db3 (so_orders _ Hok3) Hf3) as Hadd3.
    assert (created o db3 (with_order o rows db3)) as Hc
      by (eapply stored_orders_create; [by apply Hok3| |exact Hadd3]; apply Hins, Hf3).
    pose proof (with_order_kept o rows db3 (proj1 Hf3)) as Hk.
    split; [intros m db4 _ _; apply (create_failed o (DriverError m)), Forall_app; split; [apply Hu1|by repeat constructor]|].
    split; [apply with_order_ok; [done..|by apply (added_ok _ _ _ _ Hadd3)|done|done]|]. split.
    + apply (create_done o _ own _ _ []); [by left|by rewrite app_nil_r|done|done].
    + intros m db4 _ _. simpl. rewrite <- app_assoc. apply (create_done o _ own _ _ [(db4, db4)]); [|apply Hu1|done|done].
      right. eexists _, _. reflexivity.
Qed.

(** ** Claiming a key *)

Definition claim_method (key hash : string) (ttl : Time) : SQL database (option err) :=
  r ← PgIdempotency.CreateProcessing key hash ttl; mret (snd r).

Lemma Claim_wins key hash ttl db :
  wp ospec (claim_method key hash ttl) ([], (db, Idle))
    (fun e g => e = None -> exists a b, (a, b) ∈ g.1 /\ claimed (TrimSpace key) a b).
Proof.
  unfold claim_method, PgIdempotency.CreateProcessing. cbv zeta. set (k := TrimSpace key).
  destruct (k =s? ""); [done|]. destruct (_ =s? ""); [done|].
  apply wp_call. intros db1 _ _ now. apply wp_call. intros db2 Hok2 _. cbn [snd fst held at_spec].
  split; [intros m; done|]. destruct (PgIdempotency.insert_key _ _ _ _ _ _) as [[a|e] v] eqn:E.
  - split; [by eapply insert_key_ok|]. split; [|done]. intros _. exists db2, v. split; [simpl; set_solver|].
    unfold PgIdempotency.insert_key in E. destruct (tb_idempotency db2 !! k) eqn:Ek; [done|]. injection E as _ <-.
    split; [done|]. simpl. rewrite lookup_insert_eq. by eexists.
  - destruct (isUniqueViolation e); [|done]. eapply wp_bind; [apply _|].
    eapply wp_seq; [apply _|apply rg_own, get_key_safe|]. intros [r|e'] g _; simpl; repeat case_match; done.
Qed.

(** ** The calls that leave the orders alone *)

Abbreviation leaves_orders p := (wp (each_spec kept) p tt (fun _ _ => True)).

Lemma leaves_bind {A B} (p : SQL database A) (f : A -> SQL database B) : leaves_orders p -> (forall a, leaves_orders (f a)) -> leaves_orders (p ≫= f).
Proof. intros Hp Hf. eapply wp_seq; [apply _|exact Hp|]. intros a [] _. apply Hf. Qed.

Lemma leaves_call {X} (c : sql database X) :
  match c with
  | Begin | Commit => False
  | Stmt _ s => forall db a db', s db = (inl a, db') -> tb_orders db' = tb_orders db
  | _ => True
  end -> leaves_orders (call c).
Proof.
  intros H. split; [|done]. destruct c; try done. intros db a db' E k r Hr. by rewrite (H _ _ _ E).
Qed.

Lemma leaves_loadItems id : leaves_orders (loadItems id).
Proof.
  unfold loadItems. apply leaves_bind; [apply leaves_call; by intros db a db' [= _ <-]|]. intros [rows|e]; [|done].
  apply leaves_bind; [by apply leaves_call|]. by intros [e|].
Qed.

Lemma leaves_load_orders rows : forall acc, leaves_orders (load_orders rows acc).
Proof.
  induction rows as [|row rows IH]; intros acc; cbn [load_orders].
  - apply leaves_bind; [by apply leaves_call|done].
  - apply leaves_bind; [apply leaves_loadItems|]. intros [items|e]; [apply IH|done].
Qed.

Ltac solve_leaves :=
  repeat first
    [ match goal with |- forall _, _ => intro end
    | apply leaves_loadItems
    | apply leaves_load_orders
    | solve [apply leaves_call; first [exact I | intros ? ? ?; cbv [query PgOutbox.insert_event PgOutbox.insert_message
        PgOutbox.claim_messages PgOutbox.update_status PgIdempotency.insert_key PgIdempotency.update_key
        PgIdempotency.delete_expired]; repeat case_match; intros [= _ <-]; reflexivity]]
    | apply leaves_bind
    | match goal with |- wp _ (match ?x with _ => _ end) _ _ => destruct x end
    | match goal with |- wp _ (if ?x then _ else _) _ _ => destruct x end
    | exact I ].

Lemma method_leaves c : match c with StoreCreate _ | StoreSave _ => False | _ => True end -> leaves_orders (store_method c).
Proof.
  destruct c; intros Hc; try contradiction; cbn [store_method]; unfold outcome, PgOrders.Get, ListByCustomer, PgOutbox.Append,
    PgOutbox.List, PgOutbox.Enqueue, PgOutbox.PullPending, PgOutbox.Stats, PgOutbox.MarkSent, PgOutbox.MarkFailed, PgOutbox.markStatus, PgIdempotency.CreateProcessing,
    PgIdempotency.MarkDone, PgIdempotency.MarkFailed, PgIdempotency.markStatus, PgIdempotency.Get, PgIdempotency.DeleteExpired;
    cbv zeta; solve_leaves.
Qed.

(** ** Connections *)

Lemma method_promise c db : (keep = true -> forall t n, c <> StoreExpire t n) ->
  wp ospec (store_method c) ([], (db, Idle)) (fun e g => promise c e g.1).
Proof.
  intros Hkeep.
  assert (single c -> wp ospec (store_method c) ([], (db, Idle)) (fun e g => True)) as Hsingle.
  { intros Hc. eapply wp_mono; [apply _| |apply rg_own, (single_safe _ Hc)]. done. }
  assert (forall Q, match c with StoreCreate _ | StoreSave _ => False | _ => True end ->
    wp ospec (store_method c) ([], (db, Idle)) Q -> wp ospec (store_method c) ([], (db, Idle)) (fun e g => Q e g /\ all_kept g.1))
    as Hkept by (intros Q Hc HQ; apply own_each; [apply _|done|by apply method_leaves|constructor]).
  destruct c; [apply Create_promise|apply Save_promise| | | | | | | | | |exact (Hkept _ I (Claim_wins _ _ _ _))| | | |];
    (eapply wp_mono; [apply _| |apply (Hkept (fun _ _ => True) I), Hsingle]; [by intros r g [_ H]|]); try done.
  simpl. destruct keep; [|done]. by destruct (Hkeep eq_refl before limit).
Qed.

Lemma perform_promise c db : (keep = true -> forall t n, c <> StoreExpire t n) ->
  wp ospec (store_perform c) ([], (db, Idle)) (fun e g => promise c e g.1).
Proof.
  intros Hkeep. unfold store_perform. eapply wp_seq; [apply _|by apply method_promise|].
  intros e [own g] H. apply wp_call. intros db' _ _. simpl. by apply promise_snoc.
Qed.

(** The promise of connection [i]. *)
Definition promised (calls : list store_call) (i : nat) (e : option err) (steps : list (database * database)) : Prop :=
  forall c, calls !! i = Some c -> promise c e steps.

Lemma store_pool_ok db calls : store_ok db -> (keep = true -> forall t n, StoreExpire t n ∉ calls) ->
  pool_ok store_ok stable (promised calls) [] (connect db (map store_perform calls)).
Proof.
  intros Hok Hkeep. apply connect_ok; [apply _|done|]. intros i p Hp. rewrite list_lookup_fmap in Hp.
  destruct (calls !! i) as [c|] eqn:E; [|done]. injection Hp as <-.
  eapply wp_mono; [apply _| |apply (perform_promise c db)].
  - intros e g H c' Hc'. congruence.
  - intros Hk t n ->. apply (Hkeep Hk t n). by eapply list_elem_of_lookup_2.
Qed.
End Methods.
End Stable.

(** ** What is acknowledged *)

Section Acknowledged.
Context {pg : Postgres} {laws : PostgresLaws pg}.

Lemma item_rows_NoDup p db : tables_ok db -> NoDup (select_rows p (tb_order_items db)).
Proof.
  intros Hok. apply NoDup_ListNoDup, List.NoDup_filter, NoDup_ListNoDup, (NoDup_fmap_1 ir_id).
  assert (forall l, (forall k r, (k, r) ∈ l -> ir_id r = k) -> ir_id <$> map snd l = l.*1) as Hkeys.
  { intros l. induction l as [|[k r] l IH]; intros Hl; [done|]. csimpl. f_equal; [apply (Hl k r); by constructor|].
    apply IH. intros k' r' H. apply Hl. by constructor. }
  rewrite Hkeys; [apply NoDup_fst_map_to_list|].
  intros k r H%elem_of_map_to_list. by apply (ok_item_key _ Hok).
Qed.

(** An order later on: the version identifies the contents. *)
Definition later (o o' : Order) : Prop :=
  Order_CreatedAt o' = Order_CreatedAt o /\ Order_Items o' = Order_Items o /\ Order_Version o <= Order_Version o' /\
  (Order_Version o = Order_Version o' -> o' = o).

Lemma stored_later keep L db db' id o : tables_ok db -> tables_ok db' -> stable keep L db db' ->
  stored_orders db !! id = Some o -> exists o', stored_orders db' !! id = Some o' /\ later o o'.
Proof.
  intros Hok Hok' Hs. unfold stored_orders. rewrite !lookup_fmap_Some. intros (r & <- & Hr).
  destruct (st_follows _ _ _ _ Hs _ _ Hr) as (r' & Hr' & Hc & Hv & Hsame). exists (stored db' r').
  split; [by rewrite lookup_fmap, Hr'|]. assert (or_id r = id /\ or_id r' = id) as [Hid Hid']
    by (split; [by apply (ok_order_key _ Hok)|by apply (ok_order_key _ Hok')]).
  assert (select_items (or_id r') db' = select_items (or_id r) db) as Hitems.
  { rewrite Hid, Hid'. apply select_items_eq; [done|]. apply NoDup_Permutation; [by apply item_rows_NoDup..|].
    intros it. rewrite !elem_of_select_rows. unfold of_order. rewrite String.eqb_eq.
    split; intros [Ho [k Hk]]; (split; [done|]); exists k; by apply (st_items _ _ _ _ Hs id). }
  unfold later, stored. simpl. rewrite Hitems. split_and!; [done..|]. intros Heq. by rewrite (Hsame Heq).
Qed.

Lemma saved_version o a b : saved o a b -> exists r r', tb_orders a !! Order_ID o = Some r /\ or_version r = Order_Version o /\
  tb_orders b !! Order_ID o = Some r' /\ or_version r' = Order_Version o + 1.
Proof.
  unfold saved, update_order. destruct (negb _); [done|]. destruct (tb_orders a !! _) as [r|] eqn:E; [|done].
  destruct (Z.eqb_spec (or_version r) (Order_Version o)) as [Hv|]; [|done]. destruct (negb _); [done|]. intros [= <-].
  eexists r, _. split_and!; [done|done|simpl; apply lookup_insert_eq|simpl; lia].
Qed.

(** ** Counting the saves

    Of an order that is there, only the saves change the version, each by one. *)

Definition version_of (id : string) (db : database) : option Z := or_version <$> tb_orders db !! id.

Definition changes_version (id : string) (e : database * database) : bool :=
  negb (bool_decide (version_of id (fst e) = version_of id (snd e))).

(** The connections whose commands changed it, in the order of the commands. *)
Definition changers (id : string) (h : list (nat * (database * database))) : list nat :=
  map fst (List.filter (fun e => changes_version id (snd e)) h).

Lemma unchanged_version id steps : Forall unchanged steps -> List.filter (changes_version id) steps = [].
Proof.
  induction 1 as [|[a b] l E _ IH]; [done|]. unfold unchanged in E. simpl in E. subst b. simpl.
  unfold changes_version at 1. simpl. by rewrite bool_decide_eq_true_2.
Qed.

Lemma kept_version id steps : all_kept steps -> (forall a b, (a, b) ∈ steps -> is_Some (tb_orders a !! id)) ->
  List.filter (changes_version id) steps = [].
Proof.
  induction 1 as [|[a b] l E _ IH]; intros Hs; [done|]. simpl. rewrite IH by (intros x y Hxy; eapply Hs; by right).
  destruct (Hs a b) as [r Hr]; [by left|]. unfold changes_version, version_of. simpl in *. rewrite (E _ _ Hr), Hr.
  by rewrite bool_decide_eq_true_2.
Qed.

Lemma saved_changes id o a b : saved o a b -> is_Some (tb_orders a !! id) ->
  if decide (Order_ID o = id) then version_of id a = Some (Order_Version o) /\ version_of id b = Some (Order_Version o + 1)
  else version_of id a = version_of id b.
Proof.
  intros Hs Hid. case_decide as Hd.
  - subst id. destruct (saved_version _ _ _ Hs) as (r & r' & Hr & Hv & Hr' & Hv'). unfold version_of.
    rewrite Hr, Hr'. simpl. by rewrite Hv, Hv'.
  - unfold saved, update_order in Hs. repeat case_match; try done. injection Hs as <-. unfold version_of. simpl.
    by rewrite lookup_insert_ne.
Qed.

(** What the promise of a call says of the version. *)
Lemma promise_changes id c e steps : promise c e steps ->
  (forall a b, (a, b) ∈ steps -> is_Some (tb_orders a !! id)) ->
  (List.filter (changes_version id) steps = [] /\ (forall o, c = StoreSave o -> Order_ID o = id -> e <> None)) \/
  (exists o a b, c = StoreSave o /\ Order_ID o = id /\ e <> Some ErrOrderVersionConflict /\ e <> Some ErrOrderNotFound /\
     List.filter (changes_version id) steps = [(a, b)] /\ version_of id b = (fun v => v + 1) <$> version_of id a).
Proof.
  intros Hp Hs. assert (all_kept steps -> List.filter (changes_version id) steps = []) as Hkept by (intros; by apply kept_version).
  destruct c as [| o | | | | | | | | | | | | | |]; simpl in Hp; try (left; split; [by apply Hkept, Hp|done]).
  destruct Hp as [(H1 & H2 & l1 & a & b & l2 & -> & Hu & Hsaved)|[H1 H2]].
  2: { left. split; [by apply unchanged_version|done]. }
  apply Forall_app in Hu as [Hu1 Hu2]. rewrite List.filter_app. simpl.
  rewrite (unchanged_version id l1), (unchanged_version id l2) by done.
  assert (is_Some (tb_orders a !! id)) as Ha by (apply (Hs a b); set_solver).
  pose proof (saved_changes id o a b Hsaved Ha) as Hc. unfold changes_version. simpl. case_decide as Hd.
  - destruct Hc as [Hva Hvb]. right. exists o, a, b. rewrite Hva, Hvb. rewrite bool_decide_eq_false_2 by (intros [= ?]; lia).
    by split_and!.
  - left. rewrite bool_decide_eq_true_2 by done. split; [done|]. intros o' [= <-]. congruence.
Qed.

Lemma elem_of_changers id h i : i ∈ changers id h <-> exists e, e ∈ own i h /\ changes_version id e = true.
Proof.
  unfold changers. rewrite list_elem_of_fmap. split.
  - intros ([j e] & -> & Hin). apply list_elem_of_In, filter_In in Hin as [Hin He]. exists e.
    split; [|done]. apply elem_of_own. by apply list_elem_of_In.
  - intros (e & Hin & He). exists (i, e). split; [done|]. apply list_elem_of_In, filter_In. split; [|done].
    apply list_elem_of_In. by apply elem_of_own.
Qed.

Lemma changers_NoDup id h : (forall i, (length (List.filter (changes_version id) (own i h)) <= 1)%nat) -> NoDup (changers id h).
Proof.
  induction h as [|[j e] h IH]; intros H; [constructor|]. unfold changers. simpl.
  assert (forall i, own i ((j, e) :: h) = own i [(j, e)] ++ own i h) as Hcons by (intros i; by rewrite <- own_app).
  assert (NoDup (changers id h)) as Hnd.
  { apply IH. intros i. specialize (H i). rewrite Hcons, List.filter_app, length_app in H. lia. }
  destruct (changes_version id e) eqn:He; [|done]. simpl. apply NoDup_cons. split; [|done].
  intros (e' & Hin & He')%elem_of_changers. specialize (H j).
  rewrite Hcons, own_single, decide_True, List.filter_app in H by done. simpl in H. rewrite He in H. simpl in H.
  assert (e' ∈ List.filter (changes_version id) (own j h)) as Hf
    by (apply list_elem_of_In, filter_In; split; [by apply list_elem_of_In|done]).
  destruct (List.filter (changes_version id) (own j h)); [by apply not_elem_of_nil in Hf|]. simpl in H. lia.
Qed.

Lemma chain_version id h : forall d d' v, chain d h d' -> version_of id d = Some v ->
  (forall i a b, (i, (a, b)) ∈ h -> changes_version id (a, b) = true -> version_of id b = (fun v => v + 1) <$> version_of id a) ->
  version_of id d' = Some (v + Z.of_nat (length (changers id h))).
Proof.
  induction h as [|[i [a b]] h IH]; intros d d' v Hc Hv Hstep; simpl in Hc.
  { subst d'. by rewrite Z.add_0_r. }
  destruct Hc as [-> Hc]. unfold changers. simpl.
  assert (forall i a b, (i, (a, b)) ∈ h -> changes_version id (a, b) = true -> version_of id b = (fun v => v + 1) <$> version_of id a)
    as Hstep' by (intros i' a' b' Hin; eapply Hstep; by right).
  destruct (changes_version id (d, b)) eqn:E.
  - rewrite (IH b d' (v + 1)); [simpl; unfold changers; f_equal; lia|done| |done].
    by rewrite (Hstep i d b), Hv by (first [by left|done]).
  - apply (IH b d' v); [done| |done]. unfold changes_version in E. apply negb_false_iff, bool_decide_eq_true in E. simpl in E.
    congruence.
Qed.

(** The version is spent. *)
Lemma saved_then keep L o a b db : saved o a b -> stable keep L b db ->
  exists r, tb_orders db !! Order_ID o = Some r /\ Order_Version o < or_version r.
Proof.
  intros (r & r' & _ & _ & Hr' & Hv)%saved_version Hs. destruct (st_follows _ _ _ _ Hs _ _ Hr') as (r2 & H2 & _ & Hle & _).
  exists r2. split; [done|lia].
Qed.

Lemma created_then keep L o a b db : created o a b -> stable keep L b db -> is_Some (tb_orders db !! Order_ID o).
Proof.
  intros (_ & o' & _ & Hb) Hs. assert (is_Some (stored_orders b !! Order_ID o)) as [x Hx]
    by (rewrite Hb, lookup_insert_eq; by eexists).
  unfold stored_orders in Hx. apply lookup_fmap_Some in Hx as (r & _ & Hr).
  destruct (st_follows _ _ _ _ Hs _ _ Hr) as (r2 & H2 & _). by eexists.
Qed.

Section Pool.
Context (keep : bool) (sur : nat -> surroundings) (schedule : list nat) (db : database) (calls : list store_call).
Context (Hok : store_ok db) (Hkeep : keep = true -> forall t n, StoreExpire t n ∉ calls).

Let start := connect db (map store_perform calls).
Let final := pool_exec sur schedule start.

Lemma store_pool_start : pool_ok store_ok (stable keep) (promised calls) [] start.
Proof. by apply store_pool_ok. Qed.

Lemma call_promise i c e : calls !! i = Some c -> returned final i e ->
  promise c e (own i (pool_history sur schedule start)).
Proof.
  intros Hc Hr. assert (pool_ok store_ok (stable keep) (promised calls) ([] ++ pool_history sur schedule start) final) as Hp
    by (apply pool_exec_ok; [apply _|apply store_pool_start]).
  exact (pool_returned _ _ _ _ _ _ _ Hp Hr c Hc).
Qed.

(** Of two commands of different calls one comes first; what they leave is
    there at the end. *)
Lemma steps_apart i j a b c d : i <> j ->
  (a, b) ∈ own i (pool_history sur schedule start) -> (c, d) ∈ own j (pool_history sur schedule start) ->
  stable keep [] b c \/ stable keep [] d a.
Proof.
  rewrite !elem_of_own. intros Hne H1 H2.
  exact (pool_history_order store_ok (stable keep) _ sur schedule [] start i j a b c d store_pool_start Hne H1 H2).
Qed.

Lemma step_stays i a b : (a, b) ∈ own i (pool_history sur schedule start) -> stable keep [] b (pl_db final).
Proof.
  rewrite elem_of_own. intros H.
  apply (pool_history_within store_ok (stable keep) _ sur schedule [] start i a b store_pool_start H).
Qed.

(** The commands of one call, whether it has returned or not. *)
Lemma call_changes id i c : is_Some (tb_orders db !! id) -> calls !! i = Some c ->
  let steps := own i (pool_history sur schedule start) in exists e, (forall e', returned final i e' -> e = e') /\
  ((List.filter (changes_version id) steps = [] /\ (forall o, c = StoreSave o -> Order_ID o = id -> e <> None)) \/
   (exists o a b, c = StoreSave o /\ Order_ID o = id /\ e <> Some ErrOrderVersionConflict /\ e <> Some ErrOrderNotFound /\
     List.filter (changes_version id) steps = [(a, b)] /\ version_of id b = (fun v => v + 1) <$> version_of id a)).
Proof.
  intros [r Hid] Hc steps. assert (pool_ok store_ok (stable keep) (promised calls) ([] ++ pool_history sur schedule start) final) as Hp
    by (apply pool_exec_ok; [apply _|apply store_pool_start]).
  destruct (pool_may_return _ _ _ _ final i Hp) as (e & n & HP & He).
  { apply (pool_exec_conns sur schedule start i). unfold start, connect. simpl. rewrite !list_lookup_fmap, Hc. by eexists. }
  exists e. split; [done|]. specialize (HP c Hc). simpl in HP. fold steps in HP.
  assert (forall d, stable keep [] db d -> is_Some (tb_orders d !! id)) as Hthere.
  { intros d Hd. destruct (st_follows _ _ _ _ Hd _ _ Hid) as (r' & H & _). by eexists. }
  replace (List.filter (changes_version id) steps)
    with (List.filter (changes_version id) (steps ++ replicate n (pl_db final, pl_db final))).
  { apply promise_changes; [done|]. intros a b [Hin|Hin]%elem_of_app; apply Hthere.
    - unfold steps in Hin. rewrite elem_of_own in Hin.
      apply (pool_history_within store_ok (stable keep) _ sur schedule [] start i a b store_pool_start Hin).
    - apply elem_of_replicate in Hin as [[= -> _] _]. exact (pool_exec_stable _ _ _ sur schedule [] start store_pool_start). }
  rewrite List.filter_app, (unchanged_version id (replicate _ _)); [by rewrite app_nil_r|]. by apply Forall_replicate.
Qed.

(** The version counts the saves that took effect. *)
Lemma version_counts id r : tb_orders db !! id = Some r ->
  exists r' took, tb_orders (pl_db final) !! id = Some r' /\ or_version r' = or_version r + Z.of_nat (length took) /\ NoDup took /\
    (forall i, i ∈ took -> exists o, calls !! i = Some (StoreSave o) /\ Order_ID o = id /\
       ~ returned final i (Some ErrOrderVersionConflict) /\ ~ returned final i (Some ErrOrderNotFound)) /\
    (forall i o, calls !! i = Some (StoreSave o) -> Order_ID o = id -> returned final i None -> i ∈ took).
Proof.
  intros Hr. set (h := pool_history sur schedule start). assert (is_Some (tb_orders db !! id)) as Hid by (by eexists).
  assert (forall i e, e ∈ own i h -> exists c, calls !! i = Some c) as Hcalls.
  { intros i e Hin. apply elem_of_own, pool_history_conns in Hin. apply (pool_exec_conns sur schedule start i) in Hin.
    unfold start, connect in Hin. simpl in Hin. rewrite !list_lookup_fmap in Hin. destruct (calls !! i) as [c|]; [by eexists|].
    by destruct Hin. }
  assert (forall i a b, (i, (a, b)) ∈ h -> changes_version id (a, b) = true -> version_of id b = (fun v => v + 1) <$> version_of id a)
    as Hstep.
  { intros i a b Hin%elem_of_own Hch. destruct (Hcalls i _ Hin) as [c Hc].
    assert ((a, b) ∈ List.filter (changes_version id) (own i h)) as Hf
      by (apply list_elem_of_In, filter_In; split; [by apply list_elem_of_In|done]).
    destruct (call_changes id i c Hid Hc) as (e & _ & [[H _]|(o & a' & b' & _ & _ & _ & _ & H & Hv)]); fold h in H; rewrite H in Hf.
    - by apply not_elem_of_nil in Hf.
    - apply list_elem_of_singleton in Hf. by injection Hf as -> ->. }
  assert (version_of id (pl_db final) = Some (or_version r + Z.of_nat (length (changers id h)))) as Hend.
  { eapply chain_version; [apply pool_history_chain|unfold version_of; simpl; by rewrite Hr|exact Hstep]. }
  unfold version_of in Hend. apply fmap_Some in Hend as (r' & Hr' & Hv). exists r', (changers id h). split_and!; [done|done|..].
  - apply changers_NoDup. intros i. destruct (own i h) as [|e l] eqn:E; [simpl; lia|].
    destruct (Hcalls i e) as [c Hc]; [rewrite E; by left|]. rewrite <- E.
    destruct (call_changes id i c Hid Hc) as (? & _ & [[H _]|(? & ? & ? & _ & _ & _ & _ & H & _)]);
      fold h in H; rewrite H; simpl; lia.
  - intros i (e & Hin & Hch)%elem_of_changers. destruct (Hcalls i _ Hin) as [c Hc].
    destruct (call_changes id i c Hid Hc) as (e' & He & [[H _]|(o & a & b & -> & Ho & H1 & H2 & _)]).
    + exfalso. assert (e ∈ List.filter (changes_version id) (own i h)) as Hf
        by (apply list_elem_of_In, filter_In; split; [by apply list_elem_of_In|done]).
      fold h in H. rewrite H in Hf. by apply not_elem_of_nil in Hf.
    + exists o. split_and!; [done|done|by intros ->%He..].
  - intros i o Hc Ho Hret. destruct (call_changes id i _ Hid Hc) as (e & He & [[_ H]|(_ & a & b & _ & _ & _ & _ & H & _)]).
    + by destruct (H o eq_refl Ho), (He _ Hret).
    + apply elem_of_changers. fold h in H. exists (a, b).
      assert ((a, b) ∈ List.filter (changes_version id) (own i h)) as Hf by (rewrite H; by left).
      apply list_elem_of_In, filter_In in Hf as [Hin Hch]. split; [by apply list_elem_of_In|done].
Qed.

Lemma pool_end : store_ok (pl_db final) /\ stable keep [] db (pl_db final).
Proof.
  split; [by eapply po_db, pool_exec_ok, store_pool_start; apply _|]. exact (pool_exec_stable _ _ _ sur schedule [] start store_pool_start).
Qed.
End Pool.

(** C12. Any number of connections that call the repositories of orders,
    timeline, outbox and idempotency keys at once, with any schedule of
    statements and any outages, leave consistent tables, at every moment.  An
    order stays with its items and creation time.  The version of an order that
    is there at the start counts the saves: it has grown by exactly one for each
    save that took effect, which are all that reported success and none that
    reported a conflict or a missing order; and it identifies the contents.  A
    save that reported success has spent the version it was made from, so that of
    two saves made from the same version of an order at most one reports success;
    so with two creations of an order. *)
Theorem postgres_saves_once sur schedule db calls : store_ok db ->
  let final := pool_exec sur schedule (connect db (map store_perform calls)) in
  store_ok (pl_db final) /\
  (forall id o, stored_orders db !! id = Some o -> exists o', stored_orders (pl_db final) !! id = Some o' /\ later o o') /\
  (forall id r, tb_orders db !! id = Some r ->
     exists r' took, tb_orders (pl_db final) !! id = Some r' /\ or_version r' = or_version r + Z.of_nat (length took) /\ NoDup took /\
       (forall i, i ∈ took -> exists o, calls !! i = Some (StoreSave o) /\ Order_ID o = id /\
          ~ returned final i (Some ErrOrderVersionConflict) /\ ~ returned final i (Some ErrOrderNotFound)) /\
       (forall i o, calls !! i = Some (StoreSave o) -> Order_ID o = id -> returned final i None -> i ∈ took)) /\
  (forall i o, calls !! i = Some (StoreSave o) -> returned final i None ->
     exists r, tb_orders (pl_db final) !! Order_ID o = Some r /\ Order_Version o < or_version r) /\
  (forall i o, calls !! i = Some (StoreCreate o) -> returned final i None -> is_Some (tb_orders (pl_db final) !! Order_ID o)) /\
  (forall i j o o', i <> j -> calls !! i = Some (StoreSave o) -> calls !! j = Some (StoreSave o') ->
     returned final i None -> returned final j None -> Order_ID o = Order_ID o' -> Order_Version o <> Order_Version o') /\
  (forall i j o o', i <> j -> calls !! i = Some (StoreCreate o) -> calls !! j = Some (StoreCreate o') ->
     returned final i None -> returned final j None -> Order_ID o <> Order_ID o').
Proof.
  intros Hok final. assert (false = true -> forall t n, StoreExpire t n ∉ calls) as Hk by done.
  destruct (pool_end false sur schedule db calls Hok Hk) as [Hend Hst]. split; [done|]. split_and!.
  - intros id o. eapply stored_later; [by apply so_orders|by apply so_orders|exact Hst].
  - intros id r Hr. by apply (version_counts false).
  - intros i o Hc Hr. pose proof (call_promise false sur schedule db calls Hok Hk i _ _ Hc Hr) as Hp.
    apply save_promised in Hp as (a & b & Hin & Hs). eapply saved_then; [exact Hs|]. by eapply step_stays.
  - intros i o Hc Hr. destruct (call_promise false sur schedule db calls Hok Hk i _ _ Hc Hr) as [(a & b & Hin & Hs) _]; [done|].
    eapply created_then; [exact Hs|]. by eapply step_stays.
  - intros i j o o' Hne Hi Hj Ri Rj Hid Hv.
    destruct (save_promised _ _ (call_promise false sur schedule db calls Hok Hk i _ _ Hi Ri)) as (a & b & Hin & Hs).
    destruct (save_promised _ _ (call_promise false sur schedule db calls Hok Hk j _ _ Hj Rj)) as (c & d & Hin' & Hs').
    destruct (saved_version _ _ _ Hs) as (r & _ & Hr & Hrv & _), (saved_version _ _ _ Hs') as (r' & _ & Hr' & Hrv' & _).
    destruct (steps_apart false sur schedule db calls Hok Hk _ _ _ _ _ _ Hne Hin Hin') as [H|H].
    + destruct (saved_then _ _ _ _ _ _ Hs H) as (x & Hx & Hlt). rewrite <- Hid in Hr'. rewrite Hr' in Hx. injection Hx as <-. lia.
    + destruct (saved_then _ _ _ _ _ _ Hs' H) as (x & Hx & Hlt). rewrite Hid in Hr. rewrite Hr in Hx. injection Hx as <-. lia.
  - intros i j o o' Hne Hi Hj Ri Rj Hid.
    destruct (call_promise false sur schedule db calls Hok Hk i _ _ Hi Ri) as [(a & b & Hin & Hs) _]; [done|].
    destruct (call_promise false sur schedule db calls Hok Hk j _ _ Hj Rj) as [(c & d & Hin' & Hs') _]; [done|].
    assert (forall x y e, created x y e -> tb_orders y !! Order_ID x = None) as Hnew.
    { intros x y e [H _]. unfold stored_orders in H. rewrite lookup_fmap in H. by destruct (tb_orders y !! _). }
    apply Hnew in Hs as Hn, Hs' as Hn'.
    destruct (steps_apart false sur schedule db calls Hok Hk _ _ _ _ _ _ Hne Hin Hin') as [H|H].
    + destruct (created_then _ _ _ _ _ _ Hs H) as [x Hx]. congruence.
    + destruct (created_then _ _ _ _ _ _ Hs' H) as [x Hx]. congruence.
Qed.

(** C13. As long as no expired keys are deleted, an idempotency key is won by one
    request: of any number of calls that claim it at once, with any schedule
    and any outages, at most one is told that it may go on. *)
Theorem postgres_key_claimed_once sur schedule db calls i j key hash ttl key' hash' ttl' : store_ok db ->
  (forall t n, StoreExpire t n ∉ calls) -> i <> j ->
  calls !! i = Some (StoreClaim key hash ttl) -> calls !! j = Some (StoreClaim key' hash' ttl') ->
  let final := pool_exec sur schedule (connect db (map store_perform calls)) in
  returned final i None -> returned final j None -> TrimSpace key <> TrimSpace key'.
Proof.
  intros Hok Hexp Hne Hi Hj final Ri Rj Hkey. assert (true = true -> forall t n, StoreExpire t n ∉ calls) as Hk by done.
  destruct (call_promise true sur schedule db calls Hok Hk i _ _ Hi Ri) as [Hw _];
    destruct (Hw eq_refl) as (a & b & Hin & Hn & Hs).
  destruct (call_promise true sur schedule db calls Hok Hk j _ _ Hj Rj) as [Hw' _];
    destruct (Hw' eq_refl) as (c & d & Hin' & Hn' & Hs').
  rewrite <- Hkey in *.
  destruct (steps_apart true sur schedule db calls Hok Hk _ _ _ _ _ _ Hne Hin Hin') as [H|H].
  - destruct (st_keys _ _ _ _ H eq_refl _ Hs) as [x Hx]. congruence.
  - destruct (st_keys _ _ _ _ H eq_refl _ Hs') as [x Hx]. congruence.
Qed.
End Acknowledged.
