(* ===== verification/PgFleet.v ===== *)
(** * The courier tables under concurrent calls

    Any number of connections call the methods of PgCouriers.v at once.  The
    lock on the courier's row (SELECT ... FOR UPDATE) and the constraints of the
    tables keep them consistent: [couriers_ok].  The limit of couriers per zone
    is not protected by either, and is kept only by calls that do not overlap. *)

From S2P Require Import Prelude GoLib Domain Prog Postgres Courier PgSchema PgCouriers PgConcurrency.
Import PgCouriers.

#[global] Instance courier_row_eq : EqDecision courier_row.
Proof. solve_decision. Defined.
#[global] Instance zone_row_eq : EqDecision zone_row.
Proof. solve_decision. Defined.
#[global] Instance slot_row_eq : EqDecision slot_row.
Proof. solve_decision. Defined.
#[global] Instance capability_row_eq : EqDecision capability_row.
Proof. solve_decision. Defined.
#[global] Instance rating_row_eq : EqDecision rating_row.
Proof. solve_decision. Defined.

#[global] Instance courier_tables : Tables courier_database := fun v v' b =>
  MkCourierDatabase (patch_map (tb_couriers v) (tb_couriers v') (tb_couriers b))
    (patch_map (tb_zones v) (tb_zones v') (tb_zones b)) (patch_map (tb_slots v) (tb_slots v') (tb_slots b))
    (patch_map (tb_capabilities v) (tb_capabilities v') (tb_capabilities b))
    (patch_map (tb_ratings v) (tb_ratings v') (tb_ratings b)).

#[global] Instance courier_tables_laws : TablesLaws courier_database.
Proof. intros v [a b c d e]. unfold patch, courier_tables. by rewrite !patch_map_same. Qed.

(** ** Calls *)

Inductive courier_call : Type :=
| CallCreate (c : Courier)
| CallSave (c : Courier)
| CallReplaceZones (courierID : string) (zones : list CourierZone)
| CallCreateSlot (s : CourierSlot)
| CallSubmitRating (r : CourierRating)
| CallGet (id : string)
| CallGetByPhone (phone : string)
| CallListByZone (zoneID : string) (limit : Z)
| CallListZones (courierID : string)
| CallListSlots (courierID : string) (from to : Time)
| CallGetVehicleCapability (v : VehicleType)
| CallListVehicleCapabilities
| CallGetRatingSummary (courierID : string).

Section Calls.
Context {pg : Postgres} {ul : UnicodeLower}.

Definition perform (c : courier_call) : SQL courier_database unit :=
  match c with
  | CallCreate c => Create c;; mret tt
  | CallSave c => Save c;; mret tt
  | CallReplaceZones id zs => ReplaceZones id zs;; mret tt
  | CallCreateSlot s => CreateSlot s;; mret tt
  | CallSubmitRating r => SubmitRating r;; mret tt
  | CallGet id => Get id;; mret tt
  | CallGetByPhone p => GetByPhone p;; mret tt
  | CallListByZone z n => ListByZone z n;; mret tt
  | CallListZones id => ListZones id;; mret tt
  | CallListSlots id from to => ListSlots id from to;; mret tt
  | CallGetVehicleCapability v => GetVehicleCapability v;; mret tt
  | CallListVehicleCapabilities => ListVehicleCapabilities;; mret tt
  | CallGetRatingSummary id => GetRatingSummary id;; mret tt
  end.

(** A connection that makes calls, one after the other. *)
Definition client (calls : list courier_call) : SQL courier_database unit := for_each calls perform.
End Calls.

(** ** The invariant *)

Section Invariant.
Context {ul : UnicodeLower}.

Definition overlap (a b : slot_row) : bool :=
  (sr_slot_start a <? sr_slot_end b) && (sr_slot_start b <? sr_slot_end a).

Record couriers_ok (db : courier_database) : Prop := MkCouriersOk {
  ok_courier : forall k r, tb_couriers db !! k = Some r ->
    cr_id r = k /\ phone_normal (cr_phone r) /\ vehicle_type_check (cr_vehicle_type r) = true;
  ok_phones : forall k1 k2 r1 r2, tb_couriers db !! k1 = Some r1 -> tb_couriers db !! k2 = Some r2 ->
    cr_phone r1 = cr_phone r2 -> k1 = k2;
  ok_zone : forall c z r, tb_zones db !! (c, z) = Some r ->
    zr_courier_id r = c /\ zr_zone_id r = z /\ is_Some (tb_couriers db !! c) /\
    IsKnownMoscowZoneID (NormalizeZoneID z) = true;
  ok_primary : forall c z1 z2 r1 r2, tb_zones db !! (c, z1) = Some r1 -> tb_zones db !! (c, z2) = Some r2 ->
    zr_is_primary r1 = true -> zr_is_primary r2 = true -> z1 = z2;
  ok_has_primary : forall c z r, tb_zones db !! (c, z) = Some r ->
    exists z' r', tb_zones db !! (c, z') = Some r' /\ zr_is_primary r' = true;
  ok_slot : forall k r, tb_slots db !! k = Some r ->
    sr_id r = k /\ is_Some (tb_couriers db !! sr_courier_id r) /\ sr_slot_start r < sr_slot_end r /\
    duration_hours_check (sr_duration_hours r) = true /\ slot_status_check (sr_status r) = true;
  ok_disjoint : forall k1 k2 r1 r2, tb_slots db !! k1 = Some r1 -> tb_slots db !! k2 = Some r2 -> k1 <> k2 ->
    sr_courier_id r1 = sr_courier_id r2 -> sr_status r1 <> "canceled" -> sr_status r2 <> "canceled" ->
    overlap r1 r2 = false;
  ok_rating : forall k r, tb_ratings db !! k = Some r ->
    rr_id r = k /\ is_Some (tb_couriers db !! rr_courier_id r) /\ 1 <= rr_score r <= 5 /\
    Forall (fun t => CourierRatingTag_Valid t = true) (rr_tags r);
}.

Lemma couriers_ok_empty now : couriers_ok (empty_courier_database now).
Proof. split; simpl; intros; by simplify_map_eq. Qed.

(** Nothing but the tables of ratings and capabilities can change for a courier
    whose row is locked. *)
Record same_courier (c : string) (db db' : courier_database) : Prop := MkSameCourier {
  same_row : tb_couriers db' !! c = tb_couriers db !! c;
  same_zones : forall z, tb_zones db' !! (c, z) = tb_zones db !! (c, z);
  same_slots : forall id r, sr_courier_id r = c ->
    tb_slots db' !! id = Some r <-> tb_slots db !! id = Some r;
}.

#[global] Instance same_courier_pre c : PreOrder (same_courier c).
Proof.
  split; [by intros db; split|]. intros d1 d2 d3 [H1 H2 H3] [G1 G2 G3]. split; [congruence|..].
  - intros z. by rewrite G2.
  - intros id r Hr. by rewrite G3, H3.
Qed.

Record stable (L : list lock) (db db' : courier_database) : Prop := MkStable {
  st_courier : forall c, ("couriers", c) ∈ L -> same_courier c db db';
  st_slot : forall id, ("courier_slots", id) ∈ L -> tb_slots db' !! id = tb_slots db !! id;
}.

#[global] Instance stable_pre L : PreOrder (stable L).
Proof.
  split; [by intros db; split|]. intros d1 d2 d3 [H1 H2] [G1 G2]. split.
  - intros c Hc. trans d2; auto.
  - intros id Hid. rewrite G2, H2; done.
Qed.
End Invariant.

Abbreviation spec := (rg_spec couriers_ok stable).
Abbreviation commits := (commit_ok couriers_ok stable).

(** ** Calls outside transactions *)

Abbreviation safe := (safe couriers_ok stable).

Section Reads.
Context {pg : Postgres} {ul : UnicodeLower}.

Lemma safe_scan_query {R A} what iterate (scan : R -> result A) f : safe (scan_query what iterate scan f).
Proof. unfold scan_query. solve_safe. Qed.

Lemma safe_exists id : safe (ensureCourierExists id).
Proof. unfold ensureCourierExists. solve_safe. Qed.

#[local] Hint Resolve safe_scan_query safe_exists : oms.

Lemma reads_safe c :
  match c with
  | CallCreate _ | CallSave _ | CallReplaceZones _ _ | CallCreateSlot _ | CallSubmitRating _ => True
  | _ => safe (perform c)
  end.
Proof.
  destruct c; try exact Logic.I; cbv iota; unfold perform;
    unfold Get, GetByPhone, ListByZone, ListZones, ListSlots, GetVehicleCapability, ListVehicleCapabilities,
      GetRatingSummary; solve_safe.
Qed.

(** ** Couriers and ratings *)

Lemma phone_unused id phone db : couriers_ok db -> phone_used id phone db = false ->
  forall k r, tb_couriers db !! k = Some r -> cr_phone r = phone -> k = id.
Proof.
  intros Hok H k r Hk Hp. destruct (decide (k = id)) as [|Hne]; [done|]. exfalso.
  apply not_true_iff_false in H. apply H. apply existsb_exists. exists r. split.
  - apply list_elem_of_In, elem_of_values. by exists k.
  - destruct (ok_courier _ Hok _ _ Hk) as [Hid _]. rewrite Hid, Hp, String.eqb_refl. simpl.
    apply negb_true_iff, String.eqb_neq. done.
Qed.

(** Writing the row of one courier. *)
Lemma courier_written L db r : couriers_ok db ->
  ("couriers", cr_id r) ∈ L -> phone_normal (cr_phone r) -> vehicle_type_check (cr_vehicle_type r) = true ->
  phone_used (cr_id r) (cr_phone r) db = false ->
  commits L db (put_couriers (<[cr_id r := r]> (tb_couriers db)) db).
Proof.
  intros Hok HL Hn Hv Hp. pose proof (phone_unused _ _ _ Hok Hp) as Hfree.
  assert (forall k, is_Some (tb_couriers db !! k) -> is_Some (<[cr_id r := r]> (tb_couriers db) !! k)) as Hstay.
  { intros k [x Hx]. rewrite lookup_insert. case_decide; eauto. }
  split; [destruct Hok as [H1 H2 H3 H4 H5 H6 H7 H8]; split; simpl; try done|].
  - intros k x. rewrite lookup_insert_Some. intros [[<- <-]|[_ Hx]]; eauto.
  - intros k1 k2 r1 r2. rewrite !lookup_insert_Some.
    intros [[<- <-]|[Hn1 Hr1]] [[<- <-]|[Hn2 Hr2]] Heq; [done| | |eauto].
    + symmetry. by apply (Hfree k2 r2).
    + by apply (Hfree k1 r1).
  - intros c z x Hx. destruct (H3 _ _ _ Hx) as (? & ? & ? & ?). auto.
  - intros k x Hx. destruct (H6 _ _ Hx) as (? & ? & ?). auto.
  - intros k x Hx. destruct (H8 _ _ Hx) as (? & ? & ?). auto.
  - intros L' Hd. split; simpl; [|done]. intros c Hc. split; simpl; [|done..].
    apply lookup_insert_ne. intros <-. by apply (Hd ("couriers", cr_id r)).
Qed.

Lemma insert_courier_ok r db a db' : couriers_ok db -> phone_normal (cr_phone r) ->
  insert_courier r db = (inl a, db') -> commits (courier_keys r) db db'.
Proof.
  intros Hok Hn. unfold insert_courier. destruct (vehicle_type_check _) eqn:Hv; [|done]. simpl.
  destruct (tb_couriers db !! cr_id r); [done|]. destruct (phone_used _ _ _) eqn:Hp; [done|]. intros [= _ <-].
  apply courier_written; try done. by constructor.
Qed.

Lemma Create_safe c : safe (Create c).
Proof.
  unfold Create. destruct (firstDomainValidationErr _); [apply conn_safe_ret|].
  destruct (NormalizePhone _) as [phone|e] eqn:Hp; [|apply conn_safe_ret].
  apply conn_safe_bind; [apply safe_now|]. intros now. apply conn_safe_bind; [|solve_safe]. apply safe_stmt.
  intros db a db' Hok. by apply insert_courier_ok, (NormalizePhone_normal _ _ Hp).
Qed.

Lemma update_courier_ok r db a db' : couriers_ok db -> phone_normal (cr_phone r) ->
  update_courier r db = (inl a, db') ->
  commits (match tb_couriers db !! cr_id r with Some _ => courier_keys r | None => [] end) db db'.
Proof.
  intros Hok Hn. unfold update_courier. destruct (tb_couriers db !! cr_id r) as [old|] eqn:E.
  2: { intros [= _ <-]. by apply commit_ok_refl; [apply _|]. }
  destruct (vehicle_type_check _) eqn:Hv; [|done]. simpl. destruct (phone_used _ _ _) eqn:Hp; [done|].
  intros [= _ <-]. destruct (ok_courier _ Hok _ _ E) as [Hid _]. set (r' := MkCourierRow _ _ _ _ _ _ _ _).
  change (commits (courier_keys r) db (put_couriers (<[cr_id r := r']> (tb_couriers db)) db)).
  rewrite <- Hid. apply (courier_written _ db r'); simpl; rewrite ?Hid; try done. by constructor.
Qed.

Lemma Save_safe c : safe (Save c).
Proof.
  unfold Save. destruct (firstDomainValidationErr _); [apply conn_safe_ret|].
  destruct (NormalizePhone _) as [phone|e] eqn:Hp; [|apply conn_safe_ret].
  apply conn_safe_bind; [solve_safe|]. intros now. apply conn_safe_bind; [|solve_safe]. apply safe_stmt.
  intros db a db' Hok. by apply update_courier_ok, (NormalizePhone_normal _ _ Hp).
Qed.

Lemma insert_rating_ok r db a db' L : couriers_ok db -> Forall (fun t => CourierRatingTag_Valid t = true) (rr_tags r) ->
  insert_rating r db = (inl a, db') -> commits L db db'.
Proof.
  intros [H1 H2 H3 H4 H5 H6 H7 H8] Ht. unfold insert_rating. destruct (negb (fits_smallint _)); [done|].
  destruct (score_check _) eqn:Hs; [|done]. simpl. unfold score_check in Hs.
  destruct (tb_ratings db !! rr_id r), (tb_couriers db !! rr_courier_id r) eqn:Hc; try done. intros [= _ <-].
  split; [split; simpl; try done|by intros L' _; split; simpl; intros; [split|]].
  intros k x. rewrite lookup_insert_Some. intros [[<- <-]|[_ Hx]]; [|eauto]. split_and!; [done|by eexists|lia..|done].
Qed.

Lemma SubmitRating_safe r : safe (SubmitRating r).
Proof.
  unfold SubmitRating. destruct (CourierRating_ValidateInvariants r) as [|e l] eqn:Hv; cbn [firstDomainValidationErr]; [|apply conn_safe_ret].
  apply CourierRating_valid in Hv. apply conn_safe_bind; [solve_safe|]. intros t. cbv zeta.
  apply conn_safe_bind; [|solve_safe]. apply safe_stmt. intros db a db' Hok. apply insert_rating_ok; [done|].
  apply Hv.
Qed.
End Reads.

(** ** Transactions that hold a courier's row *)

Section Transactions.
Context {pg : Postgres} {ul : UnicodeLower}.

(** An open transaction with the lock of courier [c], who exists, and the locks [extra],
    whose writes turn any tables that agree about the courier into [F] of them. *)
Definition working (c : string) (extra : list lock) (F : courier_database -> courier_database)
    (g : courier_database * conn_tx courier_database) : Prop :=
  exists f L, g.2 = Open f L /\ ("couriers", c) ∈ L /\ (forall l, l ∈ extra -> l ∈ L) /\
    is_Some (tb_couriers g.1 !! c) /\ forall base, same_courier c g.1 base -> f base = F base.

Lemma working_intro c extra F db f L : ("couriers", c) ∈ L -> (forall l, l ∈ extra -> l ∈ L) -> is_Some (tb_couriers db !! c) ->
  (forall base, same_courier c db base -> f base = F base) -> working c extra F (db, Open f L).
Proof. intros. by exists f, L. Qed.

(** A statement: others have committed before it. *)
Lemma wp_working {A B} locks (s : statement courier_database A) (k : A + sql_error -> SQL courier_database B) Q c extra F g :
  working c extra F g ->
  (forall db e, wp spec (k (inr e)) (db, Failed) Q) ->
  (forall db a v, couriers_ok db -> stable extra g.1 db -> same_courier c g.1 db -> s (F db) = (inl a, v) ->
     forall g', g'.1 = db ->
     (forall G, (forall base, same_courier c db base -> patch (F db) v (F base) = G base) ->
        working c (locks (F db) ++ extra) G g') -> wp spec (k (inl a)) g' Q) ->
  wp spec (call (Stmt locks s) ≫= k) g Q.
Proof.
  destruct g as [db0 tx]. intros (f & L & E & Hc & Hx & Hex & HF) He Hs db Hok Hst. simpl in E, HF, Hex. subst tx. simpl in Hst.
  pose proof (st_courier _ _ _ Hst c Hc) as Hsame. assert (f db = F db) as Hf by (by apply HF).
  split; [intros; apply He|]. rewrite Hf. destruct (s (F db)) as [[a|e] v] eqn:E; [|apply He].
  apply (Hs db a v); [done| |done..|].
  - destruct Hst as [Hst1 Hst2]. split; auto.
  - intros G HG. apply working_intro; [set_solver|set_solver|by rewrite (same_row _ _ _ Hsame)|].
    intros base Hb. rewrite HF; [by apply HG|by trans db].
Qed.

(** A query. *)
Lemma wp_working_query {A B} locks (q : courier_database -> A) (k : A + sql_error -> SQL courier_database B) Q c extra F g :
  working c extra F g ->
  (forall db e, wp spec (k (inr e)) (db, Failed) Q) ->
  (forall g', stable extra g.1 g'.1 -> same_courier c g.1 g'.1 -> couriers_ok g'.1 -> working c extra F g' ->
     wp spec (k (inl (q (F g'.1)))) g' Q) ->
  wp spec (call (Stmt locks (query q)) ≫= k) g Q.
Proof.
  intros Hw He Hk. eapply wp_working; [exact Hw|exact He|]. intros db a v Hok Hst Hsame [= <- <-] g' <- HG.
  apply Hk; [done..|]. destruct (HG F) as (f & L & ? & ? & ? & ? & ?); [intros; apply patch_same|].
  exists f, L. split_and!; [done|done|set_solver|done|done].
Qed.

Lemma wp_working_now {B} (k : Time -> SQL courier_database B) Q c extra F g :
  working c extra F g ->
  (forall t g', stable extra g.1 g'.1 -> same_courier c g.1 g'.1 -> working c extra F g' -> wp spec (k t) g' Q) ->
  wp spec (call SqlNow ≫= k) g Q.
Proof.
  destruct g as [db0 tx]. intros (f & L & E & Hc & Hx & Hex & HF) Hk db Hok Hst t. simpl in E, HF, Hex. subst tx. simpl in Hst |- *.
  destruct Hst as [H1 H2]. apply Hk; [split; auto|auto|].
  apply working_intro; [done..|by rewrite (same_row _ _ _ (H1 c Hc))|]. intros base Hb. apply HF. trans db; [by apply H1|done].
Qed.

Definition closed {A} (_ : A) (g : courier_database * conn_tx courier_database) : Prop := g.2 = Idle.

Lemma wp_roll_back {A} e g : wp spec (roll_back e : SQL courier_database (result A)) g closed.
Proof. destruct g. by intros db _ _. Qed.

(** A commit, and the roll back when it fails. *)
Lemma wp_working_commit what c extra F g :
  working c extra F g ->
  (forall db, couriers_ok db -> is_Some (tb_couriers db !! c) -> stable extra g.1 db ->
     same_courier c g.1 db -> commits (("couriers", c) :: extra) db (F db)) ->
  wp spec (committed ← call Commit;
           match committed with
           | Some e => roll_back (ErrWrap what (sql_err e))
           | None => mret (Ok tt)
           end) g closed.
Proof.
  destruct g as [db0 tx]. intros (f & L & E & Hc & Hx & Hex & HF) Hok db Hdb Hst. simpl in E, HF, Hok, Hex. subst tx. simpl in Hst |- *.
  pose proof (st_courier _ _ _ Hst c Hc) as Hsame. rewrite (HF db Hsame).
  destruct (Hok db Hdb) as [HI Hs]; [by rewrite (same_row _ _ _ Hsame)|destruct Hst; split; auto|done|].
  assert (forall (e : sql_error) d, wp spec (roll_back (ErrWrap what (sql_err e))) (d, Idle) (@closed (result unit))) as Hr
    by (intros; apply wp_roll_back).
  split; [intros m; apply (Hr (DriverError m))|]. split; [|split; [done|intros m; apply (Hr (DriverError m))]].
  split; [done|]. intros L' Hd. apply Hs. set_solver.
Qed.

(** The courier's row, locked. *)
Lemma wp_getCourierTx {B} id (k : result Courier -> SQL courier_database B) Q db :
  (forall e g, wp spec (k (Err e)) g Q) ->
  (forall courier g, couriers_ok g.1 -> working id [] (fun base => base) g ->
     wp spec (k (Ok courier)) g Q) ->
  wp spec (getCourierTx id ≫= k) (db, Open (fun base => base) []) Q.
Proof.
  intros He Hk db' Hok _. split; [intros m; apply He|]. simpl.
  unfold locked_courier. destruct (tb_couriers db' !! id) as [r|] eqn:E; [|apply He].
  simpl. unfold scan_courier. destruct (VehicleType_Valid _); [|apply He]. apply Hk; [done|].
  apply working_intro; [set_solver|set_solver|by rewrite E|]. intros base _. apply patch_same.
Qed.

(** ** Slots *)

Definition add_slot (r : slot_row) (base : courier_database) : courier_database :=
  put_slots (<[sr_id r := r]> (tb_slots base)) base.

(** The slot does not overlap any that the courier has. *)
Definition slot_fits (r : slot_row) (db : courier_database) : Prop :=
  forall k x, tb_slots db !! k = Some x -> sr_courier_id x = sr_courier_id r -> sr_status x <> "canceled" ->
    overlap r x = false.

Lemma overlap_sym a b : overlap a b = overlap b a.
Proof. unfold overlap. apply andb_comm. Qed.

Lemma slot_fits_none slot created updated db :
  overlap_exists (Slot_CourierID slot) (Slot_Start slot) (Slot_End slot) db = false ->
  slot_fits (slot_params slot created updated) db.
Proof.
  unfold overlap_exists. intros H k x Hx Hc Hs. simpl in Hc.
  apply not_true_iff_false in H. apply not_true_iff_false. intros Ho. apply H. apply existsb_exists. exists x.
  split; [apply list_elem_of_In, elem_of_values; by exists k|]. unfold overlapping. unfold overlap in Ho. simpl in Ho.
  rewrite Hc, String.eqb_refl, (proj2 (String.eqb_neq _ _) Hs). simpl. apply andb_true_iff in Ho as [H1 H2].
  rewrite H2. apply Z.ltb_lt in H1. by apply Z.gtb_lt.
Qed.

Lemma slot_fits_same r db db' : same_courier (sr_courier_id r) db db' -> slot_fits r db -> slot_fits r db'.
Proof. intros [_ _ H] Hf k x Hx Hc Hs. apply (Hf k); [|done..]. by apply (H k x Hc). Qed.

(** A row the statement accepts. *)
Lemma insert_slot_accepts r db a v : insert_slot r db = (inl a, v) ->
  v = add_slot r db /\ tb_slots db !! sr_id r = None /\ is_Some (tb_couriers db !! sr_courier_id r) /\
  sr_slot_start r < sr_slot_end r /\ duration_hours_check (sr_duration_hours r) = true /\
  slot_status_check (sr_status r) = true.
Proof.
  unfold insert_slot, slot_range_check. destruct (negb (fits_integer _)); [done|].
  destruct (duration_hours_check _); [|done]. destruct (Z.ltb_spec (sr_slot_start r) (sr_slot_end r)); [|done].
  destruct (slot_status_check _); [|done]. simpl. destruct (tb_slots db !! sr_id r); [done|].
  destruct (existsb _ _); [done|]. destruct (tb_couriers db !! sr_courier_id r); [|done].
  intros [= _ <-]. by split_and!.
Qed.

Lemma slot_added r db L : couriers_ok db -> slot_fits r db -> tb_slots db !! sr_id r = None ->
  is_Some (tb_couriers db !! sr_courier_id r) -> sr_slot_start r < sr_slot_end r ->
  duration_hours_check (sr_duration_hours r) = true -> slot_status_check (sr_status r) = true ->
  ("couriers", sr_courier_id r) ∈ L -> ("courier_slots", sr_id r) ∈ L ->
  commits L db (add_slot r db).
Proof.
  intros [H1 H2 H3 H4 H5 H6 H7 H8] Hf Hn Hc Hr Hd Hs HL1 HL2. split; [split; simpl; try done|].
  - intros k x. rewrite lookup_insert_Some. intros [[<- <-]|[_ Hx]]; [done|eauto].
  - intros k1 k2 x1 x2. rewrite !lookup_insert_Some.
    intros [[<- <-]|[Hn1 G1]] [[<- <-]|[Hn2 G2]] Hne Hcc Hs1 Hs2; [done| | |by eapply H7].
    + by apply (Hf k2).
    + rewrite overlap_sym. by apply (Hf k1).
  - intros L' Hdis. split; simpl.
    + intros c Hc'. split; simpl; [done..|]. intros id x Hx. rewrite lookup_insert_Some.
      split; [intros [[<- <-]|[_ ?]]; [|done]|].
      * exfalso. apply (Hdis ("couriers", c)); [done|]. by rewrite <- Hx.
      * intros Hid. right. split; [congruence|done].
    + intros id Hid. apply lookup_insert_ne. intros <-. by apply (Hdis ("courier_slots", sr_id r)).
Qed.

Lemma store_slot_safe slot g :
  working (Slot_CourierID slot) [] (fun base => base) g -> wp spec (store_slot slot) g closed.
Proof.
  intros Hw. unfold store_slot. eapply wp_working_query; [exact Hw|intros; apply wp_roll_back|].
  intros g1 _ _ Hok1 Hw1. destruct (overlap_exists _ _ _ _) eqn:Ho; [apply wp_roll_back|].
  eapply wp_working_now; [exact Hw1|]. intros now g2 _ Hs2 Hw2. cbv zeta.
  set (row := slot_params _ _ _). pose proof (slot_fits_none slot _ _ _ Ho : slot_fits row _) as Hf.
  assert (sr_courier_id row = Slot_CourierID slot) as Hrc by done. clearbody row.
  eapply wp_working; [exact Hw2|intros; apply wp_roll_back|].
  intros db a v Hok _ Hs3 E g3 Hg3 HG.
  destruct (insert_slot_accepts _ _ _ _ E) as (-> & Hn & Hc & Hr & Hd & Hst).
  apply (wp_working_commit _ (Slot_CourierID slot) (slot_locks row) (add_slot row) g3).
  - apply HG. intros base _. unfold add_slot, patch, courier_tables, put_slots. simpl.
    rewrite !patch_map_same, patch_map_insert by (rewrite Hn; done). by destruct base.
  - intros db4 Hok4 Hex4 Hst4 Hs4. rewrite Hg3 in *. pose proof (st_slot _ _ _ Hst4 (sr_id row)) as Hid. apply slot_added; try done.
    + eapply slot_fits_same; [|exact Hf]. rewrite Hrc. trans g2.1; [done|]. by trans db.
    + rewrite Hid; [done|]. by constructor.
    + by rewrite Hrc.
    + rewrite Hrc. by constructor.
    + apply list_elem_of_further. by constructor.
Qed.

Lemma CreateSlot_safe slot : safe (CreateSlot slot).
Proof.
  unfold CreateSlot. cbv zeta. destruct (firstDomainValidationErr _); [apply conn_safe_ret|].
  intros db db1 _ _. split; [done|].
  apply wp_getCourierTx; [intros; apply wp_roll_back|]. intros courier g _ Hw.
  destruct (_ && _); [apply wp_roll_back|]. by apply store_slot_safe.
Qed.

(** ** Zones *)

(** A prepared zone of the courier. *)
Definition zone_good (c : string) (z : CourierZone) : Prop :=
  CZone_CourierID z = c /\ IsKnownMoscowZoneID (NormalizeZoneID (CZone_ZoneID z)) = true.

Lemma zone_valid z : firstDomainValidationErr (CourierZone_ValidateInvariants z) = None ->
  IsKnownMoscowZoneID (NormalizeZoneID (CZone_ZoneID z)) = true.
Proof.
  unfold firstDomainValidationErr, CourierZone_ValidateInvariants.
  destruct (IsKnownMoscowZoneID _); [done|]. by destruct (TrimSpace _ =s? ""), (NormalizeZoneID _ =s? "").
Qed.

Definition has_primary (zs : list CourierZone) : Prop := exists z, z ∈ zs /\ CZone_IsPrimary z = true.

(** The loop keeps the transaction and collects good zones, with a primary one
    among them when it has counted one. *)
Lemma prepare_loop_ok c extra F zones : forall seen acc n g,
  working c extra F g -> Forall (zone_good c) acc -> 0 <= n -> (0 < n -> has_primary acc) ->
  wp spec (prepare_loop c zones seen acc n) g (fun r g' => working c extra F g' /\
    forall l m, r = Ok (l, m) -> Forall (zone_good c) l /\ (acc = [] -> zones = [] \/ l <> []) /\
      (acc <> [] -> l <> []) /\ 0 <= m /\ (0 < m -> has_primary l)).
Proof.
  induction zones as [|z zones IH]; intros seen acc n g Hw Hacc Hn Hp; cbn [prepare_loop].
  { split; [done|]. intros l m [= <- <-]. split_and!; auto. }
  cbv zeta. set (z' := MkCourierZone _ _ _ _). destruct (firstDomainValidationErr _) eqn:Hv; [by split|].
  apply zone_valid in Hv. destruct (existsb _ _); [by split|].
  assert (forall assigned g', working c extra F g' ->
    wp spec (prepare_loop c zones (CZone_ZoneID z' :: seen)
      (acc ++ [MkCourierZone c (CZone_ZoneID z') (CZone_IsPrimary z') assigned])
      (if CZone_IsPrimary z' then n + 1 else n)) g' (fun r g' => working c extra F g' /\
      forall l m, r = Ok (l, m) -> Forall (zone_good c) l /\ (acc = [] -> z :: zones = [] \/ l <> []) /\
        (acc <> [] -> l <> []) /\ 0 <= m /\ (0 < m -> has_primary l))) as Hk.
  { intros assigned g' Hw'. eapply wp_mono; [apply _| |apply (IH _ _ _ g' Hw')].
    - intros r g'' [H1 H2]. split; [done|]. intros l m Hr. destruct (H2 l m Hr) as (? & _ & Hne & ? & ?).
      assert (l <> []) by (apply Hne; by destruct acc). split_and!; auto.
    - apply Forall_app. split; [done|]. by constructor.
    - destruct (CZone_IsPrimary z'); lia.
    - unfold has_primary. setoid_rewrite elem_of_app. destruct (CZone_IsPrimary z') eqn:Hz.
      + intros _. eexists. split; [right; by constructor|done].
      + intros Hpos. destruct (Hp Hpos) as (x & ? & ?). exists x. auto. }
  destruct (IsZero _); [|by apply Hk]. eapply wp_working_now; [exact Hw|]. intros t g' _ _ Hw'. by apply Hk.
Qed.

Lemma prepareZones_ok c extra F zones g : working c extra F g -> zones <> [] ->
  wp spec (prepareZones c zones) g (fun r g' => working c extra F g' /\
    forall l, r = Ok l -> Forall (zone_good c) l /\ has_primary l).
Proof.
  intros Hw Hz. unfold prepareZones. eapply wp_seq; [apply _|apply (prepare_loop_ok c extra F); [done|by constructor|done|done]|].
  intros r g' [Hw' Hr]. split; [done|]. intros l. destruct r as [[l' m]|]; [|done].
  destruct (Hr l' m eq_refl) as (Hg & Hne & _ & Hm & Hp). destruct (Z.gtb_spec m 1); [done|]. intros [= <-].
  destruct l' as [|z rest]; [by destruct (Hne eq_refl)|]. destruct (Z.eqb_spec m 0) as [->|].
  - apply Forall_cons in Hg as [Hg1 Hg2]. split; [by constructor|]. exists (make_primary z). by split; [constructor|].
  - split; [done|]. apply Hp. lia.
Qed.

Lemma ensureZoneCapacity_ok c F zones : forall g, working c [] F g ->
  wp spec (ensureZoneCapacityTx c zones) g (fun r g' => match r with None => working c [] F g' | Some _ => True end).
Proof.
  induction zones as [|z zones IH]; intros g Hw; cbn [ensureZoneCapacityTx]; [done|].
  eapply wp_working_query; [exact Hw|done|]. intros g' _ _ _ Hw'. destruct (_ >=? _); [done|]. by apply IH.
Qed.

(** The rows [ins] of courier [c] instead of the ones there were. *)
Definition with_zones (c : string) (ins : gmap (string * string) zone_row) (base : courier_database)
  : courier_database := put_zones (ins ∪ filter (fun p => p.1.1 <> c) (tb_zones base)) base.

Record own_zones (c : string) (ins : gmap (string * string) zone_row) : Prop := MkOwnZones {
  oz_key : forall c' z r, ins !! (c', z) = Some r ->
    c' = c /\ zr_courier_id r = c /\ zr_zone_id r = z /\ IsKnownMoscowZoneID (NormalizeZoneID z) = true;
  oz_primary : forall z1 z2 r1 r2, ins !! (c, z1) = Some r1 -> ins !! (c, z2) = Some r2 ->
    zr_is_primary r1 = true -> zr_is_primary r2 = true -> z1 = z2;
}.

Lemma lookup_others (c : string) (m : gmap (string * string) zone_row) (c' z : string) :
  filter (fun p : string * string * zone_row => p.1.1 <> c) m !! (c', z) = if decide (c' = c) then None else m !! (c', z).
Proof.
  rewrite map_lookup_filter. destruct (m !! (c', z)); simpl; [|by case_decide].
  case_guard; simpl in *; by case_decide.
Qed.

Lemma lookup_with_zones c ins base c' z r : tb_zones (with_zones c ins base) !! (c', z) = Some r <->
  ins !! (c', z) = Some r \/ (ins !! (c', z) = None /\ c' <> c /\ tb_zones base !! (c', z) = Some r).
Proof.
  simpl. rewrite lookup_union_Some_raw, map_lookup_filter_Some. simpl. naive_solver.
Qed.

Lemma zones_replaced c ins db L : couriers_ok db -> own_zones c ins -> is_Some (tb_couriers db !! c) ->
  (exists z r, ins !! (c, z) = Some r /\ zr_is_primary r = true) -> ("couriers", c) ∈ L ->
  commits L db (with_zones c ins db).
Proof.
  intros [H1 H2 H3 H4 H5 H6 H7 H8] [O1 O2] Hc (zp & rp & Hp1 & Hp2) HL. split; [split; try done|].
  - intros c' z r. rewrite lookup_with_zones. intros [Hr|(_ & _ & Hr)]; [|by apply H3].
    by destruct (O1 _ _ _ Hr) as (-> & ? & ? & ?).
  - intros c' z1 z2 r1 r2. rewrite !lookup_with_zones. intros [G1|(_ & ? & G1)] [G2|(_ & ? & G2)]; [| | |by eapply H4].
    + destruct (O1 _ _ _ G1) as (-> & _). by eapply O2.
    + by destruct (O1 _ _ _ G1) as (-> & _).
    + by destruct (O1 _ _ _ G2) as (-> & _).
  - intros c' z r. setoid_rewrite lookup_with_zones. intros [Hr|(_ & Hne & Hr)].
    + destruct (O1 _ _ _ Hr) as (-> & _). exists zp, rp. auto.
    + destruct (H5 _ _ _ Hr) as (z' & r' & ? & ?). exists z', r'. split; [|done]. right. split_and!; [|done..].
      destruct (ins !! (c', z')) eqn:E; [|done]. by destruct (O1 _ _ _ E).
  - intros L' Hd. split; [|done]. intros c' Hc'. split; [done| |done].
    intros z. apply option_eq. intros r. rewrite lookup_with_zones.
    assert (c' <> c) by (intros ->; by apply (Hd ("couriers", c))).
    destruct (ins !! (c', z)) eqn:E; [by destruct (O1 _ _ _ E)|]. naive_solver.
Qed.

Lemma working_weaken c extra F g : working c extra F g -> working c [] F g.
Proof. intros (f & L & ? & ? & _ & ? & ?). exists f, L. split_and!; [done|done|set_solver|done|done]. Qed.

Lemma insert_zone_accepts r db a v : insert_zone r db = (inl a, v) ->
  v = put_zones (<[(zr_courier_id r, zr_zone_id r) := r]> (tb_zones db)) db /\
  tb_zones db !! (zr_courier_id r, zr_zone_id r) = None /\
  (zr_is_primary r = true -> forall k x, tb_zones db !! k = Some x -> zr_courier_id x = zr_courier_id r ->
     zr_is_primary x = false).
Proof.
  unfold insert_zone. destruct (tb_zones db !! _) eqn:E; [done|].
  destruct (zr_is_primary r && _) eqn:Hp; [done|]. destruct (tb_couriers db !! _); [|done]. intros [= _ <-].
  split_and!; [done..|]. intros Hpr k x Hx Hc. rewrite Hpr in Hp. simpl in Hp. apply not_true_iff_false.
  intros Hpx. apply not_true_iff_false in Hp. apply Hp, existsb_exists. exists x.
  split; [apply list_elem_of_In, elem_of_values; by exists k|]. by rewrite Hc, String.eqb_refl.
Qed.

Lemma with_zones_insert c ins r db base : zr_courier_id r = c ->
  tb_zones (with_zones c ins db) !! (c, zr_zone_id r) = None ->
  patch (with_zones c ins db) (put_zones (<[(c, zr_zone_id r) := r]> (tb_zones (with_zones c ins db))) (with_zones c ins db))
    (with_zones c ins base) = with_zones c (<[(c, zr_zone_id r) := r]> ins) base.
Proof.
  intros Hr Hn. unfold patch, courier_tables. simpl in *. rewrite !patch_map_same, patch_map_insert by (rewrite Hn; done).
  unfold with_zones, put_zones. by rewrite insert_union_l.
Qed.

(** The rows that were inserted. *)
Definition inserted (c : string) (zs : list CourierZone) (ins : gmap (string * string) zone_row) : Prop :=
  own_zones c ins /\ Forall (fun z => ins !! (c, CZone_ZoneID z) = Some (zone_params z)) zs.

Lemma insert_zones_ok c zs : forall before ins g, Forall (zone_good c) zs -> inserted c before ins ->
  working c [] (with_zones c ins) g ->
  wp spec (insert_zones zs) g (fun r g' => r = None ->
    exists ins', inserted c (before ++ zs) ins' /\ working c [] (with_zones c ins') g').
Proof.
  induction zs as [|z zs IH]; intros before ins g Hz [[O1 O2] Hins] Hw; cbn [insert_zones].
  { intros _. exists ins. by rewrite app_nil_r. }
  apply Forall_cons in Hz as [[Hzc Hzk] Hz]. set (r := zone_params z).
  assert (zr_courier_id r = c) as Hrc by done. assert (zr_zone_id r = CZone_ZoneID z) as Hrz by done.
  assert (r = zone_params z) as Hr by done. clearbody r. eapply wp_working; [exact Hw|done|]. intros db a v Hok _ _ E g' Hg HG.
  destruct (insert_zone_accepts _ _ _ _ E) as (-> & Hn & Hp). rewrite Hrc in *.
  assert (ins !! (c, zr_zone_id r) = None) as Hnew.
  { destruct (ins !! (c, zr_zone_id r)) as [x|] eqn:Ex; [|done]. exfalso.
    assert (tb_zones (with_zones c ins db) !! (c, zr_zone_id r) = Some x) by (apply lookup_with_zones; by left). congruence. }
  assert (forall z' x, ins !! (c, z') = Some x -> zr_is_primary r = true -> zr_is_primary x = false) as Hfree.
  { intros z' x Hx Hpr. apply (Hp Hpr (c, z')); [apply lookup_with_zones; by left|]. by destruct (O1 _ _ _ Hx) as (_ & ? & _). }
  replace (before ++ z :: zs) with ((before ++ [z]) ++ zs) by (by rewrite <- app_assoc).
  apply (IH _ (<[(c, zr_zone_id r) := r]> ins)); [done|split; [split|]|].
  - intros c' z' x. rewrite lookup_insert_Some. intros [[[= <- <-] <-]|[_ Hx]]; [|by eapply O1].
    split_and!; [done..|]. by rewrite Hrz.
  - intros z1 z2 x1 x2. rewrite !lookup_insert_Some.
    intros [[[= <-] <-]|[Hn1 G1]] [[[= <-] <-]|[Hn2 G2]] P1 P2; [done| | |by eapply O2].
    + by rewrite (Hfree _ _ G2 P1) in P2.
    + by rewrite (Hfree _ _ G1 P2) in P1.
  - apply Forall_app. split; [|constructor; [|constructor]].
    + eapply Forall_impl; [exact Hins|]. intros x Hx. rewrite lookup_insert_ne; [done|]. congruence.
    + by rewrite <- Hrz, <- Hr, lookup_insert_eq.
  - eapply working_weaken, HG. intros base _. by apply with_zones_insert.
Qed.

Lemma store_zones_safe c zs g : Forall (zone_good c) zs -> has_primary zs ->
  working c [] (fun base => base) g -> wp spec (store_zones c zs) g closed.
Proof.
  intros Hz (zp & Hzp & Hp) Hw. unfold store_zones.
  eapply wp_working; [exact Hw|intros; apply wp_roll_back|]. intros db a v _ _ Hs1 [= _ <-] g1 Hg1 HG.
  assert (working c [] (with_zones c ∅) g1) as Hw1.
  { eapply working_weaken, HG. intros base Hb. unfold patch, courier_tables, with_zones, put_zones. simpl.
    rewrite !patch_map_same, map_empty_union. f_equal; [|by destruct base..]. apply map_eq. intros [c' z].
    rewrite lookup_patch_map, !lookup_others. destruct (decide (c' = c)) as [->|Hne]; [|by rewrite decide_True].
    case_decide as Hd; [|done]. by rewrite (same_zones _ _ _ Hb), Hd. }
  eapply wp_seq; [apply _|apply (insert_zones_ok c zs [] ∅ g1 Hz); [|exact Hw1]|].
  { split; [|by constructor]. by split; intros; simplify_map_eq. }
  intros [e|] g2 Hr; [apply wp_roll_back|]. destruct (Hr eq_refl) as (ins & [Hown Hins] & Hw2). simpl in Hins.
  apply (wp_working_commit _ c [] (with_zones c ins) g2 Hw2). intros db' Hok' Hex _ _.
  apply zones_replaced; [done..| |by constructor]. exists (CZone_ZoneID zp), (zone_params zp).
  split; [|done]. by apply (proj1 (Forall_forall _ _) Hins).
Qed.

Lemma ReplaceZones_safe courierID zones : safe (ReplaceZones courierID zones).
Proof.
  unfold ReplaceZones. cbv zeta. set (c := TrimSpace courierID). destruct (c =s? ""); [apply conn_safe_ret|].
  destruct (Nat.eqb_spec (length zones) 0) as [|Hne]; [apply conn_safe_ret|]. intros db db1 _ _. split; [done|].
  apply wp_getCourierTx; [intros; apply wp_roll_back|]. intros courier g _ Hw.
  destruct (_ && _); [apply wp_roll_back|].
  eapply wp_seq; [apply _|apply (prepareZones_ok c [] (fun base => base)); [done|by destruct zones]|].
  intros [l|e] g1 [Hw1 Hl]; [|apply wp_roll_back]. destruct (Hl l eq_refl) as [Hg Hp].
  eapply wp_seq; [apply _|by apply (ensureZoneCapacity_ok c (fun base => base))|].
  intros [e|] g2 Hw2; [apply wp_roll_back|]. by apply store_zones_safe.
Qed.

(** ** All calls *)

Lemma perform_safe c : safe (perform c).
Proof.
  pose proof (reads_safe c) as H.
  destruct c; try exact H; unfold perform; (apply conn_safe_bind; [|intros; apply conn_safe_ret]);
    [apply Create_safe|apply Save_safe|apply ReplaceZones_safe|apply CreateSlot_safe|apply SubmitRating_safe].
Qed.

Lemma client_safe calls : safe (client calls).
Proof.
  unfold client. induction calls as [|c calls IH]; [apply conn_safe_ret|]. apply conn_safe_bind; [apply perform_safe|done].
Qed.

(** C17. Any number of connections making any calls of the courier repository at
    once, with any schedule of their statements and any outages, leave tables
    that are consistent: phones and identifiers are unique, every zone, slot
    and rating belongs to a courier, a courier with zones has exactly one
    primary one, and the slots of a courier that are not canceled never
    overlap. *)
Theorem postgres_couriers_invariant sur schedule calls db :
  couriers_ok db ->
  couriers_ok (pl_db (pool_exec sur schedule (connect db (map client calls)))).
Proof.
  intros Hok. apply (pool_invariant couriers_ok stable); [done|]. apply Forall_map, Forall_forall.
  intros l _. eapply wp_mono; [apply _| |apply client_safe]. done.
Qed.
End Transactions.
