(* ===== verification/PgCapacity.v ===== *)
(** * The limit of couriers per zone

    ReplaceZones counts the couriers of each zone and then writes its rows.  One
    call at a time keeps [MaxCouriersPerZoneDefault]; nothing locks what was
    counted, so two overlapping calls can exceed it. *)

From S2P Require Import Prelude GoLib Domain Prog Postgres Courier PgSchema PgCouriers PgConcurrency PgFleet.
Import PgCouriers.

Definition zone_rows (z : string) (db : courier_database) : list zone_row :=
  List.filter (fun r => zr_zone_id r =s? z) (map snd (map_to_list (tb_zones db))).

(** The couriers that work in a zone. *)
Definition zone_load (z : string) (db : courier_database) : Z := Z.of_nat (length (zone_rows z db)).

Definition within_capacity (db : courier_database) : Prop :=
  (forall c z r, tb_zones db !! (c, z) = Some r -> zr_courier_id r = c /\ zr_zone_id r = z) /\
  forall z, zone_load z db <= MaxCouriersPerZoneDefault.

Section Capacity.
Context {pg : Postgres} {ul : UnicodeLower}.

Abbreviation seq := (sql_spec true).

(** Calls one after the other, each with its own surroundings. *)
Fixpoint calls_in_turn (sur : nat -> surroundings) (calls : list courier_call) (db : courier_database)
  : courier_database :=
  match calls with
  | [] => db
  | c :: calls => calls_in_turn (fun n => sur (S n)) calls (sql_call (sur 0%nat) (perform c) db).2
  end.

(** ** What a program does to the zones *)

(** Outside transactions, the zones stay as they are. *)
Definition no_zones {A} (p : SQL courier_database A) : Prop :=
  forall db, wp seq p (db, NoTx) (fun _ w => tb_zones w.1 = tb_zones db /\ w.2 = NoTx).

Lemma no_zones_ret {A} (a : A) : no_zones (mret a).
Proof. by intros db. Qed.

Lemma no_zones_bind {A B} (p : SQL courier_database A) (f : A -> SQL courier_database B) :
  no_zones p -> (forall a, no_zones (f a)) -> no_zones (p ≫= f).
Proof.
  intros Hp Hf db. eapply wp_seq; [apply _|apply Hp|]. intros a [db' tx] [E1 E2]. simpl in E1, E2. subst tx.
  rewrite <- E1. apply Hf.
Qed.

Lemma no_zones_stmt {A} locks (s : statement courier_database A) :
  (forall db a db', s db = (inl a, db') -> tb_zones db' = tb_zones db) -> no_zones (call (Stmt locks s)).
Proof.
  intros H db. simpl. destruct (s db) as [[a|e] db'] eqn:E; [|by split]. specialize (H _ _ _ E). by split.
Qed.

Lemma no_zones_query {A} locks (q : courier_database -> A) : no_zones (call (Stmt locks (query q))).
Proof. apply no_zones_stmt. by intros db a db' [= _ <-]. Qed.

Lemma no_zones_now : no_zones (call SqlNow).
Proof. by intros db t. Qed.

Lemma no_zones_rows_err : no_zones (call RowsErr).
Proof. by intros db. Qed.

Lemma no_zones_now_unless (b : bool) t : no_zones (if b then call SqlNow else mret t).
Proof. destruct b; [apply no_zones_now|apply no_zones_ret]. Qed.
End Capacity.

#[export] Hint Resolve no_zones_ret no_zones_query no_zones_now no_zones_rows_err no_zones_now_unless : oms.

(** Solves [no_zones p] but for the statements that write. *)
Ltac solve_no_zones :=
  repeat first
    [ match goal with |- forall _, _ => intro end
    | solve [eauto with oms nocore]
    | apply no_zones_bind
    | apply no_zones_stmt
    | match goal with |- no_zones (match ?x with _ => _ end) => destruct x end
    | match goal with |- no_zones (let _ := _ in _) => cbv zeta end ].

Section Writes.
Context {pg : Postgres} {ul : UnicodeLower}.
Abbreviation seq := (sql_spec true).

Lemma insert_courier_zones r db a db' : insert_courier r db = (inl a, db') -> tb_zones db' = tb_zones db.
Proof. unfold insert_courier. repeat case_match; naive_solver. Qed.

Lemma update_courier_zones r db a db' : update_courier r db = (inl a, db') -> tb_zones db' = tb_zones db.
Proof. unfold update_courier. repeat case_match; naive_solver. Qed.

Lemma insert_rating_zones r db a db' : insert_rating r db = (inl a, db') -> tb_zones db' = tb_zones db.
Proof. unfold insert_rating. repeat case_match; naive_solver. Qed.

#[local] Hint Resolve insert_courier_zones update_courier_zones insert_rating_zones : oms.

Lemma others_no_zones c :
  match c with CallReplaceZones _ _ | CallCreateSlot _ => True | _ => no_zones (perform c) end.
Proof.
  destruct c; try exact Logic.I; cbv iota; unfold perform;
    unfold Create, Save, SubmitRating, Get, GetByPhone, ListByZone, ListZones, ListSlots, GetVehicleCapability,
      ListVehicleCapabilities, GetRatingSummary, scan_query, ensureCourierExists; solve_no_zones.
Qed.

(** ** Transactions *)

Lemma seq_roll_back {A} e db tx (Q : result A -> courier_database * tx_state courier_database -> Prop) :
  (forall r, Q r (db, NoTx)) -> wp seq (roll_back e : SQL courier_database (result A)) (db, tx) Q.
Proof. intros HQ. apply HQ. Qed.

Lemma seq_commit what db copy (Q : result unit -> courier_database * tx_state courier_database -> Prop) :
  (forall r, Q r (db, NoTx)) -> (forall r, Q r (copy, NoTx)) ->
  wp seq (committed ← call Commit;
          match committed with
          | Some e => roll_back (ErrWrap what (sql_err e))
          | None => mret (Ok tt)
          end) (db, InTx copy) Q.
Proof. intros H1 H2. apply wp_commit; [apply H2|intros; apply H2|intros; apply H1]. Qed.

Lemma seq_getCourierTx {B} id (k : result Courier -> SQL courier_database B) Q db copy :
  (forall e tx, wp seq (k (Err e)) (db, tx) Q) -> (forall courier, wp seq (k (Ok courier)) (db, InTx copy) Q) ->
  wp seq (getCourierTx id ≫= k) (db, InTx copy) Q.
Proof.
  intros He Hk. apply (wp_query_tx (locked_courier id)); [intros _ m; apply He|]. simpl.
  destruct (tb_couriers copy !! id) as [r|]; [|apply He]. unfold scan_courier.
  destruct (VehicleType_Valid _); [apply Hk|apply He].
Qed.

Lemma store_slot_zones slot db : 
  wp seq (store_slot slot) (db, InTx db) (fun _ w => tb_zones w.1 = tb_zones db /\ w.2 = NoTx).
Proof.
  unfold store_slot. apply wp_query_tx; [intros; by apply seq_roll_back|].
  destruct (overlap_exists _ _ _ _); [by apply seq_roll_back|]. apply wp_sql_now. intros now. cbv zeta.
  apply wp_stmt_tx; [intros; by apply seq_roll_back|]. intros a copy E.
  destruct (insert_slot_accepts _ _ _ _ E) as [-> _]. by apply seq_commit.
Qed.

Lemma CreateSlot_no_zones slot : no_zones (CreateSlot slot).
Proof.
  unfold CreateSlot. cbv zeta. destruct (firstDomainValidationErr _); [apply no_zones_ret|]. intros db.
  apply wp_begin; [by intros|]. apply seq_getCourierTx; [intros; by apply seq_roll_back|]. intros courier.
  destruct (_ && _); [by apply seq_roll_back|]. apply store_slot_zones.
Qed.

(** ** ReplaceZones *)

Lemma prepare_loop_seq c zones : forall seen acc n w, Forall (fun z => CZone_CourierID z = c) acc ->
  wp seq (prepare_loop c zones seen acc n) w (fun r w' => w' = w /\
    forall l m, r = Ok (l, m) -> Forall (fun z => CZone_CourierID z = c) l).
Proof.
  induction zones as [|z zones IH]; intros seen acc n w Hacc; cbn [prepare_loop].
  { split; [done|]. by intros l m [= <- <-]. }
  cbv zeta. destruct (firstDomainValidationErr _); [by split|]. destruct (existsb _ _); [by split|].
  assert (forall t, Forall (fun z => CZone_CourierID z = c)
    (acc ++ [MkCourierZone c (NormalizeZoneID (CZone_ZoneID z)) (CZone_IsPrimary z) t])) as Hacc'
    by (intros; apply Forall_app; split; [done|by constructor]).
  destruct (IsZero _); [apply wp_sql_now; intros t|]; apply IH, Hacc'.
Qed.

Lemma prepareZones_seq c zones w :
  wp seq (prepareZones c zones) w (fun r w' => w' = w /\
    forall l, r = Ok l -> Forall (fun z => CZone_CourierID z = c) l).
Proof.
  unfold prepareZones. eapply wp_seq; [apply _|apply prepare_loop_seq; by constructor|].
  intros r w' [-> Hr]. split; [done|]. intros l. destruct r as [[l' m]|]; [|done]. pose proof (Hr l' m eq_refl) as Hl.
  destruct (m >? 1); [done|]. intros [= <-]. destruct l' as [|z rest]; [done|]. destruct (m =? 0); [|done].
  apply Forall_cons in Hl as [H1 H2]. by constructor.
Qed.

Definition has_room (c : string) (db : courier_database) (z : CourierZone) : Prop :=
  count_assigned (CZone_ZoneID z) c db < MaxCouriersPerZoneDefault.

Lemma ensureZoneCapacity_seq c db copy zones :
  wp seq (ensureZoneCapacityTx c zones) (db, InTx copy)
    (fun r w => w.1 = db /\ (r = None -> w.2 = InTx copy /\ Forall (has_room c copy) zones)).
Proof.
  induction zones as [|z zones IH]; cbn [ensureZoneCapacityTx]; [by split|].
  apply wp_query_tx; [by split|]. destruct (Z.geb_spec (count_assigned (CZone_ZoneID z) c copy) MaxCouriersPerZoneDefault); [by split|].
  eapply wp_mono; [apply _| |exact IH]. intros r w [H1 H2]. split; [done|]. intros Hr. destruct (H2 Hr).
  split; [done|]. by constructor.
Qed.

(** The rows of the courier are among the given zones. *)
Definition inserted_from (c : string) (zs : list CourierZone) (ins : gmap (string * string) zone_row) : Prop :=
  forall c' z r, ins !! (c', z) = Some r ->
    c' = c /\ zr_courier_id r = c /\ zr_zone_id r = z /\ z ∈ map CZone_ZoneID zs.

Lemma insert_zones_seq c db zs all : (forall z, z ∈ zs -> z ∈ all) -> Forall (fun z => CZone_CourierID z = c) zs ->
  forall ins, inserted_from c all ins ->
  wp seq (insert_zones zs) (db, InTx (with_zones c ins db)) (fun r w => w.1 = db /\
    (r = None -> exists ins', w.2 = InTx (with_zones c ins' db) /\ inserted_from c all ins')).
Proof.
  induction zs as [|z zs IH]; intros Hin Hc ins Hins; cbn [insert_zones]; [split; eauto|].
  apply Forall_cons in Hc as [Hzc Hc]. apply wp_stmt_tx; [by intros|]. intros a copy E.
  destruct (insert_zone_accepts _ _ _ _ E) as (-> & _). simpl. rewrite insert_union_l, Hzc.
  apply (IH (fun x Hx => Hin x (list_elem_of_further _ _ _ Hx)) Hc (<[(c, CZone_ZoneID z) := zone_params z]> ins)).
  intros c' z' r. rewrite lookup_insert_Some. intros [[[= <- <-] <-]|[_ Hr]]; [|by eapply Hins].
  split_and!; [done..|]. apply list_elem_of_fmap_2, Hin. by constructor.
Qed.

(** ** Counting *)

Lemma count_rows {A} `{Countable K} (p : A -> bool) (m : gmap K A) :
  length (List.filter p (map snd (map_to_list m))) = size (filter (fun x => p x.2 = true) m).
Proof.
  induction m as [|k x m Hk IH] using map_ind; [by rewrite map_to_list_empty, map_filter_empty|].
  rewrite (Permutation_length (List_filter_perm p _ _ (Permutation_map snd (map_to_list_insert _ _ x Hk)))).
  simpl. destruct (p x) eqn:Hp; simpl; rewrite IH.
  - rewrite map_filter_insert_True by done. rewrite map_size_insert_None; [done|].
    apply map_lookup_filter_None_2. by left.
  - rewrite map_filter_insert_False by (simpl; congruence). by rewrite delete_id.
Qed.

Lemma filter_length_mono {A} (p q : A -> bool) l : (forall x, p x = true -> q x = true) ->
  (length (List.filter p l) <= length (List.filter q l))%nat.
Proof.
  intros Hpq. induction l as [|x l IH]; simpl; [lia|]. specialize (Hpq x).
  destruct (p x), (q x); simpl; (lia || (exfalso; naive_solver)).
Qed.

Lemma zone_load_replaced c ins z db zs : within_capacity db -> inserted_from c zs ins ->
  Forall (has_room c db) zs -> zone_load z (with_zones c ins db) <= MaxCouriersPerZoneDefault.
Proof.
  intros [Hkey Hcap] Hins Hroom. unfold zone_load, zone_rows. rewrite count_rows. simpl.
  set (others := filter (fun p : string * string * zone_row => p.1.1 <> c) (tb_zones db)).
  assert (ins ##ₘ others) as Hd.
  { apply map_disjoint_spec. intros [c' z'] x y Hx Hy. destruct (Hins _ _ _ Hx) as [-> _].
    unfold others in Hy. rewrite lookup_others in Hy. by rewrite decide_True in Hy. }
  set (P := fun x : string * string * zone_row => (zr_zone_id x.2 =s? z) = true).
  rewrite map_filter_union by done.
  rewrite map_size_disj_union by (by apply map_disjoint_filter).
  assert (Z.of_nat (size (filter P others)) = count_assigned z c db) as Ho.
  { unfold count_assigned. rewrite count_rows. do 2 f_equal. unfold others. rewrite map_filter_filter.
    apply map_filter_ext. intros [c' z'] x Hx. destruct (Hkey _ _ _ Hx) as [Hc _]. unfold P. simpl. rewrite Hc.
    rewrite andb_true_iff, negb_true_iff, String.eqb_neq. tauto. }
  destruct (decide (z ∈ map CZone_ZoneID zs)) as [Hz|Hz].
  - apply list_elem_of_fmap in Hz as (x & -> & Hx). pose proof (proj1 (Forall_forall _ _) Hroom x Hx) as Hr.
    unfold has_room in Hr.
    assert (size (filter P ins) <= 1)%nat as H1.
    { assert (exists r, filter P ins ⊆ {[(c, CZone_ZoneID x) := r]}) as [r Hs].
      { exists (default (zone_params x) (ins !! (c, CZone_ZoneID x))). apply map_subseteq_spec. intros [c' z'] y.
        rewrite map_lookup_filter_Some. intros [Hy HP]. destruct (Hins _ _ _ Hy) as (-> & _ & <- & _).
        apply String.eqb_eq in HP. simpl in HP. rewrite HP in *. by rewrite Hy, lookup_singleton_eq. }
      apply map_subseteq_size in Hs. by rewrite map_size_singleton in Hs. }
    lia.
  - assert (filter P ins = ∅) as ->.
    { apply map_empty. intros [c' z']. apply map_lookup_filter_None. right. intros x Hx HP. apply Hz.
      destruct (Hins _ _ _ Hx) as (_ & _ & <- & Hin). apply String.eqb_eq in HP. by rewrite <- HP. }
    rewrite map_size_empty. simpl.
    assert (count_assigned z c db <= zone_load z db); [|specialize (Hcap z); lia].
    unfold count_assigned, zone_load, zone_rows. apply inj_le, filter_length_mono. intros r. by intros [? _]%andb_true_iff.
Qed.

Lemma ReplaceZones_seq courierID zones db : within_capacity db ->
  wp seq (ReplaceZones courierID zones) (db, NoTx) (fun _ w => within_capacity w.1 /\ w.2 = NoTx).
Proof.
  intros Hdb. unfold ReplaceZones. cbv zeta. set (c := TrimSpace courierID).
  destruct (c =s? ""); [done|]. destruct (length zones =? 0)%nat; [done|].
  apply wp_begin; [done|]. apply seq_getCourierTx; [intros; by apply seq_roll_back|]. intros courier.
  destruct (_ && _); [by apply seq_roll_back|].
  eapply wp_seq; [apply _|apply prepareZones_seq|]. intros [zs|e] w [-> Hzs]; [|by apply seq_roll_back].
  eapply wp_seq; [apply _|apply ensureZoneCapacity_seq|]. intros r [db' tx] [E Hr]. simpl in E, Hr. subst db'.
  destruct r as [e|]; [by apply seq_roll_back|]. destruct (Hr eq_refl) as [-> Hroom]. unfold store_zones.
  apply wp_stmt_tx; [intros; by apply seq_roll_back|]. intros [] copy [= <-].
  replace (put_zones _ db) with (with_zones c ∅ db) by (unfold with_zones; by rewrite map_empty_union).
  eapply wp_seq; [apply _|apply (insert_zones_seq c db zs zs); [done|by apply Hzs|]|].
  { intros c' z r. rewrite lookup_empty. done. }
  intros [e|] [db' tx] [E2 Hi]; simpl in E2, Hi; subst db'; [by apply seq_roll_back|].
  destruct (Hi eq_refl) as (ins & -> & Hins).
  assert (within_capacity (with_zones c ins db)); [|by apply seq_commit].
  split; [|intros; by eapply zone_load_replaced].
  intros c' z r. rewrite lookup_with_zones. intros [Hx|(_ & _ & Hx)]; [|by apply Hdb].
  by destruct (Hins _ _ _ Hx) as (-> & ? & ? & _).
Qed.

Lemma within_capacity_zones db db' : tb_zones db' = tb_zones db -> within_capacity db -> within_capacity db'.
Proof. intros E [H1 H2]. unfold within_capacity, zone_load, zone_rows. rewrite E. by split. Qed.

Lemma perform_capacity sur c db : within_capacity db -> within_capacity (sql_call sur (perform c) db).2.
Proof.
  intros Hdb. apply (sql_call_spec true sur (perform c) db (fun _ db' => within_capacity db')); [by left|].
  assert (forall p : SQL courier_database unit, no_zones p ->
    wp seq p (db, NoTx) (fun _ w => within_capacity w.1)) as Hno.
  { intros p Hp. eapply wp_mono; [apply _| |apply Hp]. intros r w [E _]. by eapply within_capacity_zones. }
  pose proof (others_no_zones c) as H. destruct c; try (by apply Hno).
  - eapply wp_seq; [apply _|by apply ReplaceZones_seq|]. by intros r w [? _].
  - apply Hno. apply no_zones_bind; [apply CreateSlot_no_zones|intros; apply no_zones_ret].
Qed.

Lemma calls_in_turn_capacity calls : forall sur db, within_capacity db -> within_capacity (calls_in_turn sur calls db).
Proof. induction calls as [|c calls IH]; intros sur db Hdb; simpl; [done|]. by apply IH, perform_capacity. Qed.
End Writes.
