(* ===== verification/PgScenarios.v ===== *)
(** * Concrete executions on PostgreSQL

    Two overlapping calls of ReplaceZones, and the slot after a canceled one. *)

From stdpp Require Import pretty.
From S2P Require Import Prelude GoLib Domain Prog Postgres Courier PgSchema PgCouriers PgConcurrency PgFleet PgCapacity CourierScenarios.

(** Surroundings without outages. *)
Definition pg_now : Time := (unixToInternal + 1700000000) * Second.
Definition quiet (n : nat) : surroundings := calm_surroundings pg_now "uuid".

Definition pg_courier (id : string) (k : nat) : Courier :=
  MkCourier id ("+7916" +:+ pretty (1000000 + Z.of_nat k)) "Ivan" "Petrov" "bike" true 0 0.

Definition join_zone (id : string) : courier_call := CallReplaceZones id [MkCourierZone "" full_zone true pg_now].

(** Ninety-nine couriers in the zone, and two more without zones. *)
Definition almost_full : courier_database :=
  calls_in_turn quiet
    (flat_map (fun k => let id := "k" +:+ pretty k in [CallCreate (pg_courier id k); join_zone id]) (seq 0 99) ++
     [CallCreate (pg_courier "alpha" 200); CallCreate (pg_courier "beta" 201)])
    (empty_courier_database pg_now).

(** Both transactions count before either commits: three commands each to begin,
    lock their courier and count, then three each to delete, insert and commit. *)
Definition overlapped : courier_database :=
  pl_db (pool_exec quiet [0; 0; 0; 1; 1; 1; 0; 0; 0; 1; 1; 1]%nat
    (connect almost_full [client [join_zone "alpha"]; client [join_zone "beta"]])).

Lemma overlapped_exceeds : zone_load full_zone almost_full = 99 /\ zone_load full_zone overlapped = 101.
Proof. vm_compute. done. Qed.

(** C21. Calls made one after the other keep the limit of couriers per zone, with
    any outages; two overlapping calls of ReplaceZones, each for its own
    courier, take a zone from 99 couriers to 101. *)
Theorem zone_capacity_needs_turns `{Postgres} `{UnicodeLower} sur calls db :
  within_capacity db ->
  within_capacity (calls_in_turn sur calls db) /\
  zone_load full_zone almost_full = 99 /\ zone_load full_zone overlapped = 101.
Proof. split; [by apply calls_in_turn_capacity|exact overlapped_exceeds]. Qed.

(** ** A canceled slot *)

(** 2024-01-15, 09:00 in Moscow, four hours. *)
Definition morning : Time := (unixToInternal + 1705298400) * Second.

Definition morning_slot (id : string) (status : CourierSlotStatus) : CourierSlot :=
  MkCourierSlot id "alpha" morning (morning + 4 * Hour) 4 status 0 0.

(** Create the courier and the canceled slot, then the slot anew: the result, and
    the same with the in-memory repository. *)
Definition canceled_db : courier_database :=
  calls_in_turn quiet [CallCreate (pg_courier "alpha" 1); CallCreateSlot (morning_slot "s1" CourierSlotStatusCanceled)]
    (empty_courier_database pg_now).

Definition canceled_memory : CourierStore.MemoryCouriers.repository :=
  (CourierStore.MemoryCouriers.CreateSlot pg_now (morning_slot "s1" CourierSlotStatusCanceled)
    (CourierStore.MemoryCouriers.Create pg_now (pg_courier "alpha" 1)
       (CourierStore.MemoryCouriers.NewCourierRepository pg_now)).2).2.

(** The test for overlaps skips canceled slots, the unique index on
    (courier_id, slot_start) does not: the slot is refused by the PostgreSQL
    repository and accepted by the in-memory one. *)
Theorem canceled_slot_blocks_start :
  (sql_call (quiet 0) (PgCouriers.CreateSlot (morning_slot "s2" CourierSlotStatusPlanned)) canceled_db).1 =
    Err ErrCourierSlotConflict /\
  (CourierStore.MemoryCouriers.CreateSlot pg_now (morning_slot "s2" CourierSlotStatusPlanned) canceled_memory).1 = Ok tt.
Proof. vm_compute. done. Qed.
