(* ===== verification/Migrator.v ===== *)
(** * Schema migrations: src/internal/storage/postgres/migrator.go, src/cmd/migrate/main.go

    Reading the migration files and applying or reverting them, each in a
    transaction of its own with its row in [schema_migrations].

    What a script does to the schema is up to the database: [run_script] is a
    parameter, as are the embedded files; MigrationScripts.v has those of the
    repository.  The column [applied_at], which nothing
    reads, is left out.  The advisory lock makes the migrators of several
    instances take turns; here they run in turn, and taking and releasing the
    lock are statements that change nothing.  A number of steps so large that
    [make] cannot allocate the list of versions is not considered. *)

From stdpp Require Import pretty.
From S2P Require Import Prelude GoLib Json Strconv Domain Prog Postgres Courier.

(** ** File names *)

(** [filepath.Base] *)
Fixpoint last_element (l current : list ascii) : list ascii :=
  match l with
  | [] => rev current
  | a :: r => if Ascii.eqb a (chr 47) then last_element r [] else last_element r (a :: current)
  end.

Fixpoint drop_slashes (l : list ascii) : list ascii :=
  match l with
  | a :: r => if Ascii.eqb a (chr 47) then drop_slashes r else l
  | [] => []
  end.

Definition path_Base (path : string) : string :=
  if path =s? "" then "."
  else
    match rev (drop_slashes (rev (list_ascii_of_string path))) with
    | [] => "/"
    | l => string_of_list_ascii (last_element l [])
    end.

Fixpoint take_while (p : ascii -> bool) (l : list ascii) : list ascii * list ascii :=
  match l with
  | a :: r => if p a then let '(x, y) := take_while p r in (a :: x, y) else ([], l)
  | [] => ([], [])
  end.

(** [\d] and [[a-zA-Z0-9_]] *)
Definition is_digit (a : ascii) : bool := in_range a 48 57.
Definition is_word (a : ascii) : bool :=
  in_range a 97 122 || in_range a 65 90 || in_range a 48 57 || Ascii.eqb a (chr 95).

(** [migrationFilePattern]: no choice ever has to be undone, since a digit is not
    an underscore and a letter of the name is not a dot. *)
Definition migrationFilePattern (base : string) : option (string * string * string) :=
  let '(version, rest) := take_while is_digit (list_ascii_of_string base) in
  match version, rest with
  | [], _ => None
  | _, a :: rest =>
      if Ascii.eqb a (chr 95) then
        let '(name, rest) := take_while is_word rest in
        match name with
        | [] => None
        | _ =>
            let suffix := string_of_list_ascii rest in
            let found direction := Some (string_of_list_ascii version, string_of_list_ascii name, direction) in
            if suffix =s? ".up.sql" then found "up"
            else if suffix =s? ".down.sql" then found "down"
            else None
        end
      else None
  | _, [] => None
  end.

Example migrationFilePattern_ex :
  map migrationFilePattern ["0001_init.up.sql"; "12_a_b.down.sql"; "not_a_migration.sql"; "1_.up.sql"; "1_a.up.sql "] =
  [Some ("0001", "init", "up"); Some ("12", "a_b", "down"); None; None; None].
Proof. vm_compute. reflexivity. Qed.

(** ** Migrations *)

Record migration := MkMigration {
  Mig_Version : Z;
  Mig_Name : string;
  Mig_UpSQL : string;
  Mig_DownSQL : string;
}.

(** [migrationBuilder]; an absent text is empty. *)
Definition migrationBuilder := migration.

(** The embedded files: what [fs.Glob] lists and [fs.ReadFile] reads. *)
Record filesystem := MkFilesystem {
  fs_Glob : result (list string);
  fs_ReadFile : string -> result string;
}.

Definition set_body (b : migrationBuilder) (direction body : string) : result migrationBuilder :=
  if direction =s? "up" then
    if Mig_UpSQL b <>s? "" then Err (ErrOther ("duplicate up migration for version " +:+ pretty (Mig_Version b)))
    else Ok (MkMigration (Mig_Version b) (Mig_Name b) body (Mig_DownSQL b))
  else
    if Mig_DownSQL b <>s? "" then Err (ErrOther ("duplicate down migration for version " +:+ pretty (Mig_Version b)))
    else Ok (MkMigration (Mig_Version b) (Mig_Name b) (Mig_UpSQL b) body).

(** The body of the loop over the files. *)
Definition read_file (fsys : filesystem) (file : string) (builders : gmap Z migrationBuilder)
  : result (gmap Z migrationBuilder) :=
  let base := path_Base file in
  match migrationFilePattern base with
  | None => Err (ErrOther ("invalid migration file name: " +:+ base))
  | Some (digits, name, direction) =>
      match Atoi digits with
      | None => Err (ErrOther ("parse migration version from " +:+ base))
      | Some version =>
          match fs_ReadFile fsys file with
          | Err e => Err (ErrWrap ("read migration file " +:+ file) e)
          | Ok raw =>
              let body := TrimSpace raw in
              if body =s? "" then Err (ErrOther ("migration file is empty: " +:+ base))
              else
                let builder := default (MkMigration version name "" "") (builders !! version) in
                if Mig_Name builder <>s? name
                then Err (ErrOther ("migration name mismatch for version " +:+ pretty version +:+ ": " +:+
                                    Mig_Name builder +:+ " vs " +:+ name))
                else
                  match set_body builder direction body with
                  | Err e => Err e
                  | Ok builder => Ok (<[version := builder]> builders)
                  end
          end
      end
  end.

Fixpoint read_files (fsys : filesystem) (files : list string) (builders : gmap Z migrationBuilder)
  : result (gmap Z migrationBuilder) :=
  match files with
  | [] => Ok builders
  | file :: files =>
      match read_file fsys file builders with
      | Err e => Err e
      | Ok builders => read_files fsys files builders
      end
  end.

Definition version_less (a b : migration) : bool := Mig_Version a <? Mig_Version b.

(** The versions are keys of a map: any sort puts them in the same order. *)
Definition sorted_builders (builders : gmap Z migrationBuilder) : list migrationBuilder :=
  insertion_sort version_less (map snd (map_to_list builders)).

Fixpoint complete (l : list migrationBuilder) : result (list migration) :=
  match l with
  | [] => Ok []
  | b :: l =>
      if (Mig_UpSQL b =s? "") || (Mig_DownSQL b =s? "")
      then Err (ErrOther ("migration " +:+ pretty (Mig_Version b) +:+ "_" +:+ Mig_Name b +:+
                          " must have both up and down files"))
      else
        match complete l with
        | Err e => Err e
        | Ok l => Ok (b :: l)
        end
  end.

Definition loadMigrationsFromFS (fsys : filesystem) : result (list migration) :=
  match fs_Glob fsys with
  | Err e => Err (ErrWrap "list migrations" e)
  | Ok [] => Err (ErrOther "no migration files found")
  | Ok files =>
      match read_files fsys files ∅ with
      | Err e => Err e
      | Ok builders => complete (sorted_builders builders)
      end
  end.

(** ** Applying and reverting *)

Section Migrate.
Context {S : Type} (run_script : string -> statement S unit).

(** The schema, and [schema_migrations] (version and name) when it exists. *)
Record migration_db := MkMigrationDB {
  md_schema : S;
  md_applied : option (gmap Z string);
}.

Abbreviation DBM := (SQL migration_db).

Definition create_table : statement migration_db unit := fun db =>
  (inl tt, MkMigrationDB (md_schema db) (Some (default ∅ (md_applied db)))).

(** A script of a migration; it leaves [schema_migrations] alone. *)
Definition exec_script (text : string) : statement migration_db unit := fun db =>
  match run_script text (md_schema db) with
  | (inl _, schema) => (inl tt, MkMigrationDB schema (md_applied db))
  | (inr e, _) => (inr e, db)
  end.

Definition undefined_table : sql_error := PgError "42P01" "".

Definition insert_version (version : Z) (name : string) : statement migration_db unit := fun db =>
  match md_applied db with
  | None => (inr undefined_table, db)
  | Some applied =>
      match applied !! version with
      | Some _ => (inr (unique_violation "schema_migrations_pkey"), db)
      | None => (inl tt, MkMigrationDB (md_schema db) (Some (<[version := name]> applied)))
      end
  end.

Definition delete_version (version : Z) : statement migration_db unit := fun db =>
  match md_applied db with
  | None => (inr undefined_table, db)
  | Some applied => (inl tt, MkMigrationDB (md_schema db) (Some (delete version applied)))
  end.

Definition select_versions : statement migration_db (list Z) := fun db =>
  match md_applied db with
  | None => (inr undefined_table, db)
  | Some applied => (inl (map fst (map_to_list applied)), db)
  end.

(** ORDER BY version DESC. *)
Definition newest_first (applied : gmap Z string) : list Z :=
  order_by (fun a b => b <? a) (map fst (map_to_list applied)).

Definition select_versions_desc (limit : Z) : statement migration_db (list Z) := fun db =>
  match md_applied db with
  | None => (inr undefined_table, db)
  | Some applied => (inl (limit_rows limit (newest_first applied)), db)
  end.

(** COALESCE(MAX(version), 0) and COUNT. *)
Definition status_row : statement migration_db (Z * Z) := fun db =>
  match md_applied db with
  | None => (inr undefined_table, db)
  | Some applied => (inl (default 0 (head (newest_first applied)), Z.of_nat (size applied)), db)
  end.

Definition label (verb : string) (m : migration) : string :=
  verb +:+ " migration " +:+ pretty (Mig_Version m) +:+ "_" +:+ Mig_Name m.

(** A script and the change of its row, in one transaction. *)
Definition in_transaction (begin_ run record_ commit_ : string) (script : string) (row : statement migration_db unit)
  : DBM (option err) :=
  begun ← call Begin;
  match begun with
  | Some e => mret (Some (ErrWrap begin_ (sql_err e)))
  | None =>
      executed ← call (Stmt no_locks (exec_script script));
      match executed with
      | inr e => call Rollback;; mret (Some (ErrWrap run (sql_err e)))
      | inl _ =>
          recorded ← call (Stmt no_locks row);
          match recorded with
          | inr e => call Rollback;; mret (Some (ErrWrap record_ (sql_err e)))
          | inl _ =>
              committed ← call Commit;
              mret (match committed with
                    | Some e => Some (ErrWrap commit_ (sql_err e))
                    | None => None
                    end)
          end
      end
  end.

Definition applyOneUp (m : migration) : DBM (option err) :=
  in_transaction ("begin migration tx (up " +:+ pretty (Mig_Version m) +:+ ")") (label "execute up" m)
    (label "record up" m) (label "commit up" m) (Mig_UpSQL m) (insert_version (Mig_Version m) (Mig_Name m)).

Definition applyOneDown (m : migration) : DBM (option err) :=
  in_transaction ("begin migration tx (down " +:+ pretty (Mig_Version m) +:+ ")") (label "execute down" m)
    ("delete migration record " +:+ pretty (Mig_Version m) +:+ "_" +:+ Mig_Name m) (label "commit down" m)
    (Mig_DownSQL m) (delete_version (Mig_Version m)).

(** A query of versions with its [rows.Err]. *)
Definition load_versions (what iterate : string) (s : statement migration_db (list Z)) : DBM (result (list Z)) :=
  rows ← call (Stmt no_locks s);
  match rows with
  | inr e => mret (Err (ErrWrap what (sql_err e)))
  | inl versions =>
      failed ← call RowsErr;
      mret (match failed with
            | Some e => Err (ErrWrap iterate (sql_err e))
            | None => Ok versions
            end)
  end.

Definition loadAppliedVersions : DBM (result (list Z)) :=
  load_versions "query applied migrations" "iterate applied migrations" select_versions.

Definition loadAppliedVersionsDesc (limit : Z) : DBM (result (list Z)) :=
  load_versions "query applied migrations desc" "iterate applied migrations desc" (select_versions_desc limit).

Fixpoint up_loop (applied : list Z) (migrations : list migration) (steps appliedSteps : Z) : DBM (option err) :=
  match migrations with
  | [] => mret None
  | m :: rest =>
      if bool_decide (Mig_Version m ∈ applied) then up_loop applied rest steps appliedSteps
      else
        failed ← applyOneUp m;
        match failed with
        | Some e => mret (Some e)
        | None =>
            if (steps >? 0) && (appliedSteps + 1 >=? steps) then mret None
            else up_loop applied rest steps (appliedSteps + 1)
        end
  end.

Definition applyUp (migrations : list migration) (steps : Z) : DBM (option err) :=
  applied ← loadAppliedVersions;
  match applied with
  | Err e => mret (Some e)
  | Ok applied => up_loop applied migrations steps 0
  end.

(** [versionMap]: the last migration of a version; versions are distinct. *)
Definition find_version (migrations : list migration) (version : Z) : option migration :=
  List.find (fun m => Mig_Version m =? version) (rev migrations).

Fixpoint down_loop (migrations : list migration) (versions : list Z) : DBM (option err) :=
  match versions with
  | [] => mret None
  | version :: rest =>
      match find_version migrations version with
      | None => mret (Some (ErrOther ("cannot rollback unknown migration version " +:+ pretty version)))
      | Some m =>
          failed ← applyOneDown m;
          match failed with
          | Some e => mret (Some e)
          | None => down_loop migrations rest
          end
      end
  end.

Definition applyDown (migrations : list migration) (steps : Z) : DBM (option err) :=
  versions ← loadAppliedVersionsDesc steps;
  match versions with
  | Err e => mret (Some e)
  | Ok versions => down_loop migrations versions
  end.

Inductive migrationDirection : Type := migrationUp | migrationDown.

(** [s.db.Conn], [pg_advisory_lock] and [pg_advisory_unlock]. *)
Definition touch : DBM (unit + sql_error) := call (Stmt no_locks (query (fun _ => tt))).

Definition migrate (fsys : filesystem) (direction : migrationDirection) (steps : Z) : DBM (option err) :=
  match loadMigrationsFromFS fsys with
  | Err e => mret (Some e)
  | Ok migrations =>
      connected ← touch;
      match connected with
      | inr e => mret (Some (ErrWrap "acquire db connection" (sql_err e)))
      | inl _ =>
          locked ← touch;
          match locked with
          | inr e => mret (Some (ErrWrap "acquire migration lock" (sql_err e)))
          | inl _ =>
              created ← call (Stmt no_locks create_table);
              match created with
              | inr e => touch;; mret (Some (ErrWrap "ensure migration table" (sql_err e)))
              | inl _ =>
                  result_ ← match direction with
                            | migrationUp => applyUp migrations steps
                            | migrationDown => applyDown migrations steps
                            end;
                  touch;; mret result_
              end
          end
      end
  end.

Definition MigrateUp (fsys : filesystem) (steps : Z) : DBM (option err) := migrate fsys migrationUp steps.

Definition MigrateDown (fsys : filesystem) (steps : Z) : DBM (option err) :=
  migrate fsys migrationDown (if steps <=? 0 then 1 else steps).

Definition MigrationStatus : DBM (result (Z * Z)) :=
  created ← call (Stmt no_locks create_table);
  match created with
  | inr e => mret (Err (ErrWrap "ensure migration table" (sql_err e)))
  | inl _ =>
      row ← call (Stmt no_locks status_row);
      mret (match row with
            | inr e => Err (ErrWrap "query migration status" (sql_err e))
            | inl row => Ok row
            end)
  end.

(** [EnsureSchema] of store.go *)
Definition EnsureSchema (fsys : filesystem) : DBM (option err) := MigrateUp fsys 0.

(** ** The command: src/cmd/migrate/main.go *)

(** What it prints, or what it fails with. *)
Inductive tool_exit : Type :=
| Printed (text : string)
| Failed_ (text : string).

Definition status_text (version count : Z) : string :=
  "version=" +:+ pretty version +:+ " applied=" +:+ pretty count.

Definition print_status (what : string) : DBM tool_exit :=
  status ← MigrationStatus;
  mret (match status with
        | Err e => Failed_ ("migration status failed: " +:+ Error e)
        | Ok (version, count) => Printed (what +:+ status_text version count)
        end).

(** [opened] is the result of [postgres.Open]. *)
Definition run_tool `{UnicodeLower} (fsys : filesystem) (opened : string -> option err)
    (direction dsn env : string) (steps : Z) : DBM tool_exit :=
  let dsn := if TrimSpace dsn =s? "" then TrimSpace env else dsn in
  if dsn =s? "" then mret (Failed_ "OMS_POSTGRES_DSN (or -dsn) is required")
  else
    match opened dsn with
    | Some e => mret (Failed_ ("open postgres store: " +:+ Error e))
    | None =>
        let chosen := ToLower (TrimSpace direction) in
        if chosen =s? "up" then
          failed ← MigrateUp fsys steps;
          match failed with
          | Some e => mret (Failed_ ("migrate up failed: " +:+ Error e))
          | None => print_status "migrate up ok: "
          end
        else if chosen =s? "down" then
          failed ← MigrateDown fsys (if steps <=? 0 then 1 else steps);
          match failed with
          | Some e => mret (Failed_ ("migrate down failed: " +:+ Error e))
          | None => print_status "migrate down ok: "
          end
        else if chosen =s? "status" then print_status "migration status: "
        else mret (Failed_ ("unsupported direction: " +:+ direction +:+ " (use up|down|status)"))
    end.
End Migrate.

(** ** What loading yields *)

Definition ordered (ms : list migration) : Prop := StronglySorted (fun a b => Mig_Version a < Mig_Version b) ms.

Definition keyed_builders (m : gmap Z migrationBuilder) : Prop := forall v b, m !! v = Some b -> Mig_Version b = v.

Lemma set_body_version b d t b' : set_body b d t = Ok b' -> Mig_Version b' = Mig_Version b.
Proof. unfold set_body. repeat case_match; naive_solver. Qed.

Lemma read_file_keyed fsys file m m' : keyed_builders m -> read_file fsys file m = Ok m' -> keyed_builders m'.
Proof.
  intros Hm. unfold read_file. destruct (migrationFilePattern _) as [[[digits name] direction]|]; [|done].
  destruct (Atoi digits) as [version|]; [|done]. destruct (fs_ReadFile _ _); [|done]. cbv zeta.
  destruct (TrimSpace _ =s? ""); [done|]. set (builder := default _ _).
  assert (Mig_Version builder = version) as Hv.
  { unfold builder. destruct (m !! version) eqn:E; [by apply Hm|done]. }
  destruct (_ <>s? _); [done|]. destruct (set_body _ _ _) as [b|] eqn:Hb; [|done]. intros [= <-].
  apply set_body_version in Hb. intros v x. rewrite lookup_insert_Some. intros [[<- <-]|[_ Hx]]; [congruence|by apply Hm].
Qed.

Lemma read_files_keyed fsys files : forall m m', keyed_builders m -> read_files fsys files m = Ok m' -> keyed_builders m'.
Proof.
  induction files as [|f files IH]; intros m m' Hm; simpl; [by intros [= <-]|].
  destruct (read_file _ _ _) as [m1|] eqn:E; [|done]. apply IH. by eapply read_file_keyed.
Qed.

Lemma complete_spec l l' : complete l = Ok l' ->
  l' = l /\ Forall (fun m => Mig_UpSQL m <> "" /\ Mig_DownSQL m <> "") l.
Proof.
  revert l'. induction l as [|b l IH]; intros l'; simpl; [by intros [= <-]|].
  destruct (String.eqb_spec (Mig_UpSQL b) ""), (String.eqb_spec (Mig_DownSQL b) ""); try done. simpl.
  destruct (complete l) as [l1|]; [|done]. intros [= <-]. destruct (IH l1 eq_refl) as [-> ?]. split; [done|by constructor].
Qed.

Lemma version_less_weak : StrictWeak version_less.
Proof. unfold version_less. split; intros; reflect_tests; lia. Qed.

Lemma sorted_builders_ordered m : keyed_builders m -> ordered (sorted_builders m).
Proof.
  intros Hm. unfold sorted_builders.
  assert (StronglySorted (not_after version_less) (insertion_sort version_less (map snd (map_to_list m)))) as Hs
    by apply (sort_Slice_sorted (rt := reference_runtime)), version_less_weak.
  assert (NoDup (map Mig_Version (insertion_sort version_less (map snd (map_to_list m))))) as Hnd.
  { rewrite (sort_Slice_perm (rt := reference_runtime) _ version_less). rewrite map_map.
    rewrite (map_ext_in _ fst); [apply NoDup_fst_map_to_list|]. intros [v b] Hin.
    apply list_elem_of_In, elem_of_map_to_list in Hin. by apply Hm. }
  unfold ordered. induction Hs as [|b l Hs IH Hb]; [constructor|]. simpl in Hnd. apply NoDup_cons in Hnd as [Hn Hnd].
  constructor; [by apply IH|]. apply Forall_forall. intros x Hx.
  pose proof (proj1 (Forall_forall _ _) Hb x Hx) as Hle. unfold not_after, version_less in Hle. reflect_tests.
  assert (Mig_Version b <> Mig_Version x); [|lia]. intros E. apply Hn. rewrite E. by apply list_elem_of_fmap_2.
Qed.

Lemma load_ordered fsys ms : loadMigrationsFromFS fsys = Ok ms ->
  ordered ms /\ Forall (fun m => Mig_UpSQL m <> "" /\ Mig_DownSQL m <> "") ms.
Proof.
  unfold loadMigrationsFromFS. destruct (fs_Glob fsys) as [[|f files]|]; [done| |done].
  destruct (read_files _ _ _) as [m|] eqn:E; [|done]. intros [-> Hf]%complete_spec. split; [|done].
  apply sorted_builders_ordered. eapply read_files_keyed; [|exact E]. intros v b H. by rewrite lookup_empty in H.
Qed.

Lemma read_file_insert fsys file m m' : read_file fsys file m = Ok m' -> exists v b, m' = <[v := b]> m.
Proof. unfold read_file. repeat case_match; naive_solver. Qed.

Lemma read_files_stay fsys files : forall m m', m <> ∅ -> read_files fsys files m = Ok m' -> m' <> ∅.
Proof.
  induction files as [|f files IH]; intros m m' Hm; simpl; [by intros [= <-]|].
  destruct (read_file _ _ _) as [m1|] eqn:E; [|done]. apply read_file_insert in E as (v & b & ->).
  apply IH, insert_non_empty.
Qed.

Lemma load_nonempty fsys ms : loadMigrationsFromFS fsys = Ok ms -> ms <> [].
Proof.
  unfold loadMigrationsFromFS. destruct (fs_Glob fsys) as [[|f files]|]; [done| |done]. simpl.
  destruct (read_file _ _ _) as [m1|] eqn:E; [|done]. apply read_file_insert in E as (v & b & ->).
  destruct (read_files _ _ _) as [m|] eqn:E; [|done]. apply read_files_stay in E; [|apply insert_non_empty].
  intros [-> _]%complete_spec Hnil. apply E. apply map_to_list_empty_iff.
  assert (sorted_builders m ≡ₚ map snd (map_to_list m)) as Hp by apply (sort_Slice_perm (rt := reference_runtime)).
  rewrite Hnil in Hp. apply Permutation_nil_l in Hp. by destruct (map_to_list m).
Qed.

(** ** The schema is what the recorded migrations make *)

Section Consistent.
Context {S : Type} (run_script : string -> statement S unit) (base : S) (ms : list migration).
Hypothesis ms_ordered : ordered ms.

Abbreviation db_t := (migration_db (S := S)).

(** The up scripts, one after the other. *)
Fixpoint run_ups (l : list migration) (s : S) : option S :=
  match l with
  | [] => Some s
  | m :: l => match run_script (Mig_UpSQL m) s with (inl _, s') => run_ups l s' | (inr _, _) => None end
  end.

(** Every down script takes back what its up script did. *)
Definition reversible : Prop := forall n m s s', ms !! n = Some m -> run_ups (take n ms) base = Some s ->
  run_script (Mig_UpSQL m) s = (inl tt, s') -> run_script (Mig_DownSQL m) s' = (inl tt, s).

Definition versions_map (l : list migration) : gmap Z string :=
  list_to_map (map (fun m => (Mig_Version m, Mig_Name m)) l).

(** The first [n] migrations are recorded, and the schema is what they make. *)
Definition at_step (n : nat) (db : db_t) : Prop :=
  (n <= length ms)%nat /\ default ∅ (md_applied db) = versions_map (take n ms) /\
  run_ups (take n ms) base = Some (md_schema db).

Definition consistent (db : db_t) : Prop := exists n, at_step n db.

Lemma run_ups_app l1 l2 s : run_ups (l1 ++ l2) s = s' ← run_ups l1 s; run_ups l2 s'.
Proof.
  revert s. induction l1 as [|m l1 IH]; intros s; simpl; [done|]. destruct (run_script _ s) as [[[]|e] s1]; [apply IH|done].
Qed.

(** A transaction takes effect as a whole or not at all. *)
Lemma in_transaction_spec outages b1 b2 b3 b4 script row db :
  wp (sql_spec outages) (in_transaction run_script b1 b2 b3 b4 script row) (db, NoTx) (fun r w =>
    (w = (db, NoTx) /\ r <> None) \/
    exists s' db', run_script script (md_schema db) = (inl tt, s') /\
      row (MkMigrationDB s' (md_applied db)) = (inl tt, db') /\ w = (db', NoTx)).
Proof.
  unfold in_transaction. apply wp_begin; [left; by split|]. unfold exec_script. apply wp_stmt_tx.
  { intros e _. by left. }
  intros [] c. destruct (run_script script (md_schema db)) as [[[]|e] s'] eqn:E; [|done]. intros [= <-].
  apply wp_stmt_tx; [by left|]. intros [] c' Hrow.
  apply wp_commit; [right; eauto|right; eauto|]. intros _ m. by left.
Qed.

Lemma in_transaction_calm b1 b2 b3 b4 script row db s' db' :
  run_script script (md_schema db) = (inl tt, s') -> row (MkMigrationDB s' (md_applied db)) = (inl tt, db') ->
  wp (sql_spec false) (in_transaction run_script b1 b2 b3 b4 script row) (db, NoTx)
    (fun r w => r = None /\ w = (db', NoTx)).
Proof.
  intros E Hrow. unfold in_transaction. apply wp_begin; [done|]. apply wp_stmt_tx.
  { intros e [[? _]|He]; [done|]. unfold exec_script in He. by rewrite E in He. }
  intros [] c. unfold exec_script. rewrite E. intros [= <-]. apply wp_stmt_tx.
  { intros e [[? _]|He]; [done|]. by rewrite Hrow in He. }
  intros [] c'. rewrite Hrow. intros [= <-]. by apply wp_commit.
Qed.

(** *** Versions *)

Lemma versions_NoDup l : ordered l -> NoDup (map Mig_Version l).
Proof.
  induction 1 as [|m l Hs IH Hm]; simpl; constructor; [|done]. intros (x & E & Hx)%list_elem_of_fmap.
  pose proof (proj1 (Forall_forall _ _) Hm x Hx). simpl in *. lia.
Qed.

Lemma lookup_versions_map l v : versions_map l !! v = None <-> v ∉ map Mig_Version l.
Proof. unfold versions_map. rewrite <- not_elem_of_list_to_map, <- list_fmap_compose. done. Qed.

Lemma version_fresh n m : ms !! n = Some m -> Mig_Version m ∉ map Mig_Version (take n ms).
Proof.
  intros Hm. pose proof (versions_NoDup _ ms_ordered) as Hnd.
  rewrite <- (take_drop_middle _ _ _ Hm), map_app, NoDup_app in Hnd. destruct Hnd as (_ & Hnd & _).
  intros Hin. apply (Hnd _ Hin). simpl. by constructor.
Qed.

Lemma versions_map_app l m : Mig_Version m ∉ map Mig_Version l ->
  versions_map (l ++ [m]) = <[Mig_Version m := Mig_Name m]> (versions_map l).
Proof.
  intros Hn%lookup_versions_map. unfold versions_map. rewrite map_app, list_to_map_app. fold (versions_map l). simpl.
  apply map_eq. intros v. rewrite lookup_union, !lookup_insert, lookup_empty.
  case_decide as Hv; [subst v; by rewrite Hn|]. by destruct (versions_map l !! v).
Qed.

Lemma take_S_middle n m : ms !! n = Some m -> take (Datatypes.S n) ms = take n ms ++ [m].
Proof. apply take_S_r. Qed.

(** Applying the next migration. *)
Lemma step_up n m db s' : at_step n db -> ms !! n = Some m ->
  run_script (Mig_UpSQL m) (md_schema db) = (inl tt, s') ->
  forall db', insert_version (Mig_Version m) (Mig_Name m) (MkMigrationDB s' (md_applied db)) = (inl tt, db') ->
  at_step (Datatypes.S n) db'.
Proof.
  intros (Hn & Ha & Hr) Hm Hs db'. unfold insert_version. simpl. destruct (md_applied db) as [applied|]; [|done].
  simpl in Ha. subst applied. destruct (versions_map _ !! _); [done|]. intros [= <-]. split_and!; simpl.
  - by apply lookup_lt_Some in Hm.
  - rewrite (take_S_middle _ _ Hm), versions_map_app; [done|]. by apply version_fresh.
  - rewrite (take_S_middle _ _ Hm), run_ups_app, Hr. simpl. by rewrite Hs.
Qed.

(** Reverting the last one. *)
Lemma step_down n m db s' : reversible -> at_step (Datatypes.S n) db -> ms !! n = Some m ->
  run_script (Mig_DownSQL m) (md_schema db) = (inl tt, s') ->
  forall db', delete_version (Mig_Version m) (MkMigrationDB s' (md_applied db)) = (inl tt, db') -> at_step n db'.
Proof.
  intros Hrev (Hn & Ha & Hr) Hm Hs db'. unfold delete_version. simpl. destruct (md_applied db) as [applied|]; [|done].
  simpl in Ha. subst applied. intros [= <-]. rewrite (take_S_middle _ _ Hm) in *.
  rewrite run_ups_app in Hr. destruct (run_ups (take n ms) base) as [s|] eqn:Es; [|done]. simpl in Hr.
  destruct (run_script (Mig_UpSQL m) s) as [[[]|e] s1] eqn:Eu; [|done]. injection Hr as Hr.
  rewrite Hr in Eu. rewrite (Hrev n m s _ Hm Es Eu) in Hs. injection Hs as <-. split_and!; simpl; [lia| |done].
  rewrite versions_map_app by (by apply version_fresh). rewrite delete_insert_id; [done|].
  by apply lookup_versions_map, version_fresh.
Qed.

(** *** Loops *)

Lemma elem_of_versions l v : v ∈ map fst (map_to_list (versions_map l)) <-> v ∈ map Mig_Version l.
Proof.
  rewrite list_elem_of_fmap. split.
  - intros ([v' x] & -> & Hx%elem_of_map_to_list). unfold versions_map in Hx.
    apply elem_of_list_to_map_2, list_elem_of_fmap in Hx as (m & [= -> ->] & Hm). simpl.
    by apply (list_elem_of_fmap_2 Mig_Version).
  - intros Hv. destruct (versions_map l !! v) as [x|] eqn:E; [|by apply lookup_versions_map in E].
    exists (v, x). by rewrite elem_of_map_to_list.
Qed.

Lemma up_loop_skip outages applied l rest steps k w Q : Forall (fun m => Mig_Version m ∈ applied) l ->
  wp (sql_spec outages) (up_loop run_script applied rest steps k) w Q ->
  wp (sql_spec outages) (up_loop run_script applied (l ++ rest) steps k) w Q.
Proof. induction 1 as [|m l Hm _ IH]; intros Hr; [done|]. simpl. rewrite bool_decide_true by done. by apply IH. Qed.

Definition settled (w : db_t * tx_state db_t) : Prop := w.2 = NoTx /\ consistent w.1.

Lemma at_step_settled n db : at_step n db -> settled (db, NoTx).
Proof. split; [done|by exists n]. Qed.

Lemma up_loop_spec applied steps rest : forall n k db, drop n ms = rest -> at_step n db ->
  Forall (fun m => Mig_Version m ∉ applied) rest ->
  wp (sql_spec true) (up_loop run_script applied rest steps k) (db, NoTx) (fun _ w => settled w).
Proof.
  induction rest as [|m rest IH]; intros n k db Hd Hn Hf; cbn [up_loop]; [by eapply at_step_settled|].
  apply Forall_cons in Hf as [Hm Hf]. rewrite bool_decide_false by done.
  assert (ms !! n = Some m) as Em by (rewrite <- (Nat.add_0_r n), <- lookup_drop, Hd; done).
  eapply wp_seq; [apply _|apply in_transaction_spec|].
  intros r w [[-> Hr]|(s' & db' & Hs & Hi & ->)].
  - destruct r; [|done]. by eapply at_step_settled.
  - pose proof (step_up _ _ _ _ Hn Em Hs _ Hi) as Hn'. destruct r; [by eapply at_step_settled|].
    destruct (_ && _); [by eapply at_step_settled|]. apply (IH (Datatypes.S n)); [|done..].
    change (Datatypes.S n) with (1 + n)%nat. by rewrite <- skipn_skipn, Hd.
Qed.

Lemma newest_first_versions l : ordered l -> newest_first (versions_map l) = rev (map Mig_Version l).
Proof.
  intros Hl. unfold newest_first.
  assert (NoDup (map Mig_Version l)) as Hnd by by apply versions_NoDup.
  apply (sorted_unique (fun a b : Z => b <? a)).
  - intros x y _ _ H1 H2. reflect_tests. lia.
  - apply order_by_sorted. split; intros; reflect_tests; lia.
  - clear Hnd. induction Hl as [|m l Hs IH Hm]; simpl; [constructor|].
    apply StronglySorted_app_2; [|done|by repeat constructor]. intros v1 v2 Hv1 Hv2.
    apply list_elem_of_singleton in Hv2 as ->. rewrite <- Permutation_rev in Hv1.
    apply list_elem_of_fmap in Hv1 as (x & -> & Hx). pose proof (proj1 (Forall_forall _ _) Hm x Hx).
    unfold not_after. apply Z.ltb_ge. simpl in *. lia.
  - rewrite order_by_perm. unfold versions_map. rewrite map_to_list_to_map; [|by rewrite <- list_fmap_compose].
    rewrite <- list_fmap_compose. simpl. by rewrite <- Permutation_rev.
Qed.

Lemma version_inj m1 m2 : m1 ∈ ms -> m2 ∈ ms -> Mig_Version m1 = Mig_Version m2 -> m1 = m2.
Proof.
  intros (i & H1)%list_elem_of_lookup (j & H2)%list_elem_of_lookup E.
  assert (i = j) as ->; [|congruence]. apply (NoDup_lookup (map Mig_Version ms) i j (Mig_Version m1)).
  - by apply versions_NoDup.
  - by rewrite list_lookup_fmap, H1.
  - rewrite list_lookup_fmap, H2. simpl. by rewrite E.
Qed.

Lemma find_version_of n m : ms !! n = Some m -> find_version ms (Mig_Version m) = Some m.
Proof.
  intros Hm%list_elem_of_lookup_2. unfold find_version. destruct (List.find _ _) as [x|] eqn:E.
  - apply find_some in E as [Hx He]. apply Z.eqb_eq in He. f_equal. apply version_inj; [|done..].
    by apply list_elem_of_In, in_rev.
  - exfalso.
    assert (In m (rev ms)) as Hin by (by apply in_rev; rewrite rev_involutive; apply list_elem_of_In).
    pose proof (find_none _ _ E m Hin) as Hf. simpl in Hf. by rewrite Z.eqb_refl in Hf.
Qed.

(** The versions of the last [k] of [n] migrations, newest first. *)
Definition last_versions (n k : nat) : list Z := take k (rev (map Mig_Version (take n ms))).

Lemma last_versions_S n k m : ms !! n = Some m ->
  last_versions (Datatypes.S n) (Datatypes.S k) = Mig_Version m :: last_versions n k.
Proof. intros Hm. unfold last_versions. rewrite (take_S_middle _ _ Hm), map_app, rev_app_distr. done. Qed.

Lemma down_loop_spec : reversible -> forall k n db, at_step n db ->
  wp (sql_spec true) (down_loop run_script ms (last_versions n k)) (db, NoTx) (fun _ w => settled w).
Proof.
  intros Hrev. induction k as [|k IH]; intros n db Hn; [by eapply at_step_settled|].
  destruct n as [|n]; [by eapply at_step_settled|].
  destruct (ms !! n) as [m|] eqn:Em; [|apply lookup_ge_None in Em; destruct Hn as [Hn _]; lia].
  rewrite (last_versions_S _ _ _ Em). cbn [down_loop]. rewrite (find_version_of _ _ Em).
  eapply wp_seq; [apply _|apply in_transaction_spec|].
  intros r w [[-> Hr]|(s' & db' & Hs & Hi & ->)].
  - destruct r; [|done]. by eapply at_step_settled.
  - pose proof (step_down _ _ _ _ Hrev Hn Em Hs _ Hi) as Hn'. destruct r; [by eapply at_step_settled|].
    by apply IH.
Qed.

Lemma create_table_step n db : at_step n db -> at_step n (create_table db).2 /\ md_applied (create_table db).2 <> None.
Proof. by intros (? & ? & ?). Qed.

(** The versions the database lists, once the table is there. *)
Lemma listed_versions n db applied : at_step n db -> md_applied db = Some applied ->
  applied = versions_map (take n ms).
Proof. intros (_ & Ha & _) E. by rewrite E in Ha. Qed.

Lemma ordered_take n : ordered (take n ms).
Proof. unfold ordered in *. rewrite <- (take_drop n ms) in ms_ordered. by apply StronglySorted_app_1_l in ms_ordered. Qed.

Lemma unapplied n : Forall (fun m => Mig_Version m ∉ map fst (map_to_list (versions_map (take n ms)))) (drop n ms).
Proof.
  apply Forall_forall. intros m Hm. rewrite elem_of_versions.
  pose proof (versions_NoDup _ ms_ordered) as Hnd. rewrite <- (take_drop n ms), map_app, NoDup_app in Hnd.
  destruct Hnd as (_ & Hnd & _). intros Hin. apply (Hnd _ Hin). by apply list_elem_of_fmap_2.
Qed.

Lemma applied_prefix n : Forall (fun m => Mig_Version m ∈ map fst (map_to_list (versions_map (take n ms)))) (take n ms).
Proof. apply Forall_forall. intros m Hm. rewrite elem_of_versions. by apply list_elem_of_fmap_2. Qed.

Lemma applyUp_spec n steps db : at_step n db -> md_applied db <> None ->
  wp (sql_spec true) (applyUp run_script ms steps) (db, NoTx) (fun _ w => settled w).
Proof.
  intros Hn Ht. destruct (md_applied db) as [applied|] eqn:Ea; [|done].
  unfold applyUp, loadAppliedVersions, load_versions. apply wp_stmt.
  - intros _ m. by eapply at_step_settled.
  - intros e _. by eapply at_step_settled.
  - intros l db' E. unfold select_versions in E. rewrite Ea in E. injection E as <- <-.
    rewrite (listed_versions _ _ _ Hn Ea). split; [|intros _ m; by eapply at_step_settled].
    apply wp_rows_err; [intros _ m; by eapply at_step_settled|]. simpl.
    rewrite <- (take_drop n ms) at 2. apply up_loop_skip; [apply applied_prefix|].
    apply (up_loop_spec _ _ _ n); [done|done|apply unapplied].
Qed.

Lemma applyDown_spec n steps db : reversible -> at_step n db -> md_applied db <> None ->
  wp (sql_spec true) (applyDown run_script ms steps) (db, NoTx) (fun _ w => settled w).
Proof.
  intros Hrev Hn Ht. destruct (md_applied db) as [applied|] eqn:Ea; [|done].
  unfold applyDown, loadAppliedVersionsDesc, load_versions. apply wp_stmt.
  - intros _ m. by eapply at_step_settled.
  - intros e _. by eapply at_step_settled.
  - intros l db' E. unfold select_versions_desc in E. rewrite Ea in E. injection E as <- <-.
    rewrite (listed_versions _ _ _ Hn Ea), newest_first_versions by apply ordered_take.
    split; [|intros _ m; by eapply at_step_settled].
    apply wp_rows_err; [intros _ m; by eapply at_step_settled|]. by apply down_loop_spec.
Qed.

Lemma wp_touch outages {B} (k : unit + sql_error -> SQL db_t B) Q db :
  (outages = true -> forall m, wp (sql_spec outages) (k (inr (DriverError m))) (db, NoTx) Q) ->
  wp (sql_spec outages) (k (inl tt)) (db, NoTx) Q -> wp (sql_spec outages) (touch ≫= k) (db, NoTx) Q.
Proof. intros H1 H2. apply (wp_query no_locks (fun _ => tt)); [exact H1|exact H2]. Qed.

Lemma settled_touch (r : option err) w : settled w -> wp (sql_spec true) (touch (S := S);; mret r) w (fun _ w => settled w).
Proof. destruct w as [db tx]. intros [E Hc]. simpl in E. subst tx. apply wp_touch; done. Qed.

Lemma migrate_spec fsys direction steps db : (direction = migrationDown -> reversible) -> loadMigrationsFromFS fsys = Ok ms -> consistent db ->
  wp (sql_spec true) (migrate run_script fsys direction steps) (db, NoTx) (fun _ w => settled w).
Proof.
  intros Hrev Hload [n Hn]. unfold migrate. rewrite Hload.
  apply wp_touch; [intros _ m; by eapply at_step_settled|].
  apply wp_touch; [intros _ m; by eapply at_step_settled|].
  destruct (create_table_step n db Hn) as [Hn' Ht]. apply wp_stmt.
  - intros _ m. by eapply settled_touch, at_step_settled.
  - intros e He. done.
  - intros [] db' [= <-]. split; [|intros _ m; by eapply settled_touch, at_step_settled].
    eapply wp_seq; [apply _| |intros r w Hw; exact (settled_touch r w Hw)].
    destruct direction; [by eapply applyUp_spec|eapply applyDown_spec; eauto].
Qed.

(** *** Without outages *)

Lemma calm_up n m db s' : at_step n db -> ms !! n = Some m -> md_applied db <> None ->
  run_script (Mig_UpSQL m) (md_schema db) = (inl tt, s') ->
  wp (sql_spec false) (applyOneUp run_script m) (db, NoTx) (fun r w =>
    r = None /\ exists db', w = (db', NoTx) /\ at_step (Datatypes.S n) db' /\ md_applied db' <> None).
Proof.
  intros Hn Hm Ht Hs. destruct (md_applied db) as [applied|] eqn:Ea; [|done].
  pose proof (listed_versions _ _ _ Hn Ea) as ->.
  set (db' := MkMigrationDB s' (Some (<[Mig_Version m := Mig_Name m]> (versions_map (take n ms))))).
  assert (insert_version (Mig_Version m) (Mig_Name m) (MkMigrationDB s' (md_applied db)) = (inl tt, db')) as Hi.
  { unfold insert_version. rewrite Ea. simpl. by rewrite (proj2 (lookup_versions_map _ _) (version_fresh _ _ Hm)). }
  eapply wp_mono; [apply _| |by eapply in_transaction_calm]. intros r w [-> ->]. split; [done|]. exists db'.
  split_and!; [done|by eapply step_up|done].
Qed.

Lemma calm_down n m db : reversible -> at_step (Datatypes.S n) db -> ms !! n = Some m -> md_applied db <> None ->
  wp (sql_spec false) (applyOneDown run_script m) (db, NoTx) (fun r w =>
    r = None /\ exists db', w = (db', NoTx) /\ at_step n db' /\ md_applied db' <> None).
Proof.
  intros Hrev Hn Hm Ht. destruct (md_applied db) as [applied|] eqn:Ea; [|done].
  assert (exists s, run_script (Mig_DownSQL m) (md_schema db) = (inl tt, s)) as [s Hs].
  { destruct Hn as (_ & _ & Hr). rewrite (take_S_middle _ _ Hm), run_ups_app in Hr.
    destruct (run_ups (take n ms) base) as [s|] eqn:Es; [|done]. simpl in Hr. exists s.
    destruct (run_script (Mig_UpSQL m) s) as [[[]|e] s1] eqn:Eu; [|done]. injection Hr as ->. by apply (Hrev n m). }
  set (db' := MkMigrationDB s (Some (delete (Mig_Version m) applied))).
  assert (delete_version (Mig_Version m) (MkMigrationDB s (md_applied db)) = (inl tt, db')) as Hi
    by (unfold delete_version; by rewrite Ea).
  eapply wp_mono; [apply _| |by eapply in_transaction_calm]. intros r w [-> ->]. split; [done|]. exists db'.
  split_and!; [done|by eapply step_down|done].
Qed.

(** A program that reaches step [n], without an error. *)
Definition reaches (n : nat) (r : option err) (w : db_t * tx_state db_t) : Prop :=
  r = None /\ exists db', w = (db', NoTx) /\ at_step n db' /\ md_applied db' <> None.

Lemma up_loop_calm applied rest : is_Some (run_ups ms base) -> forall n k db, drop n ms = rest -> at_step n db ->
  md_applied db <> None -> Forall (fun m => Mig_Version m ∉ applied) rest ->
  wp (sql_spec false) (up_loop run_script applied rest 0 k) (db, NoTx) (reaches (length ms)).
Proof.
  intros [final Hfinal]. induction rest as [|m rest IH]; intros n k db Hd Hn Ht Hf; cbn [up_loop].
  - assert (n = length ms) as <-. { destruct Hn as [Hn _]. apply (f_equal length) in Hd. rewrite length_drop in Hd. simpl in Hd. lia. }
    split; [done|]. by exists db.
  - apply Forall_cons in Hf as [Hm Hf]. rewrite bool_decide_false by done.
    assert (ms !! n = Some m) as Em by (rewrite <- (Nat.add_0_r n), <- lookup_drop, Hd; done).
    assert (exists s', run_script (Mig_UpSQL m) (md_schema db) = (inl tt, s')) as [s' Hs].
    { destruct Hn as (_ & _ & Hr). rewrite <- (take_drop n ms), run_ups_app, Hr, Hd in Hfinal. simpl in Hfinal.
      destruct (run_script _ _) as [[[]|e] s1]; [by exists s1|done]. }
    eapply wp_seq; [apply _|by eapply calm_up|]. intros r w [-> (db' & -> & Hn' & Ht')].
    apply (IH (Datatypes.S n)); [|done..]. change (Datatypes.S n) with (1 + n)%nat. by rewrite <- skipn_skipn, Hd.
Qed.

Lemma down_loop_calm : reversible -> forall k n db, at_step n db -> md_applied db <> None ->
  wp (sql_spec false) (down_loop run_script ms (last_versions n k)) (db, NoTx) (reaches (n - k)).
Proof.
  intros Hrev. induction k as [|k IH]; intros n db Hn Ht.
  { unfold last_versions. simpl. rewrite Nat.sub_0_r. split; [done|]. by exists db. }
  destruct n as [|n]; [split; [done|]; by exists db|].
  destruct (ms !! n) as [m|] eqn:Em; [|apply lookup_ge_None in Em; destruct Hn as [Hn _]; lia].
  rewrite (last_versions_S _ _ _ Em). cbn [down_loop]. rewrite (find_version_of _ _ Em).
  eapply wp_seq; [apply _|by eapply calm_down|]. intros r w [-> (db' & -> & Hn' & Ht')]. by apply IH.
Qed.

Lemma migrate_calm fsys direction steps target db n : loadMigrationsFromFS fsys = Ok ms -> at_step n db ->
  (forall db', at_step n db' -> md_applied db' <> None ->
     wp (sql_spec false) (match direction with migrationUp => applyUp run_script ms steps
                          | migrationDown => applyDown run_script ms steps end) (db', NoTx) (reaches target)) ->
  wp (sql_spec false) (migrate run_script fsys direction steps) (db, NoTx) (reaches target).
Proof.
  intros Hload Hn Hk. unfold migrate. rewrite Hload. apply wp_touch; [done|]. apply wp_touch; [done|].
  destruct (create_table_step n db Hn) as [Hn' Ht]. apply wp_stmt; [done|by intros e He|].
  intros [] db' [= <-]. split; [|done]. eapply wp_seq; [apply _|by apply Hk|].
  intros r w [-> (db' & -> & H)]. apply wp_touch; [done|]. split; [done|]. by exists db'.
Qed.

Lemma up_calm fsys db n : is_Some (run_ups ms base) -> loadMigrationsFromFS fsys = Ok ms -> at_step n db ->
  wp (sql_spec false) (MigrateUp run_script fsys 0) (db, NoTx) (reaches (length ms)).
Proof.
  intros Hall Hload Hn. apply (migrate_calm _ _ _ _ _ n Hload Hn). clear db Hn. intros db Hn Ht.
  destruct (md_applied db) as [applied|] eqn:Ea; [|done]. unfold applyUp, loadAppliedVersions, load_versions.
  apply wp_stmt; [done|intros e He; unfold select_versions in He; by rewrite Ea in He|].
  intros l db' E. unfold select_versions in E. rewrite Ea in E. injection E as <- <-. split; [|done].
  apply wp_rows_err; [done|]. rewrite (listed_versions _ _ _ Hn Ea). simpl.
  rewrite <- (take_drop n ms) at 2. apply up_loop_skip; [apply applied_prefix|].
  apply (up_loop_calm _ _ Hall n); [done|done|congruence|apply unapplied].
Qed.

Lemma down_calm fsys db n steps : reversible -> loadMigrationsFromFS fsys = Ok ms -> at_step n db -> 0 < steps ->
  wp (sql_spec false) (MigrateDown run_script fsys steps) (db, NoTx) (reaches (n - Z.to_nat steps)).
Proof.
  intros Hrev Hload Hn Hs. unfold MigrateDown. destruct (Z.leb_spec steps 0); [lia|].
  apply (migrate_calm _ _ _ _ _ n Hload Hn). clear db Hn. intros db Hn Ht.
  destruct (md_applied db) as [applied|] eqn:Ea; [|done]. unfold applyDown, loadAppliedVersionsDesc, load_versions.
  apply wp_stmt; [done|intros e He; unfold select_versions_desc in He; by rewrite Ea in He|].
  intros l db' E. unfold select_versions_desc in E. rewrite Ea in E. injection E as <- <-. split; [|done].
  rewrite (listed_versions _ _ _ Hn Ea), newest_first_versions by apply ordered_take.
  apply wp_rows_err; [done|]. apply (down_loop_calm Hrev); [done|congruence].
Qed.
End Consistent.

Section Theorems.
Context {S : Type} (run_script : string -> statement S unit) (base : S) (fsys : filesystem) (ms : list migration).

(** C32. On a database whose schema is what its recorded migrations make, a
    prefix of those in the files, migrations and rollbacks leave such a
    database, whatever outages interrupt them: a script and its record take
    effect together or not at all, in the order of the versions; no migration is
    skipped and none is applied twice.  For a rollback each down script has to
    take back its up script; MigrationScripts.v proves this of the scripts of
    the repository.  Files that cannot be loaded change nothing. *)
Theorem migrations_consistent sur direction steps db :
  (loadMigrationsFromFS fsys = Ok ms -> (direction = migrationDown -> reversible run_script base ms) ->
   consistent run_script base ms db ->
   consistent run_script base ms (sql_call sur (migrate run_script fsys direction steps) db).2) /\
  (forall e, loadMigrationsFromFS fsys = Err e ->
   sql_call sur (migrate run_script fsys direction steps) db = (Some e, db)).
Proof.
  split; [|intros e He; unfold sql_call, migrate; by rewrite He].
  intros Hload Hrev Hdb. destruct (load_ordered _ _ Hload) as [Hord _].
  apply (sql_call_spec true sur _ db (fun _ db' => consistent run_script base ms db')); [by left|].
  eapply wp_mono; [apply _| |by eapply (migrate_spec run_script base ms Hord)]. by intros r w [_ H].
Qed.

(** On a connection that does not fail, MigrateUp applies what is missing,
    and MigrateDown with as many steps takes the schema back to where it was
    before any migration. *)
Theorem migrate_up_down sur sur' n db :
  no_outage sur -> no_outage sur' -> loadMigrationsFromFS fsys = Ok ms ->
  reversible run_script base ms -> is_Some (run_ups run_script ms base) -> at_step run_script base ms n db ->
  let up := sql_call sur (MigrateUp run_script fsys 0) db in
  let down := sql_call sur' (MigrateDown run_script fsys (Z.of_nat (length ms))) up.2 in
  up.1 = None /\ run_ups run_script ms base = Some (md_schema up.2) /\ md_applied up.2 = Some (versions_map ms) /\
  down.1 = None /\ md_schema down.2 = base /\ md_applied down.2 = Some ∅.
Proof.
  intros Hs Hs' Hload Hrev Hall Hn up down. destruct (load_ordered _ _ Hload) as [Hord Hne].
  assert (0 < Z.of_nat (length ms)) as Hlen
    by (pose proof (load_nonempty _ _ Hload); destruct ms; simpl; [done|lia]).
  assert (up.1 = None /\ at_step run_script base ms (length ms) up.2 /\ md_applied up.2 <> None) as (Hu1 & Hu2 & Hu3).
  { apply (sql_call_spec false sur _ db (fun r db' =>
      r = None /\ at_step run_script base ms (length ms) db' /\ md_applied db' <> None)); [by right|].
    eapply wp_mono; [apply _| |by eapply (up_calm run_script base ms Hord)].
    by intros r w [-> (db' & -> & ? & ?)]. }
  assert (down.1 = None /\ at_step run_script base ms 0 down.2 /\ md_applied down.2 <> None) as (Hd1 & Hd2 & Hd3).
  { apply (sql_call_spec false sur' _ up.2 (fun r db' =>
      r = None /\ at_step run_script base ms 0 db' /\ md_applied db' <> None)); [by right|].
    eapply wp_mono; [apply _| |by eapply (down_calm run_script base ms Hord)].
    rewrite Nat2Z.id, Nat.sub_diag. by intros r w [-> (db' & -> & ? & ?)]. }
  destruct Hu2 as (_ & Hua & Hur), Hd2 as (_ & Hda & Hdr). rewrite firstn_all in Hua, Hur. simpl in Hda, Hdr.
  split_and!; [done|done| |done|congruence|].
  - destruct (md_applied up.2); [by rewrite <- Hua|done].
  - destruct (md_applied down.2) as [a|]; [|done]. f_equal. exact Hda.
Qed.
End Theorems.
