(* ===== verification/MigrationScripts.v ===== *)
(** * The migrations of the repository:
      src/internal/storage/postgres/sql/migrations

    The texts of the scripts, and what PostgreSQL documents of the statements
    they are made of, on a catalog of tables with their columns, indexes and
    inserted rows.  The rules of Migrator.v ask of the scripts that each down
    script takes back its up script; here it is proved of these. *)

From S2P Require Import Prelude GoLib Json Domain Prog Postgres Courier Migrator.

Definition sql_0001_init_down : string := "DROP TABLE IF EXISTS outbox_messages;
DROP TABLE IF EXISTS timeline_events;
DROP TABLE IF EXISTS order_items;
DROP TABLE IF EXISTS orders;
".

Definition sql_0001_init_up : string := "CREATE TABLE IF NOT EXISTS orders (
    id TEXT PRIMARY KEY,
    customer_id TEXT NOT NULL,
    status TEXT NOT NULL,
    currency TEXT NOT NULL,
    amount_minor BIGINT NOT NULL,
    version BIGINT NOT NULL DEFAULT 0,
    created_at TIMESTAMPTZ NOT NULL,
    updated_at TIMESTAMPTZ NOT NULL
);

CREATE INDEX IF NOT EXISTS idx_orders_customer_created_at
    ON orders (customer_id, created_at DESC);

CREATE TABLE IF NOT EXISTS order_items (
    id TEXT PRIMARY KEY,
    order_id TEXT NOT NULL REFERENCES orders (id) ON DELETE CASCADE,
    sku TEXT NOT NULL,
    qty INTEGER NOT NULL,
    price_minor BIGINT NOT NULL,
    created_at TIMESTAMPTZ NOT NULL
);

CREATE INDEX IF NOT EXISTS idx_order_items_order_id
    ON order_items (order_id);

CREATE TABLE IF NOT EXISTS timeline_events (
    id BIGSERIAL PRIMARY KEY,
    order_id TEXT NOT NULL REFERENCES orders (id) ON DELETE CASCADE,
    type TEXT NOT NULL,
    reason TEXT NOT NULL DEFAULT '',
    occurred TIMESTAMPTZ NOT NULL
);

CREATE INDEX IF NOT EXISTS idx_timeline_order_occurred
    ON timeline_events (order_id, occurred, id);

CREATE TABLE IF NOT EXISTS outbox_messages (
    id TEXT PRIMARY KEY,
    aggregate_type TEXT NOT NULL,
    aggregate_id TEXT NOT NULL,
    event_type TEXT NOT NULL,
    payload BYTEA NOT NULL,
    status TEXT NOT NULL DEFAULT 'pending',
    attempt_count INTEGER NOT NULL DEFAULT 0,
    created_at TIMESTAMPTZ NOT NULL,
    updated_at TIMESTAMPTZ NOT NULL
);

CREATE INDEX IF NOT EXISTS idx_outbox_status_created_at
    ON outbox_messages (status, created_at);
".

Definition sql_0002_idempotency_keys_down : string := "DROP TABLE IF EXISTS idempotency_keys;
".

Definition sql_0002_idempotency_keys_up : string := "CREATE TABLE IF NOT EXISTS idempotency_keys (
    key TEXT PRIMARY KEY,
    request_hash TEXT NOT NULL,
    response_body BYTEA,
    http_status INTEGER,
    status TEXT NOT NULL CHECK (status IN ('processing', 'done', 'failed')),
    ttl_at TIMESTAMPTZ NOT NULL,
    created_at TIMESTAMPTZ NOT NULL,
    updated_at TIMESTAMPTZ NOT NULL
);

CREATE INDEX IF NOT EXISTS idx_idempotency_keys_ttl_at
    ON idempotency_keys (ttl_at);

CREATE INDEX IF NOT EXISTS idx_idempotency_keys_status
    ON idempotency_keys (status);
".

Definition sql_0003_delivery_foundation_down : string := "DROP TABLE IF EXISTS courier_vehicle_capabilities;
DROP TABLE IF EXISTS courier_slots;
DROP TABLE IF EXISTS courier_zones;
DROP TABLE IF EXISTS couriers;

".

Definition sql_0003_delivery_foundation_up : string := "CREATE TABLE IF NOT EXISTS couriers (
    id TEXT PRIMARY KEY,
    phone TEXT NOT NULL UNIQUE,
    first_name TEXT NOT NULL,
    last_name TEXT NOT NULL,
    vehicle_type TEXT NOT NULL CHECK (vehicle_type IN ('scooter', 'bike', 'car')),
    is_active BOOLEAN NOT NULL DEFAULT TRUE,
    created_at TIMESTAMPTZ NOT NULL,
    updated_at TIMESTAMPTZ NOT NULL
);

CREATE INDEX IF NOT EXISTS idx_couriers_vehicle_type_active
    ON couriers (vehicle_type, is_active);

CREATE TABLE IF NOT EXISTS courier_zones (
    courier_id TEXT NOT NULL REFERENCES couriers (id) ON DELETE CASCADE,
    zone_id TEXT NOT NULL,
    is_primary BOOLEAN NOT NULL DEFAULT FALSE,
    created_at TIMESTAMPTZ NOT NULL,
    PRIMARY KEY (courier_id, zone_id)
);

CREATE INDEX IF NOT EXISTS idx_courier_zones_zone_id
    ON courier_zones (zone_id);

CREATE INDEX IF NOT EXISTS idx_courier_zones_courier_priority
    ON courier_zones (courier_id, is_primary DESC, zone_id ASC);

CREATE UNIQUE INDEX IF NOT EXISTS idx_courier_zones_one_primary
    ON courier_zones (courier_id)
    WHERE is_primary;

CREATE TABLE IF NOT EXISTS courier_slots (
    id TEXT PRIMARY KEY,
    courier_id TEXT NOT NULL REFERENCES couriers (id) ON DELETE CASCADE,
    slot_start TIMESTAMPTZ NOT NULL,
    slot_end TIMESTAMPTZ NOT NULL,
    duration_hours INTEGER NOT NULL CHECK (duration_hours IN (4, 8, 12)),
    status TEXT NOT NULL CHECK (status IN ('planned', 'active', 'completed', 'canceled')),
    created_at TIMESTAMPTZ NOT NULL,
    updated_at TIMESTAMPTZ NOT NULL,
    CONSTRAINT courier_slots_slot_range_chk CHECK (slot_end > slot_start)
);

CREATE UNIQUE INDEX IF NOT EXISTS idx_courier_slots_unique_start
    ON courier_slots (courier_id, slot_start);

CREATE INDEX IF NOT EXISTS idx_courier_slots_lookup
    ON courier_slots (courier_id, slot_start, slot_end);

CREATE TABLE IF NOT EXISTS courier_vehicle_capabilities (
    vehicle_type TEXT PRIMARY KEY CHECK (vehicle_type IN ('scooter', 'bike', 'car')),
    max_weight_grams INTEGER NOT NULL CHECK (max_weight_grams > 0),
    max_volume_cm3 INTEGER NOT NULL CHECK (max_volume_cm3 > 0),
    max_orders_per_trip INTEGER NOT NULL CHECK (max_orders_per_trip > 0),
    updated_at TIMESTAMPTZ NOT NULL
);

INSERT INTO courier_vehicle_capabilities (vehicle_type, max_weight_grams, max_volume_cm3, max_orders_per_trip, updated_at)
VALUES
    ('scooter', 5000, 35000, 2, NOW()),
    ('bike', 10000, 65000, 3, NOW()),
    ('car', 25000, 250000, 10, NOW())
ON CONFLICT (vehicle_type) DO NOTHING;
".

Definition sql_0004_courier_ratings_down : string := "DROP TABLE IF EXISTS courier_ratings;
".

Definition sql_0004_courier_ratings_up : string := "CREATE TABLE IF NOT EXISTS courier_ratings (
    id TEXT PRIMARY KEY,
    courier_id TEXT NOT NULL REFERENCES couriers (id) ON DELETE CASCADE,
    score SMALLINT NOT NULL CHECK (score BETWEEN 1 AND 5),
    tags JSONB NOT NULL DEFAULT '[]'::jsonb CHECK (jsonb_typeof(tags) = 'array'),
    comment TEXT NOT NULL DEFAULT '',
    created_at TIMESTAMPTZ NOT NULL
);

CREATE INDEX IF NOT EXISTS idx_courier_ratings_courier_created
    ON courier_ratings (courier_id, created_at DESC);

CREATE INDEX IF NOT EXISTS idx_courier_ratings_courier_score
    ON courier_ratings (courier_id, score);
".

(** The embedded files, in the order of [fs.Glob]. *)
Definition embedded_files : list (string * string) :=
  [("sql/migrations/0001_init.down.sql", sql_0001_init_down);
   ("sql/migrations/0001_init.up.sql", sql_0001_init_up);
   ("sql/migrations/0002_idempotency_keys.down.sql", sql_0002_idempotency_keys_down);
   ("sql/migrations/0002_idempotency_keys.up.sql", sql_0002_idempotency_keys_up);
   ("sql/migrations/0003_delivery_foundation.down.sql", sql_0003_delivery_foundation_down);
   ("sql/migrations/0003_delivery_foundation.up.sql", sql_0003_delivery_foundation_up);
   ("sql/migrations/0004_courier_ratings.down.sql", sql_0004_courier_ratings_down);
   ("sql/migrations/0004_courier_ratings.up.sql", sql_0004_courier_ratings_up)].

Definition embedded : filesystem :=
  MkFilesystem (Ok (map fst embedded_files)) (fun name =>
    match List.find (fun f => fst f =s? name) embedded_files with
    | Some f => Ok (snd f)
    | None => Err (ErrOther ("open " +:+ name +:+ ": file does not exist"))
    end).

(** ** Statements

    The tokens of a script: words, the punctuation of lists and statements, and
    quoted texts. *)
Definition is_space (a : ascii) : bool := Ascii.eqb a (chr 32) || in_range a 9 13.
Definition is_punctuation (a : ascii) : bool := Ascii.eqb a "(" || Ascii.eqb a ")" || Ascii.eqb a "," || Ascii.eqb a ";".

Definition emit (word : list ascii) : list string :=
  match word with [] => [] | _ => [string_of_list_ascii (rev word)] end.

Fixpoint tokens (quoted : bool) (word l : list ascii) : list string :=
  match l with
  | [] => emit word
  | a :: l =>
      if quoted then if Ascii.eqb a "'" then emit (a :: word) ++ tokens false [] l else tokens true (a :: word) l
      else if Ascii.eqb a "'" then emit word ++ tokens true [a] l
      else if is_space a then emit word ++ tokens false [] l
      else if is_punctuation a then emit word ++ emit [a] ++ tokens false [] l
      else tokens false (a :: word) l
  end.

Definition words (text : string) : list string := tokens false [] (list_ascii_of_string text).

Fixpoint statements (statement : list string) (l : list string) : list (list string) :=
  match l with
  | [] => match statement with [] => [] | _ => [rev statement] end
  | t :: l => if t =s? ";" then rev statement :: statements [] l else statements (t :: statement) l
  end.

Example statements_ex : statements [] (words "DROP TABLE a; INSERT INTO b VALUES ('x; y', 1);") =
  [["DROP"; "TABLE"; "a"]; ["INSERT"; "INTO"; "b"; "VALUES"; "("; "'x; y'"; ","; "1"; ")"]].
Proof. vm_compute. reflexivity. Qed.

(** ** The catalog *)

Record table := MkTable {
  tbl_name : string;
  tbl_columns : list string;                     (* the definition, as tokens *)
  tbl_indexes : list (string * list string);
  tbl_inserted : list (list string);             (* the rows, as the statements that inserted them *)
}.

Abbreviation catalog := (list table).

(** Tables and indexes share their names. *)
Definition relations (c : catalog) : list string := flat_map (fun t => tbl_name t :: map fst (tbl_indexes t)) c.

Definition has_table (c : catalog) (name : string) : bool := existsb (fun t => tbl_name t =s? name) c.
Definition has_relation (c : catalog) (name : string) : bool := existsb (fun r => r =s? name) (relations c).

(** The tables a definition refers to. *)
Fixpoint references (columns : list string) : list string :=
  match columns with
  | keyword :: (name :: _) as rest => if keyword =s? "REFERENCES" then name :: references rest else references rest
  | _ => []
  end.

Definition update_table (name : string) (f : table -> table) (c : catalog) : catalog :=
  map (fun t => if tbl_name t =s? name then f t else t) c.

Definition undefined_relation : sql_error := PgError "42P01" "".
Definition dependent_objects : sql_error := PgError "2BP01" "".
Definition syntax_error : sql_error := PgError "42601" "".

(** CREATE TABLE IF NOT EXISTS: the tables it refers to have to be there. *)
Definition ddl_create_table (name : string) (columns : list string) : statement catalog unit := fun c =>
  if has_relation c name then (inl tt, c)
  else if forallb (fun r => (r =s? name) || has_table c r) (references columns)
  then (inl tt, c ++ [MkTable name columns [] []])
  else (inr undefined_relation, c).

(** CREATE INDEX IF NOT EXISTS. *)
Definition ddl_create_index (name on : string) (definition : list string) : statement catalog unit := fun c =>
  if has_relation c name then (inl tt, c)
  else if has_table c on
  then (inl tt, update_table on (fun t =>
    MkTable (tbl_name t) (tbl_columns t) (tbl_indexes t ++ [(name, definition)]) (tbl_inserted t)) c)
  else (inr undefined_relation, c).

(** INSERT with ON CONFLICT DO NOTHING: rows that are there stay. *)
Definition ddl_insert (into : string) (rows : list string) : statement catalog unit := fun c =>
  if has_table c into
  then (inl tt, update_table into (fun t =>
    MkTable (tbl_name t) (tbl_columns t) (tbl_indexes t)
      (if bool_decide (rows ∈ tbl_inserted t) then tbl_inserted t else tbl_inserted t ++ [rows])) c)
  else (inr undefined_relation, c).

(** DROP TABLE IF EXISTS, with its indexes and rows; not while another table
    refers to it. *)
Definition ddl_drop_table (name : string) : statement catalog unit := fun c =>
  let others := List.filter (fun t => tbl_name t <>s? name) c in
  if has_table c name && existsb (fun t => existsb (fun r => r =s? name) (references (tbl_columns t))) others
  then (inr dependent_objects, c)
  else (inl tt, others).

Fixpoint after (keywords l : list string) : option (list string) :=
  match keywords, l with
  | [], _ => Some l
  | k :: keywords, t :: l => if t =s? k then after keywords l else None
  | _, [] => None
  end.

(** One statement; the keywords are as the scripts write them. *)
Definition ddl_statement (l : list string) : statement catalog unit := fun c =>
  match after (words "CREATE TABLE IF NOT EXISTS") l with
  | Some (name :: columns) => ddl_create_table name columns c
  | _ =>
  match after (words "CREATE INDEX IF NOT EXISTS") l, after (words "CREATE UNIQUE INDEX IF NOT EXISTS") l with
  | Some (name :: keyword :: on :: definition), _ | _, Some (name :: keyword :: on :: definition) =>
      if keyword =s? "ON" then ddl_create_index name on (l ++ definition) c else (inr syntax_error, c)
  | _, _ =>
  match after (words "INSERT INTO") l with
  | Some (into :: rows) => ddl_insert into rows c
  | _ =>
  match after (words "DROP TABLE IF EXISTS") l with
  | Some [name] => ddl_drop_table name c
  | _ => (inr syntax_error, c)
  end end end end.

Fixpoint ddl_statements (l : list (list string)) : statement catalog unit := fun c =>
  match l with
  | [] => (inl tt, c)
  | s :: l =>
      match ddl_statement s c with
      | (inl _, c') => ddl_statements l c'
      | (inr e, _) => (inr e, c)
      end
  end.

(** A script: all of its statements, or none when one of them fails. *)
Definition ddl_script (text : string) : statement catalog unit := ddl_statements (statements [] (words text)).

(** ** The scripts of the repository *)

Definition repository_migrations : list migration :=
  match loadMigrationsFromFS embedded with Ok ms => ms | Err _ => [] end.

Lemma embedded_loads : loadMigrationsFromFS embedded = Ok repository_migrations.
Proof. vm_compute. reflexivity. Qed.

Example repository_migrations_ex :
  map (fun m => (Mig_Version m, Mig_Name m)) repository_migrations =
    [(1, "init"); (2, "idempotency_keys"); (3, "delivery_foundation"); (4, "courier_ratings")].
Proof. vm_compute. reflexivity. Qed.

(** The tables and indexes they make, on an empty database. *)
Example repository_schema : relations <$> run_ups ddl_script repository_migrations [] =
  Some ["orders"; "idx_orders_customer_created_at"; "order_items"; "idx_order_items_order_id";
        "timeline_events"; "idx_timeline_order_occurred"; "outbox_messages"; "idx_outbox_status_created_at";
        "idempotency_keys"; "idx_idempotency_keys_ttl_at"; "idx_idempotency_keys_status";
        "couriers"; "idx_couriers_vehicle_type_active";
        "courier_zones"; "idx_courier_zones_zone_id"; "idx_courier_zones_courier_priority"; "idx_courier_zones_one_primary";
        "courier_slots"; "idx_courier_slots_unique_start"; "idx_courier_slots_lookup"; "courier_vehicle_capabilities";
        "courier_ratings"; "idx_courier_ratings_courier_created"; "idx_courier_ratings_courier_score"].
Proof. vm_compute. reflexivity. Qed.

#[global] Instance table_eq_dec : EqDecision table.
Proof. solve_decision. Defined.

(** [reversible] is decided by running the scripts. *)
Definition reverses (ms : list migration) (n : nat) : bool :=
  match ms !! n, run_ups ddl_script (take n ms) [] with
  | Some m, Some s =>
      match ddl_script (Mig_UpSQL m) s with
      | (inl _, s') => match ddl_script (Mig_DownSQL m) s' with (inl _, s'') => bool_decide (s'' = s) | _ => false end
      | _ => true
      end
  | _, _ => true
  end.

Lemma reverses_all ms : forallb (reverses ms) (seq 0 (length ms)) = true -> reversible ddl_script [] ms.
Proof.
  intros H n m s s' Hm Hs Hu. rewrite forallb_forall in H. specialize (H n).
  assert (In n (seq 0 (length ms))) as Hin by (apply in_seq; apply lookup_lt_Some in Hm; lia).
  specialize (H Hin). unfold reverses in H. rewrite Hm, Hs, Hu in H.
  destruct (ddl_script (Mig_DownSQL m) s') as [[[]|e] s'']; [|done]. by apply bool_decide_eq_true in H as ->.
Qed.

(** Each down script takes back its up script. *)
Lemma repository_reversible : reversible ddl_script [] repository_migrations.
Proof. apply reverses_all. vm_compute. reflexivity. Qed.

Lemma repository_runs : is_Some (run_ups ddl_script repository_migrations []).
Proof. vm_compute. by eexists. Qed.

Definition fresh_database : migration_db (S := catalog) := MkMigrationDB [] None.

Lemma fresh_step : at_step ddl_script [] repository_migrations 0 fresh_database.
Proof. split_and!; [lia|done|done]. Qed.
