(* ===== verification/Config.v ===== *)
(** * Configuration: src/cmd/order-service/main.go and [Config] of src/internal/app/app.go

    Reading the environment, with [time.ParseDuration] as the standard library
    has it. *)

From S2P Require Import Prelude GoLib Json Strconv Float64 Domain Courier.

(** ** time.ParseDuration *)

Definition two63 : Z := 2 ^ 63.

(** [leadingInt]: the digits read, or an overflow. *)
Fixpoint leadingInt (l : list ascii) (x : Z) : option (Z * list ascii) :=
  match l with
  | a :: r =>
      if in_range a 48 57 then
        if x >? two63 / 10 then None
        else
          let x := x * 10 + (Z.of_nat (nat_of_ascii a) - 48) in
          if x >? two63 then None else leadingInt r x
      else Some (x, l)
  | [] => Some (x, [])
  end.

(** [leadingFraction]: the digits and the scale; digits that do not fit are
    skipped. *)
Fixpoint leadingFraction (l : list ascii) (x : Z) (scale : float64) (overflow : bool)
  : Z * float64 * list ascii :=
  match l with
  | a :: r =>
      if in_range a 48 57 then
        if overflow then leadingFraction r x scale true
        else if x >? (two63 - 1) / 10 then leadingFraction r x scale true
        else
          let y := x * 10 + (Z.of_nat (nat_of_ascii a) - 48) in
          if y >? two63 then leadingFraction r x scale true
          else leadingFraction r y (float64_mul scale (float64_of_int 10)) false
      else (x, scale, l)
  | [] => (x, scale, [])
  end.

(** The bytes up to the next digit or period. *)
Fixpoint unit_name (l : list ascii) : list ascii * list ascii :=
  match l with
  | a :: r =>
      if Ascii.eqb a (chr 46) || in_range a 48 57 then ([], l)
      else let '(u, rest) := unit_name r in (a :: u, rest)
  | [] => ([], [])
  end.

(** [unitMap]; both letters for micro. *)
Definition unitMap (u : string) : option Z :=
  if u =s? "ns" then Some 1
  else if (u =s? "us") || (u =s? string_of_list_ascii [chr 194; chr 181; chr 115])
          || (u =s? string_of_list_ascii [chr 206; chr 188; chr 115]) then Some Microsecond
  else if u =s? "ms" then Some Millisecond
  else if u =s? "s" then Some Second
  else if u =s? "m" then Some Minute
  else if u =s? "h" then Some Hour
  else None.

Definition invalid_duration (orig : string) : err := ErrOther ("time: invalid duration " +:+ orig).

(** One number with its unit, added to [d]. *)
Definition duration_part (orig : string) (l : list ascii) (d : Z) : result (Z * list ascii) :=
  match l with
  | [] => Ok (d, [])
  | a :: _ =>
      if negb (Ascii.eqb a (chr 46) || in_range a 48 57) then Err (invalid_duration orig)
      else
        match leadingInt l 0 with
        | None => Err (invalid_duration orig)
        | Some (v, l1) =>
            let pre := negb (length l =? length l1)%nat in
            let '(f, scale, l2, post) :=
              match l1 with
              | b :: r =>
                  if Ascii.eqb b (chr 46) then
                    let '(f, scale, l2) := leadingFraction r 0 (float64_of_int 1) false in
                    (f, scale, l2, negb (length r =? length l2)%nat)
                  else (0, float64_of_int 1, l1, false)
              | [] => (0, float64_of_int 1, l1, false)
              end in
            if negb pre && negb post then Err (invalid_duration orig)
            else
              let '(u, rest) := unit_name l2 in
              match u with
              | [] => Err (ErrOther ("time: missing unit in duration " +:+ orig))
              | _ =>
                  match unitMap (string_of_list_ascii u) with
                  | None => Err (ErrOther ("time: unknown unit in duration " +:+ orig))
                  | Some unit =>
                      if v >? two63 / unit then Err (invalid_duration orig)
                      else
                        let v := v * unit in
                        let v := if f >? 0
                                 then v + int_of_float64 (float64_mul (float64_of_int f)
                                            (float64_div (float64_of_int unit) scale))
                                 else v in
                        if (f >? 0) && (v >? two63) then Err (invalid_duration orig)
                        else
                          let d := (d + v) mod 2 ^ 64 in
                          if d >? two63 then Err (invalid_duration orig) else Ok (d, rest)
                  end
              end
        end
  end.

(** Each part takes at least one byte, so the length is enough fuel. *)
Fixpoint duration_parts (orig : string) (fuel : nat) (l : list ascii) (d : Z) : result Z :=
  match l, fuel with
  | [], _ => Ok d
  | _, O => Err (invalid_duration orig)
  | _, S n =>
      match duration_part orig l d with
      | Err e => Err e
      | Ok (d, rest) => duration_parts orig n rest d
      end
  end.

Definition ParseDuration (s : string) : result Duration :=
  let l := list_ascii_of_string s in
  let '(neg, l) :=
    match l with
    | a :: r => if Ascii.eqb a (chr 45) then (true, r) else if Ascii.eqb a (chr 43) then (false, r) else (false, l)
    | [] => (false, [])
    end in
  if string_of_list_ascii l =s? "0" then Ok 0
  else if bool_decide (l = []) then Err (invalid_duration s)
  else
    match duration_parts s (length l) l 0 with
    | Err e => Err e
    | Ok d =>
        if neg then Ok (wrap64 (- d))
        else if d >? two63 - 1 then Err (invalid_duration s)
        else Ok d
    end.

Example ParseDuration_ex :
  map (fun s => match ParseDuration s with Ok d => Some d | Err _ => None end)
    ["1h15m30.918s"; "-1.5h"; "0"; "50ms"; ".5s"; "1"; "s"; "1d"; "9223372036854775807ns"; "9223372036854775808ns"; "1.1us"] =
  [Some 4530918000000; Some (-5400000000000); Some 0; Some 50000000; Some 500000000; None; None; None;
   Some 9223372036854775807; None; Some 1100].
Proof. vm_compute. reflexivity. Qed.

(** ** app.Config *)

Definition StorageDriverMemory : string := "memory".
Definition StorageDriverPostgres : string := "postgres".

Record Config := MkAppConfig {
  GRPCAddr : string;
  MetricsAddr : string;
  StorageDriver : string;
  PostgresDSN : string;
  PostgresAutoMigrate : bool;
  AllowMockIntegrations : bool;
  OutboxPollInterval : Duration;
  OutboxBatchSize : Z;
  OutboxMaxAttempts : Z;
  OutboxRetryDelay : Duration;
  OutboxMaxPending : Z;
  IdempotencyCleanupInterval : Duration;
  IdempotencyCleanupBatchSize : Z;
}.

Definition DefaultConfig : Config :=
  MkAppConfig ":50051" ":9090" StorageDriverMemory "" true false Second 100 3 (50 * Millisecond) 10000
    (10 * Minute) 500.

(** ** Environment *)

Definition envGRPCAddr := "OMS_GRPC_ADDR".
Definition envMetricsAddr := "OMS_METRICS_ADDR".
Definition envStorageDriver := "OMS_STORAGE_DRIVER".
Definition envPostgresDSN := "OMS_POSTGRES_DSN".
Definition envPostgresAutoMigrate := "OMS_POSTGRES_AUTO_MIGRATE".
Definition envAllowMockIntegrations := "OMS_ALLOW_MOCK_INTEGRATIONS".
Definition envOutboxPollInterval := "OMS_OUTBOX_POLL_INTERVAL".
Definition envOutboxBatchSize := "OMS_OUTBOX_BATCH_SIZE".
Definition envOutboxMaxAttempts := "OMS_OUTBOX_MAX_ATTEMPTS".
Definition envOutboxRetryDelay := "OMS_OUTBOX_RETRY_DELAY".
Definition envOutboxMaxPending := "OMS_OUTBOX_MAX_PENDING".
Definition envIdempotencyCleanupInterval := "OMS_IDEMPOTENCY_CLEANUP_INTERVAL".
Definition envIdempotencyCleanupBatchSize := "OMS_IDEMPOTENCY_CLEANUP_BATCH_SIZE".

Record configWarning := MkConfigWarning { warn_env : string; warn_value : string; warn_err : err }.

Definition envLookup : Type := string -> option string.

Definition lookupEnvTrimmed (lookup : envLookup) (key : string) : option string :=
  match lookup key with
  | None => None
  | Some value => let trimmed := TrimSpace value in if trimmed =s? "" then None else Some trimmed
  end.

Section Environment.
Context {ul : UnicodeLower}.

Definition parseBool (value : string) : result bool :=
  let v := ToLower (TrimSpace value) in
  if bool_decide (v ∈ ["1"; "true"; "yes"; "on"]) then Ok true
  else if bool_decide (v ∈ ["0"; "false"; "no"; "off"]) then Ok false
  else Err (ErrOther "invalid boolean value").

Definition parseInt (value : string) (validate : Z -> bool) (constraints : string) : result Z :=
  match Atoi (TrimSpace value) with
  | None => Err (ErrOther ("strconv.Atoi: parsing " +:+ TrimSpace value))
  | Some number =>
      if negb (validate number) then Err (ErrOther ("invalid integer value: " +:+ constraints)) else Ok number
  end.

Definition parseDuration (value : string) (validate : Duration -> bool) (constraints : string) : result Duration :=
  match ParseDuration (TrimSpace value) with
  | Err e => Err e
  | Ok duration =>
      if negb (validate duration) then Err (ErrOther ("invalid duration value: " +:+ constraints)) else Ok duration
  end.

(** One variable: the parsed value is stored, a refused one is a warning. *)
Definition read_env {A} (lookup : envLookup) (key : string) (parse : string -> result A)
    (store : A -> Config -> Config) (acc : Config * list configWarning) : Config * list configWarning :=
  match lookupEnvTrimmed lookup key with
  | None => acc
  | Some raw =>
      match parse raw with
      | Ok value => (store value acc.1, acc.2)
      | Err e => (acc.1, acc.2 ++ [MkConfigWarning key raw e])
      end
  end.

Definition set_GRPCAddr v c := MkAppConfig v (MetricsAddr c) (StorageDriver c) (PostgresDSN c) (PostgresAutoMigrate c)
  (AllowMockIntegrations c) (OutboxPollInterval c) (OutboxBatchSize c) (OutboxMaxAttempts c) (OutboxRetryDelay c)
  (OutboxMaxPending c) (IdempotencyCleanupInterval c) (IdempotencyCleanupBatchSize c).
Definition set_MetricsAddr v c := MkAppConfig (GRPCAddr c) v (StorageDriver c) (PostgresDSN c) (PostgresAutoMigrate c)
  (AllowMockIntegrations c) (OutboxPollInterval c) (OutboxBatchSize c) (OutboxMaxAttempts c) (OutboxRetryDelay c)
  (OutboxMaxPending c) (IdempotencyCleanupInterval c) (IdempotencyCleanupBatchSize c).
Definition set_StorageDriver v c := MkAppConfig (GRPCAddr c) (MetricsAddr c) v (PostgresDSN c) (PostgresAutoMigrate c)
  (AllowMockIntegrations c) (OutboxPollInterval c) (OutboxBatchSize c) (OutboxMaxAttempts c) (OutboxRetryDelay c)
  (OutboxMaxPending c) (IdempotencyCleanupInterval c) (IdempotencyCleanupBatchSize c).
Definition set_PostgresDSN v c := MkAppConfig (GRPCAddr c) (MetricsAddr c) (StorageDriver c) v (PostgresAutoMigrate c)
  (AllowMockIntegrations c) (OutboxPollInterval c) (OutboxBatchSize c) (OutboxMaxAttempts c) (OutboxRetryDelay c)
  (OutboxMaxPending c) (IdempotencyCleanupInterval c) (IdempotencyCleanupBatchSize c).
Definition set_PostgresAutoMigrate v c := MkAppConfig (GRPCAddr c) (MetricsAddr c) (StorageDriver c) (PostgresDSN c) v
  (AllowMockIntegrations c) (OutboxPollInterval c) (OutboxBatchSize c) (OutboxMaxAttempts c) (OutboxRetryDelay c)
  (OutboxMaxPending c) (IdempotencyCleanupInterval c) (IdempotencyCleanupBatchSize c).
Definition set_AllowMockIntegrations v c := MkAppConfig (GRPCAddr c) (MetricsAddr c) (StorageDriver c) (PostgresDSN c)
  (PostgresAutoMigrate c) v (OutboxPollInterval c) (OutboxBatchSize c) (OutboxMaxAttempts c) (OutboxRetryDelay c)
  (OutboxMaxPending c) (IdempotencyCleanupInterval c) (IdempotencyCleanupBatchSize c).
Definition set_OutboxPollInterval v c := MkAppConfig (GRPCAddr c) (MetricsAddr c) (StorageDriver c) (PostgresDSN c)
  (PostgresAutoMigrate c) (AllowMockIntegrations c) v (OutboxBatchSize c) (OutboxMaxAttempts c) (OutboxRetryDelay c)
  (OutboxMaxPending c) (IdempotencyCleanupInterval c) (IdempotencyCleanupBatchSize c).
Definition set_OutboxBatchSize v c := MkAppConfig (GRPCAddr c) (MetricsAddr c) (StorageDriver c) (PostgresDSN c)
  (PostgresAutoMigrate c) (AllowMockIntegrations c) (OutboxPollInterval c) v (OutboxMaxAttempts c) (OutboxRetryDelay c)
  (OutboxMaxPending c) (IdempotencyCleanupInterval c) (IdempotencyCleanupBatchSize c).
Definition set_OutboxMaxAttempts v c := MkAppConfig (GRPCAddr c) (MetricsAddr c) (StorageDriver c) (PostgresDSN c)
  (PostgresAutoMigrate c) (AllowMockIntegrations c) (OutboxPollInterval c) (OutboxBatchSize c) v (OutboxRetryDelay c)
  (OutboxMaxPending c) (IdempotencyCleanupInterval c) (IdempotencyCleanupBatchSize c).
Definition set_OutboxRetryDelay v c := MkAppConfig (GRPCAddr c) (MetricsAddr c) (StorageDriver c) (PostgresDSN c)
  (PostgresAutoMigrate c) (AllowMockIntegrations c) (OutboxPollInterval c) (OutboxBatchSize c) (OutboxMaxAttempts c) v
  (OutboxMaxPending c) (IdempotencyCleanupInterval c) (IdempotencyCleanupBatchSize c).
Definition set_OutboxMaxPending v c := MkAppConfig (GRPCAddr c) (MetricsAddr c) (StorageDriver c) (PostgresDSN c)
  (PostgresAutoMigrate c) (AllowMockIntegrations c) (OutboxPollInterval c) (OutboxBatchSize c) (OutboxMaxAttempts c)
  (OutboxRetryDelay c) v (IdempotencyCleanupInterval c) (IdempotencyCleanupBatchSize c).
Definition set_IdempotencyCleanupInterval v c := MkAppConfig (GRPCAddr c) (MetricsAddr c) (StorageDriver c)
  (PostgresDSN c) (PostgresAutoMigrate c) (AllowMockIntegrations c) (OutboxPollInterval c) (OutboxBatchSize c)
  (OutboxMaxAttempts c) (OutboxRetryDelay c) (OutboxMaxPending c) v (IdempotencyCleanupBatchSize c).
Definition set_IdempotencyCleanupBatchSize v c := MkAppConfig (GRPCAddr c) (MetricsAddr c) (StorageDriver c)
  (PostgresDSN c) (PostgresAutoMigrate c) (AllowMockIntegrations c) (OutboxPollInterval c) (OutboxBatchSize c)
  (OutboxMaxAttempts c) (OutboxRetryDelay c) (OutboxMaxPending c) (IdempotencyCleanupInterval c) v.

Definition positive (z : Z) : bool := z >? 0.
Definition not_negative (z : Z) : bool := z >=? 0.

Definition readConfigFromEnv (lookup : envLookup) : Config * list configWarning :=
  let acc := (DefaultConfig, []) in
  let acc := read_env lookup envGRPCAddr Ok set_GRPCAddr acc in
  let acc := read_env lookup envMetricsAddr Ok set_MetricsAddr acc in
  let acc := read_env lookup envStorageDriver (fun v => Ok (ToLower v)) set_StorageDriver acc in
  let acc := read_env lookup envPostgresDSN Ok set_PostgresDSN acc in
  let acc := read_env lookup envPostgresAutoMigrate parseBool set_PostgresAutoMigrate acc in
  let acc := read_env lookup envAllowMockIntegrations parseBool set_AllowMockIntegrations acc in
  let acc := read_env lookup envOutboxPollInterval (fun v => parseDuration v positive "must be > 0")
               set_OutboxPollInterval acc in
  let acc := read_env lookup envOutboxBatchSize (fun v => parseInt v positive "must be > 0") set_OutboxBatchSize acc in
  let acc := read_env lookup envOutboxMaxAttempts (fun v => parseInt v positive "must be > 0")
               set_OutboxMaxAttempts acc in
  let acc := read_env lookup envOutboxRetryDelay (fun v => parseDuration v not_negative "must be >= 0")
               set_OutboxRetryDelay acc in
  let acc := read_env lookup envOutboxMaxPending (fun v => parseInt v not_negative "must be >= 0")
               set_OutboxMaxPending acc in
  let acc := read_env lookup envIdempotencyCleanupInterval (fun v => parseDuration v not_negative "must be >= 0")
               set_IdempotencyCleanupInterval acc in
  read_env lookup envIdempotencyCleanupBatchSize (fun v => parseInt v positive "must be > 0")
    set_IdempotencyCleanupBatchSize acc.
End Environment.

(** ** Every configuration is usable *)

Lemma duration_part_range orig l d d' rest : 0 <= d <= two63 -> duration_part orig l d = Ok (d', rest) -> 0 <= d' <= two63.
Proof.
  intros Hd. unfold duration_part. destruct l as [|a l]; [by intros [= <- <-]|]. destruct (negb _); [done|].
  destruct (leadingInt _ _) as [[v l1]|]; [|done]. cbv zeta.
  destruct (match l1 with [] => _ | _ :: _ => _ end) as [[[f scale] l2] post].
  destruct (negb _ && negb _); [done|]. destruct (unit_name l2) as [[|c u] r]; [done|].
  destruct (unitMap _) as [unit|]; [|done]. destruct (v >? _); [done|]. destruct ((f >? 0) && _); [done|].
  set (x := (d + _) mod 2 ^ 64). destruct (Z.gtb_spec x two63); [done|]. intros [= <- <-].
  split; [apply Z.mod_pos_bound; lia|done].
Qed.

Lemma duration_parts_range orig fuel : forall l d d', 0 <= d <= two63 ->
  duration_parts orig fuel l d = Ok d' -> 0 <= d' <= two63.
Proof.
  induction fuel as [|n IH]; intros l d d' Hd; simpl; (destruct l as [|a l]; [by intros [= <-]|]); [done|].
  destruct (duration_part orig (a :: l) d) as [[d1 rest]|] eqn:E; [|done]. apply IH. by eapply duration_part_range.
Qed.

(** A duration that parses is a 64-bit integer. *)
Lemma ParseDuration_range s d : ParseDuration s = Ok d -> is_int64 d.
Proof.
  unfold ParseDuration. cbv zeta. destruct (match list_ascii_of_string s with [] => _ | _ :: _ => _ end) as [neg l].
  destruct (_ =s? "0"); [by intros [= <-]|]. case_bool_decide; [done|].
  destruct (duration_parts _ _ _ _) as [x|] eqn:E; [|done]. apply duration_parts_range in E; [|by unfold two63].
  destruct neg; [intros [= <-]; apply wrap64_range|]. destruct (Z.gtb_spec x (two63 - 1)); [done|]. intros [= <-].
  unfold is_int64, minInt64, maxInt64, two63 in *. lia.
Qed.

Lemma Atoi_range s z : Atoi s = Some z -> is_int64 z.
Proof.
  unfold Atoi. cbv zeta. destruct (match list_ascii_of_string s with [] => _ | _ :: _ => _ end) as [neg [|a l]]; [done|].
  destruct (digits_value _) as [v|]; [|done].
  destruct (_ && _) eqn:E; [|done]. intros [= <-]. apply andb_true_iff in E as [?%Z.leb_le ?%Z.leb_le].
  unfold is_int64. lia.
Qed.

(** The limits the workers rely on. *)
Record usable (c : Config) : Prop := MkUsable {
  us_poll : 0 < OutboxPollInterval c <= maxInt64;
  us_batch : 0 < OutboxBatchSize c <= maxInt64;
  us_attempts : 0 < OutboxMaxAttempts c <= maxInt64;
  us_delay : 0 <= OutboxRetryDelay c <= maxInt64;
  us_pending : 0 <= OutboxMaxPending c <= maxInt64;
  us_cleanup : 0 <= IdempotencyCleanupInterval c <= maxInt64;
  us_cleanup_batch : 0 < IdempotencyCleanupBatchSize c <= maxInt64;
}.

Section Usable.
Context {ul : UnicodeLower} (lookup : envLookup).

(** What a variable stands for: its value when it is set and accepted, the
    default otherwise. *)
Definition chosen {A} (key : string) (parse : string -> result A) (standard : A) : A :=
  match lookupEnvTrimmed lookup key with
  | Some raw => match parse raw with Ok value => value | Err _ => standard end
  | None => standard
  end.

(** The warning about a variable: it is set and its value is refused. *)
Definition refused {A} (key : string) (parse : string -> result A) : list configWarning :=
  match lookupEnvTrimmed lookup key with
  | Some raw => match parse raw with Ok _ => [] | Err e => [MkConfigWarning key raw e] end
  | None => []
  end.

Definition duration_with (accept : Duration -> bool) (what : string) (raw : string) : result Duration :=
  parseDuration raw accept what.
Definition int_with (accept : Z -> bool) (what : string) (raw : string) : result Z := parseInt raw accept what.

Definition chosen_config : Config :=
  MkAppConfig
    (chosen envGRPCAddr Ok ":50051")
    (chosen envMetricsAddr Ok ":9090")
    (chosen envStorageDriver (fun v => Ok (ToLower v)) "memory")
    (chosen envPostgresDSN Ok "")
    (chosen envPostgresAutoMigrate parseBool true)
    (chosen envAllowMockIntegrations parseBool false)
    (chosen envOutboxPollInterval (duration_with positive "must be > 0") Second)
    (chosen envOutboxBatchSize (int_with positive "must be > 0") 100)
    (chosen envOutboxMaxAttempts (int_with positive "must be > 0") 3)
    (chosen envOutboxRetryDelay (duration_with not_negative "must be >= 0") (50 * Millisecond))
    (chosen envOutboxMaxPending (int_with not_negative "must be >= 0") 10000)
    (chosen envIdempotencyCleanupInterval (duration_with not_negative "must be >= 0") (10 * Minute))
    (chosen envIdempotencyCleanupBatchSize (int_with positive "must be > 0") 500).

Definition refusals : list configWarning :=
  refused envPostgresAutoMigrate parseBool ++
  refused envAllowMockIntegrations parseBool ++
  refused envOutboxPollInterval (duration_with positive "must be > 0") ++
  refused envOutboxBatchSize (int_with positive "must be > 0") ++
  refused envOutboxMaxAttempts (int_with positive "must be > 0") ++
  refused envOutboxRetryDelay (duration_with not_negative "must be >= 0") ++
  refused envOutboxMaxPending (int_with not_negative "must be >= 0") ++
  refused envIdempotencyCleanupInterval (duration_with not_negative "must be >= 0") ++
  refused envIdempotencyCleanupBatchSize (int_with positive "must be > 0").

(** Reading a variable into the field that [get] reads. *)
Lemma read_env_chosen {A} key (parse : string -> result A) store (get : Config -> A) c l :
  store (get c) c = c ->
  read_env lookup key parse store (c, l) = (store (chosen key parse (get c)) c, l ++ refused key parse).
Proof.
  intros Hget. unfold read_env, chosen, refused. destruct (lookupEnvTrimmed lookup key) as [raw|].
  - destruct (parse raw); simpl; by rewrite ?Hget, ?app_nil_r.
  - by rewrite Hget, app_nil_r.
Qed.

Lemma refused_never {A} key (f : string -> A) : refused key (fun v => Ok (f v)) = [].
Proof. unfold refused. by destruct (lookupEnvTrimmed lookup key). Qed.

Lemma read_env_usable {A} key (parse : string -> result A) store acc :
  (forall raw v c, parse raw = Ok v -> usable c -> usable (store v c)) ->
  usable acc.1 -> usable (read_env lookup key parse store acc).1.
Proof.
  intros Hs Hu. unfold read_env. destruct (lookupEnvTrimmed lookup key) as [raw|] eqn:E; [|done].
  destruct (parse raw) as [v|e] eqn:Ep; simpl; [by eapply Hs|done].
Qed.

Lemma parseInt_ok raw validate what v : parseInt raw validate what = Ok v -> validate v = true /\ v <= maxInt64.
Proof.
  unfold parseInt. destruct (Atoi _) as [z|] eqn:E; [|done]. apply Atoi_range in E. destruct (validate z) eqn:Hv; [|done].
  intros [= <-]. split; [done|apply E].
Qed.

Lemma parseDuration_ok raw validate what v : parseDuration raw validate what = Ok v -> validate v = true /\ v <= maxInt64.
Proof.
  unfold parseDuration. destruct (ParseDuration _) as [z|] eqn:E; [|done]. apply ParseDuration_range in E.
  destruct (validate z) eqn:Hv; [|done]. intros [= <-]. split; [done|apply E].
Qed.

Lemma readConfigFromEnv_usable : usable (readConfigFromEnv lookup).1.
Proof.
  unfold readConfigFromEnv. cbv zeta.
  repeat (apply read_env_usable;
    [intros raw v c Hv [H1 H2 H3 H4 H5 H6 H7];
     first [apply parseInt_ok in Hv | apply parseDuration_ok in Hv | idtac];
     split; simpl; try done; unfold positive, not_negative in Hv; lia|]).
  by split.
Qed.

Ltac simplify_config :=
  cbn [GRPCAddr MetricsAddr StorageDriver PostgresDSN PostgresAutoMigrate AllowMockIntegrations
    OutboxPollInterval OutboxBatchSize OutboxMaxAttempts OutboxRetryDelay OutboxMaxPending
    IdempotencyCleanupInterval IdempotencyCleanupBatchSize].

(** The next variable is read into the field [get]. *)
Ltac read_setting get set :=
  rewrite (read_env_chosen _ _ _ get) by (unfold set; simplify_config; reflexivity);
  unfold set; simplify_config.

Opaque read_env.
Lemma readConfigFromEnv_exact : readConfigFromEnv lookup = (chosen_config, refusals).
Proof.
  unfold readConfigFromEnv, DefaultConfig. cbv zeta.
  read_setting GRPCAddr set_GRPCAddr.
  read_setting MetricsAddr set_MetricsAddr.
  read_setting StorageDriver set_StorageDriver.
  read_setting PostgresDSN set_PostgresDSN.
  read_setting PostgresAutoMigrate set_PostgresAutoMigrate.
  read_setting AllowMockIntegrations set_AllowMockIntegrations.
  read_setting OutboxPollInterval set_OutboxPollInterval.
  read_setting OutboxBatchSize set_OutboxBatchSize.
  read_setting OutboxMaxAttempts set_OutboxMaxAttempts.
  read_setting OutboxRetryDelay set_OutboxRetryDelay.
  read_setting OutboxMaxPending set_OutboxMaxPending.
  read_setting IdempotencyCleanupInterval set_IdempotencyCleanupInterval.
  read_setting IdempotencyCleanupBatchSize set_IdempotencyCleanupBatchSize.
  rewrite !app_nil_l, <- !app_assoc. f_equal. unfold refusals.
  change (refused envGRPCAddr Ok) with (refused envGRPCAddr (fun v : string => Ok v)).
  rewrite !refused_never. reflexivity.
Qed.
Transparent read_env.

(** C33. Whatever the environment, every setting of the service is the value of
    its variable when that is set and accepted, and the default otherwise, and
    there is a warning with the variable, its value and the error for exactly
    the variables whose value is refused.  So batch sizes, attempts and polling
    interval are positive and no delay is negative, all within the range of
    their types. *)
Theorem config_always_usable :
  readConfigFromEnv lookup = (chosen_config, refusals) /\ usable chosen_config.
Proof.
  split; [apply readConfigFromEnv_exact|]. pose proof readConfigFromEnv_usable as H.
  by rewrite readConfigFromEnv_exact in H.
Qed.
End Usable.
