(* ===== verification/Health.v ===== *)
(** * Health checks: src/internal/health/health.go

    The HTTP handlers ask every registered checker; the order in which they do
    is the order of a loop over a map. *)

From S2P Require Import Prelude GoLib Float64 Domain.

Definition Status := string.
Definition StatusHealthy : Status := "healthy".
Definition StatusUnhealthy : Status := "unhealthy".
Definition StatusDegraded : Status := "degraded".

Record Check_ := MkCheck {
  Check_Name : string;
  Check_Status : Status;
  Check_Message : string;
  Check_DurationMs : Z;
}.

Record Response := MkResponse {
  Resp_Status : Status;
  Resp_Timestamp : Time;
  Resp_Checks : gmap string Check_;
  Resp_Version : string;
  Resp_UptimeSeconds : Z;
}.

Section Handler.
Context {rt : GoRuntime}.

(** A checker is what its next check answers. *)
Record Handler := MkHandler {
  h_checkers : gmap string Check_;
  h_version : string;
  h_startTime : Time;
}.

Definition NewHandler (version : string) (now : Time) : Handler := MkHandler ∅ version now.

Definition RegisterChecker (name : string) (checker : Check_) (h : Handler) : Handler :=
  MkHandler (<[name := checker]> (h_checkers h)) (h_version h) (h_startTime h).

(** The status after one more check. *)
Definition worse (overall : Status) (check : Check_) : Status :=
  if Check_Status check =s? StatusUnhealthy then StatusUnhealthy
  else if (Check_Status check =s? StatusDegraded) && (overall =s? StatusHealthy) then StatusDegraded
  else overall.

Definition overall (checks : list Check_) : Status := foldl worse StatusHealthy checks.

Definition StatusOK : Z := 200.
Definition StatusServiceUnavailable : Z := 503.

(** The HTTP status and the body, before its encoding as JSON. *)
Definition ServeHTTP (loop : nat) (now : Time) (h : Handler) : Z * Response :=
  let checks := map_range loop (h_checkers h) in
  let overallStatus := overall (map snd checks) in
  let response := MkResponse overallStatus now (list_to_map checks) (h_version h)
                    (int_of_float64 (Seconds (time_Sub now (h_startTime h)))) in
  (if overallStatus =s? StatusUnhealthy then StatusServiceUnavailable else StatusOK, response).

Definition LivenessHandler : Z * string := (StatusOK, "ok").

(** Stops at the first checker that is not healthy. *)
Fixpoint ready (checks : list Check_) : Z * string :=
  match checks with
  | [] => (StatusOK, "ready")
  | check :: rest =>
      if Check_Status check =s? StatusUnhealthy then (StatusServiceUnavailable, "not ready") else ready rest
  end.

Definition ReadinessHandler (loop : nat) (h : Handler) : Z * string := ready (map snd (map_range loop (h_checkers h))).

(** [SimpleChecker.Check], between two readings of the clock. *)
Definition SimpleCheck (name : string) (failed : option err) (start finish : Time) : Check_ :=
  let duration := time_Sub finish start in
  match failed with
  | Some e => MkCheck name StatusUnhealthy (Error e) (Z.quot duration Millisecond)
  | None => MkCheck name StatusHealthy "" (Z.quot duration Millisecond)
  end.

(** ** The answers do not depend on the order of the loop *)

Definition is_status (s : Status) (c : Check_) : bool := Check_Status c =s? s.

(** The status over some checks, from a status so far. *)
Lemma foldl_worse checks : forall acc, acc ∈ [StatusHealthy; StatusDegraded; StatusUnhealthy] ->
  foldl worse acc checks =
    if (acc =s? StatusUnhealthy) || existsb (is_status StatusUnhealthy) checks then StatusUnhealthy
    else if (acc =s? StatusDegraded) || existsb (is_status StatusDegraded) checks then StatusDegraded
    else StatusHealthy.
Proof.
  induction checks as [|c checks IH]; intros acc Hacc; simpl.
  - rewrite !orb_false_r. set_unfold in Hacc. destruct Hacc as [->|[->|[->|[]]]]; reflexivity.
  - assert (worse acc c ∈ [StatusHealthy; StatusDegraded; StatusUnhealthy]) as Hw.
    { unfold worse. repeat case_match; set_solver. }
    rewrite (IH _ Hw). unfold worse, is_status. set_unfold in Hacc.
    destruct Hacc as [->|[->|[->|[]]]]; destruct (Check_Status c =s? StatusUnhealthy);
      destruct (Check_Status c =s? StatusDegraded); simpl; rewrite ?orb_true_r; done.
Qed.

Lemma overall_spec checks : overall checks =
  if existsb (is_status StatusUnhealthy) checks then StatusUnhealthy
  else if existsb (is_status StatusDegraded) checks then StatusDegraded else StatusHealthy.
Proof. unfold overall. rewrite foldl_worse by (by constructor). done. Qed.

Lemma ready_spec checks : ready checks =
  if existsb (is_status StatusUnhealthy) checks then (StatusServiceUnavailable, "not ready") else (StatusOK, "ready").
Proof. induction checks as [|c checks IH]; simpl; [done|]. unfold is_status at 1. by destruct (_ =s? _). Qed.

Lemma existsb_perm {A} (f : A -> bool) l1 l2 : l1 ≡ₚ l2 -> existsb f l1 = existsb f l2.
Proof.
  intros Hp. apply eq_true_iff_eq. rewrite !existsb_exists. setoid_rewrite <- list_elem_of_In.
  split; intros (x & Hx & Hf); exists x; (split; [|done]); [by rewrite <- Hp|by rewrite Hp].
Qed.

(** Both endpoints answer 503 exactly when some component is unhealthy, and
    whatever order the components are asked in. *)
Theorem health_order_independent `{!GoRuntimeLaws rt} loop loop' now h :
  (ServeHTTP loop now h).1 = (ReadinessHandler loop' h).1 /\
  Resp_Status (ServeHTTP loop now h).2 = Resp_Status (ServeHTTP loop' now h).2 /\
  Resp_Checks (ServeHTTP loop now h).2 = h_checkers h /\
  ((ServeHTTP loop now h).1 = StatusServiceUnavailable <->
   exists name c, h_checkers h !! name = Some c /\ Check_Status c = StatusUnhealthy).
Proof.
  assert (forall f n, existsb f (map snd (map_range n (h_checkers h))) =
                      existsb f (map snd (map_to_list (h_checkers h)))) as Hp.
  { intros f n. apply existsb_perm. by rewrite map_range_perm. }
  unfold ServeHTTP, ReadinessHandler. simpl. rewrite ready_spec, !overall_spec, !Hp.
  split_and!; [| |symmetry; by apply list_to_map_flip; rewrite map_range_perm|].
  - destruct (existsb (is_status StatusUnhealthy) _); [done|]. by destruct (existsb _ _).
  - done.
  - assert (existsb (is_status StatusUnhealthy) (map snd (map_to_list (h_checkers h))) = true <->
      exists name c, h_checkers h !! name = Some c /\ Check_Status c = StatusUnhealthy) as <-.
    { rewrite existsb_exists. unfold is_status. split.
      - intros (c & Hc & E%String.eqb_eq). apply list_elem_of_In, elem_of_values in Hc as [k Hk]. eauto.
      - intros (k & c & Hk & E). exists c. rewrite E. split; [|done]. apply list_elem_of_In, elem_of_values. eauto. }
    destruct (existsb (is_status StatusUnhealthy) _); [done|]. by destruct (existsb _ _).
Qed.
End Handler.
