(* ===== verification/LoadTest.v ===== *)
(** * The load generator: src/cmd/loadtest/main.go

    A client of the order service: workers that take scenario numbers from a
    channel and run them, the collector they record every call in, and the
    report.  The order service is on the other side of the network; its answers
    are commands.  Printing the summary is not modelled. *)

From stdpp Require Import pretty.
From S2P Require Import Prelude GoLib Float64 Domain Prog Ports OrderService OrderServiceSpec Config Health Rounding.

Definition idempotencyHeader : string := "idempotency-key".
Definition defaultAmount : Z := 1000.
Definition defaultQty : Z := 1.

Definition loadMode := string.
Definition modeCreate : loadMode := "create".
Definition modeCreatePay : loadMode := "create-pay".
Definition modeCreatePayCancel : loadMode := "create-pay-cancel".

Record config := MkLoadConfig {
  addr : string;
  total : Z;
  totalSet : bool;
  duration : Duration;
  concurrency : Z;
  connections : Z;
  timeout : Duration;
  mode : loadMode;
  cancelRate : Z;
  currency : string;
  sku : string;
  amountMinor : Z;
  customerTag : string;
  outputPath : string;
}.

(** ** Configuration *)

(** What the flags are set to; [fl_total_set] when -total is given. *)
Record flags := MkFlags {
  fl_addr : string;
  fl_total : Z;
  fl_total_set : bool;
  fl_duration : string;
  fl_concurrency : Z;
  fl_connections : Z;
  fl_timeout : string;
  fl_mode : string;
  fl_cancel_rate : Z;
  fl_currency : string;
  fl_sku : string;
  fl_amount_minor : Z;
  fl_customer_tag : string;
  fl_output : string;
}.

Definition default_flags : flags :=
  MkFlags "localhost:50051" 400 false "0s" 40 20 "5s" modeCreate 0 "USD" "SKU-LOAD" defaultAmount "load" "".

Definition parseMode (value : string) : result loadMode :=
  let v := TrimSpace value in
  if v =s? modeCreate then Ok modeCreate
  else if v =s? modeCreatePay then Ok modeCreatePay
  else if v =s? modeCreatePayCancel then Ok modeCreatePayCancel
  else Err (ErrOther ("unsupported mode: " +:+ value)).

Definition config_error (cfg : config) : option string :=
  if duration cfg <? 0 then Some "duration must be >= 0"
  else if (duration cfg =? 0) && (total cfg <=? 0) then Some "total must be > 0 when duration is not set"
  else if (duration cfg >? 0) && totalSet cfg && (total cfg <=? 0)
  then Some "total must be > 0 when explicitly set with duration"
  else if concurrency cfg <=? 0 then Some "concurrency must be > 0"
  else if connections cfg <=? 0 then Some "connections must be > 0"
  else if timeout cfg <=? 0 then Some "timeout must be > 0"
  else if amountMinor cfg <=? 0 then Some "amount-minor must be > 0"
  else if (cancelRate cfg <? 0) || (cancelRate cfg >? 100) then Some "cancel-rate must be between 0 and 100"
  else if TrimSpace (currency cfg) =s? "" then Some "currency is required"
  else if TrimSpace (sku cfg) =s? "" then Some "sku is required"
  else if TrimSpace (customerTag cfg) =s? "" then Some "customer-tag is required"
  else None.

Definition parseConfig (f : flags) : result config :=
  match ParseDuration (TrimSpace (fl_timeout f)) with
  | Err e => Err (ErrWrap "parse timeout" e)
  | Ok timeout =>
      match ParseDuration (TrimSpace (fl_duration f)) with
      | Err e => Err (ErrWrap "parse duration" e)
      | Ok duration =>
          match parseMode (fl_mode f) with
          | Err e => Err e
          | Ok mode =>
              let cfg := MkLoadConfig (fl_addr f) (fl_total f) (fl_total_set f) duration (fl_concurrency f)
                (fl_connections f) timeout mode (fl_cancel_rate f) (fl_currency f) (fl_sku f) (fl_amount_minor f)
                (fl_customer_tag f) (fl_output f) in
              match config_error cfg with
              | Some e => Err (ErrOther e)
              | None => Ok cfg
              end
          end
      end
  end.

(** ** Statistics *)

(** [None]: the index is out of range. *)
Definition percentile (sorted : list float64) (p : float64) : option float64 :=
  match sorted with
  | [] => Some (float64_of_int 0)
  | [x] => Some x
  | _ =>
      let rank := float64_mul (float64_div p (float64_of_int 100)) (float64_of_int (Z.of_nat (length sorted) - 1)) in
      let lower := int_of_float64 (Floor rank) in
      let upper := int_of_float64 (Ceil rank) in
      let at_ i := if i <? 0 then None else sorted !! Z.to_nat i in
      if lower =? upper then at_ lower
      else
        let weight := float64_sub rank (float64_of_int lower) in
        a ← at_ lower;
        b ← at_ upper;
        Some (float64_add a (float64_mul (float64_sub b a) weight))
  end.

Record latencySummary := MkLatencySummary {
  Lat_Min : float64;
  Lat_Max : float64;
  Lat_Avg : float64;
  Lat_P50 : float64;
  Lat_P95 : float64;
  Lat_P99 : float64;
}.

Definition no_latency : latencySummary :=
  let z := float64_of_int 0 in MkLatencySummary z z z z z z.

Definition buildLatencySummary (values : list float64) : option latencySummary :=
  match insertion_sort float64_less values with
  | [] => Some no_latency
  | (min :: _) as sorted =>
      let sum := foldl float64_add (float64_of_int 0) sorted in
      p50 ← percentile sorted (float64_of_int 50);
      p95 ← percentile sorted (float64_of_int 95);
      p99 ← percentile sorted (float64_of_int 99);
      Some (MkLatencySummary min (List.last sorted min)
        (float64_div sum (float64_of_int (Z.of_nat (length sorted)))) p50 p95 p99)
  end.

Definition ratio (failed total : Z) : float64 :=
  if total <=? 0 then float64_of_int 0 else float64_div (float64_of_int failed) (float64_of_int total).

Example buildLatencySummary_ex :
  (fun s => (Lat_Min s, Lat_Max s, Lat_P50 s)) <$> buildLatencySummary (map float64_of_int [3; 1; 2]) =
    Some (float64_of_int 1, float64_of_int 3, float64_of_int 2).
Proof. vm_compute. reflexivity. Qed.

Record methodStats := MkMethodStats {
  st_calls : Z;
  st_success : Z;
  st_failed : Z;
  st_codes : gmap string Z;
  st_latencies : list float64;
}.

Abbreviation collector := (gmap string methodStats).
Definition newCollector : collector := ∅.

Record methodReport := MkMethodReport {
  Rep_Calls : Z;
  Rep_Success : Z;
  Rep_Failed : Z;
  Rep_ErrorRate : float64;
  Rep_Codes : gmap string Z;
  Rep_LatencyMs : latencySummary;
}.

Record report := MkReport {
  Rep_StartedAt : Time;
  Rep_DurationSeconds : float64;
  Rep_TotalScenarios : Z;
  Rep_SuccessScenarios : Z;
  Rep_FailedScenarios : Z;
  Rep_ScenarioErrorRate : float64;
  Rep_RPS : float64;
  Rep_ScenarioLatencyMs : latencySummary;
  Rep_Methods : gmap string methodReport;
}.

Definition Microseconds (d : Duration) : Z := Z.quot d Microsecond.

Section Collector.
Context (code_string : Z -> string).   (* [codes.Code.String] *)

Definition record (method : string) (latency : Duration) (code : Code) (c : collector) : collector :=
  let stats := default (MkMethodStats 0 0 0 ∅ []) (c !! method) in
  let key := code_string code in
  <[method := MkMethodStats (wrap64 (st_calls stats + 1))
      (if code =? codes_OK then wrap64 (st_success stats + 1) else st_success stats)
      (if code =? codes_OK then st_failed stats else wrap64 (st_failed stats + 1))
      (<[key := wrap64 (default 0 (st_codes stats !! key) + 1)]> (st_codes stats))
      (st_latencies stats ++ [float64_div (float64_of_int (Microseconds latency)) (float64_of_int 1000)])]> c.

(** [None]: an index is out of range. *)
Definition method_report (stats : methodStats) : option methodReport :=
  lat ← buildLatencySummary (st_latencies stats);
  Some (MkMethodReport (st_calls stats) (st_success stats) (st_failed stats)
    (ratio (st_failed stats) (st_calls stats)) (st_codes stats) lat).

Definition snapshot (name : string) (c : collector) : option (option methodReport) :=
  match c !! name with
  | None => Some None
  | Some stats => r ← method_report stats; Some (Some r)
  end.

Definition buildReport (startedAt : Time) (duration : Duration) (c : collector) : option report :=
  let '(tot, success, failed, rate, values) :=
    match c !! "scenario" with
    | Some s => (st_calls s, st_success s, st_failed s, ratio (st_failed s) (st_calls s), st_latencies s)
    | None => (0, 0, 0, float64_of_int 0, [])
    end in
  lat ← buildLatencySummary values;
  let rps := if duration >? 0 then float64_div (float64_of_int tot) (Seconds duration) else float64_of_int 0 in
  methods ← map_fold (fun name stats acc => m ← acc; r ← method_report stats; Some (<[name := r]> m)) (Some ∅) c;
  Some (MkReport startedAt (Seconds duration) tot success failed rate rps lat methods).
End Collector.

(** ** Scenarios *)

(** An error of a call: its [status.Code], which is not OK. *)
Definition rpc_error := BinNums.positive.

Inductive load_error : Type :=
| RpcError (code : rpc_error)
| EmptyOrderID.                      (* "create response returned empty order id" *)

Definition grpcCode (e : option rpc_error) : Code :=
  match e with None => codes_OK | Some code => Z.pos code end.

(** CreateOrder answers with the identifier of the order of the response, empty
    when there is none. *)
Inductive load_port : Type -> Type :=
| LoadNow : load_port Time
| RpcCreateOrder (timeout : Duration) (key : string) (req : CreateOrderRequest) : load_port (string * option rpc_error)
| RpcPayOrder (timeout : Duration) (key : string) (req : PayOrderRequest) : load_port (option rpc_error)
| RpcCancelOrder (timeout : Duration) (key : string) (req : CancelOrderRequest) : load_port (option rpc_error)
| ColRecord (method : string) (latency : Duration) (code : Code) : load_port unit.

Abbreviation LM := (prog load_port).

Definition shouldCancelScenario (index cancelRate : Z) : bool :=
  if cancelRate <=? 0 then false
  else if cancelRate >=? 100 then true
  else Z.rem index 100 <? cancelRate.

(** A call between two readings of the clock, and its record. *)
Definition timed {A} (method : string) (rpc : LM A) (code : A -> Code) : LM A :=
  start ← call LoadNow;
  r ← rpc;
  stop ← call LoadNow;
  call (ColRecord method (time_Sub stop start) (code r));;
  mret r.

Section Scenario.
Context (cfg : config) (runID : string).

Definition callCreateOrder (req : CreateOrderRequest) (key : string) : LM (string * option rpc_error) :=
  timed "CreateOrder" (call (RpcCreateOrder (timeout cfg) key req)) (fun r => grpcCode (snd r)).
Definition callPayOrder (orderID key : string) : LM (option rpc_error) :=
  timed "PayOrder" (call (RpcPayOrder (timeout cfg) key (MkPayOrderRequest orderID))) grpcCode.
Definition callCancelOrder (orderID key : string) : LM (option rpc_error) :=
  timed "CancelOrder" (call (RpcCancelOrder (timeout cfg) key (MkCancelOrderRequest orderID "load-cancel"))) grpcCode.

Definition createReq (index : Z) : CreateOrderRequest :=
  MkCreateOrderRequest (customerTag cfg +:+ "-" +:+ runID +:+ "-" +:+ pretty index)
    [Some (MkProtoOrderItem (sku cfg) defaultQty (Some (MkMoney (currency cfg) (amountMinor cfg))))] (currency cfg).

Definition scenario_key (what : string) (index : Z) : string := "lt-" +:+ what +:+ "-" +:+ runID +:+ "-" +:+ pretty index.

(** The body of [runScenario], before the deferred record of the scenario. *)
Definition scenario_body (index : Z) : LM (option load_error) :=
  created ← callCreateOrder (createReq index) (scenario_key "create" index);
  match created with
  | (_, Some code) => mret (Some (RpcError code))
  | (orderID, None) =>
      if orderID =s? "" then mret (Some EmptyOrderID)
      else if mode cfg =s? modeCreate then mret None
      else
        paid ← callPayOrder orderID (scenario_key "pay" index);
        match paid with
        | Some code => mret (Some (RpcError code))
        | None =>
            if (mode cfg =s? modeCreatePayCancel) ||
               ((mode cfg =s? modeCreatePay) && shouldCancelScenario index (cancelRate cfg))
            then
              canceled ← callCancelOrder orderID (scenario_key "cancel" index);
              mret (match canceled with Some code => Some (RpcError code) | None => None end)
            else mret None
        end
  end.

(** The code the scenario is recorded with. *)
Definition scenario_code (e : option load_error) : Code :=
  match e with
  | None => codes_OK
  | Some (RpcError code) => Z.pos code
  | Some EmptyOrderID => codes_Internal
  end.

Definition runScenario (index : Z) : LM (option load_error) :=
  timed "scenario" (scenario_body index) scenario_code.
End Scenario.

(** ** Workers *)

Inductive load_worker : Type :=
| Waiting
| Working (id : nat) (p : LM (option load_error))
| Exited.

Definition load_record : Type := string * Duration * Code.

(** The state of a run.  The scenarios that have ended, with their results, and
    the records in order, with the scenario they belong to, are kept to talk
    about them. *)
Record load_state := MkLoadState {
  ld_next : nat;                      (* the variable of the loop of [dispatchJobs] *)
  ld_jobs : list nat;                 (* the channel *)
  ld_closed : bool;
  ld_workers : list load_worker;
  ld_col : collector;
  ld_failures : Z;
  ld_done : list (nat * option load_error);
  ld_log : list (nat * load_record);
}.

Section System.
Context (code_string : Z -> string) (cfg : config) (runID : string).

Definition load_start : load_state :=
  MkLoadState 0 [] false (replicate (Z.to_nat (concurrency cfg)) Waiting) newCollector 0 [] [].

(** The loop of [dispatchJobs] may send another number, or end: in duration
    mode the timer may fire at any time. *)
Definition may_send (next : nat) : bool :=
  if duration cfg <=? 0 then Z.of_nat next <? total cfg else negb (totalSet cfg && (Z.of_nat next >=? total cfg)).
Definition may_end (next : nat) : bool :=
  if duration cfg <=? 0 then Z.of_nat next >=? total cfg else true.

Definition capacity : nat := Z.to_nat (concurrency cfg * 2).

Definition set_worker (w : nat) (x : load_worker) (s : load_state) : load_state :=
  MkLoadState (ld_next s) (ld_jobs s) (ld_closed s) (<[w := x]> (ld_workers s)) (ld_col s) (ld_failures s)
    (ld_done s) (ld_log s).

(** A command of the scenario [id] and its effect on the collector. *)
Definition load_effect (id : nat) {X} (c : load_port X) (s : load_state) : load_state :=
  match c with
  | ColRecord method latency code =>
      MkLoadState (ld_next s) (ld_jobs s) (ld_closed s) (ld_workers s)
        (record code_string method latency code (ld_col s)) (ld_failures s) (ld_done s)
        (ld_log s ++ [(id, (method, latency, code))])
  | _ => s
  end.

Inductive load_step : load_state -> load_state -> Prop :=
| load_send s : ld_closed s = false -> may_send (ld_next s) = true -> (length (ld_jobs s) < capacity)%nat ->
    load_step s (MkLoadState (S (ld_next s)) (ld_jobs s ++ [ld_next s]) false (ld_workers s) (ld_col s)
      (ld_failures s) (ld_done s) (ld_log s))
| load_close s : ld_closed s = false -> may_end (ld_next s) = true ->
    load_step s (MkLoadState (ld_next s) (ld_jobs s) true (ld_workers s) (ld_col s) (ld_failures s) (ld_done s) (ld_log s))
| load_take s w id rest : ld_workers s !! w = Some Waiting -> ld_jobs s = id :: rest ->
    load_step s (MkLoadState (ld_next s) rest (ld_closed s)
      (<[w := Working id (runScenario cfg runID (Z.of_nat id))]> (ld_workers s)) (ld_col s) (ld_failures s)
      (ld_done s) (ld_log s))
| load_exit s w : ld_workers s !! w = Some Waiting -> ld_jobs s = [] -> ld_closed s = true ->
    load_step s (set_worker w Exited s)
| load_act s w id X (c : load_port X) k x : ld_workers s !! w = Some (Working id (Vis c k)) ->
    load_step s (set_worker w (Working id (k x)) (load_effect id c s))
| load_finish s w id e : ld_workers s !! w = Some (Working id (Ret e)) ->
    load_step s (MkLoadState (ld_next s) (ld_jobs s) (ld_closed s) (<[w := Waiting]> (ld_workers s)) (ld_col s)
      (match e with Some _ => wrap64 (ld_failures s + 1) | None => ld_failures s end) (ld_done s ++ [(id, e)]) (ld_log s)).

Inductive load_run : load_state -> Prop :=
| load_run_start : load_run load_start
| load_run_step s s' : load_run s -> load_step s s' -> load_run s'.

(** [wg.Wait] returns. *)
Definition finished (s : load_state) : Prop := Forall (fun w => w = Exited) (ld_workers s).

(** The report [main] writes, and the exit code. *)
Definition final_report (startedAt : Time) (dur : Duration) (s : load_state) : option report :=
  r ← buildReport startedAt dur (ld_col s);
  Some (if (Rep_FailedScenarios r =? 0) && (ld_failures s >? 0)
        then MkReport (Rep_StartedAt r) (Rep_DurationSeconds r) (Rep_TotalScenarios r) (Rep_SuccessScenarios r)
               (ld_failures s) (ratio (ld_failures s) (Rep_TotalScenarios r)) (Rep_RPS r) (Rep_ScenarioLatencyMs r)
               (Rep_Methods r)
        else r).
Definition exit_code (r : report) : Z := if Rep_FailedScenarios r >? 0 then 1 else 0.

(** ** The collector *)

Definition of_method (m : string) (x : nat * load_record) : bool := fst (fst (snd x)) =s? m.
Definition is_ok (x : nat * load_record) : bool := snd (snd x) =? codes_OK.
Definition counted (p : nat * load_record -> bool) (log : list (nat * load_record)) : Z :=
  Z.of_nat (length (List.filter p log)).

Definition latency_ms (x : nat * load_record) : float64 :=
  float64_div (float64_of_int (Microseconds (snd (fst (snd x))))) (float64_of_int 1000).

(** The statistics of a method are those of its records. *)
Record stats_of (m : string) (log : list (nat * load_record)) (stats : methodStats) : Prop := MkStatsOf {
  so_calls : st_calls stats = wrap64 (counted (of_method m) log);
  so_success : st_success stats = wrap64 (counted (fun x => of_method m x && is_ok x) log);
  so_failed : st_failed stats = wrap64 (counted (fun x => of_method m x && negb (is_ok x)) log);
  so_codes : forall key, default 0 (st_codes stats !! key) =
    wrap64 (counted (fun x => of_method m x && (code_string (snd (snd x)) =s? key)) log);
  so_latencies : st_latencies stats = map latency_ms (List.filter (of_method m) log);
}.

Definition collects (log : list (nat * load_record)) (c : collector) : Prop := forall m,
  stats_of m log (default (MkMethodStats 0 0 0 ∅ []) (c !! m)) /\
  (is_Some (c !! m) <-> exists x, x ∈ log /\ of_method m x = true).

Lemma counted_snoc p log x : counted p (log ++ [x]) = counted p log + (if p x then 1 else 0).
Proof. unfold counted. rewrite List.filter_app, length_app. simpl. destruct (p x); simpl; lia. Qed.

Lemma collects_empty : collects [] newCollector.
Proof.
  intros m. unfold newCollector. rewrite lookup_empty. split; [by split|]. split; [by intros [? ?]|]. intros (x & H & _). set_solver.
Qed.

Lemma collects_snoc id method latency code log c : collects log c ->
  collects (log ++ [(id, (method, latency, code))]) (record code_string method latency code c).
Proof.
  intros H m. destruct (H m) as [[H1 H2 H3 H4 H5] H6]. unfold record. cbv zeta. destruct (decide (method = m)) as [->|Hne].
  - set (st := default _ (c !! m)) in *. clearbody st. rewrite lookup_insert_eq. split.
    + assert (of_method m (id, (m, latency, code)) = true) as Hm by (apply String.eqb_refl).
      split; simpl.
      * rewrite H1, counted_snoc, Hm. by rewrite wrap64_add_l.
      * rewrite counted_snoc, Hm. change (is_ok (id, (m, latency, code))) with (code =? codes_OK).
        destruct (code =? codes_OK); [rewrite H2; by rewrite wrap64_add_l|by rewrite Z.add_0_r].
      * rewrite counted_snoc, Hm. change (is_ok (id, (m, latency, code))) with (code =? codes_OK).
        destruct (code =? codes_OK); simpl; [by rewrite Z.add_0_r|rewrite H3; by rewrite wrap64_add_l].
      * intros key. rewrite counted_snoc, Hm. simpl. destruct (String.eqb_spec (code_string code) key) as [<-|Hk].
        -- rewrite lookup_insert_eq. simpl. by rewrite H4, wrap64_add_l.
        -- rewrite lookup_insert_ne by done. by rewrite H4, Z.add_0_r.
      * rewrite List.filter_app, map_app, H5. simpl. by rewrite Hm.
    + split; [|by eexists]. intros _. exists (id, (m, latency, code)). split; [set_solver|apply String.eqb_refl].
  - rewrite lookup_insert_ne by done.
    assert (of_method m (id, (method, latency, code)) = false) as Hm by (by apply String.eqb_neq). split.
    + split; rewrite ?counted_snoc, ?List.filter_app; rewrite ?Hm; simpl; rewrite ?Z.add_0_r, ?app_nil_r; try done.
      * intros key. rewrite counted_snoc, Hm. simpl. by rewrite Z.add_0_r.
      * simpl. rewrite Hm. by rewrite app_nil_r.
    + rewrite H6. split; intros (x & Hx & Hp); exists x; (split; [|done]).
      * set_solver.
      * apply elem_of_app in Hx as [Hx|Hx]; [done|]. apply list_elem_of_singleton in Hx. subst x. congruence.
Qed.

(** ** What a scenario records *)

(** The ghost state is what it has recorded so far. *)
Definition records_spec : cmd_spec load_port (list load_record) := fun X c l =>
  match c in load_port X return (X -> list load_record -> Prop) -> Prop with
  | ColRecord method latency code => fun Q => Q tt (l ++ [(method, latency, code)])
  | _ => fun Q => forall answer, Q answer l
  end.

#[global] Instance records_spec_mono : MonotoneSpec records_spec.
Proof. intros X c l P Q HPQ. destruct c; simpl; auto. Qed.

Definition call_names : list (list string) :=
  [["CreateOrder"]; ["CreateOrder"; "PayOrder"]; ["CreateOrder"; "PayOrder"; "CancelOrder"]].

(** The calls, in order, and then the scenario with the code of its result. *)
Definition scenario_records (e : option load_error) (l : list load_record) : Prop := exists (calls : list load_record) latency,
  l = calls ++ [("scenario", latency, scenario_code e)] /\ map (fun x => fst (fst x)) calls ∈ call_names /\
  (e = None -> Forall (fun x => snd x = codes_OK) calls).

Lemma wp_timed {A B} method (c : load_port A) code (f : A -> LM B) Q l :
  (forall Q' : A -> list load_record -> Prop, (forall answer, Q' answer l) -> records_spec A c l Q') ->
  (forall a latency, wp records_spec (f a) (l ++ [(method, latency, code a)]) Q) ->
  wp records_spec (timed method (call c) code ≫= f) l Q.
Proof.
  intros Hc Hf. intros start. simpl. apply Hc. intros a stop. simpl. apply Hf.
Qed.

Lemma scenario_body_records index : wp records_spec (scenario_body cfg runID index) [] (fun e l =>
  map (fun x => fst (fst x)) l ∈ call_names /\ (e = None -> Forall (fun x => snd x = codes_OK) l)).
Proof.
  unfold scenario_body, callCreateOrder, callPayOrder, callCancelOrder, call_names.
  apply wp_timed; [done|]. intros [orderID [code|]] lat1; [split; [by constructor|done]|].
  destruct (orderID =s? ""); [split; [by constructor|done]|].
  destruct (_ =s? modeCreate); [split; [by constructor|by repeat constructor]|].
  apply wp_timed; [done|]. intros [code|] lat2; [split; [set_solver|done]|].
  destruct (_ || _); [|split; [set_solver|by repeat constructor]].
  apply wp_timed; [done|]. intros [code|] lat3; (split; [set_solver|]); [done|by repeat constructor].
Qed.

Lemma runScenario_records index : wp records_spec (runScenario cfg runID index) [] scenario_records.
Proof.
  unfold runScenario, timed. intros start. eapply wp_seq; [apply _|apply scenario_body_records|].
  intros e l [Hl He]. intros stop. simpl. exists l, (time_Sub stop start). by split_and!.
Qed.

(** ** Every run *)

Definition own_records (id : nat) (log : list (nat * load_record)) : list load_record :=
  omap (fun x => if decide (fst x = id) then Some (snd x) else None) log.

Lemma own_records_cons id x log :
  own_records id (x :: log) = if decide (fst x = id) then snd x :: own_records id log else own_records id log.
Proof. unfold own_records. csimpl. by destruct (decide (fst x = id)). Qed.

Lemma own_records_snoc id log id' r :
  own_records id (log ++ [(id', r)]) = own_records id log ++ (if decide (id' = id) then [r] else []).
Proof. unfold own_records. rewrite omap_app. simpl. by destruct (decide (id' = id)). Qed.

Definition worker_id (w : load_worker) : list nat := match w with Working id _ => [id] | _ => [] end.
Definition working_ids (ws : list load_worker) : list nat := flat_map worker_id ws.

(** The other workers' scenarios. *)
Lemma working_split ws w x y : ws !! w = Some x ->
  working_ids ws ≡ₚ worker_id x ++ working_ids (delete w ws) /\
  working_ids (<[w := y]> ws) ≡ₚ worker_id y ++ working_ids (delete w ws).
Proof.
  intros Hw. assert (w < length ws)%nat as Hlt by (by eapply lookup_lt_Some). rewrite delete_take_drop.
  rewrite insert_take_drop by done. unfold working_ids. rewrite !flat_map_app. simpl.
  split; [rewrite <- (take_drop_middle ws w x Hw) at 1; rewrite flat_map_app; simpl|]; by rewrite Permutation_app_swap_app.
Qed.

Lemma elem_of_working_ids ws w id p : ws !! w = Some (Working id p) -> id ∈ working_ids ws.
Proof. intros H. destruct (working_split ws w _ Waiting H) as [-> _]. simpl. by constructor. Qed.

Definition failed_scenario (x : nat * option load_error) : bool := match snd x with Some _ => true | None => false end.

Record load_inv (s : load_state) : Prop := MkLoadInv {
  li_col : collects (ld_log s) (ld_col s);
  li_ids : ld_jobs s ++ working_ids (ld_workers s) ++ map fst (ld_done s) ≡ₚ seq 0 (ld_next s);
  li_log : forall x, x ∈ ld_log s -> fst x ∈ working_ids (ld_workers s) ++ map fst (ld_done s);
  li_working : forall w id p, ld_workers s !! w = Some (Working id p) ->
    wp records_spec p (own_records id (ld_log s)) scenario_records;
  li_done : forall id e, (id, e) ∈ ld_done s -> scenario_records e (own_records id (ld_log s));
  li_failures : ld_failures s = wrap64 (Z.of_nat (length (List.filter failed_scenario (ld_done s))));
  li_exited : Exited ∈ ld_workers s -> ld_closed s = true /\ ld_jobs s = [];
  li_count : duration cfg <= 0 -> Z.of_nat (ld_next s) <= Z.max 0 (total cfg) /\
    (ld_closed s = true -> total cfg <= Z.of_nat (ld_next s));
}.

Lemma own_records_new id log : (forall x, x ∈ log -> fst x <> id) -> own_records id log = [].
Proof.
  intros H. unfold own_records. induction log as [|x log IH]; [done|]. simpl.
  rewrite decide_False by (apply H; by constructor). apply IH. intros y Hy. apply H. by constructor.
Qed.

Lemma load_start_inv : load_inv load_start.
Proof.
  assert (working_ids (replicate (Z.to_nat (concurrency cfg)) Waiting) = []) as Hw
    by (induction (Z.to_nat (concurrency cfg)); [done|]; by simpl).
  split; simpl; rewrite ?Hw; try done.
  - apply collects_empty.
  - set_solver.
  - intros w id p H. apply lookup_replicate in H as [H _]. done.
  - set_solver.
  - intros H. apply elem_of_replicate in H as [H _]. done.
  - lia.
Qed.

Lemma ids_NoDup s : load_inv s -> NoDup (ld_jobs s ++ working_ids (ld_workers s) ++ map fst (ld_done s)).
Proof. intros H. rewrite (li_ids _ H). apply NoDup_ListNoDup, seq_NoDup. Qed.

(** Two workers have different scenarios. *)
Lemma other_worker s w id p w' id' p' : load_inv s -> ld_workers s !! w = Some (Working id p) ->
  ld_workers s !! w' = Some (Working id' p') -> w <> w' -> id <> id'.
Proof.
  intros H Hw Hw' Hne. apply ids_NoDup, NoDup_app in H as (_ & _ & H). apply NoDup_app in H as (H & _ & _).
  destruct (working_split _ _ _ Waiting Hw) as [Hp _]. rewrite Hp in H. simpl in H. apply NoDup_cons in H as [Hn _].
  intros <-. apply Hn. unfold working_ids. rewrite delete_take_drop, flat_map_app.
  destruct (decide (w' < w)%nat).
  - apply elem_of_app. left. apply (elem_of_working_ids _ w' id p'). by rewrite lookup_take_lt.
  - apply elem_of_app. right. apply (elem_of_working_ids _ (w' - S w) id p'). rewrite lookup_drop.
    by replace (S w + (w' - S w))%nat with w' by lia.
Qed.

Lemma not_working_done s id : load_inv s -> id ∈ working_ids (ld_workers s) -> id ∉ map fst (ld_done s).
Proof. intros H Hw. apply ids_NoDup, NoDup_app in H as (_ & _ & H). apply NoDup_app in H as (_ & H & _). by apply H. Qed.

Lemma exited_insert (ws : list load_worker) (w : nat) x : x <> Exited -> Exited ∈ <[w := x]> ws -> Exited ∈ ws.
Proof.
  intros Hx (i & Hi)%list_elem_of_lookup. apply list_lookup_insert_Some in Hi as [(_ & ? & _)|[_ Hi]]; [done|].
  by eapply list_elem_of_lookup_2.
Qed.

Lemma inv_send s : load_inv s -> ld_closed s = false -> may_send (ld_next s) = true ->
  load_inv (MkLoadState (S (ld_next s)) (ld_jobs s ++ [ld_next s]) false (ld_workers s) (ld_col s)
    (ld_failures s) (ld_done s) (ld_log s)).
Proof.
  intros [H1 H2 H3 H4 H5 H6 H7 H8] Hc Hm. split; cbn -[seq]; try done.
  - rewrite seq_S, <- H2. cbn. by rewrite <- !app_assoc, (Permutation_app_comm [_]), <- !app_assoc.
  - intros He. apply H7 in He as [? _]. congruence.
  - intros Hd. destruct (H8 Hd) as [H8' _]. unfold may_send in Hm. destruct (Z.leb_spec (duration cfg) 0); [|lia].
    split; [lia|done].
Qed.

Lemma inv_close s : load_inv s -> may_end (ld_next s) = true ->
  load_inv (MkLoadState (ld_next s) (ld_jobs s) true (ld_workers s) (ld_col s) (ld_failures s) (ld_done s) (ld_log s)).
Proof.
  intros [H1 H2 H3 H4 H5 H6 H7 H8] Hm. split; simpl; try done.
  - intros He. split; [done|by apply H7].
  - intros Hd. destruct (H8 Hd) as [H8' _]. unfold may_end in Hm. destruct (Z.leb_spec (duration cfg) 0); [|lia].
    split; [done|lia].
Qed.

Lemma inv_take s w id rest : load_inv s -> ld_workers s !! w = Some Waiting -> ld_jobs s = id :: rest ->
  load_inv (MkLoadState (ld_next s) rest (ld_closed s)
    (<[w := Working id (runScenario cfg runID (Z.of_nat id))]> (ld_workers s)) (ld_col s) (ld_failures s)
    (ld_done s) (ld_log s)).
Proof.
  intros Hinv Hw Hj. pose proof Hinv as [H1 H2 H3 H4 H5 H6 H7 H8].
  set (x := Working id _). destruct (working_split _ _ _ x Hw) as [Hp1 Hp2]. simpl in Hp1, Hp2.
  assert (id ∉ working_ids (ld_workers s) ++ map fst (ld_done s)) as Hfresh.
  { pose proof (ids_NoDup _ Hinv) as Hn. rewrite Hj in Hn. simpl in Hn. apply NoDup_cons in Hn as [Hn _].
    intros Hx. apply Hn, elem_of_app. by right. }
  split; simpl; try done.
  - rewrite Hp2, <- Hp1, <- H2, Hj. simpl. symmetry. apply Permutation_middle.
  - intros y Hy. rewrite Hp2, <- Hp1. apply H3 in Hy. set_solver.
  - intros w' id' p' Hl. apply list_lookup_insert_Some in Hl as [(<- & [= <- <-] & _)|[_ Hl]]; [|by eapply H4].
    rewrite own_records_new; [apply runScenario_records|]. intros y Hy <-. by apply Hfresh, H3.
  - intros He%exited_insert; [|done]. apply H7 in He as [_ He]. congruence.
Qed.

Lemma inv_exit s w : load_inv s -> ld_workers s !! w = Some Waiting -> ld_jobs s = [] -> ld_closed s = true ->
  load_inv (set_worker w Exited s).
Proof.
  intros [H1 H2 H3 H4 H5 H6 H7 H8] Hw Hj Hc. destruct (working_split _ _ _ Exited Hw) as [Hp1 Hp2]. simpl in Hp1, Hp2.
  split; simpl; try done.
  - by rewrite Hp2, <- Hp1.
  - intros y Hy. rewrite Hp2, <- Hp1. by apply H3.
  - intros w' id' p' Hl. apply list_lookup_insert_Some in Hl as [(_ & ? & _)|[_ Hl]]; [done|by eapply H4].
Qed.

Lemma inv_finish s w id e : load_inv s -> ld_workers s !! w = Some (Working id (Ret e)) ->
  load_inv (MkLoadState (ld_next s) (ld_jobs s) (ld_closed s) (<[w := Waiting]> (ld_workers s)) (ld_col s)
    (match e with Some _ => wrap64 (ld_failures s + 1) | None => ld_failures s end) (ld_done s ++ [(id, e)]) (ld_log s)).
Proof.
  intros Hinv Hw. pose proof Hinv as [H1 H2 H3 H4 H5 H6 H7 H8].
  destruct (working_split _ _ _ Waiting Hw) as [Hp1 Hp2]. simpl in Hp1, Hp2. split; simpl; try done.
  - rewrite <- H2, Hp1, Hp2, map_app. simpl. rewrite <- Permutation_cons_append. by rewrite Permutation_middle.
  - intros y Hy. apply H3 in Hy. rewrite Hp1 in Hy. rewrite Hp2, map_app. simpl. set_solver.
  - intros w' id' p' Hl. apply list_lookup_insert_Some in Hl as [(_ & ? & _)|[_ Hl]]; [done|by eapply H4].
  - intros id' e' [Hin|[= -> ->]%list_elem_of_singleton]%elem_of_app; [by apply H5|]. exact (H4 _ _ _ Hw).
  - rewrite List.filter_app, length_app. simpl. destruct e; simpl; [|by rewrite Nat.add_0_r].
    rewrite H6, Nat2Z.inj_add. by rewrite wrap64_add_l.
  - intros He%exited_insert; [|done]. by apply H7.
Qed.

(** What a command adds to the log. *)
Definition logged (id : nat) {X} (c : load_port X) : list (nat * load_record) :=
  match c with ColRecord method latency code => [(id, (method, latency, code))] | _ => [] end.

Lemma records_step {X} (c : load_port X) id (k : X -> LM (option load_error)) x l log : l = own_records id log ->
  wp records_spec (Vis c k) l scenario_records ->
  wp records_spec (k x) (own_records id (log ++ logged id c)) scenario_records.
Proof.
  intros -> H. unfold logged. destruct c; rewrite ?app_nil_r; try exact (H x). rewrite own_records_snoc, decide_True by done.
  destruct x. exact H.
Qed.

Lemma inv_act s w id X (c : load_port X) k x : load_inv s -> ld_workers s !! w = Some (Working id (Vis c k)) ->
  load_inv (set_worker w (Working id (k x)) (load_effect id c s)).
Proof.
  intros Hinv Hw. pose proof Hinv as [H1 H2 H3 H4 H5 H6 H7 H8].
  destruct (working_split _ _ _ (Working id (k x)) Hw) as [Hp1 Hp2]. simpl in Hp1, Hp2.
  assert (ld_log (load_effect id c s) = ld_log s ++ logged id c /\ collects (ld_log s ++ logged id c) (ld_col (load_effect id c s)) /\
    (ld_next (load_effect id c s), ld_jobs (load_effect id c s), ld_closed (load_effect id c s), ld_workers (load_effect id c s),
     ld_failures (load_effect id c s), ld_done (load_effect id c s)) =
    (ld_next s, ld_jobs s, ld_closed s, ld_workers s, ld_failures s, ld_done s)) as (Hlog & Hcol & Hrest).
  { destruct c; simpl; rewrite ?app_nil_r; split_and!; try done. by apply collects_snoc. }
  injection Hrest as E1 E2 E3 E4 E5 E6.
  assert (id ∈ working_ids (ld_workers s)) as Hid by (by eapply elem_of_working_ids).
  assert (forall id', id' <> id -> own_records id' (ld_log s ++ logged id c) = own_records id' (ld_log s)) as Hother.
  { intros id' Hne. unfold logged. destruct c; rewrite ?app_nil_r; try done.
    rewrite own_records_snoc, decide_False by done. by rewrite app_nil_r. }
  split; simpl; rewrite ?Hlog, ?E1, ?E2, ?E3, ?E4, ?E5, ?E6; try done.
  - by rewrite Hp2, <- Hp1.
  - intros y [Hy|Hy]%elem_of_app; rewrite Hp2, <- Hp1; [by apply H3|].
    assert (fst y = id) as -> by (unfold logged in Hy; destruct c; try set_solver; by apply list_elem_of_singleton in Hy as ->).
    set_solver.
  - intros w' id' p' Hl. apply list_lookup_insert_Some in Hl as [(<- & [= <- <-] & _)|[Hne Hl]].
    + eapply records_step; [reflexivity|by eapply H4].
    + rewrite Hother by (apply not_eq_sym; by eapply other_worker). by eapply H4.
  - intros id' e Hin. rewrite Hother; [by apply H5|]. intros ->. apply (not_working_done _ _ Hinv Hid).
    apply list_elem_of_fmap. by exists (id, e).
  - intros He%exited_insert; [|done]. by apply H7.
Qed.

Lemma load_run_inv s : load_run s -> load_inv s.
Proof.
  induction 1 as [|s s' _ IH Hstep]; [apply load_start_inv|].
  destruct Hstep; [by apply inv_send|by apply inv_close|by eapply inv_take|by apply inv_exit|by apply inv_act|by apply inv_finish].
Qed.

(** ** Counting records by scenario *)

Definition scenario_record (r : load_record) : bool := fst (fst r) =s? "scenario".

Definition count (q : load_record -> bool) (l : list load_record) : Z := Z.of_nat (length (List.filter q l)).

Lemma counted_split q id log :
  counted (fun x => q (snd x)) log =
    count q (own_records id log) + counted (fun x => q (snd x)) (List.filter (fun x => negb (fst x =? id)%nat) log).
Proof.
  unfold counted, count. induction log as [|[id' r] log IH]; [done|]. rewrite own_records_cons. simpl.
  destruct (Nat.eqb_spec id' id) as [->|Hne].
  - rewrite decide_True by done. simpl. destruct (q r); simpl; lia.
  - rewrite decide_False by done. simpl. destruct (q r); simpl; lia.
Qed.

Lemma own_records_filter id id' log : id' <> id ->
  own_records id' (List.filter (fun x => negb (fst x =? id)%nat) log) = own_records id' log.
Proof.
  intros Hne. induction log as [|[i r] log IH]; [done|]. rewrite own_records_cons. cbn [List.filter fst snd].
  destruct (Nat.eqb_spec i id) as [->|Hi]; cbn [negb]; [by rewrite decide_False by done|].
  rewrite own_records_cons. cbn [fst snd]. by rewrite IH.
Qed.

Lemma counted_by_scenario q (g : option load_error -> Z) done : forall log, NoDup (map fst done) ->
  (forall x, x ∈ log -> fst x ∈ map fst done) ->
  (forall id e, (id, e) ∈ done -> count q (own_records id log) = g e) ->
  counted (fun x => q (snd x)) log = foldr (fun x acc => g (snd x) + acc) 0 done.
Proof.
  induction done as [|[id e] done IH]; intros log Hnd Hids Hg; simpl.
  { destruct log as [|x log]; [done|]. assert (fst x ∈ @nil nat) by (apply Hids; by constructor). set_solver. }
  simpl in Hnd. apply NoDup_cons in Hnd as [Hnew Hnd].
  rewrite (counted_split q id), (Hg id e) by (by constructor). f_equal. apply IH; [done|..].
  - intros x (Hx & Hne)%list_elem_of_In%filter_In. apply list_elem_of_In in Hx. apply Hids in Hx. simpl in Hx.
    apply elem_of_cons in Hx as [Hx|Hx]; [|done]. rewrite Hx, Nat.eqb_refl in Hne. done.
  - intros id' e' Hin. rewrite own_records_filter; [apply Hg; by constructor|]. intros ->. apply Hnew.
    apply list_elem_of_fmap. by exists (id, e').
Qed.

Lemma call_names_no_scenario calls : map (fun x : load_record => fst (fst x)) calls ∈ call_names ->
  List.filter scenario_record calls = [].
Proof.
  intros H. assert (Forall (fun n => n <> "scenario") (map (fun x : load_record => fst (fst x)) calls)) as Hn.
  { unfold call_names in H. rewrite !elem_of_cons in H. destruct H as [->|[->|[->|H]]]; [by repeat constructor..|set_solver]. }
  clear H. induction calls as [|x calls IH]; [done|]. simpl in *. apply Forall_cons in Hn as [Hx Hn].
  unfold scenario_record at 1. rewrite (proj2 (String.eqb_neq _ _) Hx). by apply IH.
Qed.

(** One record of the scenario itself, failed when the scenario is. *)
Lemma scenario_counts e l : scenario_records e l ->
  count scenario_record l = 1 /\
  count (fun r => scenario_record r && negb (snd r =? codes_OK)) l = (if e then 1 else 0).
Proof.
  intros (calls & latency & -> & Hn & _). apply call_names_no_scenario in Hn. unfold count.
  assert (List.filter (fun r => scenario_record r && negb (snd r =? codes_OK)) calls = []) as Hn2.
  { induction calls as [|x calls IH]; [done|]. simpl in *. destruct (scenario_record x); [done|]. by apply IH. }
  rewrite !List.filter_app, Hn, Hn2. split; [done|]. simpl. unfold scenario_record. simpl.
  destruct e as [[code|]|]; done.
Qed.

Lemma foldr_one (done : list (nat * option load_error)) : foldr (fun (_ : nat * option load_error) acc => 1 + acc) 0 done = Z.of_nat (length done).
Proof. induction done as [|x done IH]; cbn [foldr length]; [done|]. rewrite IH. lia. Qed.

Lemma foldr_failed (done : list (nat * option load_error)) :
  foldr (fun (x : nat * option load_error) acc => (if snd x then 1 else 0) + acc) 0 done = Z.of_nat (length (List.filter failed_scenario done)).
Proof.
  induction done as [|[id [e|]] done IH]; cbn [foldr List.filter failed_scenario snd length]; [done|rewrite IH; lia|rewrite IH; lia].
Qed.

Lemma load_run_workers s : load_run s -> length (ld_workers s) = Z.to_nat (concurrency cfg).
Proof.
  induction 1 as [|s s' _ IH Hstep]; [apply length_replicate|].
  destruct Hstep; simpl; rewrite ?length_insert; try done. by destruct c.
Qed.

(** When every worker is done: all scenarios were run, each once, and recorded. *)
Lemma finished_counts s : 0 < concurrency cfg -> load_run s -> finished s ->
  map fst (ld_done s) ≡ₚ seq 0 (ld_next s) /\ ld_closed s = true /\
  counted (of_method "scenario") (ld_log s) = Z.of_nat (ld_next s) /\
  counted (fun x => of_method "scenario" x && negb (is_ok x)) (ld_log s) =
    Z.of_nat (length (List.filter failed_scenario (ld_done s))).
Proof.
  intros Hc Hrun Hfin. pose proof (load_run_workers s Hrun) as Hlen. unfold finished in Hfin.
  apply load_run_inv in Hrun as Hinv. pose proof Hinv as [H1 H2 H3 H4 H5 H6 H7 H8].
  assert (Exited ∈ ld_workers s) as Hex.
  { destruct (ld_workers s) as [|w ws]; simpl in Hlen; [lia|]. apply Forall_cons in Hfin as [-> _]. by constructor. }
  apply H7 in Hex as [Hclosed Hjobs].
  assert (working_ids (ld_workers s) = []) as Hw.
  { clear - Hfin. induction (ld_workers s) as [|w ws IH]; [done|].
    apply Forall_cons in Hfin as [-> Hfin]. by apply IH. }
  rewrite Hjobs, Hw in H2. simpl in H2. rewrite Hw in H3. simpl in H3.
  assert (NoDup (map fst (ld_done s))) as Hnd by (rewrite H2; apply NoDup_ListNoDup, seq_NoDup).
  assert (length (ld_done s) = ld_next s) as Hl.
  { apply Permutation_length in H2. rewrite length_map, length_seq in H2. done. }
  split_and!; [done|done|..].
  - change (of_method "scenario") with (fun x : nat * load_record => scenario_record (snd x)).
    rewrite (counted_by_scenario scenario_record (fun _ => 1) (ld_done s)); [by rewrite foldr_one, Hl|done|done|].
    intros id e Hin. by apply (scenario_counts e), H5.
  - change (fun x => of_method "scenario" x && negb (is_ok x)) with
      (fun x : nat * load_record => (fun r => scenario_record r && negb (snd r =? codes_OK)) (snd x)).
    rewrite (counted_by_scenario _ (fun e : option load_error => if e then 1 else 0) (ld_done s)); [apply foldr_failed|done|done|].
    intros id e Hin. by apply (scenario_counts e), H5.
Qed.
End System.
