(* ===== verification/LoadReport.v ===== *)
(** * The load generator's report, and its end

    src/cmd/loadtest/main.go, on top of LoadTest: the percentiles index in
    range, so the report is always built; when the workers are done it counts
    exactly the scenarios that were run and the calls that were made; and the
    workers do end. *)

From stdpp Require Import pretty.
From S2P Require Import Prelude GoLib Float64 Rounding Domain Prog Ports OrderService OrderServiceSpec Config Health LoadTest.

(** ** Percentiles *)

(** The percentages of [buildLatencySummary], as fractions. *)
Lemma percent_fraction p : p ∈ [50; 95; 99] -> exists f, 2 ^ 52 <= Z.pos f < 2 ^ 53 /\
  float64_div (float64_of_int p) (float64_of_int 100) = S754_finite false f (-53).
Proof.
  rewrite !elem_of_cons. intros [-> |[-> |[-> |H]]]; [..|set_solver];
    (eexists; split; [|vm_compute; reflexivity]; lia).
Qed.

Lemma percentile_total p l : p ∈ [50; 95; 99] -> Z.of_nat (length l) < 2 ^ 53 ->
  is_Some (percentile l (float64_of_int p)).
Proof.
  intros (f & Hf & Hp)%percent_fraction Hl. destruct l as [|x [|y l]]; [done..|]. unfold percentile. rewrite Hp.
  set (z := Z.of_nat (length (x :: y :: l)) - 1). assert (0 < z < 2 ^ 53) as Hz by (unfold z; simpl in *; lia).
  destruct (fraction_floor f z Hf Hz) as [Hlow Hup].
  set (low := int_of_float64 (Floor _)) in *. set (up := int_of_float64 (Ceil _)) in *.
  assert (forall i, 0 <= i <= z -> is_Some (if i <? 0 then None else (x :: y :: l) !! Z.to_nat i)) as Hat.
  { intros i Hi. destruct (Z.ltb_spec i 0); [lia|]. apply lookup_lt_is_Some. unfold z in Hi. simpl in *. lia. }
  destruct (Hat low Hlow) as [a Ha], (Hat up Hup) as [b Hb]. rewrite Ha, Hb. by destruct (_ =? _).
Qed.

Lemma insertion_sort_length {A} less (l : list A) : length (insertion_sort less l) = length l.
Proof. apply Permutation_length, (@sort_Slice_perm _ reference_runtime_laws). Qed.

Lemma buildLatencySummary_total values : Z.of_nat (length values) < 2 ^ 53 -> is_Some (buildLatencySummary values).
Proof.
  intros H. unfold buildLatencySummary.
  assert (Z.of_nat (length (insertion_sort float64_less values)) < 2 ^ 53) as Hs by (by rewrite insertion_sort_length).
  destruct (insertion_sort float64_less values) as [|x l]; [done|].
  destruct (percentile_total 50 (x :: l)) as [? ->]; [set_solver|done|].
  destruct (percentile_total 95 (x :: l)) as [? ->]; [set_solver|done|].
  destruct (percentile_total 99 (x :: l)) as [? ->]; [set_solver|done|]. done.
Qed.

(** ** The report *)

(** What the report says of a method is what was recorded of it. *)
Definition report_of (stats : methodStats) (r : methodReport) : Prop :=
  Rep_Calls r = st_calls stats /\ Rep_Success r = st_success stats /\ Rep_Failed r = st_failed stats /\
  Rep_Codes r = st_codes stats.

Lemma method_report_total stats : Z.of_nat (length (st_latencies stats)) < 2 ^ 53 ->
  exists r, method_report stats = Some r /\ report_of stats r.
Proof.
  intros H. unfold method_report. destruct (buildLatencySummary_total _ H) as [lat ->]. by eexists.
Qed.

Lemma methods_total (c : collector) : map_Forall (fun _ stats => Z.of_nat (length (st_latencies stats)) < 2 ^ 53) c ->
  exists ms : gmap string methodReport,
    map_fold (fun name stats acc => m ← acc; r ← method_report stats; Some (<[name := r]> m)) (Some ∅) c = Some ms /\
    forall m, option_Forall2 report_of (c !! m) (ms !! m).
Proof.
  apply (map_fold_weak_ind (fun acc c => map_Forall (fun _ stats => Z.of_nat (length (st_latencies stats)) < 2 ^ 53) c ->
    exists ms : gmap string methodReport, acc = Some ms /\ forall m, option_Forall2 report_of (c !! m) (ms !! m))).
  - intros _. exists ∅. split; [done|]. intros m. rewrite !lookup_empty. constructor.
  - intros name stats c' acc Hnew IH Hall. apply map_Forall_insert in Hall as [Hst Hall]; [|done].
    destruct (IH Hall) as (ms & -> & Hms). destruct (method_report_total stats Hst) as (r & Hr & Hof). simpl.
    rewrite Hr. simpl. eexists. split; [reflexivity|]. intros m. destruct (decide (m = name)) as [->|Hne].
    + rewrite !lookup_insert_eq. by constructor.
    + rewrite !lookup_insert_ne by done. apply Hms.
Qed.

Section Report.
Context (code_string : Z -> string) (cfg : config) (runID : string).

Abbreviation load_run := (load_run code_string cfg runID).
Abbreviation load_step := (load_step code_string cfg runID).

Lemma parseConfig_ok f : parseConfig f = Ok cfg ->
  0 < concurrency cfg /\ 0 <= duration cfg /\ 0 < amountMinor cfg /\ (duration cfg = 0 -> 0 < total cfg) /\
  TrimSpace (currency cfg) <> "" /\ TrimSpace (sku cfg) <> "" /\ TrimSpace (customerTag cfg) <> "".
Proof.
  unfold parseConfig. destruct (ParseDuration _) as [t|]; [|done]. destruct (ParseDuration _) as [d|]; [|done].
  destruct (parseMode _) as [m|]; [|done]. set (c := MkLoadConfig _ _ _ _ _ _ _ _ _ _ _ _ _ _).
  destruct (config_error c) eqn:E; [done|]. intros [= <-]. revert E. unfold config_error.
  repeat match goal with |- (if ?b then _ else _) = None -> _ => destruct b eqn:?; [done|] end. intros _.
  repeat match goal with H : _ || _ = false |- _ => apply orb_false_iff in H as [? ?] end.
  rewrite ?Z.ltb_ge, ?Z.leb_gt, ?String.eqb_neq in *. split_and!; try done; try lia.
Qed.

(** The counters, before they wrap around. *)
Lemma counted_le p log : 0 <= counted p log <= Z.of_nat (length log).
Proof. unfold counted. pose proof (List.filter_length_le p log). lia. Qed.

Lemma counted_wrap p log : Z.of_nat (length log) < 2 ^ 53 -> wrap64 (counted p log) = counted p log.
Proof. intros H. apply wrap64_id. pose proof (counted_le p log). split; unfold minInt64, maxInt64; lia. Qed.

Lemma counted_parts p q log :
  counted (fun x => p x && q x) log + counted (fun x => p x && negb (q x)) log = counted p log.
Proof.
  unfold counted. induction log as [|x log IH]; [done|]. simpl. destruct (p x), (q x); simpl; lia.
Qed.

(** A method of the report: its calls, the successful ones and the others. *)
Definition method_exact (log : list (nat * load_record)) (m : string) (r : methodReport) : Prop :=
  Rep_Calls r = counted (of_method m) log /\
  Rep_Success r = counted (fun x => of_method m x && is_ok x) log /\
  Rep_Failed r = counted (fun x => of_method m x && negb (is_ok x)) log /\
  Rep_Success r + Rep_Failed r = Rep_Calls r /\
  forall key, default 0 (Rep_Codes r !! key) =
    counted (fun x => of_method m x && (code_string (snd (snd x)) =s? key)) log.

Lemma method_stats_exact log m stats r : Z.of_nat (length log) < 2 ^ 53 -> stats_of code_string m log stats -> report_of stats r ->
  method_exact log m r.
Proof.
  intros Hl [H1 H2 H3 H4 _] (R1 & R2 & R3 & R4). unfold method_exact.
  rewrite R1, R2, R3, R4, H1, H2, H3, !counted_wrap by done. split_and!; try done; [apply counted_parts|].
  intros key. by rewrite H4, counted_wrap.
Qed.

Lemma no_failed_scenario (done : list (nat * option load_error)) :
  Z.of_nat (length (List.filter failed_scenario done)) = 0 <-> Forall (fun x => snd x = None) done.
Proof.
  induction done as [|[id [e|]] done IH]; simpl; [by split|..]; rewrite Forall_cons; [naive_solver lia|naive_solver].
Qed.

Lemma next_bound s : 0 < concurrency cfg -> load_run s -> finished s ->
  Z.of_nat (ld_next s) <= Z.of_nat (length (ld_log s)).
Proof.
  intros Hc Hrun Hfin. destruct (finished_counts _ _ _ s Hc Hrun Hfin) as (_ & _ & <- & _). apply counted_le.
Qed.

(** What is known of a method of the collector, recorded or not. *)
Definition method_stats (c : collector) (m : string) : methodStats := default (MkMethodStats 0 0 0 ∅ []) (c !! m).

Lemma buildReport_total log c startedAt dur : collects code_string log c -> Z.of_nat (length log) < 2 ^ 53 ->
  exists r, buildReport startedAt dur c = Some r /\
    Rep_TotalScenarios r = counted (of_method "scenario") log /\
    Rep_SuccessScenarios r = counted (fun x => of_method "scenario" x && is_ok x) log /\
    Rep_FailedScenarios r = counted (fun x => of_method "scenario" x && negb (is_ok x)) log /\
    forall m, match Rep_Methods r !! m with
              | Some mr => method_exact log m mr
              | None => counted (of_method m) log = 0
              end.
Proof.
  intros Hcol Hlog.
  assert (forall m, Z.of_nat (length (st_latencies (method_stats c m))) < 2 ^ 53) as Hlat.
  { intros m. destruct (Hcol m) as [[_ _ _ _ Hl] _]. unfold method_stats. rewrite Hl, length_map.
    pose proof (counted_le (of_method m) log). unfold counted in *. lia. }
  destruct (methods_total c) as (ms & Hms & Hof).
  { intros m stats Hm. specialize (Hlat m). unfold method_stats in Hlat. by rewrite Hm in Hlat. }
  destruct (Hcol "scenario") as [[H1 H2 H3 _ _] _]. rewrite counted_wrap in H1, H2, H3 by done.
  destruct (buildLatencySummary_total _ (Hlat "scenario")) as [lat Hl]. unfold method_stats in Hl.
  assert (forall m, match ms !! m with Some mr => method_exact log m mr | None => counted (of_method m) log = 0 end) as Hmethods.
  { intros m. destruct (Hcol m) as [Hst _]. specialize (Hof m). destruct Hof as [stats mr Hr|]; simpl in Hst.
    - by eapply method_stats_exact.
    - destruct Hst as [Hz _ _ _ _]. by rewrite counted_wrap in Hz. }
  unfold buildReport. rewrite Hms.
  destruct (c !! "scenario"); cbn [default id st_latencies st_calls st_success st_failed] in *; rewrite Hl; (eexists; split; [reflexivity|]; by split_and!).
Qed.


(** ** The run ends *)

(** A program that ends within [n] commands, whatever is answered. *)
Fixpoint bounded {A} (p : prog load_port A) (n : nat) : Prop :=
  match p, n with
  | Ret _, _ => True
  | Vis _ _, O => False
  | Vis c k, S m => forall x, bounded (k x) m
  end.

Lemma bounded_mono {A} (p : prog load_port A) : forall n m, bounded p n -> (n <= m)%nat -> bounded p m.
Proof.
  induction p as [a|X c k IH]; intros n m H Hle; simpl in *; [done|].
  destruct n as [|n], m as [|m]; try done; try lia. intros x. apply (IH x n); [apply H|lia].
Qed.

Lemma bounded_bind {A B} (p : prog load_port A) (f : A -> prog load_port B) : forall n m,
  bounded p n -> (forall a, bounded (f a) m) -> bounded (p ≫= f) (n + m).
Proof.
  induction p as [a|X c k IH]; intros n m H Hf; simpl in *.
  - eapply bounded_mono; [apply Hf|lia].
  - destruct n as [|n]; [done|]. intros x. by apply IH.
Qed.

Lemma bounded_timed {A} method (rpc : prog load_port A) code n : bounded rpc n -> bounded (timed method rpc code) (n + 3).
Proof.
  intros H. replace (n + 3)%nat with (S (n + 2)) by lia. intros start. apply bounded_bind; [done|].
  intros r stop. simpl. done.
Qed.

(** Three calls of four commands each, and three commands around them. *)
Lemma bounded_runScenario index : bounded (runScenario cfg runID index) 15.
Proof.
  apply (bounded_timed _ _ _ 12). unfold scenario_body, callCreateOrder, callPayOrder, callCancelOrder.
  apply (bounded_bind _ _ 4 8); [by apply (bounded_timed _ _ _ 1)|]. intros [orderID [code|]]; [done|].
  destruct (orderID =s? ""); [done|]. destruct (mode cfg =s? modeCreate); [done|].
  apply (bounded_bind _ _ 4 4); [by apply (bounded_timed _ _ _ 1)|]. intros [code|]; [done|].
  destruct (_ || _); [|done]. apply (bounded_bind _ _ 4 0); [by apply (bounded_timed _ _ _ 1)|done].
Qed.

(** How many steps a worker can still make by itself. *)
Inductive potential : load_worker -> nat -> Prop :=
| potential_waiting : potential Waiting 1
| potential_working id p n : bounded p n -> potential (Working id p) (n + 2)
| potential_exited : potential Exited 0.

(** A run of [n] steps. *)
Inductive load_steps : nat -> load_state -> Prop :=
| load_steps_start : load_steps 0 (load_start cfg)
| load_steps_step n s s' : load_steps n s -> load_step s s' -> load_steps (S n) s'.

Lemma sum_insert (ws : list nat) w a b : ws !! w = Some a ->
  (sum_list (<[w := b]> ws) + a = sum_list ws + b)%nat.
Proof.
  intros H. rewrite insert_take_drop by (by eapply lookup_lt_Some).
  rewrite <- (take_drop_middle ws w a H) at 3. rewrite !sum_list_with_app. simpl. lia.
Qed.

(** A worker that goes from [x] to [y]. *)
Lemma potential_insert ws ns w x y i j : Forall2 potential ws ns -> ws !! w = Some x ->
  (forall a, potential x a -> exists b, potential y b /\ (b + i <= a + j)%nat) ->
  exists ns', Forall2 potential (<[w := y]> ws) ns' /\ (sum_list ns' + i <= sum_list ns + j)%nat.
Proof.
  intros H Hw Hy. destruct (Forall2_lookup_l _ _ _ _ _ H Hw) as (a & Ha & Hxa).
  destruct (Hy a Hxa) as (b & Hb & Hle). exists (<[w := b]> ns). split; [by apply Forall2_insert|].
  pose proof (sum_insert ns w a b Ha). lia.
Qed.

Definition remaining (s : load_state) : nat :=
  (18 * (Z.to_nat (total cfg) - ld_next s) + 17 * length (ld_jobs s) + if ld_closed s then 0 else 1)%nat.

Lemma load_step_decreases s s' ns : duration cfg <= 0 -> load_step s s' -> Forall2 potential (ld_workers s) ns ->
  exists ns', Forall2 potential (ld_workers s') ns' /\ (remaining s' + sum_list ns' < remaining s + sum_list ns)%nat.
Proof.
  intros Hd Hstep Hns. unfold remaining.
  destruct Hstep as [s Hc Hm _|s Hc Hm|s w id rest Hw Hj|s w Hw Hj Hc|s w id X c k x Hw|s w id e Hw];
    cbn [ld_next ld_jobs ld_closed ld_workers set_worker].
  - exists ns. split; [done|]. unfold may_send in Hm. destruct (Z.leb_spec (duration cfg) 0); [|lia].
    rewrite Hc, length_app. cbn [length]. lia.
  - exists ns. split; [done|]. rewrite Hc. lia.
  - destruct (potential_insert _ _ _ _ (Working id (runScenario cfg runID (Z.of_nat id))) 0 16 Hns Hw) as (ns' & Hf & Hs).
    { intros a Ha. inversion Ha. exists (15 + 2)%nat. split; [apply potential_working, bounded_runScenario|lia]. }
    exists ns'. split; [exact Hf|]. rewrite Hj. cbn [length]. lia.
  - destruct (potential_insert _ _ _ _ Exited 1 0 Hns Hw) as (ns' & Hf & Hs).
    { intros a Ha. inversion Ha. exists 0%nat. split; [constructor|lia]. }
    exists ns'. split; [exact Hf|]. lia.
  - destruct (potential_insert _ _ _ _ (Working id (k x)) 1 0 Hns Hw) as (ns' & Hf & Hs).
    { intros a Ha. inversion Ha as [|? ? [|n] Hb|]; [done|]. exists (n + 2)%nat. split; [constructor; apply Hb|lia]. }
    exists ns'. split; [by destruct c|]. destruct c; simpl; lia.
  - destruct (potential_insert _ _ _ _ Waiting 1 0 Hns Hw) as (ns' & Hf & Hs).
    { intros a Ha. inversion Ha. exists 1%nat. split; [constructor|lia]. }
    exists ns'. split; [exact Hf|]. lia.
Qed.

Lemma load_steps_bound n s : duration cfg <= 0 -> load_steps n s -> exists ns, Forall2 potential (ld_workers s) ns /\
  (n + (remaining s + sum_list ns) <= 18 * Z.to_nat (total cfg) + 1 + Z.to_nat (concurrency cfg))%nat.
Proof.
  intros Hd. induction 1 as [|n s s' _ (ns & Hns & IH) Hstep].
  - exists (replicate (Z.to_nat (concurrency cfg)) 1%nat). unfold remaining, load_start.
    cbn [ld_next ld_jobs ld_closed ld_workers length]. split.
    + apply Forall2_replicate. constructor.
    + rewrite sum_list_replicate. lia.
  - destruct (load_step_decreases s s' ns Hd Hstep Hns) as (ns' & Hns' & Hlt). exists ns'. split; [done|lia].
Qed.

(** Every command is answered with something. *)
Lemma load_port_answer X (c : load_port X) : inhabited X.
Proof. destruct c; constructor; try exact None; try exact 0; [exact ("", None)|exact tt]. Qed.

Lemma all_exited ws : Forall (fun w => w = Exited) ws \/ exists w x, ws !! w = Some x /\ x <> Exited.
Proof.
  induction ws as [|x ws [IH|(w & y & Hw & Hy)]]; [by left| |right; by exists (S w), y].
  destruct x; [right; by exists 0%nat, Waiting|right; by eexists 0%nat, _|left; by constructor].
Qed.

Lemma load_progress s : 0 < concurrency cfg -> finished s \/ exists s', load_step s s'.
Proof.
  intros Hc. destruct (all_exited (ld_workers s)) as [H|(w & x & Hw & Hx)]; [by left|right].
  destruct x as [|id [e|X c k]|]; [..|done].
  - destruct (ld_jobs s) as [|id rest] eqn:Hj; [|eexists; by eapply load_take].
    destruct (ld_closed s) eqn:Hcl; [eexists; by eapply load_exit|].
    destruct (may_end cfg (ld_next s)) eqn:Hm; [eexists; by eapply load_close|].
    eexists. apply load_send; [done| |rewrite Hj; unfold capacity; simpl; lia].
    unfold may_end in Hm. unfold may_send. destruct (duration cfg <=? 0); [lia|done].
  - eexists. by eapply load_finish.
  - destruct (load_port_answer X c) as [x]. eexists. by eapply (load_act _ _ _ _ _ _ _ _ _ x).
Qed.

(** C40. A run of the load generator never deadlocks: until every worker has
    stopped, some worker or the dispatcher can go on; and without -duration it
    is over after at most 18 steps per scenario, one per worker, and one to
    close the channel, whatever the service answers. *)
Theorem load_run_ends f : parseConfig f = Ok cfg ->
  (forall s, load_run s -> finished s \/ exists s', load_step s s') /\
  (duration cfg = 0 -> forall n s, load_steps n s -> Z.of_nat n <= 18 * total cfg + concurrency cfg + 1).
Proof.
  intros (Hc & _ & _ & Ht & _)%parseConfig_ok. split; [intros s _; by apply load_progress|].
  intros Hd n s (ns & _ & H)%load_steps_bound; [|lia]. specialize (Ht Hd). lia.
Qed.
End Report.

(** ** The requests *)

Lemma string_app_inj s1 s2 s3 : s1 +:+ s2 = s1 +:+ s3 -> s2 = s3.
Proof. induction s1 as [|c s1 IH]; [done|]. intros [= H]. by apply IH. Qed.

(** What the load generator sends is what the service accepts: under a
    configuration it starts with, the CreateOrder request of every scenario
    passes all of the service's validation; and no two calls of a run share an
    idempotency key, so none of them is answered by a replay of another. *)
Theorem load_requests_fresh f cfg runID : parseConfig f = Ok cfg -> is_int64 (amountMinor cfg) ->
  (forall index, request_ok (createReq cfg runID index) = true) /\
  (forall what index what' index', what ∈ ["create"; "pay"; "cancel"] -> what' ∈ ["create"; "pay"; "cancel"] ->
     scenario_key runID what index = scenario_key runID what' index' -> what = what' /\ index = index').
Proof.
  intros (_ & _ & Ha & _ & Hcur & Hsku & Htag)%parseConfig_ok Hint.
  assert (forall s, TrimSpace s <> "" -> s <> "") as Htrim by (intros s Hs ->; by apply Hs).
  apply Htrim in Hcur, Hsku, Htag. split.
  - intros index. unfold request_ok, createReq. simpl.
    rewrite (wrap64_id (_ + 0)) by (by rewrite Z.mul_1_l, Z.add_0_r).
    assert (customerTag cfg +:+ "-" +:+ runID +:+ "-" +:+ pretty index <> "") as Hid by (by destruct (customerTag cfg)).
    rewrite String.eqb_refl, (proj2 (String.eqb_neq _ _) Hid), (proj2 (String.eqb_neq _ _) Hcur).
    unfold defaultQty. simpl. lia.
  - intros what index what' index' Hw Hw' Heq.
    assert (what = what') as ->.
    { rewrite !elem_of_cons in Hw, Hw'. destruct Hw as [-> |[-> |[-> |?]]], Hw' as [-> |[-> |[-> |?]]]; done || set_solver. }
    split; [done|]. unfold scenario_key in Heq. do 5 apply string_app_inj in Heq. by apply pretty_Z_inj in Heq.
Qed.
