(* ===== verification/FilePath.v ===== *)
(** * filepath.Clean, and the file of the load report

    [filepath.Clean] of Go's standard library on Unix, with what it means to
    walk a path, and [writeJSONReport] of src/cmd/loadtest/main.go, which cleans
    the path it is given before it tests it. *)

From S2P Require Import Prelude GoLib Strconv Domain Prog LoadTest.

(** ** Components *)

Definition slash : ascii := chr 47.
Definition dot : list ascii := [chr 46].
Definition dotdot : list ascii := [chr 46; chr 46].

Definition rooted (l : list ascii) : bool := match l with a :: _ => Ascii.eqb a slash | [] => false end.

(** One element of the path against the elements kept so far, last first:
    empty ones and [.] are dropped, [..] removes an element, and stays only at
    the front of a path that is not rooted. *)
Definition clean_step (is_rooted : bool) (kept : list (list ascii)) (part : list ascii) : list (list ascii) :=
  if decide (part = [] \/ part = dot) then kept
  else if decide (part = dotdot) then
    match kept with
    | [] => if is_rooted then [] else [dotdot]
    | last :: rest => if decide (last = dotdot) then dotdot :: kept else rest
    end
  else part :: kept.

Definition clean_parts (l : list ascii) : list (list ascii) :=
  rev (foldl (clean_step (rooted l)) [] (split_list slash l)).

Fixpoint join_slash (parts : list (list ascii)) : list ascii :=
  match parts with
  | [] => []
  | [part] => part
  | part :: rest => part ++ slash :: join_slash rest
  end.

Definition clean_list (l : list ascii) : list ascii :=
  if rooted l then slash :: join_slash (clean_parts l)
  else match clean_parts l with [] => dot | parts => join_slash parts end.

Definition Clean (path : string) : string := string_of_list_ascii (clean_list (list_ascii_of_string path)).

Example Clean_ex : map Clean [""; "a//b/./c"; "a/../b"; "../../x"; "/../a/"; "a/.."; "./out/report.json"] =
  ["."; "a/b/c"; "b"; "../../x"; "/a"; "."; "out/report.json"].
Proof. vm_compute. reflexivity. Qed.

(** ** [writeJSONReport] *)

Definition report_path (path : string) : result string :=
  let cleanPath := Clean path in
  if (cleanPath =s? ".") || (cleanPath =s? "/") then Err (ErrOther "output path must point to a file")
  else if (cleanPath =s? "..") || String.prefix "../" cleanPath
  then Err (ErrOther ("output path must be inside current directory: " +:+ path))
  else Ok cleanPath.

Inductive report_port : Type -> Type :=
| CreateFile (path : string) : report_port (option err)
| EncodeReport (r : report) : report_port (option err)
| CloseFile : report_port unit.

Definition writeJSONReport (path : string) (r : report) : prog report_port (option err) :=
  match report_path path with
  | Err e => mret (Some e)
  | Ok cleanPath =>
      created ← call (CreateFile cleanPath);
      match created with
      | Some e => mret (Some e)
      | None => encoded ← call (EncodeReport r); call CloseFile;; mret encoded
      end
  end.

(** ** Walking a path *)

(** From a directory, innermost name first; [..] of the root is the root. *)
Definition walk (dir : list (list ascii)) (part : list ascii) : list (list ascii) :=
  if decide (part = [] \/ part = dot) then dir
  else if decide (part = dotdot) then tail dir
  else part :: dir.

(** Where a path leads from the working directory, when no element is a
    symbolic link. *)
Definition resolve (cwd : list (list ascii)) (path : string) : list (list ascii) :=
  let l := list_ascii_of_string path in
  foldl walk (if rooted l then [] else cwd) (split_list slash l).

(** A name of a file. *)
Definition normal (part : list ascii) : Prop := part <> [] /\ part <> dot /\ part <> dotdot /\ slash ∉ part.

Lemma walk_skip dir part : part = [] \/ part = dot -> walk dir part = dir.
Proof. intros H. unfold walk. by rewrite decide_True. Qed.

Lemma walk_up dir : walk dir dotdot = tail dir.
Proof. done. Qed.

Lemma walk_name dir part : ~ (part = [] \/ part = dot) -> part <> dotdot -> walk dir part = part :: dir.
Proof. intros H1 H2. unfold walk. rewrite decide_False by done. by rewrite decide_False. Qed.

Lemma walk_normal dir part : normal part -> walk dir part = part :: dir.
Proof. intros (H1 & H2 & H3 & _). apply walk_name; tauto. Qed.

Lemma split_no_slash l part : part ∈ split_list slash l -> slash ∉ part.
Proof.
  revert part. induction l as [|a l IH]; intros part; simpl.
  - intros ->%list_elem_of_singleton. set_solver.
  - destruct (Ascii.eqb_spec a slash) as [->|Hne]; [intros [-> |H]%elem_of_cons; [set_solver|by apply IH]|].
    destruct (split_list slash l) as [|chunk chunks]; [intros ->%list_elem_of_singleton; set_solver|].
    intros [-> |H]%elem_of_cons; [|apply IH; by constructor].
    assert (slash ∉ chunk) by (apply IH; by constructor). rewrite not_elem_of_cons. split; congruence.
Qed.

Lemma split_plain part : slash ∉ part -> split_list slash part = [part].
Proof.
  induction part as [|a part IH]; [done|]. rewrite not_elem_of_cons. intros [Ha Hp]. simpl.
  destruct (Ascii.eqb_spec a slash); [congruence|]. by rewrite IH.
Qed.

Lemma split_cons part rest : slash ∉ part -> split_list slash (part ++ slash :: rest) = part :: split_list slash rest.
Proof.
  induction part as [|a part IH]; [done|]. rewrite not_elem_of_cons. intros [Ha Hp].
  cbn [app split_list]. destruct (Ascii.eqb_spec a slash); [congruence|]. by rewrite IH.
Qed.

Lemma split_join parts : parts <> [] -> Forall (fun part => slash ∉ part) parts -> split_list slash (join_slash parts) = parts.
Proof.
  induction parts as [|part [|next rest] IH]; intros Hne Hall; [done|..]; apply Forall_cons in Hall as [Hp Hr];
    [by apply split_plain|].
  change (join_slash (part :: next :: rest)) with (part ++ slash :: join_slash (next :: rest)).
  rewrite split_cons by done. by rewrite IH.
Qed.

(** What is kept of a path that is not rooted: names, after some [..]. *)
Definition kept_ok (kept : list (list ascii)) : Prop := exists names ups, kept = names ++ replicate ups dotdot /\ Forall normal names.

Lemma clean_step_kept kept part : kept_ok kept -> slash ∉ part -> kept_ok (clean_step false kept part).
Proof.
  intros (names & ups & -> & Hn) Hs. unfold clean_step. destruct (decide _) as [|H1]; [by exists names, ups|].
  destruct (decide _) as [->|H2].
  - destruct names as [|name names]; cbn [app].
    + destruct ups as [|ups]; cbn [replicate]; [by exists [], 1%nat|]. rewrite decide_True by done. by exists [], (S (S ups)).
    + apply Forall_cons in Hn as [Hname Hn]. rewrite decide_False by apply Hname. by exists names, ups.
  - exists (part :: names), ups. split; [done|]. constructor; [|done]. unfold normal. tauto.
Qed.

(** A step keeps where the path leads. *)
Lemma clean_step_walk kept part dir : kept_ok kept ->
  foldl walk dir (rev (clean_step false kept part)) = walk (foldl walk dir (rev kept)) part.
Proof.
  intros (names & ups & -> & Hn). unfold clean_step. destruct (decide _) as [H1|H1]; [by rewrite walk_skip|].
  destruct (decide _) as [->|H2].
  - rewrite walk_up. destruct names as [|name names].
    + destruct ups as [|ups]; [done|]. cbn [app replicate]. rewrite decide_True by done. cbn [rev]. by rewrite foldl_app.
    + apply Forall_cons in Hn as [Hname Hn]. cbn [app]. rewrite decide_False by apply Hname. cbn [rev].
      rewrite foldl_app. simpl. by rewrite walk_normal.
  - rewrite walk_name by done. cbn [rev]. rewrite foldl_app. simpl. by apply walk_name.
Qed.

Lemma clean_fold parts : forall kept dir, kept_ok kept -> Forall (fun part => slash ∉ part) parts ->
  kept_ok (foldl (clean_step false) kept parts) /\
  foldl walk dir (rev (foldl (clean_step false) kept parts)) = foldl walk (foldl walk dir (rev kept)) parts.
Proof.
  induction parts as [|part parts IH]; intros kept dir Hk Hp; [done|]. apply Forall_cons in Hp as [Hpart Hp]. simpl.
  destruct (IH (clean_step false kept part) dir) as [IH1 IH2]; [by apply clean_step_kept|done|].
  split; [done|]. by rewrite IH2, clean_step_walk.
Qed.

Lemma walk_names names dir : Forall normal names -> foldl walk dir (rev names) = names ++ dir.
Proof.
  induction 1 as [|name names Hname _ IH]; [done|]. cbn [rev]. rewrite foldl_app, IH. simpl. by apply walk_normal.
Qed.

(** ** Where the report is written *)

Lemma split_all_plain l : Forall (fun part => slash ∉ part) (split_list slash l).
Proof. apply Forall_forall. apply split_no_slash. Qed.

Lemma join_head part rest : part <> [] -> slash ∉ part -> rooted (join_slash (part :: rest)) = false.
Proof.
  intros Hne Hs. destruct part as [|a part]; [done|]. apply not_elem_of_cons in Hs as [Ha _].
  destruct rest; simpl; by apply Ascii.eqb_neq.
Qed.

(** A path that starts with [..] is refused. *)
Lemma dotdot_refused rest : String.prefix "../" (string_of_list_ascii (join_slash (dotdot :: rest))) ||
  (string_of_list_ascii (join_slash (dotdot :: rest)) =s? "..") = true.
Proof. destruct rest; [done|]. simpl. by destruct (string_of_list_ascii _). Qed.

(** The cleaned form of a path that is not rooted. *)
Lemma clean_parts_relative l : rooted l = false -> exists names ups, Forall normal names /\
  clean_parts l = replicate ups dotdot ++ rev names /\
  forall cwd, foldl walk cwd (clean_parts l) = foldl walk cwd (split_list slash l).
Proof.
  intros Hroot. unfold clean_parts. rewrite Hroot.
  destruct (clean_fold (split_list slash l) [] []) as [(names & ups & Hk & Hn) _];
    [by exists [], 0%nat|apply split_all_plain|].
  exists names, ups. split_and!; [done| |].
  - rewrite Hk, rev_app_distr, (rev_alt (replicate ups dotdot)).
    change (rev_append (replicate ups dotdot) []) with (reverse (replicate ups dotdot)). by rewrite reverse_replicate.
  - intros cwd. by apply (clean_fold (split_list slash l) [] cwd); [exists [], 0%nat|apply split_all_plain].
Qed.

Lemma rev_normal names : Forall normal names -> Forall normal (rev names).
Proof. rewrite !Forall_forall. intros H part Hin. apply H, list_elem_of_In, in_rev. by apply list_elem_of_In. Qed.

(** A report is only written under the working directory when its path is
    relative: if [writeJSONReport] opens a file for such a path, walking the
    cleaned path from any directory, where no element is a symbolic link, leads
    where the given path leads, and that is below the directory, by names only. *)
Theorem report_path_inside cwd path cleanPath :
  report_path path = Ok cleanPath -> rooted (list_ascii_of_string path) = false ->
  exists names, names <> [] /\ Forall normal names /\
    resolve cwd cleanPath = names ++ cwd /\ resolve cwd path = names ++ cwd.
Proof.
  intros Hok Hroot. unfold report_path, Clean, clean_list in Hok. rewrite Hroot in Hok.
  unfold resolve at 2. rewrite Hroot. set (l := list_ascii_of_string path) in *.
  destruct (clean_parts_relative l Hroot) as (names & ups & Hn & Hparts & Hwalk). rewrite <- Hwalk.
  rewrite Hparts in *. destruct ups as [|ups].
  2: { exfalso. cbn [replicate app] in Hok. pose proof (dotdot_refused (replicate ups dotdot ++ rev names)) as Href.
       rewrite orb_comm in Href. rewrite Href in Hok. by destruct (_ || _) in Hok. }
  cbn [replicate app] in *. destruct names as [|name names]; [done|]. exists (name :: names).
  split_and!; [done|done| |by apply walk_names].
  rewrite <- (walk_names (name :: names)) by done. apply rev_normal in Hn.
  destruct (rev (name :: names)) as [|part parts] eqn:E; [by apply (f_equal length) in E; rewrite length_rev in E|].
  destruct (_ || _) in Hok; [done|]. destruct (_ || _) in Hok; [done|].
  assert (cleanPath = string_of_list_ascii (join_slash (part :: parts))) as -> by congruence. clear Hok.
  apply Forall_cons in Hn as Hn'. destruct Hn' as [(Hne & _ & _ & Hs) _].
  unfold resolve. rewrite list_ascii_of_string_of_list_ascii, join_head by done.
  rewrite split_join; [done|done|]. eapply Forall_impl; [exact Hn|]. by intros x (_ & _ & _ & ?).
Qed.

(** A rooted path is not refused, whatever it names. *)
Theorem report_path_rooted : report_path "/etc/passwd" = Ok "/etc/passwd" /\
  forall cwd, resolve cwd "/etc/passwd" = rev (map list_ascii_of_string ["etc"; "passwd"]).
Proof. split; [|intros cwd]; vm_compute; reflexivity. Qed.
