(* ===== verification/App.v ===== *)
(** * The application: src/internal/app/app.go, orchestrator_factory.go

    [Run] as a program: what it starts, in which order it stops it, and what it
    leaves behind on each way out.  The parts it starts are modelled elsewhere;
    here they are commands, with what becomes of them as the answer. *)

From stdpp Require Import pretty.
From S2P Require Import Prelude GoLib Strconv Float64 Domain Prog Ports Saga OutboxWorker CleanupWorker Courier Config Health.

Definition storagePingTimeout : Duration := 2 * Second.
Definition gracefulShutdownTimeout : Duration := 5 * Second.
Definition kafkaInitTimeout : Duration := 30 * Second.
Definition kafkaInitRetryDelay : Duration := Second.

(** [grpc.ErrServerStopped] *)
Definition ErrServerStopped : err := ErrOther "grpc: the server has been stopped".

(** How the [select] on the context and the server ends. *)
Inductive serve_end : Type :=
| CtxDone
| ServeReturned (e : option err).

Inductive app_port : Type -> Type :=
| OpenStore (dsn : string) : app_port (option err)
| StoreEnsureSchema : app_port (option err)
| CloseStore : app_port (option err)
| GetenvKafkaBrokers : app_port string
| NewProducer (brokers : list string) : app_port (option err)
| CloseProducer : app_port (option err)
| AppNow : app_port Time
| AppCtxErr : app_port (option err)
| AppWait (d : Duration) : app_port bool                  (* the timer fired before the context ended *)
| GoCleanupWorker (opts : list CleanupOption) : app_port unit
| GoOutboxWorker (opts : list Option_) : app_port unit
| StopCleanupWorker : app_port bool                       (* within the time limit *)
| StopOutboxWorker : app_port bool
| NewServices (o : orchestrator) : app_port unit          (* the services and the gRPC server, with their orchestrator *)
| GoMetricsServer (addr : string) (checkers : list string) : app_port unit
| ShutdownHTTP : app_port (option err)
| ListenTCP (addr : string) : app_port (option err)
| GoServe : app_port unit
| AwaitEnd : app_port serve_end
| GracefulStop : app_port bool                            (* within the time limit *)
| ForceStop : app_port unit
| ShutdownOrderService : app_port (option err).

Abbreviation AM := (prog app_port).

(** ** Storage *)

Section Run.
Context {ul : UnicodeLower}.

Definition normalizedStorageDriver (value : string) : string :=
  let driver := ToLower (TrimSpace value) in
  if driver =s? "" then StorageDriverMemory else driver.

Definition validateMockIntegrationsPolicy (cfg : Config) : option err :=
  if (normalizedStorageDriver (StorageDriver cfg) =s? StorageDriverPostgres) && negb (AllowMockIntegrations cfg)
  then Some (ErrOther ("OMS_ALLOW_MOCK_INTEGRATIONS=true is required for " +:+ StorageDriverPostgres +:+
                       " storage driver: real inventory/payment integrations are not configured"))
  else None.

(** [runtimeDependencies], as far as [Run] looks at it: whether there is a store
    to check and to close. *)
Record runtimeDependencies := MkRuntimeDependencies { rd_postgres : bool }.

Definition initRuntimeDependencies (cfg : Config) : AM (result runtimeDependencies) :=
  let driver := normalizedStorageDriver (StorageDriver cfg) in
  if driver =s? StorageDriverMemory then mret (Ok (MkRuntimeDependencies false))
  else if driver =s? StorageDriverPostgres then
    if TrimSpace (PostgresDSN cfg) =s? ""
    then mret (Err (ErrOther "OMS_POSTGRES_DSN is required for postgres storage driver"))
    else
      opened ← call (OpenStore (PostgresDSN cfg));
      match opened with
      | Some e => mret (Err (ErrWrap "init postgres store" e))
      | None =>
          failed ← (if PostgresAutoMigrate cfg then call StoreEnsureSchema else mret None);
          match failed with
          | Some e => call CloseStore;; mret (Err (ErrWrap "apply postgres schema" e))
          | None => mret (Ok (MkRuntimeDependencies true))
          end
      end
  else mret (Err (ErrOther ("unsupported storage driver: " +:+ driver))).

(** ** Kafka *)

Definition parseKafkaBrokers (raw : string) : list string :=
  if TrimSpace raw =s? "" then []
  else filter (fun broker => broker <> "") (map TrimSpace (Split raw (chr 44))).

(** The loop of [retryWithDeadline]; [None] when the fuel is used up
    ([retry_attempts_end] says how much is enough). *)
Fixpoint retry_attempts (operation : string) (deadline : Time) (retryDelay : Duration) (fn : AM (option err))
    (fuel : nat) (attempt : Z) (lastErr : option err) : AM (option (option err)) :=
  match fuel with
  | O => mret None
  | S fuel =>
      ended ← call AppCtxErr;
      match ended with
      | Some e =>
          mret (Some (Some (match lastErr with None => e | Some _ => ErrWrap (operation +:+ " aborted") e end)))
      | None =>
          let attempt := attempt + 1 in
          failed ← fn;
          match failed with
          | None => mret (Some None)
          | Some e =>
              now ← call AppNow;
              if After now deadline
              then mret (Some (Some (ErrWrap (operation +:+ " failed after " +:+ pretty attempt +:+ " attempts") e)))
              else
                fired ← call (AppWait retryDelay);
                if (fired : bool) then retry_attempts operation deadline retryDelay fn fuel attempt (Some e)
                else
                  ended ← call AppCtxErr;
                  mret (Some (Some (ErrWrap (operation +:+ " aborted") (default (ErrOther "context canceled") ended))))
          end
      end
  end.

Definition retryWithDeadline (operation : string) (timeout retryDelay : Duration) (fn : AM (option err)) (fuel : nat)
  : AM (option (option err)) :=
  let timeout := if timeout <=? 0 then kafkaInitTimeout else timeout in
  let retryDelay := if retryDelay <=? 0 then kafkaInitRetryDelay else retryDelay in
  now ← call AppNow;
  retry_attempts operation (now + timeout) retryDelay fn fuel 0 None.

Definition initKafkaProducerWithRetry (brokers : list string) (fuel : nat) : AM (option (option err)) :=
  outcome ← retryWithDeadline "kafka producer initialization" kafkaInitTimeout kafkaInitRetryDelay
              (call (NewProducer brokers)) fuel;
  mret (match outcome with
        | Some (Some e) => Some (Some (ErrWrap "initialize kafka producer" e))
        | other => other
        end).

(** ** Checks *)

(** The check of the outbox: what [Stats] answers against the limit. *)
Definition outbox_check (maxPending : Z) (stats : result OutboxStats) : option err :=
  match stats with
  | Err e => Some e
  | Ok stats =>
      if (maxPending >? 0) && (OutboxStats_PendingCount stats >? maxPending)
      then Some (ErrOther ("outbox backlog " +:+ pretty (OutboxStats_PendingCount stats) +:+ " exceeds threshold " +:+
                           pretty maxPending))
      else None
  end.

(** ** Run *)

Definition outbox_options (cfg : Config) : list Option_ :=
  [WithDLQPublisher true; WithPollInterval (OutboxPollInterval cfg); WithBatchSize (OutboxBatchSize cfg);
   WithMaxAttempts (OutboxMaxAttempts cfg); WithRetryBaseDelay (OutboxRetryDelay cfg)].

Definition cleanup_options (cfg : Config) : list CleanupOption :=
  [WithCleanupInterval (IdempotencyCleanupInterval cfg); WithCleanupBatchSize (IdempotencyCleanupBatchSize cfg)].

Definition closeKafkaProducer (kafka : bool) : AM unit :=
  if kafka then call CloseProducer;; mret tt else mret tt.
Definition shutdownOutboxWorker (started : bool) : AM unit :=
  if started then call StopOutboxWorker;; mret tt else mret tt.
Definition shutdownIdempotencyCleanupWorker (started : bool) : AM unit :=
  if started then call StopCleanupWorker;; mret tt else mret tt.

Definition shutdownHTTP : AM unit := call ShutdownHTTP;; mret tt.

(** A failure to drain is only logged. *)
Definition shutdownOrderService : AM unit := call ShutdownOrderService;; mret tt.

(** The repositories of both drivers have a timeline. *)
Definition createOrchestrator (kafka : bool) : orchestrator :=
  if kafka then NewOrchestratorWithKafka true true else NewOrchestrator true.

(** The [select] at the end of [Run]. *)
Definition serve (cleanup kafka : bool) : AM (option err) :=
  ended ← call AwaitEnd;
  match ended with
  | CtxDone =>
      stopped ← call GracefulStop;
      (if (stopped : bool) then mret tt else call ForceStop);;
      shutdownOrderService;;
      shutdownOutboxWorker kafka;;
      shutdownIdempotencyCleanupWorker cleanup;;
      closeKafkaProducer kafka;;
      call AppCtxErr
  | ServeReturned e =>
      shutdownOrderService;;
      shutdownHTTP;;
      shutdownOutboxWorker kafka;;
      shutdownIdempotencyCleanupWorker cleanup;;
      closeKafkaProducer kafka;;
      mret (match e with
            | Some e => if errors_Is e ErrServerStopped then None else Some e
            | None => None
            end)
  end.

(** From the services to the end. *)
Definition start_servers (cfg : Config) (postgres cleanup kafka : bool) : AM (option err) :=
  call (NewServices (createOrchestrator kafka));;
  call (GoMetricsServer (MetricsAddr cfg) ((if postgres then ["storage"] else []) ++ (if kafka then ["outbox"] else [])));;
  failed ← call (ListenTCP (GRPCAddr cfg));
  match failed with
  | Some e => mret (Some e)
  | None => call GoServe;; serve cleanup kafka
  end.

(** [Run] after the storage is there; the outer option is the fuel of the
    retry. *)
Definition run_with_storage (cfg : Config) (postgres : bool) (fuel : nat) : AM (option (option err)) :=
  let cleanup := IdempotencyCleanupInterval cfg >? 0 in
  (if cleanup then call (GoCleanupWorker (cleanup_options cfg)) else mret tt);;
  raw ← call GetenvKafkaBrokers;
  let brokers := parseKafkaBrokers raw in
  if negb (TrimSpace raw =s? "") && (length brokers =? 0)%nat
  then mret (Some (Some (ErrOther "KAFKA_BROKERS is set but no valid broker addresses were parsed")))
  else
    match brokers with
    | [] => e ← start_servers cfg postgres cleanup false; mret (Some e)
    | _ =>
        outcome ← initKafkaProducerWithRetry brokers fuel;
        match outcome with
        | None => mret None
        | Some (Some e) => mret (Some (Some e))
        | Some None =>
            call (GoOutboxWorker (outbox_options cfg));;
            e ← start_servers cfg postgres cleanup true;
            mret (Some e)
        end
    end.

Definition Run (cfg : Config) (fuel : nat) : AM (option (option err)) :=
  match validateMockIntegrationsPolicy cfg with
  | Some e => mret (Some (Some e))
  | None =>
      deps ← initRuntimeDependencies cfg;
      match deps with
      | Err e => mret (Some (Some e))
      | Ok deps =>
          outcome ← run_with_storage cfg (rd_postgres deps) fuel;
          (* the deferred close *)
          (if rd_postgres deps then call CloseStore;; mret tt else mret tt);;
          mret outcome
      end
  end.
End Run.

(** ** The HTTP endpoints of [startMetricsServer] *)

Inductive endpoint : Type :=
| PrometheusMetrics
| Healthz
| Livez
| Readyz
| NotFound.

(** The patterns of the mux are whole paths. *)
Definition metrics_route (path : string) : endpoint :=
  if path =s? "/metrics" then PrometheusMetrics
  else if path =s? "/healthz" then Healthz
  else if path =s? "/livez" then Livez
  else if path =s? "/readyz" then Readyz
  else NotFound.

(** The status code of an endpoint of the health checks; [None] for the page of
    Prometheus. *)
Definition endpoint_status {rt : GoRuntime} (loop : nat) (now : Time) (h : Handler) (path : string) : option Z :=
  match metrics_route path with
  | PrometheusMetrics => None
  | Healthz => Some (ServeHTTP loop now h).1
  | Livez => Some StatusOK
  | Readyz => Some (ReadinessHandler loop h).1
  | NotFound => Some 404
  end.

(** ** What can be seen of a run *)

Inductive app_event : Type :=
| EvStoreOpened | EvStoreClosed
| EvProducerOpened | EvProducerClosed
| EvCleanupStarted | EvCleanupStopped
| EvOutboxStarted | EvOutboxStopped
| EvServing
| EvServerStopped | EvOrdersDrained | EvHTTPStopped.

Definition observe_app {X} (c : app_port X) : X -> list app_event :=
  match c in app_port X return X -> list app_event with
  | OpenStore _ => fun e => match e with None => [EvStoreOpened] | Some _ => [] end
  | CloseStore => fun _ => [EvStoreClosed]
  | NewProducer _ => fun e => match e with None => [EvProducerOpened] | Some _ => [] end
  | CloseProducer => fun _ => [EvProducerClosed]
  | GoCleanupWorker _ => fun _ => [EvCleanupStarted]
  | StopCleanupWorker => fun _ => [EvCleanupStopped]
  | GoOutboxWorker _ => fun _ => [EvOutboxStarted]
  | StopOutboxWorker => fun _ => [EvOutboxStopped]
  | GoServe => fun _ => [EvServing]
  | GracefulStop => fun stopped : bool => if stopped then [EvServerStopped] else []
  | ForceStop => fun _ => [EvServerStopped]
  | ShutdownOrderService => fun _ => [EvOrdersDrained]
  | ShutdownHTTP => fun _ => [EvHTTPStopped]
  | _ => fun _ => []
  end.

(** Anything may be answered. *)
Definition outside : environment app_port app_event :=
  Environment app_port app_event (fun _ _ _ => True) (fun _ c x => observe_app c x).

Definition if_ {A} (b : bool) (l : list A) : list A := if b then l else [].

Definition starts (postgres cleanup kafka : bool) : list app_event :=
  if_ postgres [EvStoreOpened] ++ if_ cleanup [EvCleanupStarted] ++ if_ kafka [EvProducerOpened; EvOutboxStarted].

(** The order in which everything is stopped: first the requests and the sagas
    they have started, then the workers, then what they publish to, and the
    storage last. *)
Definition stops (signaled postgres cleanup kafka : bool) : list app_event :=
  (if signaled then [EvServerStopped; EvOrdersDrained] else [EvOrdersDrained; EvHTTPStopped]) ++
  if_ kafka [EvOutboxStopped] ++ if_ cleanup [EvCleanupStopped] ++ if_ kafka [EvProducerClosed] ++
  if_ postgres [EvStoreClosed].

Section Traces.
Context {ul : UnicodeLower}.

(** A command whose answer is dropped. *)
Lemma traces_drop {X B} (c : app_port X) (f : unit -> AM B) (Q : list app_event -> B -> Prop) :
  (forall x, traces outside (f tt) (fun t r => Q (observe_app c x ++ t) r)) ->
  traces outside ((call c;; mret tt) ≫= f) Q.
Proof. intros H. apply (traces_vis outside c (fun _ => f tt)). intros x _. apply H. Qed.

Lemma traces_skip {B} (f : unit -> AM B) (Q : list app_event -> B -> Prop) :
  traces outside (f tt) Q -> traces outside (mret tt ≫= f) Q.
Proof. done. Qed.

Lemma serve_traces cleanup kafka : traces outside (serve cleanup kafka) (fun t _ =>
  exists signaled, t = stops signaled false cleanup kafka).
Proof.
  unfold serve. apply traces_call. intros [|e] _; simpl.
  - apply traces_call. intros stopped _. simpl.
    assert (traces outside (if stopped then mret tt else call ForceStop)
      (fun t _ => (if stopped then [EvServerStopped] else []) ++ t = [EvServerStopped])) as Hf.
    { destruct stopped; [by apply traces_ret|]. apply traces_vis. intros [] _. by apply traces_ret. }
    eapply traces_bind; [exact Hf|]. intros t1 [] Ht1.
    apply (traces_vis outside). intros r _.
    unfold shutdownOutboxWorker, shutdownIdempotencyCleanupWorker, closeKafkaProducer.
    destruct kafka, cleanup; repeat first [apply traces_drop; intros ? | apply traces_skip];
      apply traces_vis; intros ended _; apply traces_ret; exists true; simpl; by rewrite app_assoc, Ht1.
  - do 2 (apply (traces_vis outside); intros ? _).
    unfold shutdownOutboxWorker, shutdownIdempotencyCleanupWorker, closeKafkaProducer.
    destruct kafka, cleanup; repeat first [apply traces_drop; intros ? | apply traces_skip];
      apply traces_ret; by exists false.
Qed.

Lemma start_servers_traces cfg postgres cleanup kafka : traces outside (start_servers cfg postgres cleanup kafka) (fun t _ =>
  t = [] \/ exists signaled, t = EvServing :: stops signaled false cleanup kafka).
Proof.
  unfold start_servers. apply traces_call. intros [] _. apply traces_call. intros [] _. apply traces_call. intros failed _.
  destruct failed; [apply traces_ret; by left|]. apply traces_call. intros [] _.
  eapply traces_mono; [apply serve_traces|]. intros t r [signaled ->]. right. by exists signaled.
Qed.

Lemma retry_attempts_traces operation deadline delay brokers fuel : forall attempt lastErr,
  traces outside (retry_attempts operation deadline delay (call (NewProducer brokers)) fuel attempt lastErr) (fun t r =>
    t = match r with Some None => [EvProducerOpened] | _ => [] end).
Proof.
  induction fuel as [|fuel IH]; intros attempt lastErr; cbn [retry_attempts]; [by apply traces_ret|].
  apply traces_call. intros [e|] _; [by apply traces_ret|]. cbv zeta. apply traces_call. intros [e|] _; [|by apply traces_ret].
  apply traces_call. intros now _. destruct (After now deadline); [by apply traces_ret|].
  apply traces_call. intros [] _; [apply IH|]. apply traces_call. intros e' _. by apply traces_ret.
Qed.

Lemma init_producer_traces brokers fuel : traces outside (initKafkaProducerWithRetry brokers fuel) (fun t r =>
  t = match r with Some None => [EvProducerOpened] | _ => [] end).
Proof.
  unfold initKafkaProducerWithRetry, retryWithDeadline. eapply traces_bind
    with (P := fun t r => t = match r with Some None => [EvProducerOpened] | _ => [] end).
  - apply traces_call. intros now _. exact (retry_attempts_traces _ _ _ _ _ _ _).
  - intros t r ->. apply traces_ret. by destruct r as [[e|]|].
Qed.

(** Served and stopped, or given up before it served. *)
Definition run_shape (postgres cleanup : bool) (t : list app_event) : Prop := exists kafka,
  t = starts postgres cleanup kafka ++ if_ postgres [EvStoreClosed] \/
  exists signaled, t = starts postgres cleanup kafka ++ [EvServing] ++ stops signaled postgres cleanup kafka.

Lemma run_with_storage_traces cfg postgres fuel : traces outside (run_with_storage cfg postgres fuel)
  (fun t _ => run_shape false (IdempotencyCleanupInterval cfg >? 0) t).
Proof.
  unfold run_with_storage. cbv zeta. set (cleanup := IdempotencyCleanupInterval cfg >? 0).
  eapply traces_bind with (P := fun t _ => t = if_ cleanup [EvCleanupStarted]).
  { destruct cleanup; [apply traces_vis; intros [] _|]; by apply traces_ret. }
  intros t [] ->. apply traces_call. intros raw _.
  assert (forall r : option (option err), traces outside (mret r) (fun t' _ => run_shape false cleanup (if_ cleanup [EvCleanupStarted] ++ observe_app GetenvKafkaBrokers raw ++ t'))) as Hnone.
  { intros r. apply traces_ret. exists false. left. unfold starts. simpl. by rewrite !app_nil_r. }
  destruct (_ && _); [apply Hnone|]. destruct (parseKafkaBrokers raw) as [|b brokers].
  - eapply traces_bind; [apply start_servers_traces|]. intros t e Ht. apply traces_ret. exists false.
    unfold starts. simpl. rewrite !app_nil_r. destruct Ht as [->|[signaled ->]]; [left|right; exists signaled]; by rewrite ?app_nil_r.
  - eapply traces_bind; [apply init_producer_traces|]. intros t [[e|]|] ->; [apply Hnone| |apply Hnone].
    apply traces_call. intros [] _. eapply traces_bind; [apply start_servers_traces|]. intros t e Ht. apply traces_ret.
    exists true. unfold starts. simpl. rewrite !app_nil_r. destruct Ht as [->|[signaled ->]]; [left|right; exists signaled];
      by rewrite <- ?app_assoc.
Qed.

Lemma init_traces cfg : traces outside (initRuntimeDependencies cfg) (fun t r =>
  match r with
  | Ok deps => t = if_ (rd_postgres deps) [EvStoreOpened] /\
      (rd_postgres deps = true -> normalizedStorageDriver (StorageDriver cfg) = StorageDriverPostgres)
  | Err _ => t = [] \/ t = [EvStoreOpened; EvStoreClosed]
  end).
Proof.
  unfold initRuntimeDependencies. cbv zeta. destruct (_ =s? StorageDriverMemory); [by apply traces_ret|].
  destruct (String.eqb_spec (normalizedStorageDriver (StorageDriver cfg)) StorageDriverPostgres) as [Hd|];
    [|apply traces_ret; by left].
  destruct (TrimSpace _ =s? ""); [apply traces_ret; by left|]. apply traces_call. intros [e|] _; [apply traces_ret; by left|].
  eapply traces_bind with (P := fun t _ => t = []).
  { destruct (PostgresAutoMigrate cfg); [apply traces_vis; intros r _|]; by apply traces_ret. }
  intros t [e|] ->; [|by apply traces_ret]. apply traces_call. intros r _. apply traces_ret. by right.
Qed.

End Traces.

(** ** The retry ends

    The clock as ghost state: no command takes it back, [time.Now] reads it, and
    a timer of [d] that fired has let at least [d] pass. *)
Definition clock : cmd_spec app_port Time := fun X c now =>
  match c in app_port X return (X -> Time -> Prop) -> Prop with
  | AppNow => fun Q => forall later, now <= later -> Q later later
  | AppWait d => fun Q => forall fired later, now + (if fired : bool then d else 0) <= later -> Q fired later
  | _ => fun Q => forall answer later, now <= later -> Q answer later
  end.

#[export] Instance clock_mono : MonotoneSpec clock.
Proof. intros X c now P Q HPQ. destruct c; simpl; auto. Qed.

(** What is retried takes its time, but ends. *)
Definition takes_time {R} (fn : AM R) : Prop := forall now, wp clock fn now (fun _ later => now <= later).

Lemma retry_attempts_end operation deadline delay (fn : AM (option err)) fuel :
  0 < delay -> takes_time fn -> forall now attempt lastErr,
  deadline + 2 * delay <= now + Z.of_nat fuel * delay -> 0 < Z.of_nat fuel ->
  wp clock (retry_attempts operation deadline delay fn fuel attempt lastErr) now (fun r _ => r <> None).
Proof.
  intros Hd Hfn. induction fuel as [|fuel IH]; intros now attempt lastErr Hfuel Hpos; [simpl in *; lia|].
  cbn [retry_attempts]. apply wp_call. intros [e|] t1 Ht1; [done|]. cbv zeta.
  eapply wp_seq; [apply _|apply Hfn|]. intros [e|] t2 Ht2; [|done].
  apply wp_call. intros t3 Ht3. unfold After. destruct (Z.ltb_spec deadline t3); [done|].
  apply wp_call. intros [] t4 Ht4; [|apply wp_call; by intros e' t5 _].
  apply IH; nia.
Qed.

Lemma new_producer_takes_time brokers : takes_time (call (NewProducer brokers)).
Proof. intros now answer later Hl. exact Hl. Qed.

(** The initialisation of the Kafka producer ends: with the time limit of
    30 s and a retry every second, it has given up (or succeeded) after at most
    32 attempts, whatever the brokers and the context do, as long as the clock
    does not go back. *)
Theorem kafka_init_ends brokers now :
  wp clock (initKafkaProducerWithRetry brokers 32) now (fun outcome _ => outcome <> None).
Proof.
  unfold initKafkaProducerWithRetry, retryWithDeadline. cbv zeta.
  eapply wp_seq with (P := fun r _ => r <> None); [apply _| |].
  - apply wp_call. intros start _. apply retry_attempts_end; [done|apply new_producer_takes_time| |done].
    unfold kafkaInitTimeout, kafkaInitRetryDelay, Second, Millisecond, Microsecond. simpl. lia.
  - by intros [[e|]|] t Hr.
Qed.

(** ** A port that is taken

    The trace of a run answered by a list of facts about the outside: [listen]
    is what [net.Listen] says. *)
Definition surroundings (kafka_brokers : string) (listen : option err) (ended : serve_end)
  : handler app_port (list app_event) := fun X c log =>
  let answer : X :=
    match c in app_port X return X with
    | OpenStore _ | StoreEnsureSchema | CloseStore | NewProducer _ | CloseProducer | AppCtxErr
    | ShutdownHTTP | ShutdownOrderService => None
    | GetenvKafkaBrokers => kafka_brokers
    | AppNow => 0
    | AppWait _ | StopCleanupWorker | StopOutboxWorker | GracefulStop => true
    | GoCleanupWorker _ | GoOutboxWorker _ | NewServices _ | GoMetricsServer _ _ | GoServe | ForceStop => tt
    | ListenTCP _ => listen
    | AwaitEnd => ended
    end in
  (answer, log ++ observe_app c answer).

(** When the gRPC address cannot be bound, [Run] returns without stopping the
    workers it has started and without closing the producer. *)
Theorem listen_failure_leaks {ul : UnicodeLower} :
  let in_use := ErrOther "listen tcp :50051: bind: address already in use" in
  run (surroundings "kafka:9092" (Some in_use) CtxDone) (Run DefaultConfig 32) [] =
    (Some (Some in_use), [EvCleanupStarted; EvProducerOpened; EvOutboxStarted]).
Proof. vm_compute. reflexivity. Qed.
