(* ===== verification/Process.v ===== *)
(** * The process: src/cmd/order-service/main.go, src/internal/version,
      src/internal/storage/postgres/store.go, src/internal/messaging/kafka/producer.go

    [main] around [App.Run], the logger's level, the version, the connection
    pool of the PostgreSQL store and the Kafka producer.  logrus.ParseLevel, the
    database driver and sarama are outside. *)

From S2P Require Import Prelude GoLib Domain OrderStore TimelineStore OutboxStore Prog CleanupWorker Strconv Courier CourierStore World Config App.

(** ** main *)

Section Main.
Context {ul : UnicodeLower}.

Definition envLogLevel : string := "LOG_LEVEL".

(** The level of the logger, and whether a warning is logged: [levels] are the
    levels of logrus, [ParseLevel] is its function. *)
Definition setupLogger {level : Type} (InfoLevel : level) (ParseLevel : string -> option level) (lookup : envLookup)
  : level * bool :=
  match lookupEnvTrimmed lookup envLogLevel with
  | None => (InfoLevel, false)
  | Some levelRaw =>
      match ParseLevel (ToLower levelRaw) with
      | None => (InfoLevel, true)
      | Some level => (level, false)
      end
  end.

Definition readConfig (lookup : envLookup) : Config := fst (readConfigFromEnv lookup).

(** The exit status: [log.Fatal] is 1; the outer option is the fuel of [Run]. *)
Definition main (lookup : envLookup) (fuel : nat) : AM (option Z) :=
  failed ← Run (readConfig lookup) fuel;
  mret (match failed with
        | None => None
        | Some (Some e) => Some (if errors_Is e context_Canceled then 0 else 1)
        | Some None => Some 0
        end).
End Main.

(** ** The store *)

Inductive pool_port : Type -> Type :=
| SqlOpen (dsn : string) : pool_port (option err)
| SetLimits (maxOpen maxIdle : Z) (lifetime idleTime : Duration) : pool_port unit
| PingContext (timeout : Duration) : pool_port (option err)
| CloseDB : pool_port (option err).

Abbreviation PM := (prog pool_port).

Definition defaultConnTimeout : Duration := 5 * Second.
Definition defaultMaxOpenConns : Z := 25.
Definition defaultMaxIdleConns : Z := 25.
Definition defaultConnMaxLifetime : Duration := 30 * Minute.
Definition defaultConnMaxIdleTime : Duration := 5 * Minute.

(** Whether the pool of the store is not nil. *)
Record Store := MkStore { store_db : bool }.

Definition Open (dsn : string) : PM (result Store) :=
  opened ← call (SqlOpen dsn);
  match opened with
  | Some e => mret (Err (ErrWrap "open postgres connection" e))
  | None =>
      call (SetLimits defaultMaxOpenConns defaultMaxIdleConns defaultConnMaxLifetime defaultConnMaxIdleTime);;
      pinged ← call (PingContext defaultConnTimeout);
      match pinged with
      | Some e => call CloseDB;; mret (Err (ErrWrap "ping postgres" e))
      | None => mret (Ok (MkStore true))
      end
  end.

Definition DB (s : Store) : bool := store_db s.

(** [s == nil || s.db == nil] *)
Definition no_db (s : option Store) : bool := match s with Some s => negb (store_db s) | None => true end.

Definition Ping (s : option Store) : PM (option err) :=
  if no_db s then mret (Some (ErrOther "postgres store is not initialized")) else call (PingContext defaultConnTimeout).

Definition Close (s : option Store) : PM (option err) :=
  if no_db s then mret None else call CloseDB.

(** ** The Kafka producer *)

(** The fields of [sarama.Config] that are set. *)
Record producer_config := MkProducerConfig {
  pc_WaitForAll : bool;
  pc_RetryMax : Z;
  pc_ReturnSuccesses : bool;
  pc_Snappy : bool;
  pc_Idempotent : bool;
  pc_MaxOpenRequests : Z;
}.

Inductive producer_port : Type -> Type :=
| NewSyncProducer (brokers : list string) (config : producer_config) : producer_port (option err)
| CloseSyncProducer : producer_port (option err).

Definition NewKafkaProducer (brokers : list string) : prog producer_port (option err) :=
  failed ← call (NewSyncProducer brokers (MkProducerConfig true 5 true true true 1));
  mret (match failed with Some e => Some (ErrWrap "failed to create kafka producer" e) | None => None end).

Definition CloseProducer : prog producer_port (option err) :=
  failed ← call CloseSyncProducer;
  mret (match failed with Some e => Some (ErrWrap "failed to close kafka producer" e) | None => None end).

(** [initKafkaProducer]: whether there is a producer, and the error. *)
Definition initKafkaProducer (brokers : string) : prog producer_port (bool * option err) :=
  if brokers =s? "" then mret (false, None)
  else
    failed ← NewKafkaProducer (Split brokers (chr 44));
    mret (match failed with Some e => (false, Some e) | None => (true, None) end).

Definition closeKafka (producer : bool) : prog producer_port unit :=
  if producer then CloseProducer;; mret tt else mret tt.

(** ** Dependencies of a local run *)

Record Dependencies := MkDependencies {
  dep_Repo : MemoryOrders.items;
  dep_CourierRepo : MemoryCouriers.repository;
  dep_OutboxRepo : MemoryOutbox.records;
  dep_TimelineRepo : MemoryTimeline.events;
  dep_mocks : MockService;               (* InventorySvc and PaymentSvc *)
}.

(** [now] is the clock of [NewCourierRepository]. *)
Definition NewDependencies (now : Time) : Dependencies :=
  MkDependencies MemoryOrders.NewOrderRepository (MemoryCouriers.NewCourierRepository now)
    MemoryOutbox.NewOutboxRepository MemoryTimeline.NewTimelineRepository NewMockService.

(** ** Version *)

Module Version.

(** The variables the linker sets. *)
Record build_info := MkBuildInfo { version : string; commit : string; date : string }.

Definition default_build : build_info := MkBuildInfo "dev" "unknown" "unknown".
Definition Info (b : build_info) : string * string * string := (version b, commit b, date b).
Definition GetVersion (b : build_info) : string := version b.
Definition GetCommit (b : build_info) : string := commit b.
Definition GetDate (b : build_info) : string := date b.
Definition String (b : build_info) : string :=
  "version=" +:+ version b +:+ " commit=" +:+ commit b +:+ " date=" +:+ date b.

End Version.

(** ** No pool is lost *)

Inductive pool_event : Type := PoolOpened | PoolLimited | PoolPinged (ok : bool) | PoolClosed.

Definition observe_pool X (c : pool_port X) : X -> list pool_event :=
  match c in pool_port X return X -> list pool_event with
  | SqlOpen _ => fun r => match r with None => [PoolOpened] | Some _ => [] end
  | SetLimits _ _ _ _ => fun _ => [PoolLimited]
  | PingContext timeout => fun r => [PoolPinged (match r with None => true | Some _ => false end)]
  | CloseDB => fun _ => [PoolClosed]
  end.

(** Any answer of the driver. *)
Definition driver : environment pool_port pool_event := Environment _ _ (fun _ _ _ => True) observe_pool.

(** A store that is opened and closed, whatever the driver answers: a pool is
    opened at most once, limited before it is used, and closed exactly once
    whether the ping, by then or later, succeeds or not. *)
Theorem store_pool_closed dsn :
  traces driver
    (opened ← Open dsn;
     match opened with
     | Ok s => ping ← Ping (Some s); closed ← Close (Some s); mret true
     | Err _ => closed ← Close None; mret false
     end)
    (fun t ok => (ok = false /\ (t = [] \/ t = [PoolOpened; PoolLimited; PoolPinged false; PoolClosed])) \/
       (ok = true /\ exists healthy, t = [PoolOpened; PoolLimited; PoolPinged true; PoolPinged healthy; PoolClosed])).
Proof.
  unfold traces, Open. cbn. intros [e|] _; cbn; [auto|]. intros [] _. cbn. intros [e|] _; cbn.
  - intros r _. cbn. auto.
  - intros [e|] _; cbn; intros r _; cbn; right; eauto.
Qed.

(** ** The process ends *)

Lemma clock_any {A} (p : AM A) : forall now, wp clock p now (fun _ _ => True).
Proof. induction p as [a|X c k IH]; intros now; simpl; [done|]. destruct c; simpl; intros; apply IH. Qed.

Lemma clock_skip {A B} (p : AM A) (f : A -> AM B) Q now :
  (forall a later, wp clock (f a) later Q) -> wp clock (p ≫= f) now Q.
Proof. intros Hf. eapply wp_seq; [apply _|apply clock_any|]. auto. Qed.

(** The process does not hang before it serves: with a fuel of 32 for the
    attempts of the Kafka producer, [main] comes to an exit status, whatever the
    environment, the storage, the brokers and the servers answer, as long as the
    clock does not go back. *)
Theorem main_exits {ul : UnicodeLower} lookup now :
  wp clock (main lookup 32) now (fun status _ => status = Some 0 \/ status = Some 1).
Proof.
  unfold main. eapply wp_seq with (P := fun r _ => r <> None); [apply _| |].
  2: { intros [[e|]|] t Hr; simpl; [|auto|done]. destruct (errors_Is e context_Canceled); auto. }
  unfold Run. destruct (validateMockIntegrationsPolicy _); [done|].
  apply clock_skip. intros [deps|e] t; [|done].
  eapply wp_seq with (P := fun r _ => r <> None); [apply _| |].
  2: { intros r t' Hr. apply clock_skip. by intros. }
  unfold run_with_storage. cbv zeta. apply clock_skip. intros _ t1. apply clock_skip. intros raw t2.
  destruct (_ && _); [done|]. destruct (parseKafkaBrokers raw) as [|b brokers].
  - apply clock_skip. done.
  - eapply wp_seq; [apply _|apply kafka_init_ends|]. intros [[e|]|] t3 Hr; [done| |done].
    apply clock_skip. intros _ t4. apply clock_skip. done.
Qed.
