(* ===== verification/Kafka.v ===== *)
(** * Kafka: src/internal/messaging/kafka

    The consumer with its retries and dead letter queue, the producer and the
    outbox publisher.  What the sarama client does (delivering messages, sending
    them, keeping offsets) and the message handler are commands; log lines are
    not modelled. *)

From stdpp Require Import pretty.
From S2P Require Import Prelude GoLib Json Strconv Domain Prog Ports OutboxWorker.

(** ** Messages *)

Definition HeaderRetryCount : string := "x-retry-count".

Record ConsumerMessage := MkConsumerMessage {
  Msg_Topic : string;
  Msg_Partition : Z;
  Msg_Offset : Z;
  Msg_Key : bytes;
  Msg_Value : bytes;
  Msg_Headers : list (bytes * bytes);
}.

(** What the select of [ConsumeClaim] receives: a message, nil from the closed
    channel, or the end of the session's context. *)
Inductive claim_event : Type :=
| ClaimMessage (m : ConsumerMessage)
| ClaimClosed
| SessionDone.

Inductive kafka_port : Type -> Type :=
| ReceiveClaim : kafka_port claim_event
| HandleMessage (m : ConsumerMessage) : kafka_port (option err)   (* c.handler *)
| WaitOrDone (d : Duration) : kafka_port (option err)             (* select on ctx.Done() and a timer *)
| MarkMessage (m : ConsumerMessage) : kafka_port unit
| KafkaNow : kafka_port Time
| SendMessage (topic key : string) (value : bytes) : kafka_port (option err).

Abbreviation KM := (prog kafka_port).

(** ** Producer *)

(** [PublishEvent], given the encoding of the event ([None]: [json.Marshal]
    failed). *)
Definition PublishEvent (topic key : string) (event : option bytes) : KM (option err) :=
  match event with
  | None => mret (Some (ErrWrap "failed to marshal event" (ErrOther "json: error")))
  | Some eventData =>
      sent ← call (SendMessage topic key eventData);
      mret (match sent with Some e => Some (ErrWrap "failed to send message" e) | None => None end)
  end.

(** ** Outbox publisher *)

Record OutboxTopicPublisher := MkOutboxTopicPublisher {
  pub_has_producer : bool;
  pub_topic : string;
}.

Definition NewOutboxPublisher (producer : bool) (topic : string) : OutboxTopicPublisher :=
  MkOutboxTopicPublisher producer (if topic =s? "" then TopicOrderEvents else topic).

(** A member of a JSON object with the text of its value. *)
Definition member (k v : string) : string := json_string k +:+ ":" +:+ v.

(** The envelope, its fields in the order of the struct. *)
Definition envelope_text (event : OutboxMessage) (publishedAt : Time) : option bytes :=
  match raw_message (OutboxMessage_Payload event) with
  | None => None
  | Some raw =>
      Some ("{" +:+ join_comma
        [member "id" (json_string (OutboxMessage_ID event));
         member "aggregate_type" (json_string (OutboxMessage_AggregateType event));
         member "aggregate_id" (json_string (OutboxMessage_AggregateID event));
         member "event_type" (json_string (OutboxMessage_EventType event));
         member "payload" raw;
         member "published_at" (json_string (FormatRFC3339Nano publishedAt))] +:+ "}")
  end.

Definition Publish (p : OutboxTopicPublisher) (event : OutboxMessage) : KM (option err) :=
  if negb (pub_has_producer p) then mret (Some (ErrOther "kafka outbox publisher is not initialized"))
  else
    let key := if OutboxMessage_AggregateID event =s? "" then OutboxMessage_ID event
               else OutboxMessage_AggregateID event in
    t ← call KafkaNow;
    PublishEvent (pub_topic p) key (envelope_text event t).

(** ** Consumer *)

Record Consumer := MkConsumer {
  con_has_dlq : bool;
  con_maxRetries : Z;
  con_retryDelay : Duration;
}.

Definition defaultConsumerRetryDelay : Duration := 100 * Millisecond.

Definition NewConsumerWithDLQ (dlqProducer : bool) (maxRetries : Z) : Consumer :=
  MkConsumer dlqProducer (if maxRetries <=? 0 then 1 else maxRetries) defaultConsumerRetryDelay.

Definition NewConsumer : Consumer := NewConsumerWithDLQ false 3.

(** The first header of the name with an integer counts. *)
Fixpoint retry_header (headers : list (bytes * bytes)) : Z :=
  match headers with
  | [] => 0
  | (key, value) :: rest =>
      if key =s? HeaderRetryCount
      then match Atoi value with Some count => count | None => retry_header rest end
      else retry_header rest
  end.

Definition getRetryCount (m : ConsumerMessage) : Z := retry_header (Msg_Headers m).

Definition dlq_members (m : ConsumerMessage) (processingErr : err) (t : Time) : gmap string jvalue :=
  <["original_topic" := JStr (Msg_Topic m)]>
  (<["original_partition" := JInt (Msg_Partition m)]>
  (<["original_offset" := JInt (Msg_Offset m)]>
  (<["original_key" := JStr (Msg_Key m)]>
  (<["original_value" := JStr (Msg_Value m)]>
  (<["error_message" := JStr (Error processingErr)]>
  (<["failed_at" := JStr (FormatRFC3339 t)]>
  (<["retry_count" := JInt (getRetryCount m)]> ∅))))))).

Definition sendToDLQ (m : ConsumerMessage) (processingErr : err) : KM (option err) :=
  t ← call KafkaNow;
  PublishEvent TopicDeadLetterQueue (Msg_Key m) (Some (json_Marshal (dlq_members m processingErr t))).

Section ConsumerLoop.
Context (c : Consumer).

Definition handleMaxRetriesExceeded (m : ConsumerMessage) (processingErr : err) : KM (option err) :=
  if con_has_dlq c then
    sent ← sendToDLQ m processingErr;
    mret (match sent with Some dlqErr => Some (ErrWrap "failed to send to DLQ" dlqErr) | None => None end)
  else mret (Some processingErr).

Definition sleepWithContext (delay : Duration) : KM (option err) :=
  if delay <=? 0 then mret None else call (WaitOrDone delay).

(** The loop, with the attempts that are left. *)
Fixpoint handle_attempts (remaining : nat) (attempt maxRetries : Z) (m : ConsumerMessage) : KM (option err) :=
  match remaining with
  | O => mret None
  | S remaining =>
      handled ← call (HandleMessage m);
      match handled with
      | None => mret None
      | Some e =>
          if attempt >=? maxRetries then handleMaxRetriesExceeded m e
          else
            waited ← sleepWithContext (con_retryDelay c);
            match waited with
            | Some ctxErr => mret (Some ctxErr)
            | None => handle_attempts remaining (attempt + 1) maxRetries m
            end
      end
  end.

Definition exceeds (retryCount maxRetries : Z) : err :=
  ErrOther ("retry_count=" +:+ pretty retryCount +:+ " exceeds max_retries=" +:+ pretty maxRetries).

Definition handleMessageWithRetry (m : ConsumerMessage) : KM (option err) :=
  let retryCount := getRetryCount m in
  let maxRetries := if con_maxRetries c <=? 0 then 1 else con_maxRetries c in
  let attempt := wrap64 (retryCount + 1) in
  if attempt >? maxRetries then handleMaxRetriesExceeded m (exceeds retryCount maxRetries)
  else handle_attempts (Z.to_nat (maxRetries - attempt + 1)) attempt maxRetries m.

(** The loop of [ConsumeClaim], for a number of rounds; it ends only when the
    claim is closed or the session is done. *)
Fixpoint ConsumeClaim (rounds : nat) : KM unit :=
  match rounds with
  | O => mret tt
  | S rounds =>
      received ← call ReceiveClaim;
      match received with
      | ClaimClosed | SessionDone => mret tt
      | ClaimMessage m =>
          failed ← handleMessageWithRetry m;
          (match failed with
           | Some _ => mret tt
           | None => call (MarkMessage m)
           end);;
          ConsumeClaim rounds
      end
  end.
End ConsumerLoop.

(** ** What a consumer does, on every run *)

Inductive kafka_event : Type :=
| Received (e : claim_event)
| Handled (m : ConsumerMessage) (r : option err)
| Waited (d : Duration) (r : option err)      (* an error: the context ended the wait *)
| Sent (topic key : string) (value : bytes) (r : option err)
| Marked (m : ConsumerMessage).

Definition observed X (c : kafka_port X) : X -> list kafka_event :=
  match c in kafka_port X return X -> list kafka_event with
  | ReceiveClaim => fun e => [Received e]
  | HandleMessage m => fun r => [Handled m r]
  | SendMessage topic key value => fun r => [Sent topic key value r]
  | MarkMessage m => fun _ => [Marked m]
  | WaitOrDone d => fun r => [Waited d r]
  | KafkaNow => fun _ => []
  end.

(** Broker, handler, clock and context may answer anything. *)
Definition cluster : environment kafka_port kafka_event :=
  {| allowed := fun _ _ _ => True; observe := observed |}.

Definition is_ok (r : option err) : bool := match r with None => true | Some _ => false end.

Section ConsumerEffects.
Context (c : Consumer).
Hypothesis retries_pos : 0 < con_maxRetries c.
Hypothesis delay_pos : 0 < con_retryDelay c.

(** The attempts a message has here, after those its header counts. *)
Definition attempts_left (m : ConsumerMessage) : nat :=
  Z.to_nat (con_maxRetries c - wrap64 (getRetryCount m + 1) + 1).

(** Attempts that failed, each with the whole wait for the next one. *)
Definition retried (m : ConsumerMessage) (es : list err) : list kafka_event :=
  flat_map (fun e => [Handled m (Some e); Waited (con_retryDelay c) None]) es.

(** What follows the last failure [e]: the message goes to the dead letter
    queue with this error, when there is one. *)
Definition dead_letter (m : ConsumerMessage) (e : err) (l : list kafka_event) (done : bool) : Prop :=
  if con_has_dlq c
  then exists t r, done = is_ok r /\
    l = [Sent TopicDeadLetterQueue (Msg_Key m) (json_Marshal (dlq_members m e t)) r]
  else done = false /\ l = [].

(** One message, with [n] attempts: what is observed, and whether the message
    counts as processed. *)
Inductive message_effects (m : ConsumerMessage) (n : nat) : list kafka_event -> bool -> Prop :=
| msg_handled es : (length es < n)%nat ->
    message_effects m n (retried m es ++ [Handled m None]) true
| msg_interrupted es e ctxErr : (S (length es) < n)%nat ->
    message_effects m n (retried m es ++ [Handled m (Some e); Waited (con_retryDelay c) (Some ctxErr)]) false
| msg_used_up es e l done : S (length es) = n -> dead_letter m e l done ->
    message_effects m n (retried m es ++ Handled m (Some e) :: l) done
| msg_no_attempt l done : n = 0%nat -> dead_letter m (exceeds (getRetryCount m) (con_maxRetries c)) l done ->
    message_effects m n l done.

(** The rounds of a claim: each receives, and a message is handled before the
    next is received; the claim ends only when it is over. *)
Inductive claim_effects : nat -> list kafka_event -> Prop :=
| claim_cut : claim_effects 0 []
| claim_over n e : e = ClaimClosed \/ e = SessionDone -> claim_effects (S n) [Received e]
| claim_next n m l rest (done : bool) : message_effects m (attempts_left m) l done -> claim_effects n rest ->
    claim_effects (S n) (Received (ClaimMessage m) :: l ++ (if done then [Marked m] else []) ++ rest).

Lemma exceeded_traces m e :
  traces cluster (handleMaxRetriesExceeded c m e) (fun t r => dead_letter m e t (is_ok r)).
Proof.
  unfold handleMaxRetriesExceeded, dead_letter. destruct (con_has_dlq c); [|by apply traces_ret].
  unfold sendToDLQ. apply traces_vis. intros t _. apply traces_vis. intros r _.
  destruct r as [er|]; apply traces_ret; [exists t, (Some er)|exists t, None]; done.
Qed.

Lemma retried_snoc m es e t :
  retried m (es ++ [e]) ++ t = retried m es ++ Handled m (Some e) :: Waited (con_retryDelay c) None :: t.
Proof. unfold retried. by rewrite flat_map_app, <- app_assoc. Qed.

Lemma attempts_traces m n remaining : forall attempt es,
  attempt + Z.of_nat remaining = con_maxRetries c + 1 -> (length es + remaining = n)%nat -> (0 < remaining)%nat ->
  traces cluster (handle_attempts c remaining attempt (con_maxRetries c) m)
    (fun t r => message_effects m n (retried m es ++ t) (is_ok r)).
Proof.
  induction remaining as [|k IH]; intros attempt es Hsum Hes Hpos; [lia|]. cbn [handle_attempts].
  apply traces_call. intros [e|] _; [|apply traces_ret; apply msg_handled; lia]. simpl observe.
  destruct (Z.geb_spec attempt (con_maxRetries c)).
  - eapply traces_mono; [apply exceeded_traces|]. intros t r Ht. apply msg_used_up; [lia|done].
  - unfold sleepWithContext. rewrite (proj2 (Z.leb_gt _ _)) by done.
    apply traces_call. intros [ce|] _.
    + apply traces_ret. apply msg_interrupted. lia.
    + eapply traces_mono; [apply (IH (attempt + 1) (es ++ [e])); rewrite ?length_app; simpl; lia|].
      intros t r Ht. cbv beta in Ht. by rewrite retried_snoc in Ht.
Qed.

Lemma message_traces m :
  traces cluster (handleMessageWithRetry c m) (fun t r => message_effects m (attempts_left m) t (is_ok r)).
Proof.
  unfold handleMessageWithRetry, attempts_left. rewrite (proj2 (Z.leb_gt _ _)) by done.
  rewrite Z.gtb_ltb. destruct (Z.ltb_spec (con_maxRetries c) (wrap64 (getRetryCount m + 1))).
  - eapply traces_mono; [apply exceeded_traces|]. intros t r Ht. apply msg_no_attempt; [lia|done].
  - apply (attempts_traces m (Z.to_nat (con_maxRetries c - wrap64 (getRetryCount m + 1) + 1))
             (Z.to_nat (con_maxRetries c - wrap64 (getRetryCount m + 1) + 1)) _ []); simpl; lia.
Qed.

Lemma ConsumeClaim_traces rounds : traces cluster (ConsumeClaim c rounds) (fun t _ => claim_effects rounds t).
Proof.
  induction rounds as [|n IH]; cbn [ConsumeClaim]; [apply traces_ret; constructor|].
  apply traces_call. intros [m| |] _; [|apply traces_ret; constructor; auto..].
  eapply traces_bind; [apply message_traces|]. intros l r Hl. simpl.
  destruct r as [e|].
  - eapply traces_mono; [exact IH|]. intros t ? Ht. exact (claim_next n m l t false Hl Ht).
  - apply traces_call. intros ? _. eapply traces_mono; [exact IH|]. intros t ? Ht.
    exact (claim_next n m l t true Hl Ht).
Qed.
End ConsumerEffects.

(** C35. A consumer, whatever broker, handler and context do: it receives until
    the claim is over, and each message is handled before the next is received.
    A message is handled until it succeeds, with the whole retry delay between
    attempts; it is left early only when the context ends such a wait.  After
    as many failures as its retry header leaves of the maximum it is offered to
    the dead letter queue, once, with its last error.  It is marked as
    processed exactly when a handler succeeded or the dead letter queue took
    it. *)
Theorem consumer_effects dlqProducer maxRetries rounds :
  let c := NewConsumerWithDLQ dlqProducer maxRetries in
  traces cluster (ConsumeClaim c rounds) (fun t _ => claim_effects c rounds t) /\
  forall m, 0 <= getRetryCount m < maxInt64 -> Z.of_nat (attempts_left c m) <= con_maxRetries c.
Proof.
  intros c. assert (0 < con_maxRetries c) as Hc.
  { unfold c, NewConsumerWithDLQ. simpl. destruct (Z.leb_spec maxRetries 0); lia. }
  split; [by apply ConsumeClaim_traces|]. intros m Hm. unfold attempts_left.
  rewrite wrap64_id by (unfold_widths; lia). lia.
Qed.

(** A session in which the handler always fails and the dead letter queue takes
    everything; the state counts the calls of the handler. *)
Definition failing_handler : handler kafka_port nat :=
  fun X c calls =>
    match c in kafka_port X return X * nat with
    | ReceiveClaim => (ClaimClosed, calls)
    | HandleMessage _ => (Some (ErrOther "handler failed"), S calls)
    | WaitOrDone _ => (None, calls)
    | MarkMessage _ => (tt, calls)
    | KafkaNow => (0, calls)
    | SendMessage _ _ _ => (None, calls)
    end.

Definition with_retry_header (count : string) : ConsumerMessage :=
  MkConsumerMessage "oms.order.events" 0 7 "k" "{}" [(HeaderRetryCount, count)].

Definition handler_calls (m : ConsumerMessage) : nat :=
  (run failing_handler (handleMessageWithRetry (NewConsumerWithDLQ true 3) m) O).2.

(** The retry header is trusted: with a maximum of 3, a message with the
    count 1 is handled twice and one with the count 3 never, but one with a
    negative count is handled more often than the maximum. *)
Theorem negative_retry_count :
  handler_calls (with_retry_header "1") = 2%nat /\ handler_calls (with_retry_header "3") = 0%nat /\
  handler_calls (with_retry_header "-9") = 12%nat.
Proof. vm_compute. done. Qed.
