(* ===== verification/KafkaEvents.v ===== *)
(** * Kafka events: src/internal/messaging/kafka/events.go, consumer.go

    The events as [Producer.PublishEvent] encodes them and as [ParseSagaEvent]
    and [ParseOrderEvent] read them.  The location of a time is the offset of
    the local zone from UTC in seconds, when the event is made. *)

From S2P Require Import Prelude GoLib Json Strconv JsonText Float64 Rounding JsonStruct Rfc3339 Domain Prog Ports OutboxWorker Kafka.

Definition EventTypeOrderCreated : EventType := "order.created".
Definition EventTypeOrderConfirmed : EventType := "order.confirmed".
Definition EventTypeOrderCanceled : EventType := "order.canceled".
Definition EventTypeOrderRefunded : EventType := "order.refunded".

Definition HeaderOriginalTopic : string := "x-original-topic".
Definition HeaderErrorMessage : string := "x-error-message".
Definition HeaderFailedAt : string := "x-failed-at".

Record OrderEvent := MkOrderEvent {
  OrderEvent_EventType : EventType;
  OrderEvent_OrderID : string;
  OrderEvent_CustomerID : string;
  OrderEvent_Status : string;
  OrderEvent_Timestamp : Time;
  OrderEvent_Metadata : gmap string jvalue;
}.

Definition NewOrderEvent (now : Time) (eventType : EventType) (orderID customerID status : string)
    (metadata : gmap string jvalue) : OrderEvent :=
  MkOrderEvent eventType orderID customerID status now metadata.

(** ** Encoding *)

(** [omitempty]: a map without members is left out. *)
Definition metadata_member (metadata : gmap string jvalue) : list string :=
  if decide (metadata = ∅) then [] else [member "metadata" (json_Marshal metadata)].

Definition encode_SagaEvent (offset : Z) (event : SagaEvent) : option bytes :=
  timestamp ← time_MarshalJSON offset (SagaEvent_Timestamp event);
  Some ("{" +:+ join_comma ([member "event_type" (json_string (SagaEvent_EventType event));
                             member "order_id" (json_string (SagaEvent_OrderID event));
                             member "timestamp" timestamp] ++ metadata_member (SagaEvent_Metadata event)) +:+ "}").

Definition encode_OrderEvent (offset : Z) (event : OrderEvent) : option bytes :=
  timestamp ← time_MarshalJSON offset (OrderEvent_Timestamp event);
  Some ("{" +:+ join_comma ([member "event_type" (json_string (OrderEvent_EventType event));
                             member "order_id" (json_string (OrderEvent_OrderID event));
                             member "customer_id" (json_string (OrderEvent_CustomerID event));
                             member "status" (json_string (OrderEvent_Status event));
                             member "timestamp" timestamp] ++ metadata_member (OrderEvent_Metadata event)) +:+ "}").

(** ** Decoding

    The same structs, with the values of type [any] that decoding makes. *)

Record saga_event_read := MkSagaEventRead {
  sr_EventType : EventType;
  sr_OrderID : string;
  sr_Timestamp : Time;
  sr_Metadata : gmap string any_value;
}.

Record order_event_read := MkOrderEventRead {
  or_EventType : EventType;
  or_OrderID : string;
  or_CustomerID : string;
  or_Status : string;
  or_Timestamp : Time;
  or_Metadata : gmap string any_value;
}.

(** A field of type [time.Time]: [UnmarshalJSON] is called for every member. *)
Fixpoint time_field (texts : list bytes) (t : Time) : option Time :=
  match texts with
  | [] => Some t
  | text :: texts =>
      match time_UnmarshalJSON text with
      | Unchanged => time_field texts t
      | Decoded t => time_field texts t
      | Undecoded => None
      end
  end.

(** The fields both structs have, and whether the others are strings. *)
Definition event_fields (names : list string) (data : bytes)
  : option (list (string * json) * Time * gmap string any_value) :=
  ms ← struct_members data;
  if forallb (string_typed ms) names then
    timestamp ← time_field (field_texts data "timestamp") 0;
    metadata ← map_field ms "metadata" ∅;
    Some (ms, timestamp, metadata)
  else None.

Definition ParseSagaEvent (message : ConsumerMessage) : saga_event_read + err :=
  match event_fields ["event_type"; "order_id"] (Msg_Value message) with
  | None => inr (ErrWrap "failed to unmarshal saga event" (ErrOther "json: error"))
  | Some (ms, timestamp, metadata) =>
      inl (MkSagaEventRead (string_field ms "event_type") (string_field ms "order_id") timestamp metadata)
  end.

Definition ParseOrderEvent (message : ConsumerMessage) : order_event_read + err :=
  match event_fields ["event_type"; "order_id"; "customer_id"; "status"] (Msg_Value message) with
  | None => inr (ErrWrap "failed to unmarshal order event" (ErrOther "json: error"))
  | Some (ms, timestamp, metadata) =>
      inl (MkOrderEventRead (string_field ms "event_type") (string_field ms "order_id")
             (string_field ms "customer_id") (string_field ms "status") timestamp metadata)
  end.

(** ** Round trip *)

Definition metadata_ok (metadata : gmap string jvalue) : Prop :=
  forall k v, metadata !! k = Some v -> valid_utf8 k = true /\ jvalue_ok v.

(** The members of an encoded event. *)
Definition string_members (fields : list (string * string)) : list written :=
  map (fun '(name, s) => MkWritten name (json_string s) (JsonString (ToValidUTF8 s))) fields.

Definition metadata_written (metadata : gmap string jvalue) : list written :=
  if decide (metadata = ∅) then []
  else [MkWritten "metadata" (json_Marshal metadata) (JsonObject (map decoded_member (sorted_members metadata)))].

Definition event_written (fields : list (string * string)) (timestamp : bytes) (v : json) (metadata : gmap string jvalue)
  : list written :=
  string_members fields ++ MkWritten "timestamp" timestamp v :: metadata_written metadata.

Lemma event_written_ok fields timestamp v metadata : readable timestamp v ->
  Forall written_ok (event_written fields timestamp v metadata).
Proof.
  intros Ht. apply Forall_app. split.
  - apply Forall_forall. intros x ([name s] & -> & _)%list_elem_of_fmap. apply readable_string.
  - constructor; [done|]. unfold metadata_written. case_decide; repeat constructor; apply readable_map.
Qed.

Ltac eval_names :=
  repeat match goal with
  | |- context [matches_field ?k ?n] =>
      let v := eval vm_compute in (matches_field k n) in
      lazymatch v with true => idtac | false => idtac end;
      change (matches_field k n) with v; cbv iota
  end.

Definition plain_name (n : string) : bool :=
  valid_utf8 n && negb (matches_field n "timestamp") && negb (matches_field n "metadata").

Lemma matches_field_sym a b : matches_field a b = matches_field b a.
Proof. unfold matches_field. apply bool_decide_ext. split; congruence. Qed.

Lemma event_written_nonempty fields timestamp v metadata : event_written fields timestamp v metadata <> [].
Proof. unfold event_written. by destruct (string_members fields). Qed.

Lemma event_typed fields timestamp s metadata name : plain_name name = true ->
  string_typed (map read_member (event_written fields timestamp (JsonString s) metadata)) name = true.
Proof.
  intros [[_ Ht%negb_true_iff]%andb_true_iff Hm%negb_true_iff]%andb_true_iff. unfold string_typed. apply forallb_forall.
  intros x Hx. apply list_elem_of_In, list_elem_of_fmap in Hx as (y & -> & Hy). unfold read_member.
  apply elem_of_app in Hy as [(nm & -> & _)%list_elem_of_fmap|Hy].
  - destruct nm as [n v]. cbn. apply orb_true_r.
  - apply elem_of_cons in Hy as [->|Hy]; [apply orb_true_r|]. unfold metadata_written in Hy. case_decide; [by apply elem_of_nil in Hy|].
    apply list_elem_of_singleton in Hy as ->. cbn [wr_name]. change (ToValidUTF8 "metadata") with "metadata".
    by rewrite matches_field_sym, Hm.
Qed.

Lemma event_timestamp fields timestamp v metadata : forallb plain_name (map fst fields) = true ->
  map wr_text (List.filter (fun x => matches_field (ToValidUTF8 (wr_name x)) "timestamp") (event_written fields timestamp v metadata)) = [timestamp].
Proof.
  intros Hf. unfold event_written. rewrite List.filter_app. assert (List.filter (fun x => matches_field (ToValidUTF8 (wr_name x)) "timestamp") (string_members fields) = []) as ->.
  { induction fields as [|[n s] fields IH]; [done|]. simpl in Hf. apply andb_true_iff in Hf as [Hn Hf].
    apply andb_true_iff in Hn as [[Hn1 Hn2%negb_true_iff]%andb_true_iff _]. cbn [string_members map List.filter wr_name].
    rewrite (valid_utf8_id n Hn1), Hn2. by apply IH. }
  cbn [app List.filter wr_name]. change (matches_field (ToValidUTF8 "timestamp") "timestamp") with true. cbn [map wr_text]. f_equal.
  unfold metadata_written. case_decide; done.
Qed.

Lemma event_metadata fields timestamp v metadata : forallb plain_name (map fst fields) = true -> metadata_ok metadata ->
  map_field (map read_member (event_written fields timestamp v metadata)) "metadata" ∅ = Some (any_of_jvalue <$> metadata).
Proof.
  intros Hf Hmd. unfold event_written. rewrite map_app. induction fields as [|[n s] fields IH].
  - cbn [string_members map app map_field read_member wr_name]. change (matches_field (ToValidUTF8 "timestamp") "metadata") with false.
    cbv iota. unfold metadata_written. case_decide as Hm; [by rewrite Hm, fmap_empty|]. cbn [map map_field read_member wr_name wr_value].
    change (matches_field (ToValidUTF8 "metadata") "metadata") with true. cbv iota. by rewrite add_members_sorted.
  - simpl in Hf. apply andb_true_iff in Hf as [Hn Hf].
    apply andb_true_iff in Hn as [[Hn1 _]%andb_true_iff Hn2%negb_true_iff].
    cbn [string_members map app map_field read_member wr_name]. rewrite (valid_utf8_id n Hn1), Hn2. by apply IH.
Qed.

(** The fields of an encoded event are read back. *)
Lemma event_fields_written offset t fields timestamp metadata :
  time_MarshalJSON offset t = Some timestamp -> offset mod 60 = 0 -> forallb plain_name (map fst fields) = true -> metadata_ok metadata ->
  exists s, event_fields (map fst fields) (struct_text (event_written fields timestamp (JsonString s) metadata)) =
    Some (map read_member (event_written fields timestamp (JsonString s) metadata), t, any_of_jvalue <$> metadata).
Proof.
  intros Ht Hoff Hf Hmd. destruct (time_MarshalJSON_readable _ _ _ Ht) as [s Hs]. exists s.
  unfold event_fields. rewrite struct_text_members, struct_text_fields by (apply event_written_nonempty || by apply event_written_ok).
  cbn [mbind option_bind]. rewrite event_timestamp, event_metadata by done. cbn [time_field].
  rewrite (time_json_round_trip _ _ _ Hoff Ht). cbn [mbind option_bind].
  replace (forallb _ _) with true; [done|]. symmetry. apply forallb_forall. intros n Hn. apply event_typed.
  by apply (proj1 (forallb_forall _ _) Hf).
Qed.

Lemma map_metadata_written metadata : map written_text (metadata_written metadata) = metadata_member metadata.
Proof. unfold metadata_written, metadata_member. by case_decide. Qed.

Lemma time_encodes offset t : Z.abs (Z.quot offset 60) / 60 < 24 ->
  (exists data, time_MarshalJSON offset t = Some data) <-> 0 <= local_year offset t <= 9999.
Proof.
  intros Hoff. unfold time_MarshalJSON. rewrite (proj2 (Z.ltb_lt _ _) Hoff), andb_true_r.
  destruct (Z.leb_spec 0 (local_year offset t)), (Z.leb_spec (local_year offset t) 9999); cbn [andb];
    (split; [intros [? ?]; try done; lia|intros ?; try lia; by eexists]).
Qed.

(** The strings are those of the fields. *)
Lemma event_string fields timestamp s metadata name : plain_name name = true ->
  string_field (map read_member (event_written fields timestamp (JsonString s) metadata)) name =
  string_field (map read_member (string_members fields)) name.
Proof.
  intros [[_ Ht%negb_true_iff]%andb_true_iff Hm%negb_true_iff]%andb_true_iff. rewrite matches_field_sym in Ht, Hm.
  unfold string_field, event_written. rewrite map_app, foldl_app. cbn [map foldl].
  change (read_member (MkWritten "timestamp" timestamp (JsonString s))) with ("timestamp", JsonString s). cbv iota beta. rewrite Ht.
  unfold metadata_written. case_decide; [done|]. cbn [map foldl].
  set (v := JsonObject _). change (read_member (MkWritten "metadata" (json_Marshal metadata) v)) with ("metadata", v).
  cbv iota beta. by rewrite Hm.
Qed.

Definition saga_fields (event : SagaEvent) : list (string * string) :=
  [("event_type", SagaEvent_EventType event); ("order_id", SagaEvent_OrderID event)].

Definition order_fields (event : OrderEvent) : list (string * string) :=
  [("event_type", OrderEvent_EventType event); ("order_id", OrderEvent_OrderID event);
   ("customer_id", OrderEvent_CustomerID event); ("status", OrderEvent_Status event)].

Lemma encoded_saga_event offset event data s : encode_SagaEvent offset event = Some data ->
  exists timestamp, time_MarshalJSON offset (SagaEvent_Timestamp event) = Some timestamp /\
    data = struct_text (event_written (saga_fields event) timestamp (JsonString s) (SagaEvent_Metadata event)).
Proof.
  unfold encode_SagaEvent. destruct (time_MarshalJSON _ _) as [timestamp|]; [|done]. intros [= <-]. exists timestamp.
  split; [done|]. unfold struct_text, event_written. rewrite map_app. cbn [map]. by rewrite map_metadata_written.
Qed.

Lemma encoded_order_event offset event data s : encode_OrderEvent offset event = Some data ->
  exists timestamp, time_MarshalJSON offset (OrderEvent_Timestamp event) = Some timestamp /\
    data = struct_text (event_written (order_fields event) timestamp (JsonString s) (OrderEvent_Metadata event)).
Proof.
  unfold encode_OrderEvent. destruct (time_MarshalJSON _ _) as [timestamp|]; [|done]. intros [= <-]. exists timestamp.
  split; [done|]. unfold struct_text, event_written. rewrite map_app. cbn [map]. by rewrite map_metadata_written.
Qed.

(** Evaluates the names of the fields. *)
Ltac read_fields :=
  rewrite event_string by reflexivity; unfold string_field, saga_fields, order_fields, string_members;
  cbn [map foldl]; unfold read_member; cbn [wr_name wr_value]; eval_names; reflexivity.

Lemma saga_event_parsed offset event data m :
  encode_SagaEvent offset event = Some data -> offset mod 60 = 0 -> metadata_ok (SagaEvent_Metadata event) -> Msg_Value m = data ->
  ParseSagaEvent m = inl (MkSagaEventRead (ToValidUTF8 (SagaEvent_EventType event)) (ToValidUTF8 (SagaEvent_OrderID event))
    (SagaEvent_Timestamp event) (any_of_jvalue <$> SagaEvent_Metadata event)).
Proof.
  intros He Hoff Hmd Hm. destruct (encoded_saga_event _ _ _ "" He) as (timestamp & Ht & _).
  destruct (event_fields_written offset _ (saga_fields event) timestamp _ Ht Hoff eq_refl Hmd) as [s Hs].
  destruct (encoded_saga_event _ _ _ s He) as (timestamp' & Ht' & Hdata). rewrite Ht in Ht'. injection Ht' as <-.
  unfold ParseSagaEvent. change ["event_type"; "order_id"] with (map fst (saga_fields event)). rewrite Hm, Hdata, Hs. f_equal. f_equal; read_fields.
Qed.

Lemma order_event_parsed offset event data m :
  encode_OrderEvent offset event = Some data -> offset mod 60 = 0 -> metadata_ok (OrderEvent_Metadata event) -> Msg_Value m = data ->
  ParseOrderEvent m = inl (MkOrderEventRead (ToValidUTF8 (OrderEvent_EventType event)) (ToValidUTF8 (OrderEvent_OrderID event))
    (ToValidUTF8 (OrderEvent_CustomerID event)) (ToValidUTF8 (OrderEvent_Status event))
    (OrderEvent_Timestamp event) (any_of_jvalue <$> OrderEvent_Metadata event)).
Proof.
  intros He Hoff Hmd Hm. destruct (encoded_order_event _ _ _ "" He) as (timestamp & Ht & _).
  destruct (event_fields_written offset _ (order_fields event) timestamp _ Ht Hoff eq_refl Hmd) as [s Hs].
  destruct (encoded_order_event _ _ _ s He) as (timestamp' & Ht' & Hdata). rewrite Ht in Ht'. injection Ht' as <-.
  unfold ParseOrderEvent. change ["event_type"; "order_id"; "customer_id"; "status"] with (map fst (order_fields event)).
  rewrite Hm, Hdata, Hs. f_equal. f_equal; read_fields.
Qed.

(** C36. The events of the program read back: an event encoded in a time zone of
    whole minutes, in the years 0 to 9999, is read by [ParseSagaEvent] or
    [ParseOrderEvent] with the same type, identifiers and status (bytes that are
    not UTF-8 replaced), the same instant to the nanosecond, and the same
    members of the metadata, integers as the nearest float64; events of other
    years are not encoded. *)
Theorem kafka_events_round_trip offset : offset mod 60 = 0 -> Z.abs (Z.quot offset 60) / 60 < 24 ->
  (forall event, metadata_ok (SagaEvent_Metadata event) ->
    ((exists data, encode_SagaEvent offset event = Some data) <-> 0 <= local_year offset (SagaEvent_Timestamp event) <= 9999) /\
    forall m, encode_SagaEvent offset event = Some (Msg_Value m) ->
      ParseSagaEvent m = inl (MkSagaEventRead (ToValidUTF8 (SagaEvent_EventType event)) (ToValidUTF8 (SagaEvent_OrderID event))
        (SagaEvent_Timestamp event) (any_of_jvalue <$> SagaEvent_Metadata event))) /\
  (forall event, metadata_ok (OrderEvent_Metadata event) ->
    ((exists data, encode_OrderEvent offset event = Some data) <-> 0 <= local_year offset (OrderEvent_Timestamp event) <= 9999) /\
    forall m, encode_OrderEvent offset event = Some (Msg_Value m) ->
      ParseOrderEvent m = inl (MkOrderEventRead (ToValidUTF8 (OrderEvent_EventType event)) (ToValidUTF8 (OrderEvent_OrderID event))
        (ToValidUTF8 (OrderEvent_CustomerID event)) (ToValidUTF8 (OrderEvent_Status event))
        (OrderEvent_Timestamp event) (any_of_jvalue <$> OrderEvent_Metadata event))).
Proof.
  intros Hmin Hday. split; intros event Hmd; (split; [|intros m He; by eapply saga_event_parsed || by eapply order_event_parsed]);
    rewrite <- time_encodes by done; [unfold encode_SagaEvent|unfold encode_OrderEvent]; destruct (time_MarshalJSON _ _); simpl; naive_solver.
Qed.

(** Amounts are read as float64: beyond 2^53 minor units two events that differ
    in the amount alone are read as the same event. *)
Definition paid_event (amount : Z) : SagaEvent :=
  NewSagaEvent ((unixToInternal + 1700000000) * Second) EventTypeStepPaid "o1" {["amount" := JInt amount]}.

Theorem event_amounts_merge m1 m2 :
  encode_SagaEvent 0 (paid_event (2 ^ 53)) = Some (Msg_Value m1) ->
  encode_SagaEvent 0 (paid_event (2 ^ 53 + 1)) = Some (Msg_Value m2) ->
  Msg_Value m1 <> Msg_Value m2 /\ ParseSagaEvent m1 = ParseSagaEvent m2.
Proof.
  intros H1 H2. split.
  - intros E. rewrite E in H1. assert (encode_SagaEvent 0 (paid_event (2 ^ 53)) <> encode_SagaEvent 0 (paid_event (2 ^ 53 + 1))) as Hne
      by (vm_compute; discriminate). congruence.
  - assert (forall z, is_int64 z -> metadata_ok {["amount" := JInt z]}) as Hmd.
    { intros z Hz k v [<- <-]%lookup_singleton_Some. split; [reflexivity|exact Hz]. }
    erewrite (saga_event_parsed 0 _ _ m1 H1 eq_refl); [|apply Hmd; vm_compute; split; discriminate|reflexivity].
    erewrite (saga_event_parsed 0 _ _ m2 H2 eq_refl); [|apply Hmd; vm_compute; split; discriminate|reflexivity].
    unfold paid_event, NewSagaEvent. cbn [SagaEvent_EventType SagaEvent_OrderID SagaEvent_Timestamp SagaEvent_Metadata].
    rewrite !map_fmap_singleton. cbn [any_of_jvalue].
    assert (float64_of_int (2 ^ 53) = float64_of_int (2 ^ 53 + 1)) as -> by (vm_compute; reflexivity). done.
Qed.
