(* ===== verification/KafkaLifecycle.v ===== *)
(** * The life of a Kafka consumer: src/internal/messaging/kafka/consumer.go

    [Start] and [Stop]: the two goroutines of a consumer, the wait group and
    the close of the sarama consumer group, as a step relation.  What the group
    does is documented by sarama: [Consume] returns when the session ends, the
    context is done or the group is closed; [Close] closes the channel of
    [Errors]. *)

From stdpp Require Import relations.
From S2P Require Import Prelude GoLib Domain.

(** The goroutine that calls [Consume] in a loop. *)
Inductive consume_loop : Type :=
| InConsume
| AtContextCheck
| LoopEnded.

Inductive stop_call : Type :=
| NotStopped
| InWait                             (* the group is closed, [wg.Wait()] *)
| StopReturned (e : option err).

Record consumer_life := MkConsumerLife {
  life_ctx_done : bool;
  life_closed : bool;
  life_loop : consume_loop;
  life_errors_running : bool;
  life_stop : stop_call;
}.

(** After [Start] has returned. *)
Definition consumer_started : consumer_life := MkConsumerLife false false InConsume true NotStopped.

Inductive life_step : consumer_life -> consumer_life -> Prop :=
| ctx_cancel s :
    life_step s (MkConsumerLife true (life_closed s) (life_loop s) (life_errors_running s) (life_stop s))
| consume_returns s : life_loop s = InConsume ->
    life_step s (MkConsumerLife (life_ctx_done s) (life_closed s) AtContextCheck (life_errors_running s) (life_stop s))
| context_check s : life_loop s = AtContextCheck ->
    life_step s (MkConsumerLife (life_ctx_done s) (life_closed s) (if life_ctx_done s then LoopEnded else InConsume)
                   (life_errors_running s) (life_stop s))
| errors_closed s : life_closed s = true -> life_errors_running s = true ->
    life_step s (MkConsumerLife (life_ctx_done s) (life_closed s) (life_loop s) false (life_stop s))
| close_fails s e : life_stop s = NotStopped ->
    life_step s (MkConsumerLife (life_ctx_done s) (life_closed s) (life_loop s) (life_errors_running s)
                   (StopReturned (Some (ErrWrap "failed to close kafka consumer" e))))
| close_succeeds s : life_stop s = NotStopped ->
    life_step s (MkConsumerLife (life_ctx_done s) true (life_loop s) (life_errors_running s) InWait)
| wait_returns s : life_stop s = InWait -> life_loop s = LoopEnded -> life_errors_running s = false ->
    life_step s (MkConsumerLife (life_ctx_done s) (life_closed s) (life_loop s) (life_errors_running s) (StopReturned None)).

Inductive lives : consumer_life -> Prop :=
| lives_start : lives consumer_started
| lives_step s s' : lives s -> life_step s s' -> lives s'.

(** Ended goroutines stay ended, and the loop only ends with the context. *)
Record life_inv (s : consumer_life) : Prop := MkLifeInv {
  li_ended : life_loop s = LoopEnded -> life_ctx_done s = true;
  li_returned : life_stop s = StopReturned None -> life_loop s = LoopEnded /\ life_errors_running s = false;
  li_waiting : life_stop s = InWait -> life_closed s = true;
  li_errors : life_errors_running s = false -> life_closed s = true;
}.

Lemma lives_inv s : lives s -> life_inv s.
Proof.
  induction 1 as [|s s' _ [H1 H2 H3 H4] Hstep]; [by split|].
  destruct Hstep; split; simpl; try done; intros E; try (destruct (H2 E)); try (by auto); try congruence.
  destruct (life_ctx_done s); done.
Qed.

(** Steps of the consumer itself; the context is cancelled by someone else. *)
Inductive own_step : consumer_life -> consumer_life -> Prop :=
| own_step_ s s' : life_step s s' -> life_ctx_done s' = life_ctx_done s -> own_step s s'.

(** From a waiting [Stop] under a context that is done, goroutine by goroutine. *)
Lemma loop_ends ctx_closed loop errors : exists n, (n <= 2)%nat /\
  nsteps own_step n (MkConsumerLife true ctx_closed loop errors InWait) (MkConsumerLife true ctx_closed LoopEnded errors InWait).
Proof.
  assert (forall errors, own_step (MkConsumerLife true ctx_closed AtContextCheck errors InWait)
    (MkConsumerLife true ctx_closed LoopEnded errors InWait)) as Hcheck.
  { intros e. split; [|done]. exact (context_check (MkConsumerLife true ctx_closed AtContextCheck e InWait) eq_refl). }
  destruct loop.
  - exists 2%nat. split; [lia|]. eapply nsteps_l; [|apply nsteps_once, Hcheck]. split; [|done].
    exact (consume_returns (MkConsumerLife true ctx_closed InConsume errors InWait) eq_refl).
  - exists 1%nat. split; [lia|]. apply nsteps_once, Hcheck.
  - exists 0%nat. split; [lia|constructor].
Qed.

Lemma errors_end errors : exists n, (n <= 1)%nat /\
  nsteps own_step n (MkConsumerLife true true LoopEnded errors InWait) (MkConsumerLife true true LoopEnded false InWait).
Proof.
  destruct errors.
  - exists 1%nat. split; [lia|]. apply nsteps_once. split; [|done].
    exact (errors_closed (MkConsumerLife true true LoopEnded true InWait) eq_refl eq_refl).
  - exists 0%nat. split; [lia|constructor].
Qed.

(** [Stop] is clean but needs the context: when it has returned without an
    error both goroutines have ended, and the context was done; so as long as
    the context lives it never returns, however long it waits; once the context
    is done, a [Stop] that waits is at most four steps of the consumer from
    returning. *)
Theorem consumer_stop s : lives s ->
  (life_stop s = StopReturned None ->
     life_loop s = LoopEnded /\ life_errors_running s = false /\ life_ctx_done s = true) /\
  (life_stop s = InWait -> life_ctx_done s = true ->
     exists n s', (n <= 4)%nat /\ nsteps own_step n s s' /\ life_stop s' = StopReturned None).
Proof.
  intros Hs. apply lives_inv in Hs as [H1 H2 H3 H4]. split.
  - intros Hr. destruct (H2 Hr) as [Hl He]. split_and!; auto.
  - intros Hw Hctx. specialize (H3 Hw). destruct s as [ctx closed loop errors stop]. simpl in *. subst.
    destruct (loop_ends true loop errors) as (n & Hn & Hsteps). destruct (errors_end errors) as (m & Hm & Hsteps').
    exists (n + (m + 1))%nat, (MkConsumerLife true true LoopEnded false (StopReturned None)). split; [lia|]. split; [|done].
    eapply nsteps_trans; [exact Hsteps|]. eapply nsteps_trans; [exact Hsteps'|]. apply nsteps_once. split; [|reflexivity].
    exact (wait_returns (MkConsumerLife true true LoopEnded false InWait) eq_refl eq_refl eq_refl).
Qed.
