(* ===== verification/DlqReprocess.v ===== *)
(** * The dead letter queue replayer: src/cmd/dlq-reprocess/main.go

    The command line tool that reads messages back from the dead letter queue
    and, when told to execute, sends them to the topics they came from.  The
    Kafka clients, the clock and the select of the partition loop are commands;
    log lines are not modelled. *)

From stdpp Require Import pretty sorting.
From S2P Require Import Prelude GoLib Json Strconv JsonText JsonStruct Domain Prog Ports OutboxWorker Kafka.

Record replayMessage := MkReplayMessage {
  rep_topic : string;
  rep_key : string;
  rep_value : bytes;
}.

Record config := MkConfig {
  cfg_brokers : list string;
  cfg_sourceTopic : string;
  cfg_targetTopic : string;
  cfg_limit : Z;
  cfg_execute : bool;
  cfg_fromNewest : bool;
  cfg_idleTimeout : Duration;
}.

Record partitionStats := MkStats {
  st_processed : Z;
  st_replayed : Z;
  st_skipped : Z;
}.

Inductive offset_kind : Type := OffsetOldest | OffsetNewest.

(** What the select of the partition loop receives. *)
Inductive partition_event : Type :=
| ContextDone (e : err)
| ConsumerErr (e : option err)               (* nil once the channel is closed *)
| PartitionMessage (m : option ConsumerMessage)   (* nil once the channel is closed *)
| IdleTimeout.

Inductive replay_port : Type -> Type :=
| NewKafkaClient : replay_port (option err)
| NewKafkaConsumer : replay_port (option err)
| NewKafkaProducer : replay_port (option err)
| CloseKafka (what : string) : replay_port unit
| GetPartitions (topic : string) : replay_port (list Z + err)
| GetOffset (topic : string) (partition : Z) (kind : offset_kind) : replay_port (Z + err)
| ConsumePartition (topic : string) (partition offset : Z) : replay_port (option err)
| ClosePartition (partition : Z) : replay_port unit
| SelectEvent (partition : Z) (idle : Duration) : replay_port partition_event
| SendReplay (msg : replayMessage) : replay_port (option err)
| ReplayNow : replay_port Time.

Abbreviation RM := (prog replay_port).

(** ** Configuration *)

Definition defaultReplayLimit : Z := 100.
Definition defaultIdleTimeout : Duration := 2 * Second.

(** The values of the flags that are not given. *)
Definition default_flags : config :=
  MkConfig [] TopicDeadLetterQueue TopicOrderEvents defaultReplayLimit false false defaultIdleTimeout.

Definition parseBrokers (raw : string) : list string :=
  filter (fun broker => broker <> "") (map TrimSpace (Split raw (chr 44))).

(** [readConfig], given the values the flags have after [flag.Parse] and the
    environment variable. *)
Definition readConfig (brokersFlag brokersEnv : string) (flags : config) : config + err :=
  let brokersRaw := if TrimSpace brokersFlag =s? "" then brokersEnv else brokersFlag in
  let cfg := MkConfig (parseBrokers brokersRaw) (cfg_sourceTopic flags) (cfg_targetTopic flags) (cfg_limit flags)
               (cfg_execute flags) (cfg_fromNewest flags) (cfg_idleTimeout flags) in
  if Nat.eqb (length (cfg_brokers cfg)) 0
  then inr (ErrOther "kafka brokers are required (-brokers or KAFKA_BROKERS)")
  else if TrimSpace (cfg_sourceTopic cfg) =s? "" then inr (ErrOther "source-topic is required")
  else if TrimSpace (cfg_targetTopic cfg) =s? "" then inr (ErrOther "target-topic is required")
  else if cfg_limit cfg <=? 0 then inr (ErrOther "limit must be > 0")
  else if cfg_idleTimeout cfg <=? 0 then inr (ErrOther "idle-timeout must be > 0")
  else inl cfg.

(** ** Decoding *)

Fixpoint firstNonEmpty (values : list string) : string :=
  match values with
  | [] => ""
  | value :: values => if TrimSpace value <>s? "" then value else firstNonEmpty values
  end.

(** The fields both [outboxEnvelope] and [outboxDLQPayload] have, the name of
    the identifier apart. *)
Record outbox_fields := MkOutboxFields {
  of_ID : string;
  of_AggregateType : string;
  of_AggregateID : string;
  of_EventType : string;
  of_Payload : bytes;
}.

Definition unmarshal_outbox (idField : string) (data : bytes) : option outbox_fields :=
  match struct_members data with
  | None => None
  | Some ms =>
      if forallb (string_typed ms) [idField; "aggregate_type"; "aggregate_id"; "event_type"]
      then Some (MkOutboxFields (string_field ms idField) (string_field ms "aggregate_type")
                   (string_field ms "aggregate_id") (string_field ms "event_type") (raw_field data "payload"))
      else None
  end.

Record consumerDLQPayload := MkConsumerDLQPayload {
  OriginalTopic : string;
  OriginalKey : string;
  OriginalValue : string;
}.

Definition unmarshal_consumer (data : bytes) : option consumerDLQPayload :=
  match struct_members data with
  | None => None
  | Some ms =>
      if forallb (string_typed ms) ["original_topic"; "original_key"; "original_value"]
      then Some (MkConsumerDLQPayload (string_field ms "original_topic") (string_field ms "original_key")
                   (string_field ms "original_value"))
      else None
  end.

Inductive extracted : Type :=
| Replay (msg : replayMessage)
| Unrecognized                     (* false, nil *)
| Undecodable (e : err).

(** The part of [extractReplayMessage] for a message of the outbox worker. *)
Definition extract_outbox (data : bytes) (defaultTopic : string) : RM extracted :=
  match unmarshal_outbox "id" data with
  | None => mret Unrecognized
  | Some envelope =>
      if of_Payload envelope =s? "" then mret Unrecognized
      else
        match unmarshal_outbox "outbox_id" (of_Payload envelope) with
        | None => mret (Undecodable (ErrWrap "decode outbox dlq payload" (ErrOther "json: error")))
        | Some dlqPayload =>
            if of_Payload dlqPayload =s? ""
            then mret (Undecodable (ErrOther "outbox dlq payload does not contain original event payload"))
            else
              let replayID := firstNonEmpty [of_ID dlqPayload; of_ID envelope] in
              let aggregateType := firstNonEmpty [of_AggregateType dlqPayload; of_AggregateType envelope] in
              let aggregateID := firstNonEmpty [of_AggregateID dlqPayload; of_AggregateID envelope] in
              let eventType := firstNonEmpty [of_EventType dlqPayload; of_EventType envelope] in
              publishedAt ← call ReplayNow;
              match raw_message (of_Payload dlqPayload) with
              | None => mret (Undecodable (ErrWrap "encode replay envelope" (ErrOther "json: error")))
              | Some raw =>
                  let encoded := "{" +:+ join_comma
                    [member "id" (json_string replayID);
                     member "aggregate_type" (json_string aggregateType);
                     member "aggregate_id" (json_string aggregateID);
                     member "event_type" (json_string eventType);
                     member "payload" raw;
                     member "published_at" (json_string (FormatRFC3339Nano publishedAt))] +:+ "}" in
                  let key := if aggregateID =s? "" then replayID else aggregateID in
                  mret (Replay (MkReplayMessage defaultTopic key encoded))
              end
        end
  end.

Definition extractReplayMessage (m : ConsumerMessage) (defaultTopic : string) : RM extracted :=
  match unmarshal_consumer (Msg_Value m) with
  | Some payload =>
      if OriginalValue payload <>s? "" then
        let targetTopic := TrimSpace (OriginalTopic payload) in
        let targetTopic := if targetTopic =s? "" then defaultTopic else targetTopic in
        mret (Replay (MkReplayMessage targetTopic (OriginalKey payload) (OriginalValue payload)))
      else extract_outbox (Msg_Value m) defaultTopic
  | None => extract_outbox (Msg_Value m) defaultTopic
  end.

(** ** Replay *)

(** [producer]: it is not nil. *)
Definition publishReplay (producer : bool) (msg : replayMessage) : RM (option err) :=
  if negb producer then mret (Some (ErrOther "producer is nil"))
  else call ReplayNow;; call (SendReplay msg).

Section Replaying.
Context (cfg : config) (producer : bool).

Definition skip_one (stats : partitionStats) : partitionStats :=
  MkStats (st_processed stats + 1) (st_replayed stats) (st_skipped stats + 1).

Definition replay_one (stats : partitionStats) : partitionStats :=
  MkStats (st_processed stats + 1) (st_replayed stats + 1) (st_skipped stats).

(** The loop of [processPartition], for a number of rounds; [None]: the rounds
    are used up. *)
Fixpoint partition_loop (rounds : nat) (partition endOffset limit : Z) (stats : partitionStats)
  : RM (option (partitionStats * option err)) :=
  match rounds with
  | O => mret None
  | S rounds =>
      if negb (st_processed stats <? limit) then mret (Some (stats, None))
      else
        event ← call (SelectEvent partition (cfg_idleTimeout cfg));
        match event with
        | ContextDone e => mret (Some (stats, Some e))
        | ConsumerErr (Some e) =>
            mret (Some (stats, Some (ErrWrap ("partition " +:+ pretty partition +:+ " consumer error") e)))
        | ConsumerErr None => partition_loop rounds partition endOffset limit stats
        | IdleTimeout => mret (Some (stats, None))
        | PartitionMessage None => mret (Some (stats, None))
        | PartitionMessage (Some m) =>
            if Msg_Offset m >=? endOffset then mret (Some (stats, None))
            else
              what ← extractReplayMessage m (cfg_targetTopic cfg);
              match what with
              | Undecodable _ | Unrecognized => partition_loop rounds partition endOffset limit (skip_one stats)
              | Replay msg =>
                  failed ← (if cfg_execute cfg then publishReplay producer msg else mret None);
                  match failed with
                  | Some e => mret (Some (stats, Some (ErrWrap "publish replay message" e)))
                  | None =>
                      let stats := replay_one stats in
                      if wrap64 (Msg_Offset m + 1) >=? endOffset then mret (Some (stats, None))
                      else partition_loop rounds partition endOffset limit stats
                  end
              end
        end
  end.

Definition processPartition (rounds : nat) (partition limit : Z) : RM (option (partitionStats * option err)) :=
  let stats := MkStats 0 0 0 in
  if limit <=? 0 then mret (Some (stats, None))
  else
    oldest ← call (GetOffset (cfg_sourceTopic cfg) partition OffsetOldest);
    match oldest with
    | inr e => mret (Some (stats, Some (ErrWrap ("get oldest offset for partition " +:+ pretty partition) e)))
    | inl oldest =>
        newest ← call (GetOffset (cfg_sourceTopic cfg) partition OffsetNewest);
        match newest with
        | inr e => mret (Some (stats, Some (ErrWrap ("get newest offset for partition " +:+ pretty partition) e)))
        | inl newest =>
            if newest <=? oldest then mret (Some (stats, None))
            else
              let startOffset := if cfg_fromNewest cfg then Z.max (wrap64 (newest - limit)) oldest else oldest in
              opened ← call (ConsumePartition (cfg_sourceTopic cfg) partition startOffset);
              match opened with
              | Some e => mret (Some (stats, Some (ErrWrap ("consume partition " +:+ pretty partition) e)))
              | None =>
                  result ← partition_loop rounds partition newest limit stats;
                  call (ClosePartition partition);;
                  mret result
              end
        end
    end.

(** The loop of [runReplay] over the partitions. *)
Fixpoint replay_partitions (rounds : nat) (partitions : list Z) (total : partitionStats)
  : RM (option (partitionStats * option err)) :=
  match partitions with
  | [] => mret (Some (total, None))
  | partition :: partitions =>
      if st_processed total >=? cfg_limit cfg then mret (Some (total, None))
      else
        result ← processPartition rounds partition (cfg_limit cfg - st_processed total);
        match result with
        | None => mret None
        | Some (stats, Some e) => mret (Some (total, Some e))
        | Some (stats, None) =>
            replay_partitions rounds partitions
              (MkStats (st_processed total + st_processed stats) (st_replayed total + st_replayed stats)
                 (st_skipped total + st_skipped stats))
        end
  end.

(** [client] and [consumer]: they are not nil.  The result has the totals the
    last log line reports and the error; partitions are sorted by their
    numbers. *)
Definition runReplay (client consumer : bool) (rounds : nat) : RM (option (partitionStats * option err)) :=
  let nothing := MkStats 0 0 0 in
  if negb client || negb consumer
  then mret (Some (nothing, Some (ErrOther "kafka client and consumer are required")))
  else if cfg_execute cfg && negb producer
  then mret (Some (nothing, Some (ErrOther "producer is required in execute mode")))
  else
    partitions ← call (GetPartitions (cfg_sourceTopic cfg));
    match partitions with
    | inr e => mret (Some (nothing, Some (ErrWrap ("get partitions for topic " +:+ cfg_sourceTopic cfg) e)))
    | inl [] => mret (Some (nothing, None))
    | inl partitions => replay_partitions rounds (merge_sort Z.le partitions) nothing
    end.
End Replaying.

(** ** Connections *)

(** Whether the producer is not nil, when the clients were made. *)
Definition newReplayDependencies (cfg : config) : RM (bool + err) :=
  client ← call NewKafkaClient;
  match client with
  | Some e => mret (inr (ErrWrap "create kafka client" e))
  | None =>
      consumer ← call NewKafkaConsumer;
      match consumer with
      | Some e => call (CloseKafka "client");; mret (inr (ErrWrap "create kafka consumer" e))
      | None =>
          if negb (cfg_execute cfg) then mret (inl false)
          else
            made ← call NewKafkaProducer;
            match made with
            | Some e =>
                call (CloseKafka "consumer");; call (CloseKafka "client");;
                mret (inr (ErrWrap "create kafka producer" e))
            | None => mret (inl true)
            end
      end
  end.

(** [run]; [None]: the rounds are used up. *)
Definition run_tool (cfg : config) (rounds : nat) : RM (option (option err)) :=
  opened ← newReplayDependencies cfg;
  match opened with
  | inr e => mret (Some (Some e))
  | inl producer =>
      result ← runReplay cfg producer true true rounds;
      when producer (call (CloseKafka "producer"));;
      call (CloseKafka "consumer");;
      call (CloseKafka "client");;
      mret (match result with None => None | Some (_, e) => Some e end)
  end.

(** ** The dead letters of the consumer *)

Lemma sorted_dlq_members a b c d e f g h :
  sorted_members (<["original_topic" := a]> (<["original_partition" := b]> (<["original_offset" := c]>
    (<["original_key" := d]> (<["original_value" := e]> (<["error_message" := f]> (<["failed_at" := g]>
    (<["retry_count" := h]> ∅)))))))) =
  [("error_message", f); ("failed_at", g); ("original_key", d); ("original_offset", c);
   ("original_partition", b); ("original_topic", a); ("original_value", e); ("retry_count", h)].
Proof. vm_compute. reflexivity. Qed.

Lemma unmarshal_dead_letter m e t :
  unmarshal_consumer (json_Marshal (dlq_members m e t)) =
  Some (MkConsumerDLQPayload (ToValidUTF8 (Msg_Topic m)) (ToValidUTF8 (Msg_Key m)) (ToValidUTF8 (Msg_Value m))).
Proof.
  unfold unmarshal_consumer, struct_members. rewrite json_parse_marshal.
  unfold dlq_members. rewrite sorted_dlq_members. reflexivity.
Qed.

(** The fields of the outbox formats are none of the dead letter's. *)
Lemma dead_letter_outbox m e t d : extract_outbox (json_Marshal (dlq_members m e t)) d = mret Unrecognized.
Proof.
  unfold extract_outbox, unmarshal_outbox, struct_members. rewrite json_parse_marshal.
  rewrite json_Marshal_raw_absent; unfold dlq_members; [|apply insert_non_empty|].
  - rewrite sorted_dlq_members. reflexivity.
  - rewrite sorted_dlq_members. repeat constructor.
Qed.

(** C37. What the consumer sends to the dead letter queue, the replayer reads
    back, whatever error the message failed with and however often it was
    tried.  The value and the key go through JSON strings, so what is not UTF-8
    in them is replaced; the message goes to its topic without the white space
    around it, or to the default topic when nothing is left; a message without
    a value is not recognized.  So a message of text that is not empty, of a
    topic without white space around its name, is replayed as it was. *)
Theorem dead_letter_round_trip (m : ConsumerMessage) (e : err) :
  traces cluster (sendToDLQ m e) (fun sent _ => exists value answer,
    sent = [Sent TopicDeadLetterQueue (Msg_Key m) value answer] /\
    forall dead defaultTopic, Msg_Value dead = value ->
      let topic := TrimSpace (ToValidUTF8 (Msg_Topic m)) in
      extractReplayMessage dead defaultTopic =
        mret (if Msg_Value m =s? "" then Unrecognized
              else Replay (MkReplayMessage (if topic =s? "" then defaultTopic else topic)
                             (ToValidUTF8 (Msg_Key m)) (ToValidUTF8 (Msg_Value m)))) /\
      (valid_utf8 (Msg_Topic m) = true -> valid_utf8 (Msg_Key m) = true -> valid_utf8 (Msg_Value m) = true ->
       TrimSpace (Msg_Topic m) = Msg_Topic m -> Msg_Topic m <> "" -> Msg_Value m <> "" ->
       extractReplayMessage dead defaultTopic =
         mret (Replay (MkReplayMessage (Msg_Topic m) (Msg_Key m) (Msg_Value m))))).
Proof.
  unfold sendToDLQ. apply traces_call. intros t _.
  unfold PublishEvent. apply traces_call. intros answer _. apply traces_ret.
  exists (json_Marshal (dlq_members m e t)), answer. split; [done|]. intros dead defaultTopic Hd. cbv zeta.
  match goal with |- ?x = ?y /\ _ => assert (x = y) as E end.
  { unfold extractReplayMessage. rewrite Hd, unmarshal_dead_letter. cbn [OriginalTopic OriginalKey OriginalValue].
    destruct (String.eqb_spec (ToValidUTF8 (Msg_Value m)) "") as [Hv|Hv]; rewrite ToValidUTF8_empty in Hv;
      [rewrite Hv; apply dead_letter_outbox|]. by rewrite (proj2 (String.eqb_neq _ _) Hv). }
  split; [exact E|]. intros Ht Hk Hv Htrim Htne Hvne. rewrite E. apply String.eqb_neq in Hvne, Htne.
  by rewrite !valid_utf8_id, Htrim, Htne, Hvne by done.
Qed.

(** Dead letters that do not come back: a value that is not text is replayed as
    another one, an empty value (a tombstone of a compacted topic) is skipped. *)
Theorem dead_letter_lost :
  let dead value := MkConsumerMessage TopicDeadLetterQueue 0 0 ""
    (json_Marshal (dlq_members (MkConsumerMessage "orders" 0 7 "k" value []) (ErrOther "boom") 0)) [] in
  extractReplayMessage (dead (string_of_list_ascii [chr 255])) "orders" =
    mret (Replay (MkReplayMessage "orders" "k" (string_of_list_ascii (map chr [239; 191; 189]%nat)))) /\
  extractReplayMessage (dead "") "orders" = mret Unrecognized.
Proof. vm_compute. done. Qed.

(** ** Every run of a replay *)

Inductive replay_event : Type :=
| Listed (r : list Z + err)
| Offset (partition : Z) (kind : offset_kind) (r : Z + err)
| Opened (partition offset : Z) (r : option err)
| Selected (event : partition_event)
| SentReplay (msg : replayMessage) (r : option err).

Definition replay_observed X (c : replay_port X) : X -> list replay_event :=
  match c in replay_port X return X -> list replay_event with
  | GetPartitions _ => fun r => [Listed r]
  | GetOffset _ partition kind => fun r => [Offset partition kind r]
  | ConsumePartition _ partition offset => fun r => [Opened partition offset r]
  | SelectEvent _ _ => fun event => [Selected event]
  | SendReplay msg => fun r => [SentReplay msg r]
  | _ => fun _ => []
  end.

(** The brokers, the clock and the select may answer anything. *)
Definition brokers : environment replay_port replay_event :=
  {| allowed := fun _ _ _ => True; observe := replay_observed |}.

(** At some time, [m] is replayed as [msg]. *)
Definition at_time (t : Time) : handler replay_port unit :=
  fun X c w =>
    match c in replay_port X return X * unit with
    | NewKafkaClient | NewKafkaConsumer | NewKafkaProducer => (None, w)
    | CloseKafka _ | ClosePartition _ => (tt, w)
    | GetPartitions _ => (inl [], w)
    | GetOffset _ _ _ => (inl 0, w)
    | ConsumePartition _ _ _ => (None, w)
    | SelectEvent _ _ => (IdleTimeout, w)
    | SendReplay _ => (None, w)
    | ReplayNow => (t, w)
    end.

Definition replays_as (defaultTopic : string) (m : ConsumerMessage) (msg : replayMessage) : Prop :=
  exists t, (run (at_time t) (extractReplayMessage m defaultTopic) tt).1 = Replay msg.

Definition count (p : replay_event -> bool) (l : list replay_event) : Z :=
  Z.of_nat (length (List.filter p l)).

Definition sends : list replay_event -> Z := count (fun e => match e with SentReplay _ _ => true | _ => false end).
Definition nil_errors : list replay_event -> Z :=
  count (fun e => match e with Selected (ConsumerErr None) => true | _ => false end).

Lemma count_app p l l' : count p (l ++ l') = count p l + count p l'.
Proof. unfold count. rewrite List.filter_app, length_app. lia. Qed.

Lemma sends_app l l' : sends (l ++ l') = sends l + sends l'.
Proof. apply count_app. Qed.

Lemma nil_errors_app l l' : nil_errors (l ++ l') = nil_errors l + nil_errors l'.
Proof. apply count_app. Qed.

Lemma counts_cons e l : sends (e :: l) = sends [e] + sends l /\ nil_errors (e :: l) = nil_errors [e] + nil_errors l.
Proof. by rewrite <- (sends_app [e] l), <- (nil_errors_app [e] l). Qed.

Section ReplayEffects.
Context (cfg : config) (producer : bool).

(** What the tool does with a message: it is sent as what it is replayed as, in
    a dry run it is only counted. *)
Definition delivery (msg : replayMessage) : list replay_event :=
  if cfg_execute cfg then [SentReplay msg None] else [].

(** No time makes it a message that can be replayed. *)
Definition unreadable (m : ConsumerMessage) : Prop := forall msg, ~ replays_as (cfg_targetTopic cfg) m msg.

(** How a loop ends: by itself, by an error, or because its rounds are used up. *)
Inductive ending : Type := Finished | Broke | Cut.

(** A partition that is read up to [endOffset], or until [limit] messages were
    processed, [p] of them before: the events, how many messages are replayed
    and skipped, and how it ends.  Every message below the end counts, as
    replayed when it can be read and as skipped when not. *)
Inductive loop_log (endOffset limit : Z) : nat -> Z -> list replay_event -> Z -> Z -> ending -> Prop :=
| log_cut p : loop_log endOffset limit 0 p [] 0 0 Cut
| log_full n p : limit <= p -> loop_log endOffset limit (S n) p [] 0 0 Finished
| log_over n p e : p < limit -> e = IdleTimeout \/ e = PartitionMessage None ->
    loop_log endOffset limit (S n) p [Selected e] 0 0 Finished
| log_broken n p e why : p < limit -> e = ContextDone why \/ e = ConsumerErr (Some why) ->
    loop_log endOffset limit (S n) p [Selected e] 0 0 Broke
| log_nil_error n p l r s x : p < limit -> loop_log endOffset limit n p l r s x ->
    loop_log endOffset limit (S n) p (Selected (ConsumerErr None) :: l) r s x
| log_past n p m : p < limit -> endOffset <= Msg_Offset m ->
    loop_log endOffset limit (S n) p [Selected (PartitionMessage (Some m))] 0 0 Finished
| log_skipped n p m l r s x : p < limit -> Msg_Offset m < endOffset -> unreadable m ->
    loop_log endOffset limit n (p + 1) l r s x ->
    loop_log endOffset limit (S n) p (Selected (PartitionMessage (Some m)) :: l) r (s + 1) x
| log_replayed n p m msg l r s x : p < limit -> Msg_Offset m < endOffset -> replays_as (cfg_targetTopic cfg) m msg ->
    wrap64 (Msg_Offset m + 1) < endOffset -> loop_log endOffset limit n (p + 1) l r s x ->
    loop_log endOffset limit (S n) p (Selected (PartitionMessage (Some m)) :: delivery msg ++ l) (r + 1) s x
| log_last n p m msg : p < limit -> Msg_Offset m < endOffset -> replays_as (cfg_targetTopic cfg) m msg ->
    endOffset <= wrap64 (Msg_Offset m + 1) ->
    loop_log endOffset limit (S n) p (Selected (PartitionMessage (Some m)) :: delivery msg) 1 0 Finished
| log_send_failed n p m msg e : p < limit -> Msg_Offset m < endOffset -> replays_as (cfg_targetTopic cfg) m msg ->
    cfg_execute cfg = true ->
    loop_log endOffset limit (S n) p [Selected (PartitionMessage (Some m)); SentReplay msg (Some e)] 0 0 Broke.

(** Where a partition is read from. *)
Definition start_offset (oldest newest limit : Z) : Z :=
  if cfg_fromNewest cfg then Z.max (wrap64 (newest - limit)) oldest else oldest.

Inductive partition_log (partition limit : Z) (n : nat) : list replay_event -> Z -> Z -> ending -> Prop :=
| part_no_oldest e : partition_log partition limit n [Offset partition OffsetOldest (inr e)] 0 0 Broke
| part_no_newest oldest e :
    partition_log partition limit n
      [Offset partition OffsetOldest (inl oldest); Offset partition OffsetNewest (inr e)] 0 0 Broke
| part_empty oldest newest : newest <= oldest ->
    partition_log partition limit n
      [Offset partition OffsetOldest (inl oldest); Offset partition OffsetNewest (inl newest)] 0 0 Finished
| part_refused oldest newest e : oldest < newest ->
    partition_log partition limit n
      [Offset partition OffsetOldest (inl oldest); Offset partition OffsetNewest (inl newest);
       Opened partition (start_offset oldest newest limit) (Some e)] 0 0 Broke
| part_read oldest newest l r s x : oldest < newest -> loop_log newest limit n 0 l r s x ->
    partition_log partition limit n
      ([Offset partition OffsetOldest (inl oldest); Offset partition OffsetNewest (inl newest);
        Opened partition (start_offset oldest newest limit) None] ++ l) r s x.

(** The partitions in turn, until the limit is reached; the counts of one that
    breaks off are not added. *)
Inductive run_log (n : nat) : list Z -> Z -> list replay_event -> Z -> Z -> ending -> Prop :=
| run_done p : run_log n [] p [] 0 0 Finished
| run_full parts p : cfg_limit cfg <= p -> run_log n parts p [] 0 0 Finished
| run_next part parts p l r s l' r' s' x : p < cfg_limit cfg ->
    partition_log part (cfg_limit cfg - p) n l r s Finished -> run_log n parts (p + r + s) l' r' s' x ->
    run_log n (part :: parts) p (l ++ l') (r + r') (s + s') x
| run_stop part parts p l r s x : p < cfg_limit cfg -> partition_log part (cfg_limit cfg - p) n l r s x ->
    x <> Finished -> run_log n (part :: parts) p l 0 0 x.

(** The result of a loop that started with [stats]. *)
Definition reported (stats : partitionStats) (r s : Z) (x : ending) (result : option (partitionStats * option err)) : Prop :=
  match result with
  | None => x = Cut
  | Some (stats', None) =>
      x = Finished /\
      stats' = MkStats (st_processed stats + r + s) (st_replayed stats + r) (st_skipped stats + s)
  | Some (_, Some _) => x = Broke
  end.

Lemma extract_outbox_traces data d : traces brokers (extract_outbox data d) (fun t r => t = [] /\
  match r with
  | Replay msg => exists now, (run (at_time now) (extract_outbox data d) tt).1 = Replay msg
  | _ => forall now msg, (run (at_time now) (extract_outbox data d) tt).1 <> Replay msg
  end).
Proof.
  unfold extract_outbox. destruct (unmarshal_outbox "id" data) as [envelope|]; [|by apply traces_ret].
  destruct (of_Payload envelope =s? ""); [by apply traces_ret|].
  destruct (unmarshal_outbox "outbox_id" (of_Payload envelope)) as [dlqPayload|]; [|by apply traces_ret].
  destruct (of_Payload dlqPayload =s? ""); [by apply traces_ret|].
  apply traces_call. intros now _. destruct (raw_message (of_Payload dlqPayload)) as [raw|] eqn:E; [|by apply traces_ret].
  apply traces_ret. split; [done|]. by exists now.
Qed.

Lemma extract_traces m : traces brokers (extractReplayMessage m (cfg_targetTopic cfg)) (fun t r => t = [] /\
  match r with Replay msg => replays_as (cfg_targetTopic cfg) m msg | _ => unreadable m end).
Proof.
  assert (traces brokers (extract_outbox (Msg_Value m) (cfg_targetTopic cfg)) (fun t r => t = [] /\
    match r with
    | Replay msg => exists now, (run (at_time now) (extract_outbox (Msg_Value m) (cfg_targetTopic cfg)) tt).1 = Replay msg
    | _ => forall msg, ~ exists now, (run (at_time now) (extract_outbox (Msg_Value m) (cfg_targetTopic cfg)) tt).1 = Replay msg
    end)) as Houtbox.
  { eapply traces_mono; [apply extract_outbox_traces|]. intros t r [-> H]. split; [done|].
    destruct r; [done|intros msg [now Hn]; by apply (H now msg)..]. }
  unfold unreadable, replays_as, extractReplayMessage.
  destruct (unmarshal_consumer (Msg_Value m)) as [payload|]; [|exact Houtbox].
  destruct (OriginalValue payload <>s? ""); [|exact Houtbox].
  apply traces_ret. split; [done|]. by exists 0.
Qed.

Lemma reported_here stats : reported stats 0 0 Finished (Some (stats, None)).
Proof. split; [done|]. rewrite !Z.add_0_r. by destruct stats. Qed.

(** A loop that goes on from other counts. *)
Lemma reported_then stats dr ds r s x result :
  reported (MkStats (st_processed stats + dr + ds) (st_replayed stats + dr) (st_skipped stats + ds)) r s x result ->
  reported stats (dr + r) (ds + s) x result.
Proof.
  unfold reported. destruct result as [[stats' [e|]]|]; [done| |done]. intros [-> ->]. split; [done|].
  simpl. f_equal; lia.
Qed.

Lemma publish_traces msg : (cfg_execute cfg = true -> producer = true) ->
  traces brokers (if cfg_execute cfg then publishReplay producer msg else mret None) (fun t r =>
    match r with
    | None => t = delivery msg
    | Some e => cfg_execute cfg = true /\ t = [SentReplay msg (Some e)]
    end).
Proof.
  unfold delivery. intros Hprod. destruct (cfg_execute cfg); [|by apply traces_ret].
  unfold publishReplay. rewrite Hprod by done. simpl negb. cbv iota. apply traces_call. intros now _.
  apply traces_vis. intros [e|] _; by apply traces_ret.
Qed.

Lemma partition_loop_traces partition endOffset limit rounds : (cfg_execute cfg = true -> producer = true) ->
  forall stats, traces brokers (partition_loop cfg producer rounds partition endOffset limit stats)
    (fun t result => exists r s x, loop_log endOffset limit rounds (st_processed stats) t r s x /\
       reported stats r s x result).
Proof.
  intros Hprod. induction rounds as [|n IH]; intros stats; cbn [partition_loop].
  { apply traces_ret. exists 0, 0, Cut. split; [constructor|done]. }
  pose proof (reported_here stats) as Hhere.
  destruct (Z.ltb_spec (st_processed stats) limit) as [Hlt|]; simpl negb; cbv iota.
  2: { apply traces_ret. exists 0, 0, Finished. split; [by constructor|done]. }
  apply traces_call. intros event _. simpl observe.
  destruct event as [e|[e|]|[m|]|].
  - apply traces_ret. exists 0, 0, Broke. split; [eapply log_broken; eauto|done].
  - apply traces_ret. exists 0, 0, Broke. split; [eapply log_broken; eauto|done].
  - eapply traces_mono; [apply IH|]. intros t result (r & s & x & Hl & Hr). exists r, s, x.
    split; [by apply log_nil_error|done].
  - destruct (Z.geb_spec (Msg_Offset m) endOffset).
    { apply traces_ret. exists 0, 0, Finished. split; [apply log_past; lia|done]. }
    eapply traces_bind; [apply extract_traces|]. intros t what [-> Hwhat]. simpl app.
    assert (unreadable m -> traces brokers (partition_loop cfg producer n partition endOffset limit (skip_one stats))
      (fun t result => exists r s x, loop_log endOffset limit (S n) (st_processed stats)
         (Selected (PartitionMessage (Some m)) :: t) r s x /\ reported stats r s x result)) as Hskip.
    { intros Hun. eapply traces_mono; [apply IH|]. intros t result (r & s & x & Hl & Hr). exists r, (s + 1), x.
      split; [by apply log_skipped|]. rewrite Z.add_comm. apply (reported_then stats 0 1).
      by rewrite !Z.add_0_r. }
    destruct what as [msg| |de]; [|by apply Hskip..].
    eapply traces_bind; [by apply publish_traces|]. intros t failed Ht. destruct failed as [e|].
    + destruct Ht as [Hx ->]. apply traces_ret. exists 0, 0, Broke. split; [by apply log_send_failed|done].
    + subst t. destruct (Z.geb_spec (wrap64 (Msg_Offset m + 1)) endOffset).
      * apply traces_ret. exists 1, 0, Finished. rewrite app_nil_r. split; [by apply log_last|].
        apply (reported_then stats 1 0 0 0). rewrite !Z.add_0_r. apply reported_here.
      * eapply traces_mono; [apply IH|]. intros t result (r & s & x & Hl & Hr). exists (r + 1), s, x.
        split; [by apply log_replayed|]. rewrite (Z.add_comm r). apply (reported_then stats 1 0).
        by rewrite !Z.add_0_r.
  - apply traces_ret. exists 0, 0, Finished. split; [apply log_over; auto|done].
  - apply traces_ret. exists 0, 0, Finished. split; [apply log_over; auto|done].
Qed.

Lemma processPartition_traces rounds partition limit : (cfg_execute cfg = true -> producer = true) -> 0 < limit ->
  traces brokers (processPartition cfg producer rounds partition limit)
    (fun t result => exists r s x, partition_log partition limit rounds t r s x /\
       reported (MkStats 0 0 0) r s x result).
Proof.
  intros Hprod Hlimit. unfold processPartition. rewrite (proj2 (Z.leb_gt _ _)) by done.
  apply traces_call. intros [oldest|e] _; [|apply traces_ret; exists 0, 0, Broke; split; [constructor|done]].
  apply traces_call. intros [newest|e] _; [|apply traces_ret; exists 0, 0, Broke; split; [constructor|done]].
  destruct (Z.leb_spec newest oldest).
  { apply traces_ret. exists 0, 0, Finished. split; [by constructor|done]. }
  apply traces_call. fold (start_offset oldest newest limit).
  intros [e|] _; [apply traces_ret; exists 0, 0, Broke; split; [by constructor|done]|].
  eapply traces_bind; [by apply partition_loop_traces|]. intros t result (r & s & x & Hl & Hr).
  apply traces_call. intros ? _. apply traces_ret. exists r, s, x. simpl. rewrite app_nil_r.
  split; [by eapply (part_read partition limit rounds oldest newest)|done].
Qed.

Lemma replay_partitions_traces rounds partitions : (cfg_execute cfg = true -> producer = true) ->
  forall total, traces brokers (replay_partitions cfg producer rounds partitions total)
    (fun t result => exists r s x, run_log rounds partitions (st_processed total) t r s x /\
       reported total r s x result).
Proof.
  intros Hprod. induction partitions as [|partition partitions IH]; intros total; cbn [replay_partitions].
  { apply traces_ret. exists 0, 0, Finished. split; [constructor|apply reported_here]. }
  destruct (Z.geb_spec (st_processed total) (cfg_limit cfg)).
  { apply traces_ret. exists 0, 0, Finished. split; [by constructor|apply reported_here]. }
  eapply traces_bind; [apply processPartition_traces; [done|lia]|].
  intros t result (r & s & x & Hl & Hr). destruct result as [[stats [e|]]|].
  - simpl in Hr. subst x. apply traces_ret. exists 0, 0, Broke. rewrite app_nil_r. split; [by eapply run_stop|done].
  - destruct Hr as [-> ->]. eapply traces_mono; [apply IH|]. intros t' result (r' & s' & x & Hl' & Hr).
    simpl in Hl', Hr. exists (r + r'), (s + s'), x. rewrite !Z.add_0_l, Z.add_assoc in Hl'.
    split; [by eapply run_next|]. apply reported_then. by rewrite Z.add_assoc in Hr.
  - simpl in Hr. subst x. apply traces_ret. exists 0, 0, Cut. rewrite app_nil_r. split; [by eapply run_stop|done].
Qed.

(** ** What the logs say *)

Lemma delivery_counts msg l : nil_errors (delivery msg ++ l) = nil_errors l /\
  sends (delivery msg ++ l) = (if cfg_execute cfg then 1 else 0) + sends l.
Proof.
  rewrite nil_errors_app, sends_app. unfold delivery. by destruct (cfg_execute cfg).
Qed.

(** At most the limit is processed, one message or nil error in every round. *)
Record tallied (n : nat) (p limit : Z) (l : list replay_event) (r s : Z) (x : ending) : Prop := MkTallied {
  tl_replayed : 0 <= r;
  tl_skipped : 0 <= s;
  tl_nil : 0 <= nil_errors l;
  tl_limit : p + r + s <= Z.max p limit;
  tl_sends : 0 <= sends l <= Z.max 0 (limit - p);
  tl_dry : cfg_execute cfg = false -> sends l = 0;
  tl_sent : cfg_execute cfg = true -> x = Finished -> sends l = r;
  tl_rounds : x = Cut -> Z.of_nat n <= nil_errors l + Z.max 0 (limit - p);
}.

(** The events [pre] replay [dr] messages and skip [ds], in [k] rounds. *)
Lemma tallied_app k n p limit pre dr ds l r s x :
  0 <= dr -> 0 <= ds -> p + dr + ds <= limit -> 0 <= nil_errors pre -> 0 <= sends pre <= dr + ds ->
  (cfg_execute cfg = false -> sends pre = 0) -> (cfg_execute cfg = true -> sends pre = dr) ->
  Z.of_nat k <= nil_errors pre + dr + ds ->
  tallied n (p + dr + ds) limit l r s x -> tallied (k + n) p limit (pre ++ l) (dr + r) (ds + s) x.
Proof.
  intros Hr Hs Hp Hnil Hsend Hdry Hsent Hk [A B C D E F G I]. split; rewrite ?sends_app, ?nil_errors_app; try lia.
  - intros Hx. rewrite Hdry, F by done. lia.
  - intros Hx Hfin. rewrite Hsent, G by done. lia.
  - intros Hcut. specialize (I Hcut). lia.
Qed.

(** The last events of a loop. *)
Lemma tallied_end n p limit l r s x :
  x <> Cut -> 0 <= r -> 0 <= s -> p + r + s <= Z.max p limit -> 0 <= nil_errors l -> 0 <= sends l <= Z.max 0 (limit - p) ->
  (cfg_execute cfg = false -> sends l = 0) -> (cfg_execute cfg = true -> x = Finished -> sends l = r) ->
  tallied n p limit l r s x.
Proof. by split. Qed.

Lemma read_counts m msg : let l := Selected (PartitionMessage (Some m)) :: delivery msg in
  nil_errors l = 0 /\ 0 <= sends l <= 1 /\ (cfg_execute cfg = false -> sends l = 0) /\ (cfg_execute cfg = true -> sends l = 1).
Proof. unfold delivery. by destruct (cfg_execute cfg). Qed.

Lemma loop_tallied endOffset limit n p l r s x : loop_log endOffset limit n p l r s x -> tallied n p limit l r s x.
Proof.
  induction 1 as [p|n p Hp|n p e Hp He|n p e why Hp He|n p l r s x Hp _ IH|n p m Hp Hm
    |n p m l r s x Hp Hm Hu _ IH|n p m msg l r s x Hp Hm Hr Hw _ IH|n p m msg Hp Hm Hr Hw|n p m msg e Hp Hm Hr Hx].
  - split; try done; unfold sends, nil_errors, count; simpl; lia.
  - apply tallied_end; try done; unfold sends, nil_errors, count; simpl; lia.
  - destruct He as [->| ->]; apply tallied_end; try done; unfold sends, nil_errors, count; simpl; lia.
  - destruct He as [->| ->]; apply tallied_end; try done; unfold sends, nil_errors, count; simpl; lia.
  - apply (tallied_app 1 n p limit [Selected (ConsumerErr None)] 0 0); try done; [lia..|]. by rewrite !Z.add_0_r.
  - apply tallied_end; try done; unfold sends, nil_errors, count; simpl; lia.
  - rewrite (Z.add_comm s). apply (tallied_app 1 n p limit [Selected (PartitionMessage (Some m))] 0 1); try done; [lia..|].
    by rewrite Z.add_0_r.
  - destruct (read_counts m msg) as (Hn & Hs & Hdry & Hsent). rewrite (Z.add_comm r).
    apply (tallied_app 1 n p limit (Selected (PartitionMessage (Some m)) :: delivery msg) 1 0 l r s x); try done; [lia..|].
    by rewrite Z.add_0_r.
  - destruct (read_counts m msg) as (Hn & Hs & Hdry & Hsent). apply tallied_end; try done; [lia..|]. auto.
  - apply tallied_end; try done; try (unfold sends, nil_errors, count; simpl; lia); congruence.
Qed.

Lemma partition_tallied partition limit n l r s x : 0 < limit -> partition_log partition limit n l r s x -> tallied n 0 limit l r s x.
Proof.
  intros Hlimit. destruct 1 as [e|oldest e|oldest newest H|oldest newest e H|oldest newest l r s x H Hl];
    [apply tallied_end; try done; unfold sends, nil_errors, count; simpl; lia..|].
  apply loop_tallied in Hl. by apply (tallied_app 0 n 0 limit _ 0 0 l r s x); try lia.
Qed.

Lemma run_tallied n parts p l r s x : run_log n parts p l r s x -> tallied n p (cfg_limit cfg) l r s x.
Proof.
  induction 1 as [p|parts p Hp|part parts p l r s l' r' s' x Hp Hl _ IH|part parts p l r s x Hp Hl Hx].
  - apply tallied_end; try done; unfold sends, nil_errors, count; simpl; lia.
  - apply tallied_end; try done; unfold sends, nil_errors, count; simpl; lia.
  - apply partition_tallied in Hl as [A B C D E F G I]; [|lia].
    assert (sends l = if cfg_execute cfg then r else 0) as Hs by (destruct (cfg_execute cfg); auto).
    apply (tallied_app 0 n p (cfg_limit cfg) l r s); try done; rewrite ?Hs; try lia.
    all: destruct (cfg_execute cfg); done || lia.
  - apply partition_tallied in Hl as [A B C D E F G I]; [|lia]. split; try done; [lia..|].
    intros Hcut. specialize (I Hcut). lia.
Qed.
End ReplayEffects.

(** The whole run: the clients are missing, or the partitions cannot be listed,
    or they are replayed in the order of their numbers. *)
Definition replay_log (cfg : config) (producer client consumer : bool) (n : nat) (t : list replay_event)
    (result : option (partitionStats * option err)) : Prop :=
  if negb client || negb consumer || (cfg_execute cfg && negb producer)
  then t = [] /\ exists e, result = Some (MkStats 0 0 0, Some e)
  else (exists why e, t = [Listed (inr why)] /\ result = Some (MkStats 0 0 0, Some e)) \/
    exists found parts l r s x, t = Listed (inl found) :: l /\ parts ≡ₚ found /\ StronglySorted Z.le parts /\
      run_log cfg n parts 0 l r s x /\ reported (MkStats 0 0 0) r s x result /\
      tallied cfg n 0 (cfg_limit cfg) l r s x.

(** C38. Every run of the tool, whatever the brokers do.  The partitions are
    read in the order of their numbers, each from its oldest message, or near
    its newest one, up to its end at the start, until the limit is reached.
    Every message below the end counts: one that can be replayed is sent as
    what it is replayed as, once and before the next is read, and counts as
    replayed; in a dry run it is counted and not sent; every other one counts
    as skipped.  A run that ends without an error reports exactly these counts;
    it ends with an error only when the clients are missing, the brokers or the
    context report one, or a message could not be sent.  It processes at most
    as many messages as the limit and ends within as many rounds of its select
    as the limit and the nil errors it receives, per partition. *)
Theorem replay_effects cfg producer client consumer rounds :
  0 < cfg_limit cfg ->
  traces brokers (runReplay cfg producer client consumer rounds) (replay_log cfg producer client consumer rounds).
Proof.
  intros Hlimit. unfold runReplay, replay_log.
  destruct (negb client || negb consumer); simpl orb; cbv iota; [apply traces_ret; eauto|].
  destruct (cfg_execute cfg && negb producer) eqn:Hprod; [apply traces_ret; eauto|].
  assert (cfg_execute cfg = true -> producer = true) as Hp.
  { intros Hx. rewrite Hx in Hprod. by destruct producer. }
  assert (forall found, traces brokers (replay_partitions cfg producer rounds (merge_sort Z.le found) (MkStats 0 0 0))
    (fun t result => exists parts l r s x, Listed (inl found) :: t = Listed (inl found) :: l /\ parts ≡ₚ found /\
      StronglySorted Z.le parts /\ run_log cfg rounds parts 0 l r s x /\ reported (MkStats 0 0 0) r s x result /\
      tallied cfg rounds 0 (cfg_limit cfg) l r s x)) as Hrun.
  { intros found. eapply traces_mono; [by apply replay_partitions_traces|]. intros t result (r & s & x & Hl & Hr).
    exists (merge_sort Z.le found), t, r, s, x. split_and!; [done|apply merge_sort_Permutation| |done|done|].
    - apply StronglySorted_merge_sort; apply _.
    - by apply run_tallied in Hl. }
  apply traces_call. intros [[|p ps]|why] _.
  - right. simpl. exists [], [], [], 0, 0, Finished. split_and!; try done.
    + constructor.
    + constructor.
    + apply tallied_end; try done; unfold sends, nil_errors, count; simpl; lia.
  - eapply traces_mono; [apply Hrun|]. intros t result H. right. exists (p :: ps). exact H.
  - left. eauto.
Qed.

(** A configuration that is accepted names brokers, none of them blank, and
    has topics, a limit and an idle timeout the replay can work with. *)
Lemma readConfig_ok brokersFlag brokersEnv flags cfg :
  readConfig brokersFlag brokersEnv flags = inl cfg ->
  cfg_brokers cfg <> [] /\ Forall (fun b => b <> "") (cfg_brokers cfg) /\
  TrimSpace (cfg_sourceTopic cfg) <> "" /\ TrimSpace (cfg_targetTopic cfg) <> "" /\
  0 < cfg_limit cfg /\ 0 < cfg_idleTimeout cfg.
Proof.
  unfold readConfig. set (bs := parseBrokers _). simpl. intros H.
  destruct (Nat.eqb_spec (length bs) 0) as [|Hlen]; [done|].
  destruct (String.eqb_spec (TrimSpace (cfg_sourceTopic flags)) "") as [|Hs]; [done|].
  destruct (String.eqb_spec (TrimSpace (cfg_targetTopic flags)) "") as [|Ht]; [done|].
  destruct (Z.leb_spec (cfg_limit flags) 0) as [|Hl]; [done|].
  destruct (Z.leb_spec (cfg_idleTimeout flags) 0) as [|Hi]; [done|].
  injection H as <-. simpl. split_and!; try done.
  - intros Hnil. by rewrite Hnil in Hlen.
  - unfold bs, parseBrokers. apply Forall_forall. intros b Hb. by apply list_elem_of_filter in Hb as [? _].
Qed.
