(* ===== verification/Witnesses.v ===== *)
(** * The theorems at concrete inputs

    Each lemma instantiates a theorem of the development at closed values and
    discharges its hypotheses there by evaluation: the hypotheses can hold. *)

From stdpp Require Import pretty.
From S2P Require Import Prelude GoLib Json Sha256 Float64 Domain OrderStore TimelineStore OutboxStore IdempotencyStore Prog Ports Saga SagaTraces OrderService OrderServiceSpec OutboxWorker OutboxDelivery CleanupWorker Concurrency World OrderSafety ShutdownSafety SagaRuns SagaTurns Replay Workers Scenarios Retry BatchProcessor Courier CourierStore OutboxSafety.

(** ** Orders and sagas *)

Lemma short_schedule n : Z.of_nat n < 2 ^ 62 -> (n <= Z.to_nat (2 ^ 63 - 1))%nat.
Proof. lia. Qed.

Definition demo_request : CreateOrderRequest :=
  MkCreateOrderRequest "c1" [Some (MkProtoOrderItem "sku" 2 (Some (MkMoney "USD" 500)))] "USD".

(** A client that creates an order, and one that pays for the order it expects. *)
Definition demo_clients : list client :=
  [CallCreateOrder (with_key "k1") (Some demo_request);
   CallPayOrder (with_key "k2") (Some (MkPayOrderRequest "id-4"))].

Definition created : list nat := replicate 20 0%nat.
Definition payed : list nat := replicate 20 1%nat ++ replicate 40 2%nat.

Definition after_schedule (l : list nat) : list (M unit) * World MemoryOrders.items :=
  system demo_ext bare l (map (client_thread demo_service) demo_clients) empty_world.

Definition stored (l : list nat) (id : string) : Order :=
  default (demo_order "") (orders (after_schedule l).2 !! id).

(** The order that was created is confirmed in the end: the evolution is not
    trivial. *)
Example demo_evolution :
  Order_Status (stored created "id-4") = OrderStatusPending /\
  Order_Status (stored (created ++ payed) "id-4") = OrderStatusConfirmed /\
  Order_Version (stored (created ++ payed) "id-4") = 3.
Proof. vm_compute. done. Qed.

Lemma orders_evolve_witness :
  exists b, orders (system demo_ext bare (created ++ payed) (map (client_thread demo_service) demo_clients)
                      empty_world).2 !! "id-4" = Some b /\
            evolved (stored created "id-4") b.
Proof.
  assert (orders (system demo_ext bare created (map (client_thread demo_service) demo_clients)
                    empty_world).2 !! "id-4" = Some (stored created "id-4")) as Hid
    by (vm_compute; reflexivity).
  assert (length (created ++ payed) <= Z.to_nat (2 ^ 63 - 1))%nat as Hlen
    by (apply short_schedule; vm_compute; reflexivity).
  exact (orders_evolve demo_ext demo_service bare demo_clients created payed empty_world "id-4" _
           eq_refl (conj I (conj eq_refl eq_refl)) Hlen Hid).
Defined.

Lemma stored_orders_typed_witness :
  let order := stored (created ++ payed) "id-4" in
  Order_Version order = 3 /\ Order_Status order <> OrderStatusPending.
Proof.
  assert (orders (system demo_ext bare (created ++ payed) (map (client_thread demo_service) demo_clients)
                    empty_world).2 !! "id-4" = Some (stored (created ++ payed) "id-4")) as Hid
    by (vm_compute; reflexivity).
  assert (length (created ++ payed) <= Z.to_nat (2 ^ 63 - 1))%nat as Hlen
    by (apply short_schedule; vm_compute; reflexivity).
  assert (Order_Version (stored (created ++ payed) "id-4") = 3) as Hv by (vm_compute; reflexivity).
  assert (initial empty_world) as Hi by (exact (conj I (conj eq_refl eq_refl))).
  destruct (stored_orders_typed demo_ext demo_service bare demo_clients (created ++ payed) empty_world "id-4"
           (stored (created ++ payed) "id-4") eq_refl Hi Hlen Hid) as (_ & _ & Hp).
  split; [exact Hv|]. intros E. apply Hp in E. rewrite Hv in E. discriminate E.
Defined.

Lemma payments_match_orders_witness :
  let w := (system demo_ext bare (created ++ payed) (map (client_thread demo_service) demo_clients)
              empty_world).2 in
  Paid "id-4" 1000 PaymentStatusCaptured None ∈ w_effects w /\
  exists order, orders w !! "id-4" = Some order /\ 1000 = Order_AmountMinor order.
Proof.
  set (w := (system _ _ _ _ _).2).
  assert (Paid "id-4" 1000 PaymentStatusCaptured None ∈ w_effects w) as Hin.
  { apply list_elem_of_In. vm_compute. tauto. }
  split; [exact Hin|].
  assert (length (created ++ payed) <= Z.to_nat (2 ^ 63 - 1))%nat as Hlen
    by (apply short_schedule; vm_compute; reflexivity).
  pose proof (payments_match_orders demo_ext demo_service bare demo_clients (created ++ payed)
                empty_world eq_refl (conj I (conj eq_refl eq_refl)) Hlen) as H.
  cbv zeta in H. fold w in H. destruct H as (_ & H & _). exact (H _ _ _ _ Hin).
Defined.

Lemma start_confirms_witness :
  let order := demo_order OrderStatusPending in
  let w := demo_world OrderStatusPending in
  let w' := (run (handle demo_ext) (Start bare "o1") w).2 in
  confirmed_from PaymentStatusCaptured order (w_orders w, w_effects w) (w_orders w', w_effects w').
Proof.
  apply (start_confirms demo_ext bare (fun _ _ _ => eq_refl) PaymentStatusCaptured
           (fun _ _ _ _ => eq_refl)); vm_compute; try done; auto.
Defined.

Lemma refund_refunds_witness :
  let order := demo_order OrderStatusConfirmed in
  let w := demo_world OrderStatusConfirmed in
  let w' := (run (handle demo_ext) (Refund bare "o1" 300 "damaged") w).2 in
  refunded_from 300 order (w_orders w, w_effects w) (w_orders w', w_effects w').
Proof.
  apply (refund_refunds demo_ext bare (fun _ _ _ _ => eq_refl) (demo_order OrderStatusConfirmed));
    vm_compute; try done; auto.
Defined.

(** An order is created, paid and partly refunded; then a cancellation that
    comes too late. *)
Definition demo_turns : list turn :=
  [ClientTurn (CallCreateOrder (with_key "k1") (Some demo_request)); SagaTurn (JobStart "id-4");
   SagaTurn (JobRefund "id-4" 300 "damaged"); SagaTurn (JobCancel "id-4" "late")].

Lemma books_balance_witness :
  let w' := (run (handle demo_ext) (for_each demo_turns (turn_program demo_service bare)) empty_world).2 in
  transfers "id-4" (w_effects w') = [Charge 1000; Return 300] /\
  exists order, w_orders w' !! "id-4" = Some order /\ Order_Status order = OrderStatusRefunded /\
    account_ok order (w_effects w').
Proof.
  set (w' := (run _ _ _).2).
  set (order := default (demo_order "") (w_orders w' !! "id-4")).
  assert (w_orders w' !! "id-4" = Some order) as Hget by (vm_compute; reflexivity).
  split; [vm_compute; reflexivity|]. exists order. split; [exact Hget|]. split; [vm_compute; reflexivity|].
  exact (proj2 (proj1 (books_balance demo_ext demo_service bare demo_turns empty_world eq_refl
                         (conj I (conj eq_refl eq_refl))) "id-4" order Hget)).
Defined.

(** A request that starts a saga, its saga, and then [Shutdown] and a request
    that comes too late. *)
Definition draining_clients : list client :=
  [CallPayOrder (with_key "k1") (Some (MkPayOrderRequest "o1")); CallShutdown;
   CallPayOrder (with_key "k2") (Some (MkPayOrderRequest "o1"))].

Definition drain_before : list nat := replicate 20 0%nat ++ replicate 40 3%nat ++ [1%nat].
Definition drain_after : list nat := replicate 20 2%nat ++ replicate 20 1%nat.

Lemma shutdown_drains_witness :
  let pool := map (client_thread demo_service) draining_clients in
  let s1 := (system demo_ext bare drain_before pool (demo_world OrderStatusPending)).1 in
  let s2 := (system demo_ext bare (drain_before ++ drain_after) pool (demo_world OrderStatusPending)).1 in
  length s1 = 4%nat /\ length s2 = length s1 /\
  forall i p, (length draining_clients <= i)%nat -> s2 !! i = Some p -> finished p = true.
Proof.
  set (pool := map (client_thread demo_service) draining_clients).
  set (w := demo_world OrderStatusPending).
  assert (w_sagaClosed (system demo_ext bare drain_before pool w).2 = true) as Hclosed
    by (vm_compute; reflexivity).
  assert ((handle demo_ext _ SagaWait (system demo_ext bare drain_before pool w).2).1 = None) as Hwait
    by (vm_compute; reflexivity).
  split; [vm_compute; reflexivity|].
  exact (shutdown_drains demo_ext bare demo_service draining_clients drain_before drain_after w
           eq_refl Hclosed Hwait).
Defined.

(** ** Idempotency *)

Definition pay_request : option PayOrderRequest := Some (MkPayOrderRequest "o1").

Definition pay_hash : string :=
  match buildIdempotencyRequestHash grpcMethodPayOrder pay_request with Ok h => h | Err _ => "" end.

Lemma pay_hash_eq : buildIdempotencyRequestHash grpcMethodPayOrder pay_request = Ok pay_hash.
Proof. vm_compute. reflexivity. Qed.

Lemma idempotent_replay_witness :
  let '(r, w1) := run (handle demo_ext)
    (withIdempotency demo_service (with_key "k1") grpcMethodPayOrder pay_request
       (payOrderInternal demo_service pay_request)) (demo_world OrderStatusPending) in
  r = Resp (MkStatusResponse "o1" ORDER_STATUS_PENDING) /\
  run (handle demo_ext)
    (withIdempotency demo_service (with_key "k1") grpcMethodPayOrder pay_request
       (payOrderInternal demo_service pay_request)) w1 = (replayed r, log [] (log [] w1)).
Proof.
  pose proof (fun w2 => idempotent_replay demo_ext demo_service eq_refl (with_key "k1") grpcMethodPayOrder
    pay_request (payOrderInternal demo_service pay_request) (payOrderInternal demo_service pay_request)
    "k1" pay_hash (demo_world OrderStatusPending) w2 eq_refl pay_hash_eq
    (proj1 (proj2 (handlers_no_idem demo_service None pay_request None None))) eq_refl) as H.
  assert ((run (handle demo_ext)
    (withIdempotency demo_service (with_key "k1") grpcMethodPayOrder pay_request
       (payOrderInternal demo_service pay_request)) (demo_world OrderStatusPending)).1 =
          Resp (MkStatusResponse "o1" ORDER_STATUS_PENDING)) as Hr by (vm_compute; reflexivity).
  destruct (run _ _ (demo_world OrderStatusPending)) as [r w1]. simpl in Hr.
  split; [exact Hr|]. apply (H w1); [|reflexivity]. rewrite Hr. eexists. reflexivity.
Defined.

Definition other_request : option PayOrderRequest := Some (MkPayOrderRequest "o2").

Lemma key_reuse_refused_witness :
  let w := (run (handle demo_ext) (PayOrder demo_service (with_key "k1") pay_request)
              (demo_world OrderStatusPending)).2 in
  run (handle demo_ext) (withIdempotency demo_service (with_key "k1") grpcMethodPayOrder other_request
                           (payOrderInternal demo_service other_request)) w =
  (Fail (Status codes_AlreadyExists "idempotency key is already used with different request payload"),
   log [] (log [] w)).
Proof.
  set (w := (run _ (PayOrder _ _ _) _).2).
  set (rec := default IdempotencyRecord_zero (w_idem w !! "k1")).
  set (hash := match buildIdempotencyRequestHash grpcMethodPayOrder other_request with Ok h => h | Err _ => "" end).
  assert (w_idem w !! "k1" = Some rec) as Hrec by (vm_compute; reflexivity).
  assert ((Idem_RequestHash rec =? hash)%string = false) as Hne by (vm_compute; reflexivity).
  apply String.eqb_neq in Hne.
  assert (buildIdempotencyRequestHash grpcMethodPayOrder other_request = Ok hash) as Hh by (vm_compute; reflexivity).
  exact (key_reuse_refused demo_ext demo_service eq_refl (with_key "k1") grpcMethodPayOrder other_request
           (payOrderInternal demo_service other_request) "k1" hash rec w eq_refl Hh Hrec Hne).
Defined.

Lemma failure_round_trip_witness :
  let st := Status codes_FailedPrecondition "order is not eligible for refund" in
  decodeIdempotencyFailure
    (MkIdempotencyRecord "k1" "h" (marshalPayload (MkPayload (grpcCodeToInt32 codes_FailedPrecondition)
       "order is not eligible for refund")) codes_FailedPrecondition IdempotencyStatusFailed 1 1 1) = st.
Proof.
  apply failure_round_trip; [split; [|split]; reflexivity| |discriminate|vm_compute; reflexivity|discriminate].
  unfold is_grpc_code. vm_compute. split; discriminate.
Defined.

Section IdempotencyRepository.
Import MemoryIdempotency.

(** A key is taken; the request ends, another key comes, and nothing expires. *)
Lemma key_won_once_witness :
  let first := CreateProcessing 5 "k" "h" 0 ∅ in
  let m := run_ops [OpMark 6 "k" IdempotencyStatusDone "{}" 0; OpCreate 7 "other" "h" 0; OpPurge 0 8 9 0] first.2 in
  exists r', CreateProcessing 10 " k" "g" 0 m = (r', Some ErrIdempotencyHashMismatch, m).
Proof.
  set (first := CreateProcessing 5 "k" "h" 0 ∅).
  assert (first = (first.1.1, None, first.2)) as Hf by (vm_compute; reflexivity).
  refine (key_won_once 5 "k" "h" 0 ∅ first.1.1 first.2 _ 10 " k" "g" 0 Hf _ eq_refl _); [|discriminate].
  repeat constructor; vm_compute; reflexivity.
Defined.
End IdempotencyRepository.

(** ** The outbox *)

Section OutboxRepository.
Import MemoryOutbox.

Definition pending_at (id : string) (t : Time) : outboxRecord :=
  MkOutboxRecord (MkOutboxMessage id "order" "o1" "OrderStatusChanged" "{}") "pending" 0 t t.

Definition two_pending : records := <["m1" := pending_at "m1" 7]> {["m2" := pending_at "m2" 5]}.

Lemma pull_exclusive_witness :
  "m2" ∈ pulled 0 10 1 two_pending /\
  "m2" ∉ pulled 1 (10 + Minute) 5 (PullPending 0 10 1 two_pending).2.
Proof.
  assert ("m2" ∈ pulled 0 10 1 two_pending) as Hin by (apply list_elem_of_In; vm_compute; auto).
  split; [exact Hin|]. apply pull_exclusive; [vm_compute; reflexivity|exact Hin].
Defined.

(** Two pending messages, a batch of one and one poll after the first. *)
Definition backlog_world : World MemoryOrders.items := with_outbox two_pending empty_world.

Lemma backlog_keyed : outbox_keyed (w_outbox backlog_world).
Proof. intros id r H%elem_of_map_to_list. revert H. vm_compute. intros H. set_solver. Qed.

Lemma outbox_drained_witness : exists st' : World MemoryOrders.items, sent_from two_pending (w_outbox st') "m1".
Proof.
  destruct (outbox_drained demo_ext [WithBatchSize 1] 1 backlog_world) as (st' & _ & _ & Hsent & _).
  - intros n. reflexivity.
  - intros n e. reflexivity.
  - exact backlog_keyed.
  - vm_compute. discriminate.
  - exists st'. apply Hsent. exists (pending_at "m1" 7). split; vm_compute; reflexivity.
Defined.

(** A client creates an order, another pays for it, and a worker delivers the
    events of the saga. *)
Definition delivery_clients : list client := demo_clients ++ [OutboxWorkerRun (NewWorker true true []) 0].
Definition enqueuing : list nat := created ++ replicate 20 1%nat ++ replicate 40 3%nat.
Definition delivering : list nat := replicate 60 2%nat.
Abbreviation delivery l :=
  (broker_system demo_ext bare l (map (client_thread demo_service) delivery_clients) (empty_world, [])).2.

Lemma demo_uuid_inj i k : ext_uuid demo_ext i = ext_uuid demo_ext k -> i = k.
Proof. intros E. change ("id-" +:+ pretty i = "id-" +:+ pretty k) in E. by apply (inj _), (inj _) in E. Qed.

Lemma outbox_at_least_once_witness :
  rec_status <$> w_outbox (delivery enqueuing).1 !! "id-21" = Some "pending" /\
  exists r, w_outbox (delivery (enqueuing ++ delivering)).1 !! "id-21" = Some r /\ rec_status r = "sent" /\
    rec_msg r ∈ (delivery (enqueuing ++ delivering)).2 /\
    Some (rec_msg r) = rec_msg <$> w_outbox (delivery enqueuing).1 !! "id-21".
Proof.
  destruct (outbox_at_least_once demo_ext demo_service bare delivery_clients enqueuing delivering empty_world
              eq_refl demo_uuid_inj) as (_ & Hkept & Hsent & _).
  destruct (w_outbox (delivery enqueuing).1 !! "id-21") as [r0|] eqn:E0; [|vm_compute in E0; discriminate E0].
  destruct (Hkept "id-21" r0 E0) as (r & Hr & Hm). change (w_outbox (delivery (enqueuing ++ delivering)).1 !! "id-21" = Some r) in Hr.
  assert (rec_status r = "sent") as Hst.
  { assert (rec_status <$> w_outbox (delivery (enqueuing ++ delivering)).1 !! "id-21" = Some "sent") as H
      by (vm_compute; reflexivity). rewrite Hr in H. by injection H. }
  split; [|exists r; split_and!; [exact Hr|exact Hst|exact (Hsent "id-21" r Hr Hst)|simpl; by rewrite Hm]].
  rewrite <- E0. vm_compute. reflexivity.
Defined.

Lemma pull_oldest_first_witness :
  older ("m1", pending_at "m1" 7) ("m2", pending_at "m2" 5) = false /\
  Z.of_nat (length (pulled 0 10 1 two_pending)) = effective_limit 1.
Proof.
  apply (pull_oldest_first 0 10 1 two_pending "m2" (pending_at "m2" 5) "m1" (pending_at "m1" 7));
    try (vm_compute; reflexivity).
  - apply list_elem_of_In. vm_compute. auto.
  - rewrite list_elem_of_In. vm_compute. intros [E|[]]. discriminate E.
Defined.

Lemma stats_exact_witness :
  let st := MkOutboxStats 2 5 in
  OutboxStats_PendingCount st = 2 /\
  (forall id r, two_pending !! id = Some r -> backlog r = true -> OutboxStats_OldestPendingAt st <= rec_createdAt r).
Proof.
  destruct (stats_exact 0 two_pending (MkOutboxStats 2 5)) as (_ & H & _);
    [repeat constructor; vm_compute; reflexivity|vm_compute; reflexivity|].
  split; [reflexivity|exact H].
Defined.
End OutboxRepository.

Lemma retryBackoff_exponential_witness :
  retryBackoff (200 * Millisecond) 5 = 3200 * Millisecond /\ retryBackoff (200 * Millisecond) 1000 = maxDuration.
Proof.
  rewrite (retryBackoff_exponential (200 * Millisecond) 5), (retryBackoff_exponential (200 * Millisecond) 1000);
    vm_compute; try (split; reflexivity); try discriminate; split; first [reflexivity|discriminate].
Defined.

Definition expired_record (key : string) (ttl : Time) : IdempotencyRecord :=
  MkIdempotencyRecord key "h" "" 0 IdempotencyStatusDone ttl 1 1.

Definition expiring_world : World MemoryOrders.items :=
  with_idem (<["a" := expired_record "a" 5]> (<["b" := expired_record "b" 9]> {["c" := expired_record "c" 7]}))
    empty_world.

(** Two of three records expire, one batch each. *)
Lemma cleanup_complete_witness :
  exists w', run (handle demo_ext) (CleanupDeleteExpired (MkCleanupWorker true Minute 1) 3 8) expiring_world =
    (Some (2, None), w') /\
    forall k r, w_idem w' !! k = Some r <->
                w_idem expiring_world !! k = Some r /\ MemoryIdempotency.expired 8 r = false.
Proof.
  apply (cleanup_complete demo_ext (MkCleanupWorker true Minute 1) 3 8 expiring_world);
    try (vm_compute; reflexivity); vm_compute; auto.
Defined.

(** ** Retry, circuit breaker, batches *)

(** Every publication and every wait is observed. *)
Definition publish_env : environment port retry_event :=
  {| allowed := fun _ _ _ => True;
     observe := fun X c => match c in port X return X -> list retry_event with
                           | PublisherPublish _ _ => fun r => [Tried r]
                           | Sleep d => fun _ => [Slept d]
                           | _ => fun _ => []
                           end |}.

Lemma executeWithRetry_attempts_witness :
  traces publish_env
    (executeWithRetry DefaultRetryConfig
       (call (PublisherPublish MainPublisher (MkOutboxMessage "m" "order" "o" "t" "{}"))))
    (retry_outcome DefaultRetryConfig 3 (100 * Millisecond)).
Proof.
  apply (executeWithRetry_attempts DefaultRetryConfig
           (call (PublisherPublish MainPublisher (MkOutboxMessage "m" "order" "o" "t" "{}"))) publish_env).
  - intros x _. reflexivity.
  - intros d x _. reflexivity.
  - vm_compute. discriminate.
Defined.

Lemma breaker_refines_automaton_witness :
  let calls := [MkCall 1 2 true; MkCall 3 4 true; MkCall 5 6 false; MkCall 50 51 false] in
  breaker_rel 2 10 (foldl (fun cb c => (breaker_run cb c).2) (NewCircuitBreaker 2 10) calls) (SpecClosed 0).
Proof.
  apply (breaker_refines_automaton 2 10
           [MkCall 1 2 true; MkCall 3 4 true; MkCall 5 6 false; MkCall 50 51 false]);
    vm_compute; split; first [reflexivity|discriminate].
Defined.

Lemma closed_breaker_below_limit_witness :
  let cb := foldl breaker_step (NewCircuitBreaker 5 10) [OpExit 1 true; OpExit 2 true] in
  cb_failures cb = 2 /\ 0 <= cb_failures cb < 5.
Proof.
  split; [vm_compute; reflexivity|].
  apply (closed_breaker_below_limit 5 10 [OpExit 1 true; OpExit 2 true]); vm_compute; first [reflexivity|discriminate].
Defined.

Lemma breaker_orchestrator_passes_through_witness :
  let '(cb', w') := run (handle demo_ext) (breaker_job bare (NewCircuitBreaker 5 Minute) (JobStart "missing"))
                      (demo_world OrderStatusPending) in
  cb_state cb' = CircuitClosed /\
  w' = (run (handle demo_ext) (run_saga_job bare (JobStart "missing")) (demo_world OrderStatusPending)).2.
Proof.
  exact (breaker_orchestrator_passes_through (handle demo_ext) bare (NewCircuitBreaker 5 Minute)
           (JobStart "missing") (demo_world OrderStatusPending) eq_refl).
Defined.

(** Two requests, one received, the worker stopped, a third request. *)
Definition stopped_pipe : pipe nat := stop (receive (submit 2%nat (submit 1%nat new_pipe))).

Lemma stopped_pipe_run : pipe_run new_pipe ([1; 2]%nat ++ []) stopped_pipe.
Proof.
  eapply run_step; [|by constructor 4]. eapply (run_step _ ([1; 2]%nat) _ []); [|by constructor 2].
  eapply (run_step _ [1%nat]); [|constructor]. eapply (run_step _ []); constructor.
Qed.

Lemma batch_conserves_witness :
  pipe_sent stopped_pipe ++ pipe_ch stopped_pipe ≡ₚ [1; 2]%nat /\ pipe_sent stopped_pipe = [1%nat].
Proof.
  split; [|reflexivity]. exact (proj2 (proj2 (proj2 (batch_conserves _ _ stopped_pipe_run))) eq_refl).
Defined.

Lemma stop_drops_queued_witness :
  pipe_sent (submit 3%nat stopped_pipe) = pipe_sent stopped_pipe /\
  pipe_ch (submit 3%nat stopped_pipe) = pipe_ch stopped_pipe ++ [3%nat].
Proof.
  apply (stop_drops_queued stopped_pipe ([] ++ [3%nat]));
    [eapply run_step; constructor|reflexivity|vm_compute; repeat constructor].
Defined.

Lemma parallel_batch_witness :
  batch_done 2 (MkBatch 2 [] [0; 1]%nat) /\ [0; 1]%nat ≡ₚ seq 0 2.
Proof.
  assert (batch_done 2 (MkBatch 2 [] [0; 1]%nat)) as Hd by (split; reflexivity).
  split; [exact Hd|]. apply (parallel_batch 2 (MkBatch 2 [] [0; 1]%nat)); [|exact Hd].
  eapply reach_step; [|apply (batch_finish 2 (MkBatch 2 [0%nat] [1%nat]) [] 0 []); reflexivity].
  eapply reach_step; [|apply (batch_finish 2 (MkBatch 2 [0; 1]%nat []) [0%nat] 1 []); reflexivity].
  eapply reach_step; [|apply (batch_start 2 (MkBatch 1 [0%nat] [])); first [reflexivity|vm_compute; repeat constructor]].
  eapply reach_step; [|apply (batch_start 2 (MkBatch 0 [] [])); first [reflexivity|vm_compute; repeat constructor]].
  constructor.
Defined.

(** ** Couriers *)

#[local] Instance ascii_lower : UnicodeLower := fun r => r.

Lemma NormalizePhone_canonical_witness :
  phone_normal "+79161234567" /\ NormalizePhone "+79161234567" = Ok "+79161234567".
Proof. apply (NormalizePhone_canonical " +7 (916) 123-45-67 "). vm_compute. reflexivity. Defined.

Section CourierRepository.
Import MemoryCouriers.

Definition demo_courier : Courier := MkCourier "k1" "+79161234567" "Ivan" "Petrov" VehicleTypeBike true 0 0.

Definition rated : repository :=
  foldl run_op (NewCourierRepository 1)
    [OCreate 2 demo_courier;
     OSubmitRating 3 (MkCourierRating "r1" "k1" 5 [CourierRatingTagPolite] "" 0);
     OSubmitRating 4 (MkCourierRating "r2" "k1" 2 [CourierRatingTagRudeBehavior] "" 0)].

Definition rated_summary : CourierRatingSummary :=
  match GetRatingSummary 0 "k1" rated with Ok s => s | Err _ => empty_summary "" end.

Lemma rating_summary_exact_witness :
  exists last_, rated_summary = summary_spec "k1" (map snd (map_to_list (ratings_of rated "k1"))) last_ /\
    Sum_RatingsCount rated_summary = 2 /\ Sum_RudeCount rated_summary = 1.
Proof.
  assert (repo_inv rated) as HI.
  { unfold rated. cbn [foldl run_op].
    exact (SubmitRating_inv _ _ _ (SubmitRating_inv _ _ _ (Create_inv _ _ _ (NewCourierRepository_inv 1)))). }
  destruct (rating_summary_exact 0 "k1" rated rated_summary HI) as [[E _]|(last_ & H & _)].
  - vm_compute. reflexivity.
  - vm_compute. discriminate.
  - vm_compute. repeat constructor; discriminate.
  - vm_compute in E. discriminate E.
  - exists last_. split; [exact H|]. vm_compute. split; reflexivity.
Defined.
End CourierRepository.
