(* ===== verification/EdgeWitnesses.v ===== *)
(** * The theorems on couriers and messaging at concrete inputs

    Each lemma instantiates a theorem at closed values and discharges its
    hypotheses there by evaluation. *)

From S2P Require Import Prelude GoLib Json Float64 JsonStruct Rfc3339 Domain Prog Ports OrderService Courier CourierStore CourierService CourierFleet CourierScenarios Kafka KafkaEvents DlqReprocess.
Import MemoryCouriers.

(** ** Couriers *)

(** 2024-01-15, 20:00 in Moscow. *)
Definition evening : Time := (unixToInternal + 1705338000) * Second.

Lemma night_shift_exact_witness :
  IsNightShiftSlot evening (evening + 12 * Hour) = true.
Proof.
  apply night_shift_exact; [vm_compute; split; (reflexivity || discriminate)..|].
  split; reflexivity.
Defined.

Lemma courier_errors_specific_witness :
  not_internal (run (fleet_handle fleet_demo_ext)
    (courier_request configured (CallRegisterCourier (Some (nth_request 100 full_zone)))) full_fleet).1.
Proof. apply courier_errors_specific. reflexivity. Defined.

Definition registered : reply ProtoCourier * fleet :=
  run (fleet_handle fleet_demo_ext) (RegisterCourier configured (Some (nth_request 0 full_zone))) new_fleet.

Definition registered_courier : ProtoCourier :=
  Eval vm_compute in match registered.1 with Resp resp => resp | _ => MkProtoCourier "" "" "" "" 0 false [] end.

Lemma registered_ok :
  run (fleet_handle fleet_demo_ext) (RegisterCourier configured (Some (nth_request 0 full_zone))) new_fleet =
  (Resp registered_courier, registered.2).
Proof. vm_compute. reflexivity. Qed.

Lemma register_then_get_witness :
  (run (fleet_handle fleet_demo_ext) (GetCourier configured (Some (PCourier_Id registered_courier))) registered.2).1 =
  Resp registered_courier.
Proof.
  exact (register_then_get fleet_demo_ext configured (nth_request 0 full_zone) new_fleet registered_courier
           registered.2 (NewCourierRepository_inv 1) registered_ok).
Defined.

(** ** Messaging *)

Definition demo_message : ConsumerMessage := MkConsumerMessage "oms.order.events" 0 7 "k" "{}" [].

Lemma consumer_effects_witness :
  traces cluster (ConsumeClaim (NewConsumerWithDLQ true 3) 2)
    (fun t _ => claim_effects (NewConsumerWithDLQ true 3) 2 t) /\
  Z.of_nat (attempts_left (NewConsumerWithDLQ true 3) demo_message) <= 3.
Proof.
  destruct (consumer_effects true 3 2) as [H1 H2]. split; [exact H1|].
  apply H2. vm_compute. split; [discriminate|reflexivity].
Defined.

Lemma dead_letter_round_trip_witness :
  traces cluster (sendToDLQ demo_message (ErrOther "boom")) (fun sent _ => exists value answer,
    sent = [Sent TopicDeadLetterQueue "k" value answer] /\
    (forall dead defaultTopic, Msg_Value dead = value ->
     extractReplayMessage dead defaultTopic = mret (Replay (MkReplayMessage "oms.order.events" "k" "{}")))).
Proof.
  eapply traces_mono; [apply (dead_letter_round_trip demo_message (ErrOther "boom"))|].
  intros sent _ (value & answer & Hsent & Hback). exists value, answer. split; [exact Hsent|].
  intros dead defaultTopic Hdead. apply (Hback dead defaultTopic Hdead); first [vm_compute; reflexivity|discriminate].
Defined.

(** A dry run reports what it would send, and sends nothing. *)
Lemma replay_effects_witness :
  let cfg := MkConfig ["localhost:9092"] TopicDeadLetterQueue TopicOrderEvents 10 false false (2 * Second) in
  traces brokers (runReplay cfg false true true 5) (fun t result =>
    replay_log cfg false true true 5 t result /\ sends t = 0).
Proof.
  intros cfg. eapply traces_mono; [apply (replay_effects cfg false true true 5); reflexivity|].
  intros t result H. split; [exact H|].
  destruct H as [(why & e & -> & _)|(found & parts & l & r & s & x & -> & _ & _ & _ & _ & Htally)]; [reflexivity|].
  exact (tl_dry _ _ _ _ _ _ _ _ Htally eq_refl).
Defined.

(** ** Kafka events *)

Lemma amount_metadata_ok : metadata_ok {["amount" := JInt 1999]}.
Proof. intros k v [<- <-]%lookup_singleton_Some. split; [reflexivity|vm_compute; split; discriminate]. Qed.

(** An event of an order paid in Moscow. *)
Definition event_message : ConsumerMessage :=
  MkConsumerMessage TopicSagaEvents 0 7 "o1" (default "" (encode_SagaEvent 10800 (paid_event 1999))) [].

Lemma event_message_encoded : encode_SagaEvent 10800 (paid_event 1999) = Some (Msg_Value event_message).
Proof. vm_compute. reflexivity. Qed.

Lemma kafka_events_round_trip_witness :
  ParseSagaEvent event_message =
  inl (MkSagaEventRead "step.paid" "o1" ((unixToInternal + 1700000000) * Second) (any_of_jvalue <$> {["amount" := JInt 1999]})).
Proof.
  destruct (kafka_events_round_trip 10800 eq_refl eq_refl) as [Hsaga _].
  destruct (Hsaga (paid_event 1999) amount_metadata_ok) as [_ Hparse].
  exact (Hparse event_message event_message_encoded).
Defined.
