(* ===== verification/PgWitnesses.v ===== *)
(** * The theorems on PostgreSQL at concrete inputs

    Each lemma instantiates a theorem at closed values and discharges its
    hypotheses there by evaluation. *)

From S2P Require Import Prelude GoLib Domain TimelineStore OrderStore OutboxStore IdempotencyStore Prog Scenarios Postgres Courier PgSchema PgOrders PgOutbox PgIdempotency PgCouriers PgConcurrency PgVersions PgFleet PgCapacity CourierScenarios PgScenarios Migrator MigrationScripts.

(** ** Orders *)

Definition pg_order : Order := MkOrder "o1" "c1" OrderStatusPending "USD" 1000
  [MkOrderItem "i1" "sku" 1 1000 pg_now] 0 pg_now pg_now.

Lemma calm_no_outage now id : no_outage (calm_surroundings now id).
Proof. by intros n. Qed.

(** The database with this order, and the order once paid and with another
    item. *)
Definition one_order : database := (sql_call (quiet 0) (PgOrders.Create pg_order) empty_database).2.

Definition changed_order : Order := MkOrder "o1" "c1" OrderStatusPaid "USD" 500
  [MkOrderItem "i2" "sku" 1 500 pg_now] 0 (pg_now + 1) (pg_now + 1).

Lemma one_order_ok : PgOrders.tables_ok one_order.
Proof. exact (proj1 (proj1 (PgOrders.postgres_orders_contract (quiet 0) pg_order "o1" empty_database PgOrders.tables_ok_empty))). Qed.

Lemma postgres_orders_contract_witness :
  PgOrders.stored_orders one_order !! "o1" = Some pg_order /\
  PgOrders.save_effect changed_order one_order
    (sql_call (quiet 0) (PgOrders.Save changed_order) one_order).1
    (sql_call (quiet 0) (PgOrders.Save changed_order) one_order).2.
Proof.
  split; [vm_compute; reflexivity|].
  exact (proj1 (proj2 (PgOrders.postgres_orders_contract (quiet 0) changed_order "o1" one_order one_order_ok))).
Defined.

(** The two repositories differ on a save with other items or another creation
    time: the in-memory one replaces them, the PostgreSQL one keeps them. *)
Theorem save_keeps_items :
  PgOrders.stored_orders (sql_call (quiet 0) (PgOrders.Save changed_order) one_order).2 !! "o1" =
    Some (saved_as (keeping pg_order changed_order) pg_now) /\
  (MemoryOrders.Save changed_order (PgOrders.stored_orders one_order)).2 !! "o1" = Some (set_version changed_order 1).
Proof. vm_compute. done. Qed.

(** A second order: it fits, but with the item of the first it is refused. *)
Definition second_order (item : string) : Order := MkOrder "o2" "c1" OrderStatusPending "USD" 1000
  [MkOrderItem item "sku" 1 1000 pg_now] 0 pg_now pg_now.

Lemma second_order_insertable : PgOrders.insertable (second_order "i2") one_order.
Proof.
  split; [done|done|by repeat constructor|by repeat constructor|]. simpl. apply NoDup_singleton.
Qed.

Lemma second_order_refused : ~ PgOrders.insertable (second_order "i1") one_order.
Proof. intros [_ _ _ H _]. apply Forall_cons in H as [H _]. by vm_compute in H. Qed.

Lemma postgres_orders_as_memory_witness :
  (sql_call (quiet 0) (PgOrders.Create (second_order "i2")) one_order).1 =
    (MemoryOrders.Create (second_order "i2") (PgOrders.stored_orders one_order)).1 /\
  (exists e, sql_call (quiet 0) (PgOrders.Create (second_order "i1")) one_order = (Err e, one_order)) /\
  (MemoryOrders.Create (second_order "i1") (PgOrders.stored_orders one_order)).1 = Ok tt.
Proof.
  destruct (PgOrders.postgres_orders_as_memory (pg := pg_C) (H := reference_runtime_laws) (quiet 0) one_order
    (calm_no_outage _ _) one_order_ok eq_refl) as (_ & _ & Hcreate & Hrefused & _).
  split; [exact (Hcreate _ second_order_insertable)|].
  split; [exact (Hrefused _ second_order_refused)|vm_compute; reflexivity].
Defined.

(** ** Outbox *)

Definition pg_message : OutboxMessage := MkOutboxMessage "m1" "order" "o1" "created" "{}".

Lemma outbox_ok_empty : PgOutbox.outbox_ok empty_database.
Proof. intros k r H. simpl in H. by apply lookup_empty_Some in H. Qed.

(** An outbox with a message, of a clock that is off the microseconds. *)
Definition odd_clock : surroundings := calm_surroundings (pg_now + 3 * Minute + 7) "uuid".

Definition one_message : database := (sql_call (quiet 0) (PgOutbox.Enqueue pg_message) empty_database).2.

Lemma one_message_ok : PgOutbox.outbox_ok one_message.
Proof.
  destruct (PgOutbox.enqueue_as_memory (quiet 0) pg_message empty_database (calm_no_outage _ _) outbox_ok_empty)
    as (db' & H & Hok & _).
  unfold one_message. by rewrite H.
Qed.

(** The message is pulled; it is not enqueued again. *)
Lemma postgres_outbox_as_memory_witness :
  PgOutbox.as_memory (sql_call odd_clock (PgOutbox.PullPending 10) one_message)
    (MemoryOutbox.PullPending 0 (pg_now + 3 * Minute) 10 (PgOutbox.records_of one_message)) /\
  (MemoryOutbox.PullPending 0 (pg_now + 3 * Minute) 10 (PgOutbox.records_of one_message)).1 = Ok [pg_message] /\
  PgOutbox.as_memory (sql_call odd_clock (PgOutbox.Enqueue (MkOutboxMessage "" "order" "o2" "created" "{}")) one_message)
    (MemoryOutbox.Enqueue "uuid" (pg_now + 3 * Minute) (MkOutboxMessage "" "order" "o2" "created" "{}")
       (PgOutbox.records_of one_message)) /\
  (exists e, sql_call odd_clock (PgOutbox.Enqueue pg_message) one_message = (Err e, one_message)) /\
  PgOutbox.as_memory (sql_call odd_clock (PgOutbox.markStatus "m1" "sent") one_message)
    (MemoryOutbox.mark "sent" (pg_now + 3 * Minute) "m1" (PgOutbox.records_of one_message)).
Proof.
  destruct (PgOutbox.postgres_outbox_as_memory (pg := pg_C) (H := reference_runtime_laws) odd_clock one_message
    (calm_no_outage _ _) one_message_ok eq_refl) as (Hpull & Henqueue & Hmark).
  split; [exact (Hpull 0%nat 10)|]. split; [vm_compute; reflexivity|].
  split; [exact (Henqueue (MkOutboxMessage "" "order" "o2" "created" "{}"))|].
  split; [exact (Henqueue pg_message)|].
  apply (proj1 (Hmark "m1" "sent")). intros r Hr. vm_compute in Hr. injection Hr as <-. reflexivity.
Defined.

(** ** Idempotency keys *)

Lemma columns_ok_empty : PgIdempotency.columns_ok empty_database.
Proof. split; [split|]; intros k r H; simpl in H; by apply lookup_empty_Some in H. Qed.

(** A claimed key, of a clock that is off the microseconds. *)
Definition one_key : database := (sql_call odd_clock (PgIdempotency.CreateProcessing "k" "h" 0) empty_database).2.

Lemma one_key_ok : PgIdempotency.columns_ok one_key.
Proof.
  destruct (PgIdempotency.create_as_memory odd_clock "k" "h" 0 empty_database (calm_no_outage _ _) columns_ok_empty)
    as (db' & H & Hok & _).
  unfold one_key. by rewrite H.
Qed.

(** The key is not claimed again; it is marked, and deleted after a day. *)
Lemma postgres_idempotency_as_memory_witness :
  let records := PgIdempotency.items_of one_key in
  let now := pg_now + 3 * Minute + 7 in
  PgIdempotency.as_memory (sql_call odd_clock (PgIdempotency.CreateProcessing "k" "other" 0) one_key)
    (MemoryIdempotency.CreateProcessing now "k" "other" 0 records) /\
  (MemoryIdempotency.CreateProcessing now "k" "other" 0 records).1.2 = Some ErrIdempotencyHashMismatch /\
  PgIdempotency.as_memory (sql_call odd_clock (PgIdempotency.MarkDone "k" "{}" 200) one_key)
    (MemoryIdempotency.MarkDone now "k" "{}" 200 records) /\
  (exists n db', sql_call odd_clock (PgIdempotency.DeleteExpired (now + 25 * Hour) 10) one_key = (Ok n, db') /\ n = 1).
Proof.
  destruct (PgIdempotency.postgres_idempotency_as_memory (pg := pg_C) odd_clock one_key (calm_no_outage _ _) one_key_ok)
    as (Hcreate & _ & Hmark & _ & Hdelete).
  split; [exact (Hcreate "k" "other" 0)|]. split; [vm_compute; reflexivity|].
  split; [exact (proj1 (Hmark "k" "{}" 200 eq_refl))|].
  destruct (Hdelete (pg_now + 3 * Minute + 7 + 25 * Hour) 10) as (n & db' & H & _ & (_ & _ & Hn)).
  exists n, db'. split; [exact H|]. rewrite Hn. vm_compute. reflexivity.
Defined.

(** ** Couriers *)

Lemma postgres_couriers_invariant_witness :
  couriers_ok (pl_db (pool_exec quiet [0; 1; 0; 1; 1]%nat
    (connect (empty_courier_database pg_now)
       (map client [[CallCreate (pg_courier "alpha" 1)]; [CallCreate (pg_courier "beta" 1); join_zone "beta"]])))).
Proof. apply (postgres_couriers_invariant quiet). apply couriers_ok_empty. Defined.

Lemma empty_within_capacity : within_capacity (empty_courier_database pg_now).
Proof. split; [intros c z r H; simpl in H; by apply lookup_empty_Some in H|]. intros z. by vm_compute. Qed.

Lemma zone_capacity_needs_turns_witness :
  within_capacity (calls_in_turn quiet [join_zone "alpha"] (empty_courier_database pg_now)).
Proof.
  exact (proj1 (zone_capacity_needs_turns quiet [join_zone "alpha"] (empty_courier_database pg_now) empty_within_capacity)).
Defined.

(** ** Migrations *)

Lemma fresh_consistent : consistent ddl_script [] repository_migrations fresh_database.
Proof. exists 0%nat. exact fresh_step. Qed.

(** The scripts of the repository: two steps up, and a rollback. *)
Definition two_up : migration_db (S := list table) :=
  (sql_call (quiet 0) (migrate ddl_script embedded migrationUp 2) fresh_database).2.

Lemma migrations_consistent_witness :
  consistent ddl_script [] repository_migrations two_up /\
  consistent ddl_script [] repository_migrations
    (sql_call (quiet 0) (migrate ddl_script embedded migrationDown 1) two_up).2.
Proof.
  assert (consistent ddl_script [] repository_migrations two_up) as H.
  { exact (proj1 (migrations_consistent ddl_script [] embedded repository_migrations (quiet 0) migrationUp 2 fresh_database)
      embedded_loads (fun _ => repository_reversible) fresh_consistent). }
  split; [exact H|].
  exact (proj1 (migrations_consistent ddl_script [] embedded repository_migrations (quiet 0) migrationDown 1 two_up)
    embedded_loads (fun _ => repository_reversible) H).
Defined.

Lemma migrate_up_down_witness :
  (sql_call (quiet 0) (MigrateUp ddl_script embedded 0) fresh_database).1 = None.
Proof.
  exact (proj1 (migrate_up_down ddl_script [] embedded repository_migrations (quiet 0) (quiet 0) 0 fresh_database
    (calm_no_outage _ _) (calm_no_outage _ _) embedded_loads repository_reversible repository_runs fresh_step)).
Defined.

(** ** Concurrent calls *)

(** The tables with one order, and two saves made from it that overlap. *)
Definition created_pool : pool database (option err) :=
  pool_exec quiet [0; 0; 0; 0; 0]%nat (connect empty_database (map store_perform [StoreCreate pg_order])).

Lemma created_ok : store_ok (pl_db created_pool).
Proof.
  exact (proj1 (pool_end false quiet [0; 0; 0; 0; 0]%nat empty_database [StoreCreate pg_order] store_ok_empty
    ltac:(discriminate))).
Qed.

Definition two_saves : list store_call := [StoreSave pg_order; StoreSave pg_order].

Definition saves_schedule : list nat := [0; 1; 1; 0; 0; 1; 0; 1; 1; 0; 1; 0; 1]%nat.

Abbreviation saved_pool :=
  (pool_exec quiet saves_schedule (connect (pl_db created_pool) (map store_perform two_saves))).

Lemma returned_here {DB R} (p : pool DB R) i r :
  (match pl_conns p !! i with Some (MkConn (Ret r') _ _) => Some r' | _ => None end) = Some r -> returned p i r.
Proof.
  intros H. destruct (pl_conns p !! i) as [[[r'|] tx n]|] eqn:E; try discriminate. injection H as ->.
  eexists. split; [exact E|reflexivity].
Qed.

Lemma second_saved : returned saved_pool 1%nat None.
Proof. apply returned_here. vm_compute. reflexivity. Qed.

Lemma first_refused : returned saved_pool 0%nat (Some ErrOrderVersionConflict).
Proof. apply returned_here. vm_compute. reflexivity. Qed.

Lemma created_row : tb_orders (pl_db created_pool) !! "o1" = Some (new_row pg_order).
Proof. vm_compute. reflexivity. Qed.

Lemma saved_row_version : option_map or_version (tb_orders (pl_db saved_pool) !! "o1") = Some 1.
Proof. vm_compute. reflexivity. Qed.

(** The second one wins: the version has grown by one. *)
Lemma postgres_saves_once_witness : exists r took,
  tb_orders (pl_db saved_pool) !! "o1" = Some r /\ or_version r = 0 + Z.of_nat (length took) /\ took = [1%nat].
Proof.
  destruct (postgres_saves_once (pg := pg_C) quiet saves_schedule (pl_db created_pool) two_saves created_ok)
    as (_ & _ & H & _).
  destruct (H "o1" (new_row pg_order) created_row) as (r & took & Hr & Hv & Hnd & Hin & Hall).
  exists r, took. split; [exact Hr|]. split; [exact Hv|].
  assert (1%nat ∈ took) as H1 by exact (Hall 1%nat pg_order eq_refl eq_refl second_saved).
  pose proof saved_row_version as Hr1. rewrite Hr in Hr1. injection Hr1 as Hr1.
  rewrite Hr1 in Hv. destruct took as [|i [|j l]]; simpl in Hv; [lia| |lia].
  apply list_elem_of_singleton in H1. by subst i.
Defined.

Definition two_claims : list store_call := [StoreClaim "k1" "h" 0; StoreClaim "k2" "h" 0].

Lemma postgres_key_claimed_once_witness : TrimSpace "k1" <> TrimSpace "k2".
Proof.
  apply (postgres_key_claimed_once quiet [0; 1; 1; 0; 0; 1]%nat empty_database two_claims 0 1 "k1" "h" 0 "k2" "h" 0
    store_ok_empty); [|done|reflexivity|reflexivity|..].
  - intros t n H. unfold two_claims in H. set_solver.
  - eexists. split; vm_compute; reflexivity.
  - eexists. split; vm_compute; reflexivity.
Defined.
