(* ===== verification/ToolWitnesses.v ===== *)
(** * The load generator, metrics and the Kafka consumer at concrete inputs

    An executable scheduler of the runs of LoadTest and the theorems of
    LoadReport on a run of three scenarios and two workers, the second of which
    fails; a registry of metrics that satisfies the laws; a consumer that is
    stopped. *)

From stdpp Require Import pretty.
From stdpp Require Import relations.
From S2P Require Import Prelude GoLib Float64 Domain Prog Ports Metrics KafkaLifecycle OrderService OrderServiceSpec Config Health LoadTest LoadReport FilePath.

(** ** A scheduler *)

Inductive load_action : Type :=
| DoSend
| DoClose
| DoTake (w : nat)
| DoExit (w : nat)
| DoAct (w : nat)
| DoFinish (w : nat).

Section Scheduler.
Context (code_string : Z -> string) (cfg : config) (runID : string) (answer : forall X, load_port X -> X).

Definition load_do (a : load_action) (s : load_state) : option load_state :=
  match a with
  | DoSend =>
      if negb (ld_closed s) && may_send cfg (ld_next s) && (length (ld_jobs s) <? capacity cfg)%nat
      then Some (MkLoadState (S (ld_next s)) (ld_jobs s ++ [ld_next s]) false (ld_workers s) (ld_col s)
                   (ld_failures s) (ld_done s) (ld_log s))
      else None
  | DoClose =>
      if negb (ld_closed s) && may_end cfg (ld_next s)
      then Some (MkLoadState (ld_next s) (ld_jobs s) true (ld_workers s) (ld_col s) (ld_failures s) (ld_done s) (ld_log s))
      else None
  | DoTake w =>
      match ld_workers s !! w, ld_jobs s with
      | Some Waiting, id :: rest =>
          Some (MkLoadState (ld_next s) rest (ld_closed s)
            (<[w := Working id (runScenario cfg runID (Z.of_nat id))]> (ld_workers s)) (ld_col s) (ld_failures s)
            (ld_done s) (ld_log s))
      | _, _ => None
      end
  | DoExit w =>
      match ld_workers s !! w, ld_jobs s, ld_closed s with
      | Some Waiting, [], true => Some (set_worker w Exited s)
      | _, _, _ => None
      end
  | DoAct w =>
      match ld_workers s !! w with
      | Some (Working id (Vis c k)) => Some (set_worker w (Working id (k (answer _ c))) (load_effect code_string id c s))
      | _ => None
      end
  | DoFinish w =>
      match ld_workers s !! w with
      | Some (Working id (Ret e)) =>
          Some (MkLoadState (ld_next s) (ld_jobs s) (ld_closed s) (<[w := Waiting]> (ld_workers s)) (ld_col s)
            (match e with Some _ => wrap64 (ld_failures s + 1) | None => ld_failures s end) (ld_done s ++ [(id, e)]) (ld_log s))
      | _ => None
      end
  end.

Lemma load_do_step a s s' : load_do a s = Some s' -> load_step code_string cfg runID s s'.
Proof.
  destruct a as [| |w|w|w|w]; simpl.
  - destruct (ld_closed s) eqn:Hc; [done|]. destruct (may_send cfg _) eqn:Hm; [|done].
    destruct (Nat.ltb_spec (length (ld_jobs s)) (capacity cfg)); [|done]. intros [= <-]. by constructor.
  - destruct (ld_closed s) eqn:Hc; [done|]. destruct (may_end cfg _) eqn:Hm; [|done]. intros [= <-]. by constructor.
  - destruct (ld_workers s !! w) as [[]|] eqn:Hw; try done. destruct (ld_jobs s) eqn:Hj; [done|].
    intros [= <-]. by constructor.
  - destruct (ld_workers s !! w) as [[]|] eqn:Hw; try done. destruct (ld_jobs s) eqn:Hj; [|done].
    destruct (ld_closed s) eqn:Hc; [|done]. intros [= <-]. by constructor.
  - destruct (ld_workers s !! w) as [[|id []|]|] eqn:Hw; try done. intros [= <-]. by econstructor.
  - destruct (ld_workers s !! w) as [[|id []|]|] eqn:Hw; try done. intros [= <-]. by constructor.
Qed.

Fixpoint load_do_all (actions : list load_action) (s : load_state) : option load_state :=
  match actions with [] => Some s | a :: rest => s' ← load_do a s; load_do_all rest s' end.

Lemma load_do_all_run actions : forall s s', load_run code_string cfg runID s -> load_do_all actions s = Some s' ->
  load_run code_string cfg runID s'.
Proof.
  induction actions as [|a actions IH]; intros s s' Hs; simpl; [by intros [= <-]|].
  destruct (load_do a s) as [s1|] eqn:E; [|done]. apply IH. eapply load_run_step; [done|]. by eapply load_do_step.
Qed.
End Scheduler.

(** ** A run *)

Definition demo_flags : flags :=
  MkFlags "localhost:50051" 3 true "0s" 2 1 "5s" "create-pay" 0 "USD" "SKU-LOAD" 1000 "load" "".

Definition demo_config : config :=
  MkLoadConfig "localhost:50051" 3 true 0 2 1 (5 * Second) modeCreatePay 0 "USD" "SKU-LOAD" 1000 "load" "".

(** The service refuses the second scenario's order. *)
Definition demo_answer X (c : load_port X) : X :=
  match c in load_port X return X with
  | LoadNow => 0
  | RpcCreateOrder _ key _ => if key =s? "lt-create-run-1" then ("", Some 14%positive) else ("order", None)
  | RpcPayOrder _ _ _ => None
  | RpcCancelOrder _ _ _ => None
  | ColRecord _ _ _ => tt
  end.

Definition demo_actions : list load_action :=
  [DoSend; DoTake 0; DoSend; DoTake 1] ++ replicate 7 (DoAct 1) ++ replicate 11 (DoAct 0) ++ [DoFinish 1; DoSend; DoClose; DoTake 1; DoFinish 0; DoExit 0] ++
  replicate 11 (DoAct 1) ++ [DoFinish 1; DoExit 1].

Definition demo_end : load_state :=
  default (load_start demo_config) (load_do_all pretty demo_config "run" demo_answer demo_actions (load_start demo_config)).

Example demo_done : ld_done demo_end = [(1%nat, Some (RpcError 14%positive)); (0%nat, None); (2%nat, None)].
Proof. vm_compute. reflexivity. Qed.

Lemma demo_parse : parseConfig demo_flags = Ok demo_config.
Proof. vm_compute. reflexivity. Qed.

Lemma demo_run : load_run pretty demo_config "run" demo_end.
Proof. eapply (load_do_all_run _ _ _ demo_answer demo_actions); [constructor|]. vm_compute. reflexivity. Qed.

Lemma demo_finished : finished demo_end.
Proof. unfold finished. vm_compute. by repeat constructor. Qed.

Lemma demo_log_short : Z.of_nat (length (ld_log demo_end)) < 2 ^ 53.
Proof. vm_compute. reflexivity. Qed.


Lemma load_run_ends_witness :
  (forall s, load_run pretty demo_config "run" s -> finished s \/ exists s', load_step pretty demo_config "run" s s') /\
  (forall n s, load_steps pretty demo_config "run" n s -> Z.of_nat n <= 57).
Proof.
  destruct (load_run_ends pretty demo_config "run" demo_flags demo_parse) as [Hp He]. split; [exact Hp|].
  exact (He eq_refl).
Defined.

Lemma load_requests_fresh_witness : request_ok (createReq demo_config "run" 7) = true.
Proof.
  apply (fun H => proj1 (load_requests_fresh demo_flags demo_config "run" demo_parse H) 7).
  vm_compute. split; discriminate.
Defined.

Lemma report_path_inside_witness : exists names, names <> [] /\
  resolve [list_ascii_of_string "work"] "out/../reports//load.json" = names ++ [list_ascii_of_string "work"].
Proof.
  destruct (report_path_inside [list_ascii_of_string "work"] "out/../reports//load.json" "reports/load.json")
    as (names & Hne & _ & _ & H); [vm_compute; reflexivity..|].
  exists names. split; [exact Hne|exact H].
Defined.

(** ** Metrics *)

(** A registry by name. *)
#[local] Instance map_registerer : Registerer (gmap string Metrics.collector) := {
  Register := fun c reg =>
    match reg !! opt_Name (col_opts c) with
    | None => (Registered, <[opt_Name (col_opts c) := c]> reg)
    | Some old => (if decide (col_opts old = col_opts c) then AlreadyRegistered old
                   else RegisterFailed (ErrOther "inconsistent label names or help string"), reg)
    end;
  collectors := fun reg => reg;
}.

#[local] Instance map_registerer_laws : RegistererLaws (gmap string Metrics.collector).
Proof.
  split.
  - intros c reg E. simpl in E. simpl. by rewrite E.
  - intros c old reg E. simpl in E. simpl. rewrite E. split; [done|]. simpl. case_decide; [done|by eexists].
Qed.

Lemma saga_metrics_shared_witness :
  exists m reg' n', newSagaMetricsWithRegisterer (∅ : gmap string Metrics.collector, 0%nat) = Some (m, (reg', n')) /\
    NoDup (fields m) /\
    value_of (activeSagas m) (flat_map (record_saga m) [RecordSagaStarted; RecordSagaStarted; RecordSagaInFlightFinished]) = 1.
Proof.
  destruct (newSagaMetricsWithRegisterer (∅ : gmap string Metrics.collector, 0%nat)) as [[m [reg' n']]|] eqn:E.
  - destruct (saga_metrics_shared (∅ : gmap string Metrics.collector) 0) as [_ H].
    destruct (H m reg' n' E) as (Hnd & _ & Hg). exists m, reg', n'. split; [reflexivity|]. split; [exact Hnd|].
    rewrite Hg. reflexivity.
  - exfalso. vm_compute in E. discriminate E.
Defined.

(** ** The Kafka consumer *)

(** Stopped, and then its context is cancelled. *)
Definition stopping : consumer_life := MkConsumerLife true true InConsume true InWait.

Lemma stopping_lives : lives stopping.
Proof.
  eapply lives_step; [eapply lives_step; [apply lives_start|]|].
  - by apply close_succeeds.
  - apply (ctx_cancel (MkConsumerLife false true InConsume true InWait)).
Qed.

Lemma consumer_stop_witness : exists n s', (n <= 4)%nat /\ nsteps own_step n stopping s' /\ life_stop s' = StopReturned None.
Proof. exact (proj2 (consumer_stop stopping stopping_lives) eq_refl eq_refl). Defined.
